(* ===== verification/_CoqProject ===== *)
-Q . S2P
Prelude.v
Turns.v
Text.v
Fsutil.v
Crypto.v
Authority.v
Replay.v
Store.v
StoreMerge.v
StoreOps.v
Types.v
StateMachine.v
PolicyProps.v
PolicyRefine.v
RaftStorage.v
StorageProps.v
Transport.v
AdminV2.v
Config.v
PathProps.v
Log.v
LogProps.v
LogFile.v
LogExamples.v
Backup.v
BackupProps.v
Join.v
Seed.v
Protocol.v
Admin.v
Replicate.v
PasswordJoin.v
Context.v
Publisher.v
PublisherProps.v
PublishTurns.v
PublishTurnsProps.v
PublishRely.v
PublishBureau.v
PublishExamples.v
Sync.v
Service.v
ServiceProps.v
Runtime.v
Members.v
Process.v
Connection.v
ConnectionProps.v
RuntimeProps.v
SidecarProps.v
ProcessProps.v
StartProps.v
Serve.v
ServeProps.v
RuntimeExamples.v
Ctl.v
CtlKeys.v
CtlProps.v
EndToEnd.v
Forward.v
CtlNode.v
CtlExamples.v
Trail.v
TrailProps.v
