(* ===== verification/Prelude.v ===== *)
(** * NexusAuth

    NexusAuth is a sidecar that administers the members of the services of a
    peer-to-peer network.  It keeps, per service, a list of admitted peers, signs
    that list (a whitelist) and an index of all whitelists with the authority key of
    the network, and publishes the signed records through the nodes it is connected
    to.  It runs in one of two modes.  Without a cluster each sidecar has a store of
    its own, changed by requests authenticated with a shared password and replicated
    by broadcast and anti-entropy.  With a cluster the policy is a state machine
    replicated by Raft, changed by requests signed by administrators; nodes join with
    signed tokens, and the authority seed is handed over encrypted.

    This library models the program in Rocq: pure functions as functions, stateful
    ones in the state and error monad [ST] below, with the names of the source.

    ** Files and what they model (paths under [src/src/])

    - [Prelude]: results, the monad [ST], machine integers, strings as bytes, ordered
      keys of maps and sets, and the interface [Codec] of the serialisers.
    - [Text]: what the components use of [str] and [env] in the Standard Library.
    - [Fsutil] ([fsutil.rs]): a file system with injected faults; [atomic_write].
    - [Crypto]: the interface of the cryptographic primitives and of the name checks
      of the network library, with its laws; [Toy] is an instance for examples.
    - [Authority] ([authority.rs]): record keys, key files, signed records.
    - [Replay] ([replay.rs]): the window of used nonces.
    - [Store], [StoreMerge], [StoreOps] ([store.rs]): the store of the mode without a
      cluster: its operations, the merge of replicated changes, persistence.
    - [Types], [StateMachine] ([raft/types.rs], [raft/state_machine.rs]): the policy
      and its commands; [PolicyProps] and [PolicyRefine] are their theorems.
    - [RaftStorage] ([raft/storage.rs]): log and state over a transactional database
      with injected faults; theorems in [StorageProps].
    - [Transport] ([raft/transport.rs]): signed requests and replies between members.
    - [AdminV2] ([admin_v2.rs], the key entries of [config.rs]): signed administrator
      requests.
    - [Join] ([raft/token.rs], [raft/join.rs]): join tokens and join requests.
    - [Seed] ([raft/seed.rs]): sealing, opening, acknowledging and dropping the seed.
    - [Protocol] ([protocol.rs]): messages and frames between sidecar and node.
    - [Admin] ([admin.rs]): management requests authenticated with the password.
    - [Replicate], [Sync] ([replicate.rs]): messages between sidecars and their
      authentication; broadcast and anti-entropy.
    - [Context] ([context.rs], handle of [publisher.rs], trait of [admin_v2.rs]): the
      state of a sidecar, and the interfaces [Clock], [AdminRaft], [BackendClient] to
      its environment.
    - [Publisher] ([publisher.rs]): rounds of publication; theorems in
      [PublisherProps].  [Turns] has functions that wait and their interleaving;
      [PublishTurns] takes the rounds apart at their waits and puts the loop of [run],
      the calls of [publish_now], the publish lock and the connections that come and
      go together; theorems in [PublishTurnsProps] (a round alone), [PublishRely] (a
      round among others), [PublishBureau] (all tasks), runs in [PublishExamples].
    - [Config] ([config.rs], [paths.rs], [security.rs]): the configuration file, the
      locations of the files, the audit of their permissions, with their theorems;
      [PathProps]: paths that are put together as texts.
    - [Log] ([log.rs]): the texts of an entry, the streams, the file and the thread
      that puts it away, as turns that are interleaved; theorems in [LogProps] and
      [LogFile], runs to look at in [LogExamples].
    - [Backup] ([backup.rs]): copies of the files of a sidecar, with a manifest;
      theorems in [BackupProps].
    - [PasswordJoin] ([join.rs]): the messages and the server of the password-based
      joining; its client is in [Process].
    - [Service] ([service.rs], the membership view of [raft/mod.rs]): the dispatch of
      a request and its handlers; theorems in [ServiceProps].  [Trail] has the
      handlers of administrator requests with the audit lines they write; theorems
      and examples in [TrailProps].
    - [Runtime] ([raft/mod.rs], [raft/network.rs], [raft/bootstrap.rs]): the Raft
      runtime over the consensus library: start, bootstrap, joining, membership
      changes, hand-over of the leadership, seed exchange, the signed RPC.
    - [Members] ([service.rs], [raft/mod.rs]): the runtime behind the interfaces the
      handlers use, the handlers of seed exchange, joining and member operations, and
      the whole dispatch; theorems in [RuntimeProps], [SidecarProps] and
      [StartProps], with a small cluster to try them on in [RuntimeExamples].
    - [Process] ([main.rs], [runtime.rs], the client of [join.rs]): how a sidecar gets
      its context and starts its runtime; theorems in [ProcessProps].
    - [Serve] ([main.rs], the warnings of [security.rs]): the whole start, the loop
      that waits for connections and signals, the watchdog; theorems in [ServeProps].
    - [Connection] ([connection.rs]): the calls, the read loop, the requests and the
      main task of a connection, as turns that the executor interleaves; theorems in
      [ConnectionProps].
    - [Ctl] ([ctl.rs]): the administration tool: its command line, keys and backups,
      the requests it signs, its calls of a server, its output.  Its state is the
      disk, the world, what it has sent and printed.  Theorems in [CtlProps], for
      [keygen] in [CtlKeys], and in [CtlNode] for what a sidecar makes of the tool's
      connection; runs to look at in [CtlExamples].
    - [EndToEnd]: the tool of [Ctl], the handlers of [Service] and the policy of
      [StateMachine] put together; [Forward]: two members, one of which passes a
      command on to the other.

    State that the source guards with a lock is a component of the state that is
    passed on; an operation under a lock is one step.  Calls on the environment take
    and return a world of an arbitrary type, so that anything may happen between two
    calls: leadership is lost, the policy advances, a node fails after it has acted.

    ** What the theorems show

    - The policy ([PolicyProps], [PolicyRefine]): the invariant of the state machine
      after any log; a repeated request gets its first answer and changes nothing
      more; a join token is used at most as often as it allows; a rejected command
      changes nothing; an epoch names one policy; and each policy command does what
      the same operation of the store does.
    - The tool ([CtlProps], [CtlKeys]): the command line is read as its grammar says;
      a run sends nothing but its own operation, signed; what it signs a sidecar
      accepts, and applies once however often it is sent; the keys it makes are
      usable, the tokens it issues valid; a call ends when a frame decides it.
    - From the tool to the policy ([EndToEnd], [Forward]): the leader proposes the
      change the administrator asked for, and the tool prints what the state machine
      answered; a member that does not lead answers as the leader would.
    - The log ([LogProps], [LogFile]): the flag of the roll is a lock that is given
      back; no line is lost while the log is put away; under a journal an entry is a
      line.
    - The process ([ServeProps]): a sidecar that is not ready in time is stopped.
    - Persistence ([StorageProps], [StoreOps], [Fsutil], [Authority]): whatever call
      fails, memory is what a restart reads; a batch is applied whole or not at all;
      the log store implements a partial map from indices to entries; a saved store
      or key is read back.
    - Replication ([StoreMerge], [Replicate]): stores that received the same changes,
      in any order and any number of times, agree; so do stores that exchanged
      snapshots; an accepted change was authenticated by a holder of the password.
    - Authentication ([Transport], [AdminV2], [Join], [Seed], [Admin], [Replay]):
      for each kind of message, what is accepted was signed over exactly its fields,
      recently and once, and what an honest sender signs is accepted.
    - Publication ([PublisherProps], [PublishBureau], [PublishTurnsProps]): whatever
      runs in between, there is one round at a time, and an index is handed out only
      after every connection that has been there since the round began has taken the
      whitelists it names; a connection that registers at any moment is served by a
      round of its own; the published epoch never decreases; a reported success is
      visible to those connections.  A round alone is the function [publish_once].
    - Requests ([ServiceProps], [SidecarProps]): in cluster mode every proposed
      command goes back to a signature of a root key; the authority key in memory
      and the key file change together, on the word of the leader; nobody is made a
      voter before it has the seed.
    - The audit trail ([TrailProps]): logging changes nothing; each request leaves one
      line, which says what was answered, with the exceptions the theorem names; and
      anyone can leave a line that reads like another ([audit_line_forged]).
    - The cluster ([RuntimeProps], [StartProps]): only members drive a node's Raft,
      and a call over the network is a call of the other member's library; one member
      changes at a time and never the last voter; a removed member is locked out; the
      hand-over of the leadership ends; a node with a bad configuration does not
      start, and a cluster is founded once.
    - Joining and starting ([PasswordJoin], [ProcessProps]): joining with the
      password is a round trip between holders of the password, and ends; however a
      sidecar starts, the key in memory is the one on disk.
    - The connection ([ConnectionProps]): under every interleaving a call returns
      with its own reply or in time with an error, and the table of pending calls
      holds nothing else; each request of the node is answered at most once.
    - The configuration ([Config]): loading never loses the file; the search for a
      backup name ends; the audit reports exactly the exposed files.
    - Backups ([BackupProps]): a backup holds what its manifest lists, byte for byte,
      and changes nothing else; it ends unless it is put into what it copies.
    - Behaviour one would not expect, proved as such: [recreated_service_is_lost],
      [failed_write_keeps_memory], [none_is_not_read_back],
      [reply_body_can_be_truncated], [ack_accepted_by_any_node],
      [refused_record_counts_as_published], [member_operations_unreachable],
      [edge_token_refused_by_leader], [own_vote_not_given_up],
      [lost_connection_not_reported], [unnamed_network_is_served],
      [copy_into_itself], [tmp_file_lost_in_copy],
      [tool_connection_blocks_publication], [stale_tmp_is_overwritten],
      [accept_error_deafens], [published_to_nobody]; and, within other theorems, the time limit that starts
      anew with every frame ([call_ends_when_decided]) and the key without an id
      ([keygen_makes_usable_keys]).

    ** Bounds and fuel

    64-bit counters are [N] with the overflow of the source written out: saturating
    ([sat_add64]) or wrapping ([wrap_add64]).  Loops are structural in a list
    or in a counter of attempts of the source, but for these, which have fuel:
    [evict_oldest], whose fuel is the number of entries, of which each turn removes
    one ([policy_invariant] shows that it reaches the limit); [find_backup], whose
    fuel is one more than the number of files ([backup_search_terminates]; the
    counter is 32 bits wide in the source); [await_leader], 81 turns of 100 ms for a
    limit of 8 s ([leader_transfer_terminates]); and [join_loop], one turn more than
    the seconds of the limit, since a turn takes a second at least
    ([joining_ends]); and [copy_dir_all] and [collect_files], as many turns as the
    longest path of a directory has components ([backup_ends_unless_nested]).  The
    loop in which the tool waits for its reply need not end: [read_reply] has the
    number of frames it reads as its fuel, and [call_ends_when_decided] says for every
    such number what it gives and when it is not enough.  A thread of the log takes at
    most fourteen turns ([roll_flag_is_a_lock]).
    Durations are milliseconds in [N], and the sum of an instant
    and a duration does not overflow.

    ** Parameters

    Code outside the repository is a parameter with laws as classes: the primitives
    ([Crypto], [CryptoLaws]: signatures verify, base64 decodes what it encodes,
    decryption inverts encryption, names have no separators), COSE ([Coset]), the
    serialisers ([Codec], [CodecLaws], [EncodeInj], [TextLaws]), the node and the
    network ([BackendClient], [DhtLaws], [NodeReports]), the consensus library
    ([RaftTypes], [RaftCore], with [EventLog] to see what it is asked for), clocks
    and random bytes ([Clock], [Timer], [Rng], [TimerLaws], [PassingTime]), the
    database of [RaftStorage], the servers the tool connects to ([Network]: the frames
    they send and the time these take), compression and colours of the log, texts of
    UUIDs and of pretty-printed JSON.  No law
    says that signatures cannot be forged: theorems say that a key verified exactly
    these bytes, and that no other fields give them.  Each law has an instance in the
    examples.

    ** What is not modelled, and what comes next

    Which entries the components log, but for the audit trail (the log itself is
    modelled; the lines of the member operations are left out, no request reaches
    them), poisoned locks, a standard output that is closed, the spawning of
    background tasks (the loops of publisher and replication are modelled by their
    turns), the bytes of sockets below the frames.  Tasks are interleaved in
    [Connection], [Log], [PublishTurns] and [Serve]; elsewhere an operation under a
    lock is one step.  The accessors of [ConfigHandle] and of [RaftRuntime] are fields
    of the records.  [EndToEnd] follows a command that is answered at the first
    attempt of the tool.  What could come next: a second attempt; the loop of
    [replicate.rs] under the events of [Serve], with the tasks of [PublishTurns]. *)
From Stdlib Require Export Ascii Bool.
From stdpp Require Export base numbers pretty sorting strings gmap list.

(** ** Results

    Rust's [Result<A, E>]; the error type comes first so that [result E] is the
    monad [?] works in. *)

Inductive result (E A : Type) : Type :=
  | Ok (a : A)
  | Err (e : E).
Global Arguments Ok {_ _} _.
Global Arguments Err {_ _} _.

Global Instance result_eq_dec {E A} `{EqDecision E, EqDecision A} : EqDecision (result E A).
Proof. solve_decision. Defined.

Global Instance result_ret {E} : MRet (result E) := λ _ a, Ok a.
Global Instance result_bind {E} : MBind (result E) := λ _ _ f r,
  match r with Ok a => f a | Err e => Err e end.
Global Instance result_fmap {E} : FMap (result E) := λ _ _ f r,
  match r with Ok a => Ok (f a) | Err e => Err e end.

(** [Result::map_err], [Option::ok_or], [Result::ok], [Result::is_ok]. *)
Definition map_err {E F A} (f : E → F) (r : result E A) : result F A :=
  match r with Ok a => Ok a | Err e => Err (f e) end.

Definition ok_or {E A} (o : option A) (e : E) : result E A :=
  match o with Some a => Ok a | None => Err e end.

Definition result_ok {E A} (r : result E A) : option A :=
  match r with Ok a => Some a | Err _ => None end.

Definition is_ok {E A} (r : result E A) : bool :=
  match r with Ok _ => true | Err _ => false end.

Global Instance Ok_inj {E A} : Inj (=) (=) (@Ok E A).
Proof. by intros a b [=]. Qed.

Lemma bind_Ok {E A B} (f : A → result E B) (r : result E A) b :
  (r ≫= f) = Ok b ↔ ∃ a, r = Ok a ∧ f a = Ok b.
Proof. destruct r; simpl; naive_solver. Qed.

Lemma map_err_Ok {E F A} (f : E → F) (r : result E A) a :
  map_err f r = Ok a ↔ r = Ok a.
Proof. destruct r; simpl; naive_solver. Qed.

Lemma map_err_Err {E F A} (f : E → F) (r : result E A) e :
  map_err f r = Err e ↔ ∃ e0, r = Err e0 ∧ e = f e0.
Proof. destruct r; simpl; naive_solver. Qed.

Lemma ok_or_Ok {E A} (o : option A) (e : E) a : ok_or o e = Ok a ↔ o = Some a.
Proof. destruct o; simpl; naive_solver. Qed.

(** ** Machine integers

    [u64], [u32] and [u8] values are natural numbers; the arithmetic the code
    uses on them is written out. *)

Definition u64_max : N := 18446744073709551615.
Definition u32_max : N := 4294967295.

(** [u64::saturating_add], [u32::saturating_add]. *)
Definition sat_add64 (a b : N) : N := N.min (a + b) u64_max.
Definition sat_add32 (a b : N) : N := N.min (a + b) u32_max.
(** [u64::saturating_sub]: subtraction on [N] stops at zero. *)
Definition sat_sub (a b : N) : N := (a - b)%N.
(** [a += b] on [u64] in a release build: the sum wraps around. *)
Definition wrap_add64 (a b : N) : N := ((a + b) mod (u64_max + 1))%N.
(** [u64::abs_diff]. *)
Definition abs_diff (a b : N) : N := if (a <=? b)%N then (b - a)%N else (a - b)%N.

Lemma sat_add64_small a b : (a + b ≤ u64_max)%N → sat_add64 a b = (a + b)%N.
Proof. unfold sat_add64. lia. Qed.

Lemma sat_add64_ge a b : (a ≤ u64_max)%N → (a ≤ sat_add64 a b)%N.
Proof. unfold sat_add64. lia. Qed.

Lemma sat_add64_le a b : (sat_add64 a b ≤ u64_max)%N.
Proof. unfold sat_add64. lia. Qed.

Lemma wrap_add64_small a b : (a + b ≤ u64_max)%N → wrap_add64 a b = (a + b)%N.
Proof. intros. unfold wrap_add64. apply N.mod_small. lia. Qed.

Lemma abs_diff_le a b k : (abs_diff a b ≤ k)%N ↔ (a ≤ b + k ∧ b ≤ a + k)%N.
Proof. unfold abs_diff. destruct (N.leb_spec a b); lia. Qed.

(** ** Byte strings

    [String] and [Vec<u8>] are both byte strings: a Rust [String] is its UTF-8
    bytes, so [as_bytes] is the identity. *)

Definition str_len (s : string) : N := N.of_nat (String.length s).
Definition str_is_empty (s : string) : bool := bool_decide (s = "").

(** The separator the MAC and signature inputs use: [v.push(0)]. *)
Definition nul : string := String "000"%char EmptyString.

Lemma str_is_empty_true s : str_is_empty s = true ↔ s = "".
Proof. unfold str_is_empty. by rewrite bool_decide_eq_true. Qed.

Lemma str_is_empty_false s : str_is_empty s = false ↔ s ≠ "".
Proof. unfold str_is_empty. by rewrite bool_decide_eq_false. Qed.

Lemma string_app_assoc (s t u : string) : (s +:+ t) +:+ u = s +:+ (t +:+ u).
Proof. induction s; simpl; [done|]. unfold String.app in *. simpl. by f_equal. Qed.

Lemma string_app_nil_r (s : string) : s +:+ "" = s.
Proof. induction s; [done|]. unfold String.app in *. simpl. by f_equal. Qed.

Lemma string_length_app s t : String.length (s +:+ t) = String.length s + String.length t.
Proof. induction s; [done|]. unfold String.app in *. simpl. by f_equal. Qed.

Lemma string_app_nil_l (s : string) : "" +:+ s = s.
Proof. done. Qed.

Lemma string_app_cons c s t : String c s +:+ t = String c (s +:+ t).
Proof. done. Qed.

(** Two concatenations whose heads have the same length agree part by part. *)
Lemma string_app_inj_len s1 t1 s2 t2 :
  String.length s1 = String.length s2 → s1 +:+ t1 = s2 +:+ t2 → s1 = s2 ∧ t1 = t2.
Proof.
  revert s2. induction s1 as [|c s1 IH]; intros [|d s2]; simpl; intros Hl Heq; try lia; [done|].
  rewrite !string_app_cons in Heq. simplify_eq/=. destruct (IH s2) as [-> ->]; auto with lia.
Qed.

Lemma string_app_inj_len_r s1 t1 s2 t2 :
  String.length t1 = String.length t2 → s1 +:+ t1 = s2 +:+ t2 → s1 = s2 ∧ t1 = t2.
Proof.
  intros Hl Heq. apply string_app_inj_len; [|done].
  apply (f_equal String.length) in Heq. rewrite !string_length_app in Heq. lia.
Qed.

(** The bytes of a string, and strings free of one byte. *)
Fixpoint str_has (c : Ascii.ascii) (s : string) : bool :=
  match s with
  | EmptyString => false
  | String d s => bool_decide (c = d) || str_has c s
  end.

Lemma str_has_app c s t : str_has c (s +:+ t) = str_has c s || str_has c t.
Proof. induction s; [done|]. rewrite string_app_cons. simpl. rewrite IHs. apply orb_assoc. Qed.

(** A field that does not contain the separator can be read back from the front
    of a concatenation. *)
Lemma string_app_sep_inj c s1 t1 s2 t2 :
  str_has c s1 = false → str_has c s2 = false →
  s1 +:+ String c t1 = s2 +:+ String c t2 → s1 = s2 ∧ t1 = t2.
Proof.
  revert s2. induction s1 as [|d s1 IH]; intros [|e s2]; simpl; intros H1 H2 Heq;
    rewrite ?string_app_nil_l, ?string_app_cons in Heq; simplify_eq; [done|..].
  - exfalso. apply orb_false_iff in H2 as [H2 _]. by apply bool_decide_eq_false in H2.
  - exfalso. apply orb_false_iff in H1 as [H1 _]. by apply bool_decide_eq_false in H1.
  - apply orb_false_iff in H1 as [_ H1]. apply orb_false_iff in H2 as [_ H2].
    destruct (IH s2) as [-> ->]; auto.
Qed.

(** [uN::to_be_bytes] and [uN::from_be_bytes] on [k] bytes. *)
Fixpoint to_be_bytes (k : nat) (n : N) : string :=
  match k with
  | O => ""
  | S k => to_be_bytes k (n / 256) +:+ String (Ascii.ascii_of_N (n mod 256)) ""
  end.

Fixpoint from_be_bytes_acc (acc : N) (s : string) : N :=
  match s with
  | EmptyString => acc
  | String c s => from_be_bytes_acc (acc * 256 + Ascii.N_of_ascii c) s
  end.
Definition from_be_bytes : string → N := from_be_bytes_acc 0.

Lemma to_be_bytes_length k n : String.length (to_be_bytes k n) = k.
Proof. revert n. induction k; intros n; simpl; [done|]. rewrite string_length_app, IHk. simpl. lia. Qed.

Lemma from_be_bytes_acc_app acc s t :
  from_be_bytes_acc acc (s +:+ t) = from_be_bytes_acc (from_be_bytes_acc acc s) t.
Proof. revert acc. induction s; intros acc; [done|]. rewrite string_app_cons. simpl. apply IHs. Qed.

Lemma from_to_be_bytes k n : (n < 256 ^ N.of_nat k)%N → from_be_bytes (to_be_bytes k n) = n.
Proof.
  revert n. unfold from_be_bytes. induction k as [|k IH]; intros n Hn; simpl.
  { change (256 ^ N.of_nat 0)%N with 1%N in Hn. lia. }
  rewrite from_be_bytes_acc_app, IH; simpl.
  - rewrite Ascii.N_ascii_embedding by (apply N.mod_lt; lia).
    pose proof (N.div_mod n 256). lia.
  - apply N.Div0.div_lt_upper_bound.
    by rewrite Nat2N.inj_succ, N.pow_succ_r' in Hn.
Qed.

Lemma to_be_bytes_inj k a b :
  (a < 256 ^ N.of_nat k)%N → (b < 256 ^ N.of_nat k)%N →
  to_be_bytes k a = to_be_bytes k b → a = b.
Proof.
  intros Ha Hb Heq. rewrite <-(from_to_be_bytes k a), <-(from_to_be_bytes k b); [|done..].
  by rewrite Heq.
Qed.

Lemma to_be_bytes8_inj a b :
  (a ≤ u64_max)%N → (b ≤ u64_max)%N → to_be_bytes 8 a = to_be_bytes 8 b → a = b.
Proof. intros ??. apply to_be_bytes_inj; unfold u64_max in *; simpl; lia. Qed.

(** [str::trim().is_empty()]: every character is Unicode white space.  The
    patterns are the UTF-8 encodings of the [White_Space] code points. *)
Fixpoint trim_is_empty (s : string) : bool :=
  match s with
  | EmptyString => true
  | String "009"%char s | String "010"%char s | String "011"%char s | String "012"%char s
  | String "013"%char s | String " "%char s => trim_is_empty s
  | String "194"%char (String "133"%char s) | String "194"%char (String "160"%char s) => trim_is_empty s
  | String "225"%char (String "154"%char (String "128"%char s)) => trim_is_empty s
  | String "226"%char (String "128"%char (String c s)) =>
      let n := Ascii.N_of_ascii c in
      (((128 <=? n) && (n <=? 138))%N || (n =? 168)%N || (n =? 169)%N || (n =? 175)%N)
        && trim_is_empty s
  | String "226"%char (String "129"%char (String "159"%char s)) => trim_is_empty s
  | String "227"%char (String "128"%char (String "128"%char s)) => trim_is_empty s
  | _ => false
  end.

(** [str::from_utf8(..).is_ok()]: the byte sequences of the Unicode standard's
    table 3-7 (no overlong forms, no surrogates, nothing above U+10FFFF). *)
Definition byte_in (lo hi : N) (c : Ascii.ascii) : bool :=
  let n := Ascii.N_of_ascii c in (lo <=? n)%N && (n <=? hi)%N.

Fixpoint utf8_valid (s : string) : bool :=
  match s with
  | EmptyString => true
  | String a s1 =>
      if byte_in 0 127 a then utf8_valid s1
      else match s1 with
      | EmptyString => false
      | String b s2 =>
          if byte_in 194 223 a then byte_in 128 191 b && utf8_valid s2
          else match s2 with
          | EmptyString => false
          | String c s3 =>
              if byte_in 224 239 a then
                (if byte_in 224 224 a then byte_in 160 191 b
                 else if byte_in 237 237 a then byte_in 128 159 b else byte_in 128 191 b)
                && byte_in 128 191 c && utf8_valid s3
              else match s3 with
              | EmptyString => false
              | String d s4 =>
                  byte_in 240 244 a
                  && (if byte_in 240 240 a then byte_in 144 191 b
                      else if byte_in 244 244 a then byte_in 128 143 b else byte_in 128 191 b)
                  && byte_in 128 191 c && byte_in 128 191 d && utf8_valid s4
              end
          end
      end
  end.

(** [slice.join(sep)] and [concat]. *)
Fixpoint str_concat (l : list string) : string :=
  match l with [] => "" | s :: l => s +:+ str_concat l end.

Fixpoint str_join (sep : string) (l : list string) : string :=
  match l with
  | [] => ""
  | [s] => s
  | s :: l => s +:+ sep +:+ str_join sep l
  end.

(** ** Ordered traversal

    [BTreeMap] and [BTreeSet] are finite maps and sets that are traversed in key
    order; keys are strings (byte order) or node ids. *)

Section ordered.
Context {K : Type} (R : relation K) `{Countable K, !RelDecision R}.
Context `{!PartialOrder R, !Total R}.

Definition ord_elements (X : gset K) : list K := merge_sort R (elements X).
Definition ord_keys {A} (m : gmap K A) : list K := ord_elements (dom m).
Definition ord_entries {A} (m : gmap K A) : list (K * A) :=
  omap (λ k, pair k <$> m !! k) (ord_keys m).

Lemma elem_of_ord_elements (X : gset K) x : x ∈ ord_elements X ↔ x ∈ X.
Proof. unfold ord_elements. rewrite merge_sort_Permutation. apply elem_of_elements. Qed.

Lemma NoDup_ord_elements (X : gset K) : NoDup (ord_elements X).
Proof. unfold ord_elements. rewrite merge_sort_Permutation. apply NoDup_elements. Qed.

Lemma list_to_set_ord_elements (X : gset K) : list_to_set (ord_elements X) = X.
Proof. apply set_eq. intros x. by rewrite elem_of_list_to_set, elem_of_ord_elements. Qed.

Lemma ord_elements_sorted (X : gset K) : StronglySorted R (ord_elements X).
Proof. unfold ord_elements. apply StronglySorted_merge_sort; apply _. Qed.

Lemma ord_elements_inj (X Y : gset K) : ord_elements X = ord_elements Y → X = Y.
Proof. intros H'. by rewrite <-(list_to_set_ord_elements X), H', list_to_set_ord_elements. Qed.

Lemma elem_of_ord_keys {A} (m : gmap K A) k : k ∈ ord_keys m ↔ is_Some (m !! k).
Proof. unfold ord_keys. by rewrite elem_of_ord_elements, elem_of_dom. Qed.

Lemma elem_of_ord_entries {A} (m : gmap K A) k a :
  (k, a) ∈ ord_entries m ↔ m !! k = Some a.
Proof.
  unfold ord_entries. rewrite list_elem_of_omap. split.
  - intros (k' & _ & Hk). by destruct (m !! k') eqn:?; simplify_eq/=.
  - intros Hk. exists k. rewrite elem_of_ord_keys, Hk. eauto.
Qed.

Lemma ord_entries_fst {A} (m : gmap K A) : (ord_entries m).*1 = ord_keys m.
Proof.
  unfold ord_entries.
  assert (∀ l, (∀ k, k ∈ l → is_Some (m !! k)) →
    (omap (λ k, pair k <$> m !! k) l).*1 = l) as Hl.
  { induction l as [|k l IH]; intros Hin; [done|]. simpl.
    destruct (Hin k) as [a Ha]; [set_solver|]. rewrite Ha. simpl.
    f_equal. apply IH. set_solver. }
  apply Hl. intros k. by rewrite elem_of_ord_keys.
Qed.

Lemma NoDup_ord_entries_fst {A} (m : gmap K A) : NoDup (ord_entries m).*1.
Proof. rewrite ord_entries_fst. apply NoDup_ord_elements. Qed.
End ordered.

Abbreviation btree_set X := (ord_elements String.le X).
Abbreviation btree_keys m := (ord_keys String.le m).
Abbreviation btree_entries m := (ord_entries String.le m).

(** ** State with errors

    A Rust method on [&mut self] that returns a [Result]: the state after the call
    is there on the error path too, because nothing rolls it back. *)

Definition ST (S E A : Type) : Type := S → result E A * S.

Global Instance ST_ret {S E} : MRet (ST S E) := λ _ a s, (Ok a, s).
Global Instance ST_bind {S E} : MBind (ST S E) := λ _ _ f m s,
  match m s with
  | (Ok a, s') => f a s'
  | (Err e, s') => (Err e, s')
  end.

(** A call that cannot change the state, an early [return Err(e)], and a
    [map_err] on the result of a stateful call. *)
Definition st_lift {S E A} (r : result E A) : ST S E A := λ s, (r, s).
Definition st_err {S E A} (e : E) : ST S E A := λ s, (Err e, s).
Definition st_map_err {S E F A} (f : E → F) (m : ST S E A) : ST S F A := λ s,
  let '(r, s') := m s in (map_err f r, s').
Definition st_get {S E} : ST S E S := λ s, (Ok s, s).
Definition st_put {S E} (s' : S) : ST S E unit := λ _, (Ok (), s').

Lemma st_bind_Ok {S E A B} (m : ST S E A) (f : A → ST S E B) s b s'' :
  (m ≫= f) s = (Ok b, s'') ↔ ∃ a s', m s = (Ok a, s') ∧ f a s' = (Ok b, s'').
Proof.
  unfold mbind, ST_bind. destruct (m s) as [[a|e] s']; split; [eauto| |done|]; naive_solver.
Qed.

(** Any run: the first call failed, or the rest ran after it. *)
Lemma st_bind_run {S E A B} (m : ST S E A) (f : A → ST S E B) s r s'' :
  (m ≫= f) s = (r, s'') →
  (∃ a s', m s = (Ok a, s') ∧ f a s' = (r, s'')) ∨ (∃ e, m s = (Err e, s'') ∧ r = Err e).
Proof. unfold mbind, ST_bind. destruct (m s) as [[a|e] s']; [eauto|]. intros [= <- <-]. eauto. Qed.

Lemma st_lift_run {S E A B} (m : result E A) (f : A → ST S E B) s r s' :
  (st_lift m ≫= f) s = (r, s') →
  (∃ a, m = Ok a ∧ f a s = (r, s')) ∨ (∃ e, m = Err e ∧ r = Err e ∧ s' = s).
Proof. unfold mbind, ST_bind, st_lift. destruct m; [eauto|]. intros [= <- <-]. eauto. Qed.

Lemma st_map_err_run {S E F A} (f : E → F) (m : ST S E A) s r s' :
  st_map_err f m s = (r, s') → ∃ r0, m s = (r0, s') ∧ r = map_err f r0.
Proof. unfold st_map_err. destruct (m s) as [r0 s0]. intros [= <- <-]. eauto. Qed.

(** Take a successful run of a sequence of calls apart. *)
Ltac st_inv :=
  repeat match goal with
  | H : (mbind (M := ST _ _) _ _) _ = (Ok _, _) |- _ =>
      let a := fresh "a" in let s := fresh "s" in let H1 := fresh "Hrun" in
      apply st_bind_Ok in H as (a & s & H1 & H)
  | H : st_lift _ _ = (_, _) |- _ => unfold st_lift in H; simplify_eq
  | H : mret _ _ = (_, _) |- _ => unfold mret, ST_ret in H; simplify_eq
  end.

(** ** Serialisation

    The derived [serde] encoders and decoders of [ciborium], [serde_json] and
    [toml] are not code of the repository.  They are an operation pair per format
    and type; the law the code relies on is that what was encoded decodes to the
    same value. *)

Inductive format := Cbor | Json | Toml.

Class Codec (F : format) (A : Type) := {
  encode_to : A → result string string;
  decode_from : string → result string A;
}.
Global Arguments encode_to _ {_ _} _.
Global Arguments decode_from _ {_ _} _.

Class CodecLaws (F : format) (A : Type) `{Codec F A} : Prop :=
  codec_round_trip : ∀ a s, encode_to F a = Ok s → decode_from F s = Ok a.

(** Types that are only written (the bodies of signatures): different values have
    different encodings. *)
Class EncodeInj (F : format) (A : Type) `{Codec F A} : Prop :=
  encode_to_inj : ∀ a b s, encode_to F a = Ok s → encode_to F b = Ok s → a = b.

Lemma codec_laws_inj F A `{Codec F A, !CodecLaws F A} : EncodeInj F A.
Proof. intros a b s Ha%codec_round_trip Hb%codec_round_trip. congruence. Qed.

(** Types whose encoder has no error case. *)
Class EncodeTotal (F : format) (A : Type) `{Codec F A} : Prop :=
  encode_total : ∀ a, ∃ s, encode_to F a = Ok s.

(** The text formats produce UTF-8. *)
Class TextLaws (F : format) (A : Type) `{Codec F A} : Prop :=
  encode_utf8 : ∀ a s, encode_to F a = Ok s → utf8_valid s = true.

(** A concrete codec for any countable type, for the examples: the bits of the
    value's number, one character per bit. *)
Fixpoint bits_of_pos (p : positive) : string :=
  match p with
  | xH => ""
  | xO p => String "0"%char (bits_of_pos p)
  | xI p => String "1"%char (bits_of_pos p)
  end.
Fixpoint pos_of_bits (s : string) : option positive :=
  match s with
  | EmptyString => Some xH
  | String "0"%char s => xO <$> pos_of_bits s
  | String "1"%char s => xI <$> pos_of_bits s
  | _ => None
  end.

Lemma pos_of_bits_of_pos p : pos_of_bits (bits_of_pos p) = Some p.
Proof. induction p as [p IH|p IH|]; simpl; by rewrite ?IH. Qed.

Definition countable_codec (F : format) (A : Type) `{Countable A} : Codec F A := {|
  encode_to a := Ok (bits_of_pos (encode a));
  decode_from s := ok_or (pos_of_bits s ≫= decode) "malformed"
|}.

Lemma countable_codec_laws F A `{Countable A} : @CodecLaws F A (countable_codec F A).
Proof. intros a s [= <-]. simpl. rewrite pos_of_bits_of_pos. simpl. by rewrite decode_encode. Qed.

Lemma countable_codec_total F A `{Countable A} : @EncodeTotal F A (countable_codec F A).
Proof. intros a. by eexists. Qed.

(** [Option] is transparent in the self-describing formats: [Some(x)] is written as
    [x], and [None] as a null that no value of the type itself decodes from. *)
Class OptionLaws (F : format) (A : Type) `{Codec F A, Codec F (option A)} : Prop := {
  encode_some a : encode_to F (Some a) = encode_to F a;
  decode_none s : encode_to F (@None A) = Ok s → ∃ e, decode_from F (A := A) s = Err e;
}.

Definition option_codec (F : format) (A : Type) `{Codec F A} : Codec F (option A) := {|
  encode_to o := match o with Some a => encode_to F a | None => Ok "~" end;
  decode_from s := if bool_decide (s = "~") then Ok None else Some <$> decode_from F s
|}.

Lemma countable_option_laws F A `{Countable A} :
  @OptionLaws F A (countable_codec F A) (@option_codec F A (countable_codec F A)).
Proof. split; [done|]. intros s [= <-]. simpl. eauto. Qed.

Lemma countable_codec_text F A `{Countable A} : @TextLaws F A (countable_codec F A).
Proof.
  intros a s [= <-]. generalize (encode a). clear. intros p. induction p; simpl; auto.
Qed.

(** ** Automation *)

(** Split every match and conditional of the goal, closing the absurd branches. *)
Ltac split_matches := repeat (case_match; simplify_eq/=; try done).

(** Turn the boolean tests the code makes into the propositions they decide. *)
Ltac bool_tests :=
  repeat match goal with
  | H : negb _ = true |- _ => apply negb_true_iff in H
  | H : negb _ = false |- _ => apply negb_false_iff in H
  | H : _ && _ = true |- _ => apply andb_true_iff in H as [? ?]
  | H : _ || _ = false |- _ => apply orb_false_iff in H as [? ?]
  | H : bool_decide _ = true |- _ => apply bool_decide_eq_true in H
  | H : bool_decide _ = false |- _ => apply bool_decide_eq_false in H
  | H : (_ <=? _)%N = true |- _ => apply N.leb_le in H
  | H : (_ <=? _)%N = false |- _ => apply N.leb_gt in H
  | H : (_ <? _)%N = true |- _ => apply N.ltb_lt in H
  | H : (_ <? _)%N = false |- _ => apply N.ltb_ge in H
  | H : (_ =? _)%N = true |- _ => apply N.eqb_eq in H
  | H : (_ =? _)%N = false |- _ => apply N.eqb_neq in H
  | H : str_is_empty _ = true |- _ => apply str_is_empty_true in H
  | H : str_is_empty _ = false |- _ => apply str_is_empty_false in H
  | H : ¬ (_ ≠ _) |- _ => apply dec_stable in H
  end.

Create HintDb nexus.
Create Rewrite HintDb nexus.
#[export] Hint Resolve sat_add64_ge sat_add64_le : nexus.
#[export] Hint Rewrite @bind_Ok @map_err_Ok @ok_or_Ok : nexus.
