(* ===== verification/Turns.v ===== *)
(** * Tasks that take turns

    An [async] function between its awaits: what a task does before it waits for the
    next time is a turn, and other tasks may run between two turns.  A task that is
    not interrupted is a computation of [ST]; one that is, is reasoned about with
    what the others may do (the rely) and what each turn does (the guarantee). *)
From S2P Require Import Prelude.

Unset Elimination Schemes.
Inductive Turns (S E A : Type) :=
  | Done (r : result E A)
  | Turn (k : S → Turns S E A * S).
Set Elimination Schemes.
Global Arguments Done {_ _ _} _.
Global Arguments Turn {_ _ _} _.

Definition turns_induction (S E A : Type) (P : Turns S E A → Prop) (HD : ∀ r, P (Done r))
    (HT : ∀ k, (∀ s, P (k s).1) → P (Turn k)) : ∀ t, P t :=
  fix go t := match t with Done r => HD r | Turn k => HT k (λ s, go (k s).1) end.

Section turns.
Context {S : Type}.

(** One turn. *)
Definition turn {E A} (m : ST S E A) : Turns S E A := Turn (λ s, let '(r, s) := m s in (Done r, s)).

(** What a task goes on with, whatever came of its first part. *)
Fixpoint andthen {E F A B} (t : Turns S E A) (f : result E A → Turns S F B) : Turns S F B :=
  match t with
  | Done r => f r
  | Turn k => Turn (λ s, let '(t, s) := k s in (andthen t f, s))
  end.
Global Instance Turns_ret {E} : MRet (Turns S E) := λ _ a, Done (Ok a).
Global Instance Turns_bind {E} : MBind (Turns S E) := λ _ _ f t,
  andthen t (λ r, match r with Ok a => f a | Err e => Done (Err e) end).

(** Up to its next wait; and the task on its own. *)
Definition next_turn {E A} (t : Turns S E A) (s : S) : Turns S E A * S :=
  match t with Done r => (Done r, s) | Turn k => k s end.
Fixpoint finish {E A} (t : Turns S E A) : ST S E A := λ s,
  match t with
  | Done r => (r, s)
  | Turn k => let '(t, s) := k s in finish t s
  end.

Lemma finish_turn {E A} (m : ST S E A) s : finish (turn m) s = m s.
Proof. simpl. by destruct (m s). Qed.
Lemma finish_andthen {E F A B} (t : Turns S E A) (f : result E A → Turns S F B) s :
  finish (andthen t f) s = let '(r, s) := finish t s in finish (f r) s.
Proof.
  revert s. induction t as [r|k IH] using turns_induction; intros s; [done|]. simpl. specialize (IH s). destruct (k s) as [t s']. apply IH.
Qed.
Lemma finish_bind {E A B} (t : Turns S E A) (f : A → Turns S E B) s :
  finish (t ≫= f) s = (finish t ≫= λ a, finish (f a)) s.
Proof.
  unfold mbind at 1, Turns_bind. rewrite finish_andthen. unfold mbind, ST_bind. by destruct (finish t s) as [[]].
Qed.

(** ** Interference

    [rely g s g' s'] is what the others may do, also to the ghost state [g];
    [guarantee g s s'] is what each turn does. *)
Section rely.
Context {G : Type} (rely : G * S → G * S → Prop) (guarantee : G → S → S → Prop).
Context `{HR : !PreOrder rely}.

Fixpoint interleaved {E A} (t : Turns S E A) (Q : result E A → G → S → Prop) (g : G) (s : S) : Prop :=
  match t with
  | Done r => Q r g s
  | Turn k => ∀ g1 s1, rely (g, s) (g1, s1) →
      let '(t, s2) := k s1 in guarantee g1 s1 s2 ∧ interleaved t Q g1 s2
  end.

(** A property the others leave alone. *)
Definition stable (P : G → S → Prop) : Prop := ∀ g s g' s', rely (g, s) (g', s') → P g s → P g' s'.

Lemma interleaved_mono {E A} (t : Turns S E A) (Q Q' : result E A → G → S → Prop) g s :
  interleaved t Q g s → (∀ r g s, Q r g s → Q' r g s) → interleaved t Q' g s.
Proof.
  intros Ht HQ. revert g s Ht. induction t as [r|k IH] using turns_induction; intros g s; [apply HQ|]. simpl. intros Ht g1 s1 Hr.
  specialize (Ht g1 s1 Hr). specialize (IH s1). destruct (k s1) as [t s2]. destruct Ht as [Hg Ht]. split; [done|].
  by apply IH.
Qed.
Lemma interleaved_andthen {E F A B} (t : Turns S E A) (f : result E A → Turns S F B) Q g s :
  interleaved t (λ r g s, interleaved (f r) Q g s) g s → interleaved (andthen t f) Q g s.
Proof.
  revert g s. induction t as [r|k IH] using turns_induction; intros g s; [done|]. simpl. intros Ht g1 s1 Hr.
  specialize (Ht g1 s1 Hr). specialize (IH s1). destruct (k s1) as [t s2]. destruct Ht as [Hg Ht]. split; [done|].
  by apply IH.
Qed.
Lemma interleaved_bind {E A B} (t : Turns S E A) (f : A → Turns S E B) Q g s :
  interleaved t (λ r g s, match r with Ok a => interleaved (f a) Q g s | Err e => Q (Err e) g s end) g s →
  interleaved (t ≫= f) Q g s.
Proof.
  intros Ht. apply interleaved_andthen. eapply interleaved_mono; [exact Ht|]. by intros [] g' s' H.
Qed.
Lemma interleaved_turn {E A} (m : ST S E A) (Q : result E A → G → S → Prop) g s :
  (∀ g1 s1, rely (g, s) (g1, s1) → guarantee g1 s1 (m s1).2 ∧ Q (m s1).1 g1 (m s1).2) →
  interleaved (turn m) Q g s.
Proof. intros H g1 s1 Hr%H. by destruct (m s1). Qed.
(** A task may start later. *)
Lemma interleaved_later {E A} (t : Turns S E A) Q g s g' s' :
  (∀ r, stable (Q r)) → rely (g, s) (g', s') → interleaved t Q g s → interleaved t Q g' s'.
Proof.
  intros HQ Hr. destruct t as [r|k]; simpl; [by apply HQ|]. intros Ht g1 s1 Hr1. apply Ht. by etrans.
Qed.
(** A property every turn keeps. *)
Lemma interleaved_keeps {E A} (t : Turns S E A) Q (P : G → S → Prop) g s :
  stable P → (∀ g s s', guarantee g s s' → P g s → P g s') → P g s → interleaved t Q g s →
  interleaved t (λ r g s, Q r g s ∧ P g s) g s.
Proof.
  intros HP HG. revert g s. induction t as [r|k IH] using turns_induction; intros g s Hs; [done|]. simpl. intros Ht g1 s1 Hr.
  specialize (Ht g1 s1 Hr). specialize (IH s1). destruct (k s1) as [t s2]. destruct Ht as [Hg Ht]. split; [done|].
  apply IH; [|done]. by eapply HG, HP.
Qed.
End rely.
End turns.
