(* ===== verification/Text.v ===== *)
(** * Texts: what the components use of [str] in the Standard Library

    Splitting at a character, white space, decimal numbers, texts that may be no
    UTF-8.  A text is its UTF-8 bytes; white space is the Unicode property
    [White_Space], as in [Prelude]. *)
From S2P Require Import Prelude.

(** [str::split_once]: at the first occurrence. *)
Fixpoint split_once (c : ascii) (s : string) : option (string * string) :=
  match s with
  | EmptyString => None
  | String d s =>
      if bool_decide (d = c) then Some ("", s)
      else '(a, b) ← split_once c s; Some (String d a, b)
  end.

(** The bytes of the white space a text starts with; none is zero. *)
Definition space_width (s : string) : nat :=
  match s with
  | String "009"%char _ | String "010"%char _ | String "011"%char _ | String "012"%char _
  | String "013"%char _ | String " "%char _ => 1
  | String "194"%char (String "133"%char _) | String "194"%char (String "160"%char _) => 2
  | String "225"%char (String "154"%char (String "128"%char _)) => 3
  | String "226"%char (String "128"%char (String c _)) =>
      let n := Ascii.N_of_ascii c in
      if ((128 <=? n) && (n <=? 138))%N || (n =? 168)%N || (n =? 169)%N || (n =? 175)%N then 3 else 0
  | String "226"%char (String "129"%char (String "159"%char _)) => 3
  | String "227"%char (String "128"%char (String "128"%char _)) => 3
  | _ => 0
  end.

Global Arguments space_width : simpl never.

(** [str::trim].  [skip] counts the bytes of the character at hand that are left. *)
Fixpoint trim_start (skip : nat) (s : string) : string :=
  match s, skip with
  | EmptyString, _ => ""
  | String _ s', S skip => trim_start skip s'
  | String _ s', O => match space_width s with O => s | S skip => trim_start skip s' end
  end.
Fixpoint trim_end (s : string) : string :=
  match s with
  | EmptyString => ""
  | String c s' => if trim_is_empty s then "" else String c (trim_end s')
  end.
Definition trim (s : string) : string := trim_end (trim_start 0 s).

(** [str::split_whitespace], with the word that is being read. *)
Definition flush (word : string) : list string := if str_is_empty word then [] else [word].
Fixpoint split_words (skip : nat) (word s : string) : list string :=
  match s, skip with
  | EmptyString, _ => flush word
  | String _ s', S skip => split_words skip word s'
  | String c s', O =>
      match space_width s with
      | O => split_words 0 (word +:+ String c "") s'
      | S skip => flush word ++ split_words skip "" s'
      end
  end.
Definition split_whitespace (s : string) : list string := split_words 0 "" s.

(** [str::parse] of an unsigned integer: digits after an optional plus sign. *)
Fixpoint digits_from (acc : N) (s : string) : option N :=
  match s with
  | EmptyString => Some acc
  | String c s => if byte_in 48 57 c then digits_from (acc * 10 + (Ascii.N_of_ascii c - 48)) s else None
  end.
Definition parse_uint (max : N) (s : string) : option N :=
  let digits := match s with String "+"%char s => s | _ => s end in
  if str_is_empty digits then None
  else n ← digits_from 0 digits; if (n <=? max)%N then Some n else None.

(** [env::var]: a value that is no UTF-8 counts as absent. *)
Definition env_var (env : string → option string) (key : string) : option string :=
  v ← env key; if utf8_valid v then Some v else None.

(** [String::from_utf8_lossy]: the longest start of a character, or the byte that
    starts none, is replaced by U+FFFD.  [utf8_extra] counts the bytes that follow a
    first byte, [tail_bytes] those of them that are there. *)
Definition utf8_extra (a : ascii) : nat :=
  if byte_in 194 223 a then 1 else if byte_in 224 239 a then 2 else if byte_in 240 244 a then 3 else 0.
Definition second_byte (a b : ascii) : bool :=
  if byte_in 224 224 a then byte_in 160 191 b
  else if byte_in 237 237 a then byte_in 128 159 b
  else if byte_in 240 240 a then byte_in 144 191 b
  else if byte_in 244 244 a then byte_in 128 143 b
  else byte_in 128 191 b.
Fixpoint tail_bytes (n : nat) (ok : ascii → bool) (s : string) : nat :=
  match n, s with
  | S n, String b s => if ok b then S (tail_bytes n (byte_in 128 191) s) else 0
  | _, _ => 0
  end.
Definition replacement : string := String "239" (String "191" (String "189" "")).
Fixpoint lossy_from (keep : bool) (skip : nat) (s : string) : string :=
  match s, skip with
  | EmptyString, _ => ""
  | String a s, S skip => if keep then String a (lossy_from keep skip s) else lossy_from keep skip s
  | String a s, O =>
      let n := utf8_extra a in
      let there := tail_bytes n (second_byte a) s in
      if byte_in 0 127 a || (bool_decide (n ≠ 0) && bool_decide (there = n)) then String a (lossy_from true there s)
      else replacement +:+ lossy_from false there s
  end.
Definition to_string_lossy (s : string) : string := lossy_from true 0 s.

(** ** Properties *)

Lemma split_once_Some c s a b : split_once c s = Some (a, b) ↔ s = a +:+ String c b ∧ str_has c a = false.
Proof.
  revert a b. induction s as [|d s IH]; intros a b; cbn [split_once].
  { split; [done|]. by destruct a; intros [[=] _]. }
  case_bool_decide as Hd; [subst d|].
  - split; [by intros [= <- <-]|]. intros [Heq Ha]. destruct a as [|e a]; [by injection Heq as ->|].
    injection Heq as -> _. simpl in Ha. by rewrite bool_decide_eq_true_2 in Ha.
  - rewrite bind_Some. split.
    + intros ([x y] & [-> Hx]%IH & [= <- <-]). rewrite string_app_cons. simpl. by rewrite bool_decide_eq_false_2, Hx.
    + intros [Heq Ha]. destruct a as [|e a]; [by injection Heq as ->|]. injection Heq as -> Heq.
      simpl in Ha. apply orb_false_iff in Ha as [_ Ha]. exists (a, b). split; [by apply IH|done].
Qed.

Lemma split_once_None c s : split_once c s = None ↔ str_has c s = false.
Proof.
  induction s as [|d s IH]; [done|]. cbn [split_once str_has].
  destruct (decide (d = c)) as [->|Hd].
  - rewrite !bool_decide_eq_true_2 by done. done.
  - rewrite (bool_decide_eq_false_2 (d = c)), (bool_decide_eq_false_2 (c = d)) by done. simpl. rewrite <-IH.
    by destruct (split_once c s) as [[]|].
Qed.

(** A word has none of the ASCII white space. *)
Definition ascii_space (c : ascii) : bool :=
  bool_decide (c ∈ ["009"; "010"; "011"; "012"; "013"; " "]%char).

Lemma space_width_word c d s : ascii_space c = true → space_width (String d s) = 0 → c ≠ d.
Proof.
  unfold ascii_space. rewrite bool_decide_eq_true. intros Hc Hz <-.
  repeat (apply elem_of_cons in Hc as [->|Hc]; [done|]). set_solver.
Qed.
Lemma split_words_space c skip word s w : ascii_space c = true → str_has c word = false →
  w ∈ split_words skip word s → str_has c w = false.
Proof.
  intros Hc. revert skip word. induction s as [|d s IH]; intros skip word Hw; cbn [split_words].
  { unfold flush. destruct (str_is_empty word); set_solver. }
  destruct skip as [|skip]; [|by apply IH].
  destruct (space_width (String d s)) as [|skip] eqn:Hz.
  - apply IH. rewrite str_has_app, Hw. simpl. rewrite bool_decide_eq_false_2; [done|by apply (space_width_word c d s)].
  - rewrite elem_of_app. intros [Hin|Hin]; [|by apply IH in Hin].
    unfold flush in Hin. destruct (str_is_empty word); set_solver.
Qed.
Lemma split_whitespace_space c s w : ascii_space c = true → w ∈ split_whitespace s → str_has c w = false.
Proof. intros Hc. by apply split_words_space. Qed.

(** A number's text has digits only, and perhaps a sign. *)
Lemma pretty_go_has c x s : (∀ n, pretty_N_char n ≠ c) → str_has c s = false → str_has c (pretty_N_go x s) = false.
Proof.
  intros Hc. revert s. induction (N.lt_wf_0 x) as [x _ IH]; intros s Hs.
  destruct (decide (x = 0)%N) as [->|Hx]; [by rewrite pretty_N_go_0|].
  rewrite pretty_N_go_step by lia. apply IH; [by apply N.div_lt; lia|]. simpl.
  rewrite Hs, bool_decide_eq_false_2; [done|]. intros ->. by eapply Hc.
Qed.
Lemma pretty_N_has c (n : N) : (∀ n, pretty_N_char n ≠ c) → str_has c (pretty n) = false.
Proof.
  intros Hc. unfold pretty, pretty_N. case_decide; [|by apply pretty_go_has]. simpl.
  rewrite bool_decide_eq_false_2; [done|]. intros ->. by apply (Hc 0%N).
Qed.
Lemma pretty_Z_has c (z : Z) : (∀ n, pretty_N_char n ≠ c) → c ≠ "-"%char → str_has c (pretty z) = false.
Proof.
  intros Hc Hd. unfold pretty, pretty_Z. destruct z as [|p|p]; [by apply (pretty_N_has c 0)|by apply (pretty_N_has c (N.pos p))|].
  change (str_has c ("-" +:+ pretty (N.pos p)) = false). rewrite str_has_app, (pretty_N_has c) by done. simpl.
  by rewrite bool_decide_eq_false_2.
Qed.
Lemma pretty_char_digit n : pretty_N_char n ∈ ["0"; "1"; "2"; "3"; "4"; "5"; "6"; "7"; "8"; "9"]%char.
Proof. unfold pretty_N_char. repeat case_match; set_solver. Qed.

Lemma lossy_not_empty s : s ≠ "" → to_string_lossy s ≠ "".
Proof. destruct s as [|a s]; [done|]. intros _. unfold to_string_lossy. simpl. by case_match. Qed.

Lemma suffix_ne (a b x y : string) : String.length x = String.length y → x ≠ y → a +:+ x ≠ b +:+ y.
Proof.
  intros Hl Hne Heq. pose proof (f_equal String.length Heq) as Hlen. rewrite !string_length_app in Hlen.
  by apply string_app_inj_len in Heq as [_ ?]; [|lia].
Qed.
