(* ===== verification/Fsutil.v ===== *)
(** * Files: [src/src/fsutil.rs] and the file-system calls it makes.

    The file system is a map from paths to files with their permission bits and a
    set of directories.  Every call consults a schedule of injected faults, so a
    theorem about an operation holds whatever calls fail, in whatever order: a
    failing write leaves a prefix of the data behind, a failing [create_dir_all]
    some of the directories. *)
From S2P Require Import Prelude.

(** ** Paths

    [std::path::Path] as its list of components; an absolute path starts with
    the component ["/"]. *)
Abbreviation path := (list string).

(** [Path::parent]: [None] for the empty path and for the root. *)
Definition path_parent (p : path) : option path :=
  match reverse p with
  | [] => None
  | c :: r => if bool_decide (c = "/") then None else Some (reverse r)
  end.

(** [Path::file_name]: the last component, unless it is the root or [..]. *)
Definition path_file_name (p : path) : option string :=
  match last p with
  | Some c => if bool_decide (c = "/" ∨ c = "..") then None else Some c
  | None => None
  end.

(** Splits at the last dot: the part before it and the part after it. *)
Fixpoint rsplit_dot (s : string) : option (string * string) :=
  match s with
  | EmptyString => None
  | String c s' =>
      match rsplit_dot s' with
      | Some (a, b) => Some (String c a, b)
      | None => if bool_decide (c = "."%char) then Some ("", s') else None
      end
  end.

(** [Path::file_stem] of a file name: a leading dot does not start an
    extension. *)
Definition file_stem (name : string) : string :=
  match rsplit_dot name with
  | Some ("", _) | None => name
  | Some (stem, _) => stem
  end.

(** [Path::with_extension]: replaces the extension of the file name; a path
    without a file name is left alone. *)
Definition with_extension (p : path) (ext : string) : path :=
  match path_file_name p with
  | None => p
  | Some name =>
      take (length p - 1) p ++
        [file_stem name +:+ (if str_is_empty ext then "" else "." +:+ ext)]
  end.

(** ** The file system *)

Inductive ErrorKind := NotFound | PermissionDenied | AlreadyExists | InvalidData | OtherKind.
Global Instance ErrorKind_eq_dec : EqDecision ErrorKind.
Proof. solve_decision. Defined.

Record IoError := MkIoError { io_kind : ErrorKind; io_text : string }.
Global Instance IoError_eq_dec : EqDecision IoError.
Proof. solve_decision. Defined.

Record File := MkFile { f_data : string; f_mode : N }.
Global Instance File_eq_dec : EqDecision File.
Proof. solve_decision. Defined.

(** An injected fault: the error, and how much of the work was done before it
    (bytes written, directories made). *)
Record Fault := MkFault { fault_error : IoError; fault_done : nat }.

Record Fs := MkFs {
  fs_files : gmap path File;
  fs_dirs : gset path;
  fs_umask : N;
  fs_faults : list (option Fault);
}.

Definition set_files (fs : Fs) (m : gmap path File) : Fs :=
  MkFs m (fs_dirs fs) (fs_umask fs) (fs_faults fs).
Definition set_dirs (fs : Fs) (d : gset path) : Fs :=
  MkFs (fs_files fs) d (fs_umask fs) (fs_faults fs).

(** The outcome the schedule has for the next call; an exhausted schedule has no
    more faults. *)
Definition next_fault (fs : Fs) : option Fault * Fs :=
  match fs_faults fs with
  | [] => (None, fs)
  | f :: r => (f, MkFs (fs_files fs) (fs_dirs fs) (fs_umask fs) r)
  end.

Definition fs_error (k : ErrorKind) : IoError :=
  MkIoError k match k with
    | NotFound => "No such file or directory (os error 2)"
    | PermissionDenied => "Permission denied (os error 13)"
    | AlreadyExists => "File exists (os error 17)"
    | InvalidData => "stream did not contain valid UTF-8"
    | OtherKind => "Input/output error (os error 5)"
    end.

(** The directory a path lives in exists; a bare file name lives in the working
    directory. *)
Definition dir_exists (fs : Fs) (p : path) : bool :=
  match path_parent p with
  | None => true
  | Some d => bool_decide (d = []) || bool_decide (d ∈ fs_dirs fs)
  end.

(** [fs::read]. *)
Definition fs_read (p : path) : ST Fs IoError string := λ fs,
  let '(f, fs) := next_fault fs in
  match f with
  | Some f => (Err (fault_error f), fs)
  | None => (ok_or (f_data <$> fs_files fs !! p) (fs_error NotFound), fs)
  end.

(** [fs::read_to_string]. *)
Definition fs_read_to_string (p : path) : ST Fs IoError string :=
  s ← fs_read p;
  if utf8_valid s then mret s else st_err (fs_error InvalidData).

(** The prefixes of a path, shortest first. *)
Definition path_prefixes (p : path) : list path := (λ n, take n p) <$> seq 1 (length p).

(** [fs::create_dir_all]. *)
Definition create_dir_all (p : path) : ST Fs IoError unit := λ fs,
  let '(f, fs) := next_fault fs in
  match f with
  | Some f =>
      (Err (fault_error f),
       set_dirs fs (fs_dirs fs ∪ list_to_set (take (fault_done f) (path_prefixes p))))
  | None =>
      if existsb (λ d, bool_decide (is_Some (fs_files fs !! d))) (path_prefixes p)
      then (Err (fs_error AlreadyExists), fs)
      else (Ok (), set_dirs fs (fs_dirs fs ∪ list_to_set (path_prefixes p)))
  end.

(** [fs::write]: creates or truncates, then writes all the bytes.  A file that
    exists keeps its permission bits, a new one has [0o666] less the umask. *)
Definition fs_write (p : path) (data : string) : ST Fs IoError unit := λ fs,
  let '(f, fs) := next_fault fs in
  let mode := from_option f_mode (N.ldiff 438 (fs_umask fs)) (fs_files fs !! p) in
  if negb (dir_exists fs p) then (Err (fs_error NotFound), fs)
  else if bool_decide (p ∈ fs_dirs fs) then (Err (fs_error OtherKind), fs)
  else match f with
  | Some f =>
      (Err (fault_error f),
       match fault_done f with
       | O => fs
       | S n => set_files fs (<[p := MkFile (String.substring 0 n data) mode]> (fs_files fs))
       end)
  | None => (Ok (), set_files fs (<[p := MkFile data mode]> (fs_files fs)))
  end.

(** [fs::set_permissions]. *)
Definition set_permissions (p : path) (mode : N) : ST Fs IoError unit := λ fs,
  let '(f, fs) := next_fault fs in
  match f, fs_files fs !! p with
  | Some f, _ => (Err (fault_error f), fs)
  | None, None => (Err (fs_error NotFound), fs)
  | None, Some file => (Ok (), set_files fs (<[p := MkFile (f_data file) mode]> (fs_files fs)))
  end.

(** [fs::rename]: atomic, replaces an existing file, refuses a directory. *)
Definition fs_rename (src dst : path) : ST Fs IoError unit := λ fs,
  let '(f, fs) := next_fault fs in
  match f, fs_files fs !! src with
  | Some f, _ => (Err (fault_error f), fs)
  | None, None => (Err (fs_error NotFound), fs)
  | None, Some file =>
      if bool_decide (dst ∈ fs_dirs fs) then (Err (fs_error OtherKind), fs)
      else (Ok (), set_files fs (<[dst := file]> (delete src (fs_files fs))))
  end.

(** [fs::remove_file]. *)
Definition fs_remove (p : path) : ST Fs IoError unit := λ fs,
  let '(f, fs) := next_fault fs in
  match f, fs_files fs !! p with
  | Some f, _ => (Err (fault_error f), fs)
  | None, None => (Err (fs_error NotFound), fs)
  | None, Some _ => (Ok (), set_files fs (delete p (fs_files fs)))
  end.

(** ** [atomic_write] *)

Definition atomic_write (p : path) (data : string) (mode : option N) : ST Fs IoError unit :=
  match path_parent p with
  | Some parent => if bool_decide (parent ≠ []) then create_dir_all parent else mret ()
  | None => mret ()
  end ;;
  let temp := with_extension p "tmp" in
  fs_write temp data ;;
  match mode with
  | Some mode => set_permissions temp mode
  | None => mret ()
  end ;;
  fs_rename temp p.

(** ** What the calls do to the files *)

Lemma next_fault_files fs f fs' : next_fault fs = (f, fs') → fs_files fs' = fs_files fs.
Proof. unfold next_fault. destruct (fs_faults fs); naive_solver. Qed.

Lemma next_fault_dirs fs f fs' : next_fault fs = (f, fs') → fs_dirs fs' = fs_dirs fs.
Proof. unfold next_fault. destruct (fs_faults fs); naive_solver. Qed.

Ltac fault_step :=
  match goal with
  | |- context [next_fault ?fs] =>
      let f := fresh "fault" in let fs' := fresh "fs" in let E := fresh "Hfault" in
      destruct (next_fault fs) as [f fs'] eqn:E;
      pose proof (next_fault_files _ _ _ E); pose proof (next_fault_dirs _ _ _ E); clear E
  end.

Lemma fs_read_files p fs : fs_files (fs_read p fs).2 = fs_files fs.
Proof. unfold fs_read. fault_step. by case_match. Qed.

Lemma create_dir_all_files p fs : fs_files (create_dir_all p fs).2 = fs_files fs.
Proof. unfold create_dir_all. fault_step. split_matches. Qed.

Lemma fs_write_files p data fs :
  match fs_write p data fs with
  | (Ok _, fs') => ∃ m, fs_files fs' = <[p := MkFile data m]> (fs_files fs)
  | (Err _, fs') => fs_files fs' = fs_files fs
                    ∨ ∃ file, fs_files fs' = <[p := file]> (fs_files fs)
  end.
Proof.
  unfold fs_write. fault_step.
  destruct (negb _); [by left|]. destruct (bool_decide _); [by left|].
  match goal with H : fs_files _ = fs_files fs |- _ => rewrite H end.
  destruct fault as [[e [|n]]|]; simpl; eauto.
Qed.

Lemma set_permissions_files p mode fs :
  match set_permissions p mode fs with
  | (Ok _, fs') => ∃ file, fs_files fs !! p = Some file
      ∧ fs_files fs' = <[p := MkFile (f_data file) mode]> (fs_files fs)
  | (Err _, fs') => fs_files fs' = fs_files fs
  end.
Proof.
  unfold set_permissions. fault_step.
  match goal with H : fs_files _ = fs_files fs |- _ => rewrite H end.
  destruct fault, (fs_files fs !! p) as [file|] eqn:?; simpl; try done.
  eauto.
Qed.

Lemma fs_rename_files src dst fs :
  match fs_rename src dst fs with
  | (Ok _, fs') => ∃ file, fs_files fs !! src = Some file
      ∧ fs_files fs' = <[dst := file]> (delete src (fs_files fs))
  | (Err _, fs') => fs_files fs' = fs_files fs
  end.
Proof.
  unfold fs_rename. fault_step.
  match goal with H : fs_files _ = fs_files fs |- _ => rewrite H end.
  destruct fault, (fs_files fs !! src) as [file|] eqn:?; simpl; try done.
  destruct (bool_decide _); simpl; [done|]. eauto.
Qed.

Lemma fs_remove_files p fs :
  match fs_remove p fs with
  | (Ok _, fs') => fs_files fs' = delete p (fs_files fs)
  | (Err _, fs') => fs_files fs' = fs_files fs
  end.
Proof.
  unfold fs_remove. fault_step. match goal with H : fs_files _ = fs_files fs |- _ => rewrite H end.
  by destruct fault, (fs_files fs !! p).
Qed.

(** No injected fault claims that a file that is there is not. *)
Definition honest_faults (fs : Fs) : Prop :=
  Forall (λ f : option Fault, match f with Some f => io_kind (fault_error f) ≠ NotFound | None => True end) (fs_faults fs).
Lemma honest_fault fs : honest_faults fs → ∀ f fs1, next_fault fs = (Some f, fs1) → io_kind (fault_error f) ≠ NotFound.
Proof.
  unfold next_fault, honest_faults. destruct (fs_faults fs) as [|o l]; [done|]. intros Hh f fs1 [= -> <-].
  by inversion Hh.
Qed.
(** A removal that finds nothing means there was nothing. *)
Lemma fs_remove_absent p fs e fs' : honest_faults fs → fs_remove p fs = (Err e, fs') → io_kind e = NotFound →
  fs_files fs !! p = None.
Proof.
  intros Hh. unfold fs_remove. pose proof (honest_fault fs Hh) as Hf. pose proof (next_fault_files fs) as Hn.
  destruct (next_fault fs) as [[f|] fs1].
  - intros [= <- <-] He. by destruct (Hf _ _ eq_refl).
  - specialize (Hn _ _ eq_refl). rewrite Hn. by destruct (fs_files fs !! p).
Qed.

(** What a finished call has left at the path [p] and elsewhere. *)
Definition atomic_outcome (p : path) (data : string) (mode : option N)
    (before : Fs) (r : result IoError unit) (after : Fs) : Prop :=
  (∀ q, q ≠ p → q ≠ with_extension p "tmp" → fs_files after !! q = fs_files before !! q) ∧
  match r with
  | Ok _ => ∃ m, fs_files after !! p = Some (MkFile data m) ∧ from_option (eq m) True mode
            ∧ fs_files after !! with_extension p "tmp" = None
  | Err _ => fs_files after !! p = fs_files before !! p
  end.

(** The part after the parent directory was made. *)
Lemma atomic_write_tail p data mode fs :
  with_extension p "tmp" ≠ p →
  let '(r, fs') :=
    (fs_write (with_extension p "tmp") data ;;
     match mode with Some mode => set_permissions (with_extension p "tmp") mode | None => mret () end ;;
     fs_rename (with_extension p "tmp") p) fs in
  atomic_outcome p data mode fs r fs'.
Proof.
  intros Hne. unfold mbind, ST_bind, atomic_outcome. set (t := with_extension p "tmp") in *.
  pose proof (fs_write_files t data fs) as Hw.
  destruct (fs_write t data fs) as [[[]|e] fs1].
  2:{ destruct Hw as [->|[file ->]]; split; intros; by rewrite ?lookup_insert_ne by done. }
  destruct Hw as [m Hw].
  set (perm := match mode with Some m => set_permissions t m | None => _ end).
  assert (∀ r fs2, perm fs1 = (r, fs2) → match r with
        | Ok _ => ∃ m', from_option (eq m') True mode
                    ∧ fs_files fs2 = <[t := MkFile data m']> (fs_files fs)
        | Err _ => fs_files fs2 = fs_files fs1 end) as Hperm.
  { intros r fs2. subst perm. destruct mode as [mode|].
    - pose proof (set_permissions_files t mode fs1) as Hs. intros E. rewrite E in Hs.
      destruct r; [|done]. destruct Hs as (file & Hf & ->).
      rewrite Hw, lookup_insert_eq in Hf. simplify_eq/=. exists mode.
      by rewrite Hw, insert_insert_eq.
    - intros [= <- <-]. by exists m. }
  destruct (perm fs1) as [[[]|e] fs2] eqn:E;
    specialize (Hperm _ _ eq_refl); clear E; simpl in Hperm.
  2:{ rewrite Hperm, Hw. split; intros; by rewrite ?lookup_insert_ne by done. }
  destruct Hperm as (m' & Hm' & Hf2).
  pose proof (fs_rename_files t p fs2) as Hr.
  destruct (fs_rename t p fs2) as [[[]|e] fs3].
  - destruct Hr as (file & Hf & ->). rewrite Hf2 in Hf |- *. rewrite lookup_insert_eq in Hf.
    simplify_eq. split.
    + intros q Hp Ht. by rewrite lookup_insert_ne, lookup_delete_ne, lookup_insert_ne by done.
    + exists m'. rewrite lookup_insert_eq, lookup_insert_ne, lookup_delete_eq by done. done.
  - rewrite Hr, Hf2. split; intros; by rewrite ?lookup_insert_ne by done.
Qed.

(** Whatever calls fail, [atomic_write] either reports success and the target has
    exactly the new bytes with the requested mode, or reports an error and the
    target is what it was; only the temporary file beside it is touched otherwise. *)
Lemma atomic_write_spec p data mode fs :
  with_extension p "tmp" ≠ p →
  let '(r, fs') := atomic_write p data mode fs in atomic_outcome p data mode fs r fs'.
Proof.
  intros Hne. unfold atomic_write.
  assert (∀ (m : ST Fs IoError unit), fs_files (m fs).2 = fs_files fs →
    let '(r, fs') := (m ;; (fs_write (with_extension p "tmp") data ;;
     match mode with Some mode => set_permissions (with_extension p "tmp") mode | None => mret () end ;;
     fs_rename (with_extension p "tmp") p)) fs in
    atomic_outcome p data mode fs r fs') as Hm.
  { intros m Hf. unfold mbind at 1, ST_bind at 1. destruct (m fs) as [[[]|e] fs1]; simpl in Hf.
    - pose proof (atomic_write_tail p data mode fs1 Hne) as Ht.
      unfold atomic_outcome in *. by rewrite Hf in Ht.
    - split; simpl; congruence. }
  apply Hm. destruct (path_parent p) as [d|]; [|done].
  case_bool_decide; [|done]. apply create_dir_all_files.
Qed.

(** ** Success without faults *)

Lemma path_parent_snoc l c : c ≠ "/" → path_parent (l ++ [c]) = Some l.
Proof.
  intros Hc. unfold path_parent. rewrite reverse_snoc, bool_decide_eq_false_2 by done.
  by rewrite reverse_involutive.
Qed.

(** The temporary file of a name in a directory. *)
Definition temp_name (n : string) : string := file_stem n +:+ ".tmp".
Lemma temp_path_snoc out n : n ≠ "/" → n ≠ ".." → with_extension (out ++ [n]) "tmp" = out ++ [temp_name n].
Proof.
  intros H1 H2. unfold with_extension, path_file_name. rewrite last_snoc, bool_decide_eq_false_2 by naive_solver.
  rewrite length_app, take_app_le by (simpl; lia). simpl. by rewrite take_ge by lia.
Qed.
(** A path whose temporary file is another path has a file name. *)
Lemma with_extension_snoc p :
  with_extension p "tmp" ≠ p →
  ∃ l c c', p = l ++ [c] ∧ c ≠ "/" ∧ with_extension p "tmp" = l ++ [c'] ∧ c' ≠ "/".
Proof.
  unfold with_extension, path_file_name. intros Hne.
  destruct (last p) as [c|] eqn:Hl; [|done]. case_bool_decide as Hc; [done|].
  apply last_Some in Hl as [l ->]. exists l, c, (file_stem c +:+ ".tmp").
  split_and!; [done|naive_solver| |].
  - rewrite length_app, Nat.add_sub, take_app_length. done.
  - intros Heq%(f_equal String.length). rewrite string_length_app in Heq. simpl in Heq. lia.
Qed.

Lemma path_prefixes_length p d : d ∈ path_prefixes p → length d ≤ length p.
Proof.
  unfold path_prefixes. intros (n & -> & _)%list_elem_of_fmap. rewrite length_take. lia.
Qed.

Lemma elem_of_path_prefixes p : p ≠ [] → p ∈ path_prefixes p.
Proof.
  intros Hp. apply list_elem_of_fmap. exists (length p). rewrite take_ge by done. split; [done|].
  apply elem_of_seq. destruct p; [done|]. simpl. lia.
Qed.

Lemma atomic_write_ok p data mode fs :
  with_extension p "tmp" ≠ p → fs_faults fs = [] →
  p ∉ fs_dirs fs → with_extension p "tmp" ∉ fs_dirs fs →
  (∀ q, path_parent p = Some q → ∀ d, d ∈ path_prefixes q → fs_files fs !! d = None) →
  (atomic_write p data mode fs).1 = Ok ().
Proof.
  intros Hne Hnf Hp Ht Hpre. destruct (with_extension_snoc p Hne) as (l & c & c' & Hpl & Hc & Htl & Hc').
  unfold atomic_write. rewrite Hpl, path_parent_snoc in *; try done.
  rewrite Htl in *. clear Hpl Htl Hne. specialize (Hpre _ eq_refl).
  assert (∃ dirs, (if bool_decide (l ≠ []) then create_dir_all l else mret ()) fs
      = (Ok (), set_dirs fs dirs)
    ∧ (l = [] ∨ l ∈ dirs) ∧ (∀ n, l ++ [n] ∉ fs_dirs fs → l ++ [n] ∉ dirs)) as (dirs & Hd & Hld & Hn).
  { case_bool_decide as Hl; [|exists (fs_dirs fs); split_and!; [by destruct fs| |done]].
    2:{ left. by destruct (decide (l = [])). }
    exists (fs_dirs fs ∪ list_to_set (path_prefixes l)). split_and!.
    - unfold create_dir_all, next_fault. rewrite Hnf.
      destruct (existsb _ _) eqn:Hex; [exfalso; revert Hex|done].
      rewrite existsb_exists. intros (d & Hin%list_elem_of_In & Hd%bool_decide_eq_true).
      rewrite Hpre in Hd by done. by destruct Hd.
    - right. apply elem_of_union_r, elem_of_list_to_set. by apply elem_of_path_prefixes.
    - intros n Hn [?|Hin%elem_of_list_to_set]%elem_of_union; [done|].
      apply path_prefixes_length in Hin. rewrite length_app in Hin. simpl in Hin. lia. }
  unfold mbind, ST_bind. rewrite Hd. clear Hd.
  unfold fs_write, next_fault, dir_exists, set_dirs. simpl. rewrite Hnf, path_parent_snoc by done. simpl.
  rewrite (bool_decide_eq_false_2 (l ++ [c'] ∈ dirs)) by auto.
  replace (bool_decide (l = []) || bool_decide (l ∈ dirs)) with true
    by (destruct Hld; [by rewrite bool_decide_eq_true_2|by rewrite (bool_decide_eq_true_2 (l ∈ dirs)), orb_true_r]).
  simpl. destruct mode; unfold set_permissions, fs_rename, next_fault; simpl;
    repeat (rewrite lookup_insert_eq; simpl);
    by rewrite bool_decide_eq_false_2 by auto.
Qed.
