(* ===== verification/Crypto.v ===== *)
(** * Third-party primitives

    The crates the sidecar calls for cryptography and encodings are not code of
    the repository: [Crypto] lists the calls made to them, [CryptoLaws] what their
    documentation promises and the code relies on.  No law says that a hash has no
    collisions or that a signature cannot be forged; a theorem that needs one of
    those for the values at hand takes it as a hypothesis of its own.

    [toy_crypto] is a concrete instance: it makes every definition of the
    development executable on concrete inputs and shows that the laws can hold
    together. *)
From S2P Require Import Prelude.

Class Crypto := {
  (** [sha2::Sha256::digest]. *)
  sha256 : string → string;
  (** [Hmac::<Sha256>]: the tag of an input under a key of any length. *)
  hmac_sha256 : string → string → string;
  (** [Hkdf::<Sha256>::new(Some(salt), ikm)] and [expand(info)] to 32 bytes; the
      call refuses only outputs longer than 255 blocks. *)
  hkdf_sha256 : string → string → string → string;
  (** [base64], standard alphabet with padding and URL alphabet without. *)
  b64_encode : string → string;
  b64_decode : string → option string;
  b64url_encode : string → string;
  b64url_decode : string → option string;
  (** [ed25519_dalek]: public key and signature of a 32 byte seed,
      [VerifyingKey::from_bytes(..).is_ok()], and [verify] on a 64 byte signature. *)
  ed_public : string → string;
  ed_sign : string → string → string;
  ed_key_ok : string → bool;
  ed_verify : string → string → string → bool;
  (** [x25519_dalek]: public key of a secret, Diffie-Hellman. *)
  x_public : string → string;
  x_dh : string → string → string;
  (** [ChaCha20Poly1305] with a 32 byte key and a 12 byte nonce. *)
  aead_encrypt : string → string → string → option string;
  aead_decrypt : string → string → string → option string;
  (** [s.parse::<libp2p_identity::PeerId>()]: the bytes of the identifier. *)
  peer_id_bytes : string → option string;
}.

Class CryptoLaws `{Crypto} : Prop := {
  sha256_length s : String.length (sha256 s) = 32;
  hmac_length k s : String.length (hmac_sha256 k s) = 32;
  hkdf_length a b c : String.length (hkdf_sha256 a b c) = 32;
  b64_round_trip s : b64_decode (b64_encode s) = Some s;
  b64url_round_trip s : b64url_decode (b64url_encode s) = Some s;
  b64url_alphabet s : str_has "/" (b64url_encode s) = false;
  b64url_no_nul s : str_has "000" (b64url_encode s) = false;
  ed_public_length s : String.length s = 32 → String.length (ed_public s) = 32;
  ed_sign_length s m : String.length (ed_sign s m) = 64;
  ed_public_ok s : String.length s = 32 → ed_key_ok (ed_public s) = true;
  ed_verify_sign s m : String.length s = 32 → ed_verify (ed_public s) m (ed_sign s m) = true;
  x_public_length s : String.length s = 32 → String.length (x_public s) = 32;
  x_dh_comm a b : String.length a = 32 → String.length b = 32 →
    x_dh a (x_public b) = x_dh b (x_public a);
  aead_round_trip k n m c : aead_encrypt k n m = Some c → aead_decrypt k n c = Some m;
  (** The text forms of a peer id are base58 and multibase: neither is empty, has a
      NUL or has a comma. *)
  peer_id_no_nul s : is_Some (peer_id_bytes s) → str_has "000" s = false;
  peer_id_no_comma s : is_Some (peer_id_bytes s) → s ≠ "" ∧ str_has "," s = false;
}.

(** ** A concrete instance *)

Fixpoint pad (n : nat) (s : string) : string :=
  match n with
  | O => ""
  | S n => match s with
           | EmptyString => String "000" (pad n "")
           | String c s => String c (pad n s)
           end
  end.

Lemma pad_length n s : String.length (pad n s) = n.
Proof. revert s. induction n; intros [|c s]; simpl; auto. Qed.

Lemma pad_id n s : String.length s = n → pad n s = s.
Proof. intros <-. induction s; simpl; by f_equal. Qed.

Global Arguments pad : simpl never.

(** Two letters per byte, from [A] to [P]. *)
Definition nibble (n : N) : ascii := ascii_of_N (65 + n).
Definition of_nibble (c : ascii) : option N :=
  let n := N_of_ascii c in
  if (65 <=? n)%N && (n <=? 80)%N then Some (n - 65)%N else None.

Fixpoint toy_b64_encode (s : string) : string :=
  match s with
  | EmptyString => ""
  | String c s =>
      let n := N_of_ascii c in
      String (nibble (n / 16)) (String (nibble (n mod 16)) (toy_b64_encode s))
  end.
Fixpoint toy_b64_decode (s : string) : option string :=
  match s with
  | EmptyString => Some ""
  | String a (String b s) =>
      x ← of_nibble a; y ← of_nibble b; r ← toy_b64_decode s;
      Some (String (ascii_of_N (x * 16 + y)) r)
  | _ => None
  end.

Lemma of_nibble_nibble n : (n < 16)%N → of_nibble (nibble n) = Some n.
Proof.
  intros Hn. unfold of_nibble, nibble. rewrite N_ascii_embedding by lia.
  rewrite (proj2 (N.leb_le _ _)), (proj2 (N.leb_le _ _)) by lia. simpl. f_equal. lia.
Qed.

Lemma toy_b64_round_trip s : toy_b64_decode (toy_b64_encode s) = Some s.
Proof.
  induction s as [|c s IH]; [done|]. cbn [toy_b64_encode toy_b64_decode].
  pose proof (N_ascii_bounded c) as Hc.
  rewrite !of_nibble_nibble, IH by (apply N.Div0.div_lt_upper_bound || apply N.mod_lt; lia).
  simpl. do 2 f_equal. rewrite <-(ascii_N_embedding c) at 3. f_equal.
  pose proof (N.div_mod (N_of_ascii c) 16). lia.
Qed.

Lemma toy_b64_alphabet c s : (N_of_ascii c < 65)%N → str_has c (toy_b64_encode s) = false.
Proof.
  intros Hc65.
  assert (∀ n, (n < 16)%N → bool_decide (c = nibble n) = false) as Hn.
  { intros n Hlt. apply bool_decide_eq_false_2. intros Heq%(f_equal N_of_ascii).
    unfold nibble in Heq. rewrite N_ascii_embedding in Heq by lia. lia. }
  induction s as [|d s IH]; [done|]. cbn [toy_b64_encode str_has].
  pose proof (N_ascii_bounded d) as Hc.
  rewrite !Hn, IH by (apply N.Div0.div_lt_upper_bound || apply N.mod_lt; lia). done.
Qed.

Definition toy_dh (a b : string) : string :=
  if String.leb a b then pad 32 (pad 16 a +:+ b) else pad 32 (pad 16 b +:+ a).

Definition toy_peer_id (s : string) : option string :=
  if negb (str_is_empty s) && negb (str_has "000" s) && negb (str_has "," s) then Some s else None.

Definition strip_prefix (p s : string) : option string :=
  if String.prefix p s
  then Some (String.substring (String.length p) (String.length s - String.length p) s) else None.

Lemma substring_app_r p s : String.substring (String.length p) (String.length s) (p +:+ s) = s.
Proof.
  induction p as [|c p IH]; simpl.
  - induction s as [|d s IH]; [done|]. rewrite string_app_nil_l in *. simpl. by f_equal.
  - apply IH.
Qed.

Lemma strip_prefix_app p s : strip_prefix p (p +:+ s) = Some s.
Proof.
  unfold strip_prefix. rewrite string_length_app.
  replace (_ + _ - _) with (String.length s) by lia. rewrite substring_app_r.
  assert (String.prefix p (p +:+ s) = true) as ->; [|done].
  induction p as [|c p IH]; [by destruct s|]. rewrite string_app_cons. simpl.
  by destruct (ascii_dec c c).
Qed.

Definition toy_crypto : Crypto := {|
  sha256 := pad 32;
  hmac_sha256 k s := pad 32 (pad 8 k +:+ s);
  hkdf_sha256 salt ikm info := pad 32 (pad 4 info +:+ pad 8 ikm +:+ salt);
  b64_encode := toy_b64_encode;
  b64_decode := toy_b64_decode;
  b64url_encode := toy_b64_encode;
  b64url_decode := toy_b64_decode;
  ed_public := pad 32;
  ed_sign k m := pad 64 (pad 32 k +:+ m);
  ed_key_ok _ := true;
  ed_verify k m s := bool_decide (s = pad 64 (pad 32 k +:+ m));
  x_public := pad 32;
  x_dh := toy_dh;
  aead_encrypt k n m := Some (k +:+ n +:+ m);
  aead_decrypt k n c := strip_prefix (k +:+ n) c;
  peer_id_bytes := toy_peer_id;
|}.

Lemma toy_dh_comm a b : toy_dh a b = toy_dh b a.
Proof.
  unfold toy_dh, String.leb. rewrite (String.compare_antisym b a).
  destruct (String.compare a b) eqn:E; simpl; [|done..].
  by apply String.compare_eq_iff in E as ->.
Qed.

Lemma toy_crypto_laws : @CryptoLaws toy_crypto.
Proof.
  split; simpl; intros *; rewrite ?pad_length; auto using toy_b64_round_trip, toy_b64_alphabet.
  - by apply toy_b64_alphabet.
  - by apply toy_b64_alphabet.
  - intros Hs. rewrite !(pad_id 32 s) by done. by apply bool_decide_eq_true_2.
  - intros Ha Hb. rewrite !(pad_id 32) by done. apply toy_dh_comm.
  - intros [= <-]. rewrite <-string_app_assoc. apply strip_prefix_app.
  - unfold toy_peer_id. destruct (str_is_empty s), (str_has "000" s), (str_has "," s); simpl; by try intros [? [=]].
  - unfold toy_peer_id. destruct (str_is_empty s) eqn:He, (str_has "000" s), (str_has "," s); simpl;
      intros [? [=]]. by apply str_is_empty_false in He.
Qed.

(** Imported where an example runs the definitions. *)
Module Toy.
  #[export] Existing Instance toy_crypto.
  #[export] Existing Instance toy_crypto_laws.
  #[export] Existing Instance countable_codec.
  #[export] Existing Instance countable_codec_laws.
  #[export] Existing Instance countable_codec_text.
  #[export] Existing Instance countable_codec_total.
  #[export] Existing Instance codec_laws_inj.
End Toy.
