(* ===== verification/Authority.v ===== *)
(** * The authority key and signed records: [src/src/authority.rs]

    The authority holds the Ed25519 seed of a network and signs the records the
    DHT stores: the index and one whitelist per service, each a [COSE_Sign1]
    whose external AAD is the record's key. *)
From S2P Require Import Prelude Fsutil Crypto.

(** ** Constants and names *)

Definition MAX_DOC_BYTES : N := 1048576.
Definition MAX_MEMBERS : N := 100000.
Definition MAX_SERVICES : N := 10000.
Definition RESERVED_SERVICE : string := "service".
Definition AUTH_PREFIX : string := "/oahd/auth".
Definition SEED_LEN : nat := 32.
Definition MAX_NAME_LEN : N := 64.

Inductive AuthorityError :=
  | AuthIo (e : IoError)
  | InvalidSeed
  | InvalidName
  | Cose.
Global Instance AuthorityError_eq_dec : EqDecision AuthorityError.
Proof. solve_decision. Defined.

Definition authority_error_text (e : AuthorityError) : string :=
  match e with
  | AuthIo e => "io error: " +:+ io_text e
  | InvalidSeed => "invalid authority seed (need 32 bytes)"
  | InvalidName => "invalid network or service name"
  | Cose => "cose encoding error"
  end.

(** [u8::is_ascii_alphanumeric]. *)
Definition is_ascii_alphanumeric (c : ascii) : bool :=
  let n := N_of_ascii c in
  ((48 <=? n) && (n <=? 57) || (65 <=? n) && (n <=? 90) || (97 <=? n) && (n <=? 122))%N.

Fixpoint str_all (f : ascii → bool) (s : string) : bool :=
  match s with
  | EmptyString => true
  | String c s => f c && str_all f s
  end.

Definition is_valid_network_name (s : string) : bool :=
  negb (str_is_empty s) && (str_len s <=? MAX_NAME_LEN)%N &&
  str_all (λ b, is_ascii_alphanumeric b || bool_decide (b = "_"%char) || bool_decide (b = "-"%char)) s.

Definition is_valid_service_name (s : string) : bool :=
  is_valid_network_name s && bool_decide (s ≠ RESERVED_SERVICE).

(** ** Documents *)

Record ServiceEntry := MkServiceEntry { e_name : string; e_hash : string; e_length : N }.
Record IndexDoc := MkIndexDoc { ix_version : N; ix_expires_at : N; ix_services : list ServiceEntry }.
Record WhitelistDoc := MkWhitelistDoc { wl_version : N; wl_members : list string }.

Global Instance ServiceEntry_eq_dec : EqDecision ServiceEntry.
Proof. solve_decision. Defined.
Global Instance ServiceEntry_countable : Countable ServiceEntry.
Proof.
  refine (inj_countable' (λ e, (e_name e, e_hash e, e_length e))
    (λ '(a, b, c), MkServiceEntry a b c) _). by intros [].
Defined.
Global Instance IndexDoc_eq_dec : EqDecision IndexDoc.
Proof. solve_decision. Defined.
Global Instance IndexDoc_countable : Countable IndexDoc.
Proof.
  refine (inj_countable' (λ d, (ix_version d, ix_expires_at d, ix_services d))
    (λ '(a, b, c), MkIndexDoc a b c) _). by intros [].
Defined.
Global Instance WhitelistDoc_eq_dec : EqDecision WhitelistDoc.
Proof. solve_decision. Defined.
Global Instance WhitelistDoc_countable : Countable WhitelistDoc.
Proof.
  refine (inj_countable' (λ d, (wl_version d, wl_members d)) (λ '(a, b), MkWhitelistDoc a b) _).
  by intros [].
Defined.

(** ** [coset]

    A [CoseSign1]: the protected header (its algorithm and the bytes that go into
    the signed structure), the payload and the signature.  The crate's encoder,
    decoder and [Sig_structure] (RFC 9052) are parameters. *)

Record ProtectedHeader := MkProtectedHeader { ph_alg : option Z; ph_bytes : string }.
Record CoseSign1 := MkCoseSign1 {
  cs_protected : ProtectedHeader; cs_payload : option string; cs_signature : string
}.
Global Instance ProtectedHeader_eq_dec : EqDecision ProtectedHeader.
Proof. solve_decision. Defined.
Global Instance CoseSign1_eq_dec : EqDecision CoseSign1.
Proof. solve_decision. Defined.
Global Instance CoseSign1_countable : Countable CoseSign1.
Proof.
  refine (inj_countable'
    (λ c, (ph_alg (cs_protected c), ph_bytes (cs_protected c), cs_payload c, cs_signature c))
    (λ '(a, b, p, s), MkCoseSign1 (MkProtectedHeader a b) p s) _).
  by intros [[]].
Defined.

(** [iana::Algorithm::EdDSA]. *)
Definition EdDSA : Z := -8.

Class Coset := {
  cose_header : Z → ProtectedHeader;
  cose_sig_structure : string → string → string → string;
  cose_codec :: Codec Cbor CoseSign1;
}.

Class CosetLaws `{Coset} : Prop := {
  cose_header_alg a : ph_alg (cose_header a) = Some a;
  cose_round_trip :: CodecLaws Cbor CoseSign1;
  cose_sig_structure_inj h1 a1 p1 h2 a2 p2 :
    cose_sig_structure h1 a1 p1 = cose_sig_structure h2 a2 p2 → h1 = h2 ∧ a1 = a2 ∧ p1 = p2;
}.

(** A concrete instance. *)
Definition toy_coset : Coset := {|
  cose_header a := MkProtectedHeader (Some a) (pretty a);
  cose_sig_structure h a p := bits_of_pos (encode (h, a, p));
  cose_codec := countable_codec Cbor CoseSign1;
|}.

Lemma toy_coset_laws : @CosetLaws toy_coset.
Proof.
  split; simpl; intros *; [done|apply countable_codec_laws|].
  intros Heq%(f_equal pos_of_bits). rewrite !pos_of_bits_of_pos in Heq.
  apply (inj Some), (inj encode) in Heq. naive_solver.
Qed.

(** ** The authority *)

Section authority.
Context `{Crypto, Coset, Codec Cbor IndexDoc, Codec Cbor WhitelistDoc}.

(** [SigningKey] is its 32 byte seed. *)
Record Authority := MkAuthority {
  signing_key : string; au_network : string; au_net_hash : string
}.

Definition is_valid_peer_id (s : string) : bool := bool_decide (is_Some (peer_id_bytes s)).

Definition content_hash (value : string) : string := sha256 value.

Definition net_hash (name : string) : string := b64url_encode (sha256 name).

Definition index_key_for (network : string) : string :=
  AUTH_PREFIX +:+ "/" +:+ net_hash network +:+ "/" +:+ RESERVED_SERVICE.

Definition from_seed (seed network : string) : result AuthorityError Authority :=
  if negb (is_valid_network_name network) then Err InvalidName
  else Ok (MkAuthority seed network (net_hash network)).

Definition seed_of_bytes (bytes : string) : result AuthorityError string :=
  if bool_decide (String.length bytes ≠ SEED_LEN) then Err InvalidSeed else Ok bytes.

Definition load (p : path) (network : string) : ST Fs AuthorityError Authority :=
  bytes ← st_map_err AuthIo (fs_read p);
  seed ← st_lift (seed_of_bytes bytes);
  st_lift (from_seed seed network).

(** [rng] is what [OsRng] fills the seed with. *)
Definition load_or_create (rng : string) (p : path) (network : string)
    : ST Fs AuthorityError Authority := λ fs,
  match fs_read p fs with
  | (Ok bytes, fs) => (seed ← st_lift (seed_of_bytes bytes); st_lift (from_seed seed network)) fs
  | (Err e, fs) =>
      if bool_decide (io_kind e = NotFound) then
        (st_map_err AuthIo (atomic_write p rng (Some 384%N)) ;; st_lift (from_seed rng network)) fs
      else (Err (AuthIo e), fs)
  end.

Definition generate (rng network : string) : result AuthorityError Authority :=
  from_seed rng network.

Definition public_key_bytes (a : Authority) : string := ed_public (signing_key a).
Definition public_key_b64 (a : Authority) : string := b64_encode (public_key_bytes a).

Definition index_key (a : Authority) : string :=
  AUTH_PREFIX +:+ "/" +:+ au_net_hash a +:+ "/" +:+ RESERVED_SERVICE.

Definition service_key (a : Authority) (service : string) : result AuthorityError string :=
  if negb (is_valid_service_name service) then Err InvalidName
  else Ok (AUTH_PREFIX +:+ "/" +:+ au_net_hash a +:+ "/" +:+ service).

Definition sign_payload (a : Authority) (aad payload : string) : result AuthorityError string :=
  let protected := cose_header EdDSA in
  let signature := ed_sign (signing_key a) (cose_sig_structure (ph_bytes protected) aad payload) in
  map_err (λ _, Cose) (encode_to Cbor (MkCoseSign1 protected (Some payload) signature)).

Definition sign_index (a : Authority) (doc : IndexDoc) : result AuthorityError string :=
  payload ← map_err (λ _, Cose) (encode_to Cbor doc);
  sign_payload a (index_key a) payload.

Definition sign_whitelist (a : Authority) (service : string) (doc : WhitelistDoc)
    : result AuthorityError string :=
  key ← service_key a service;
  payload ← map_err (λ _, Cose) (encode_to Cbor doc);
  sign_payload a key payload.

Definition verify_cose_sign1 (public_key aad value : string) : result AuthorityError string :=
  sign1 ← map_err (λ _, Cose) (decode_from Cbor (A := CoseSign1) value);
  if bool_decide (ph_alg (cs_protected sign1) ≠ Some EdDSA) then Err Cose
  else if negb (ed_key_ok public_key) then Err Cose
  else
    let data := cose_sig_structure (ph_bytes (cs_protected sign1)) aad
                  (default "" (cs_payload sign1)) in
    if bool_decide (String.length (cs_signature sign1) ≠ 64) then Err Cose
    else if negb (ed_verify public_key data (cs_signature sign1)) then Err Cose
    else ok_or (cs_payload sign1) Cose.
End authority.
Global Instance Authority_eq_dec : EqDecision Authority.
Proof. solve_decision. Defined.

(** ** Properties *)

Section authority_properties.
Context `{CryptoLaws, CosetLaws, Codec Cbor IndexDoc, Codec Cbor WhitelistDoc}.

Lemma sign_payload_verified a aad payload value :
  String.length (signing_key a) = SEED_LEN → sign_payload a aad payload = Ok value →
  verify_cose_sign1 (public_key_bytes a) aad value = Ok payload.
Proof.
  intros Hlen Henc%map_err_Ok. unfold verify_cose_sign1, public_key_bytes.
  rewrite (codec_round_trip _ _ Henc). cbn -[String.length].
  rewrite cose_header_alg, bool_decide_eq_false_2 by naive_solver.
  rewrite ed_public_ok by done. cbn -[String.length].
  rewrite bool_decide_eq_false_2 by (rewrite ed_sign_length; naive_solver).
  by rewrite ed_verify_sign.
Qed.

Lemma net_hash_no_slash a seed network :
  from_seed seed network = Ok a → str_has "/" (au_net_hash a) = false.
Proof. unfold from_seed. case_match; [done|]. intros [= <-]. apply b64url_alphabet. Qed.

Lemma record_key_inj h1 s1 h2 s2 :
  str_has "/" h1 = false → str_has "/" h2 = false →
  AUTH_PREFIX +:+ "/" +:+ h1 +:+ "/" +:+ s1 = AUTH_PREFIX +:+ "/" +:+ h2 +:+ "/" +:+ s2 →
  h1 = h2 ∧ s1 = s2.
Proof.
  intros ?? Heq. apply string_app_inj_len in Heq as [_ Heq]; [|done].
  apply string_app_inj_len in Heq as [_ Heq]; [|done].
  by apply (string_app_sep_inj "/") in Heq.
Qed.

(** A whitelist record signed by an authority verifies under that
    authority's public key with the service's DHT key as AAD, and the verified
    payload decodes to exactly the document that was signed: the sidecar's
    writing side and the node's reading side of the record format agree. *)
Theorem sign_whitelist_verifies `{!CodecLaws Cbor WhitelistDoc} seed network a service doc value :
  String.length seed = SEED_LEN → from_seed seed network = Ok a →
  sign_whitelist a service doc = Ok value →
  ∃ key payload, service_key a service = Ok key
    ∧ verify_cose_sign1 (public_key_bytes a) key value = Ok payload
    ∧ decode_from Cbor payload = Ok doc.
Proof.
  intros Hlen Ha (key & Hkey & (payload & Hp%map_err_Ok & Hs)%bind_Ok)%bind_Ok.
  exists key, payload. split_and!; [done| |by apply codec_round_trip].
  apply sign_payload_verified; [|done].
  revert Ha. unfold from_seed. case_match; [done|]. by intros [= <-].
Qed.

(** DHT keys do not collide: the keys of two services of two networks are
    equal only when the service names and the network hashes are, and no
    service name yields the key of an index record (the reserved name is
    refused). *)
Theorem service_keys_distinct seed1 net1 a1 seed2 net2 a2 s1 s2 k :
  from_seed seed1 net1 = Ok a1 → from_seed seed2 net2 = Ok a2 →
  service_key a1 s1 = Ok k →
  (service_key a2 s2 = Ok k → net_hash net1 = net_hash net2 ∧ s1 = s2) ∧ k ≠ index_key a2.
Proof.
  intros Ha1 Ha2. pose proof (net_hash_no_slash _ _ _ Ha1). pose proof (net_hash_no_slash _ _ _ Ha2).
  assert (∀ s n a, from_seed s n = Ok a → au_net_hash a = net_hash n) as Hn.
  { intros s n a. unfold from_seed. case_match; [done|]. by intros [= <-]. }
  rewrite <-(Hn _ _ _ Ha1), <-(Hn _ _ _ Ha2). unfold service_key, index_key, is_valid_service_name.
  case_match eqn:Hv; [done|]. bool_tests. intros <-%(inj Ok). split.
  - case_match; [done|]. intros Heq%(inj Ok). symmetry in Heq. by apply record_key_inj in Heq.
  - intros Heq. by apply record_key_inj in Heq as [_ ?].
Qed.

(** Whatever file operations fail while a key is loaded or created, a
    [load_or_create] that succeeds has left the key on disk: loading the file
    again gives the same authority. *)
Theorem load_or_create_persists rng p network fs a fs' fs'' :
  String.length rng = SEED_LEN → with_extension p "tmp" ≠ p →
  load_or_create rng p network fs = (Ok a, fs') →
  fs_files fs'' = fs_files fs' → fs_faults fs'' = [] →
  load p network fs'' = (Ok a, fs'').
Proof.
  intros Hrng Hne Hl Hfs Hnf.
  assert (∃ m, fs_files fs' !! p = Some (MkFile (signing_key a) m)
      ∧ String.length (signing_key a) = SEED_LEN
      ∧ from_seed (signing_key a) network = Ok a) as (m & Hf & Hlen & Hseed).
  { revert Hl. unfold load_or_create. pose proof (fs_read_files p fs) as Hfiles.
    destruct (fs_read p fs) as [[bytes|e] fs1] eqn:Hr; simpl in Hfiles.
    - unfold mbind, ST_bind, st_lift, seed_of_bytes. case_bool_decide as Hb; [done|].
      intros [= Hs <-]. assert (signing_key a = bytes) as ->.
      { revert Hs. unfold from_seed. case_match; [done|]. by intros [= <-]. }
      revert Hr. unfold fs_read. destruct (next_fault fs) as [[f|] fs2] eqn:Hn; [done|].
      intros [= Hd%ok_or_Ok ->]. apply fmap_Some in Hd as ([d m] & Hd & ->). simpl.
      exists m. rewrite Hd. split_and!; [done| |done].
      by destruct (decide (String.length d = SEED_LEN)).
    - case_bool_decide; [|done]. unfold mbind, ST_bind, st_map_err, st_lift.
      pose proof (atomic_write_spec p rng (Some 384%N) fs1 Hne) as Haw.
      destruct (atomic_write p rng (Some 384%N) fs1) as [[[]|] fs2]; [|done]. simpl.
      intros [= Hs <-]. destruct Haw as (_ & m & Hf & _).
      assert (signing_key a = rng) as ->; [|by eauto].
      revert Hs. unfold from_seed. case_match; [done|]. by intros [= <-]. }
  unfold load, mbind, ST_bind, st_map_err, fs_read, next_fault, st_lift, seed_of_bytes.
  rewrite Hnf, Hfs, Hf. cbn -[bool_decide].
  rewrite bool_decide_eq_false_2 by (intros Hn; exact (Hn Hlen)). by rewrite Hseed.
Qed.
End authority_properties.

(** ** Examples *)

Section authority_examples.
Import Toy.
#[local] Existing Instance toy_coset.
#[local] Existing Instance toy_coset_laws.

Definition ex_seed : string := pad 32 "seed".
Definition ex_authority : Authority := MkAuthority ex_seed "net" (net_hash "net").

Lemma sign_whitelist_verifies_witness :
  ∃ value key payload,
    sign_whitelist ex_authority "web" (MkWhitelistDoc 3 ["alice"]) = Ok value
    ∧ service_key ex_authority "web" = Ok key
    ∧ verify_cose_sign1 (public_key_bytes ex_authority) key value = Ok payload
    ∧ decode_from Cbor payload = Ok (MkWhitelistDoc 3 ["alice"]).
Proof.
  destruct (sign_whitelist ex_authority "web" (MkWhitelistDoc 3 ["alice"])) as [value|] eqn:E;
    [|vm_compute in E; discriminate].
  destruct (sign_whitelist_verifies ex_seed "net" ex_authority "web"
    (MkWhitelistDoc 3 ["alice"]) value) as (key & payload & Hk & Hv & Hd);
    [reflexivity|reflexivity|exact E|].
  exists value, key, payload. split_and!; [reflexivity|exact Hk|exact Hv|exact Hd].
Defined.

Lemma service_keys_distinct_witness :
  ∃ k, service_key ex_authority "web" = Ok k ∧ k ≠ index_key ex_authority.
Proof.
  eexists. split; [reflexivity|].
  eapply (service_keys_distinct ex_seed "net" ex_authority ex_seed "net" ex_authority "web" "web");
    reflexivity.
Defined.

Lemma load_or_create_persists_witness :
  load ["auth"; "authority.key"] "net"
    (load_or_create ex_seed ["auth"; "authority.key"] "net" (MkFs ∅ ∅ 18 [])).2
  = (Ok ex_authority,
     (load_or_create ex_seed ["auth"; "authority.key"] "net" (MkFs ∅ ∅ 18 [])).2).
Proof.
  eapply (load_or_create_persists ex_seed ["auth"; "authority.key"] "net" (MkFs ∅ ∅ 18 [])
    ex_authority); [reflexivity|vm_compute; discriminate| |reflexivity|reflexivity].
  vm_compute. reflexivity.
Defined.
End authority_examples.
