(* ===== verification/Replay.v ===== *)
(** * Nonce replay guard: [src/src/replay.rs]

    A bounded memory of the nonces that were accepted, shared by the admin, join
    and replication authenticators. *)
From S2P Require Import Prelude.

Definition MAX_SEEN_NONCES : nat := N.to_nat 10000.
Global Opaque MAX_SEEN_NONCES.

Inductive ReplayError := ReplayEmpty | ReplaySeen.
Global Instance ReplayError_eq_dec : EqDecision ReplayError.
Proof. solve_decision. Defined.

Record ReplayGuard := MkReplayGuard { rg_seen : gset string; rg_order : list string }.

Definition ReplayGuard_default : ReplayGuard := MkReplayGuard ∅ [].

(** The [while self.order.len() > MAX_SEEN_NONCES] loop. *)
Fixpoint evict (seen : gset string) (order : list string) : ReplayGuard :=
  match order with
  | old :: rest =>
      if bool_decide (MAX_SEEN_NONCES < length order)
      then evict (seen ∖ {[old]}) rest
      else MkReplayGuard seen order
  | [] => MkReplayGuard seen []
  end.

Definition check_and_insert (nonce : string) : ST ReplayGuard ReplayError unit := λ g,
  if str_is_empty nonce then (Err ReplayEmpty, g)
  else if bool_decide (nonce ∈ rg_seen g) then (Err ReplaySeen, g)
  else (Ok (), evict ({[nonce]} ∪ rg_seen g) (rg_order g ++ [nonce])).

(** ** Specification

    The guard is a sliding window: the set of the last [MAX_SEEN_NONCES] accepted
    nonces. *)

Definition lastn {A} (n : nat) (l : list A) : list A := drop (length l - n) l.

Definition guard_ok (g : ReplayGuard) : Prop :=
  rg_seen g = list_to_set (rg_order g) ∧ NoDup (rg_order g) ∧ length (rg_order g) ≤ MAX_SEEN_NONCES.

(** A sequence of calls: the guard after it and the nonces it accepted. *)
Fixpoint run_guard (ns : list string) (g : ReplayGuard) : list string * ReplayGuard :=
  match ns with
  | [] => ([], g)
  | n :: ns =>
      let '(r, g1) := check_and_insert n g in
      let '(acc, g2) := run_guard ns g1 in
      (if is_ok r then n :: acc else acc, g2)
  end.

Lemma lastn_length {A} n (l : list A) : length (lastn n l) = length l `min` n.
Proof. unfold lastn. rewrite length_drop. lia. Qed.

Lemma lastn_all {A} n (l : list A) : length l ≤ n → lastn n l = l.
Proof. intros. unfold lastn. by replace (length l - n) with 0 by lia. Qed.

Lemma lastn_app_r {A} n (l k : list A) : length k ≤ n → ∃ p, lastn n (l ++ k) = p ++ k.
Proof.
  intros. unfold lastn. rewrite length_app. exists (drop (length l + length k - n) l).
  by rewrite drop_app_le by lia.
Qed.

Lemma lastn_lastn_app {A} n (l k : list A) : lastn n (lastn n l ++ k) = lastn n (l ++ k).
Proof.
  unfold lastn. rewrite !length_app, length_drop.
  destruct (decide (length l ≤ n)).
  - replace (length l - n) with 0 by lia. by rewrite drop_0, Nat.sub_0_r.
  - rewrite <-(drop_app_le l k (length l - n)) by lia. rewrite drop_drop. f_equal. lia.
Qed.

Lemma evict_spec order : NoDup order →
  evict (list_to_set order) order
  = MkReplayGuard (list_to_set (lastn MAX_SEEN_NONCES order)) (lastn MAX_SEEN_NONCES order).
Proof.
  induction order as [|old rest IH]; intros Hnd; [done|]. cbn [evict].
  apply NoDup_cons in Hnd as [Hni Hnd]. case_bool_decide as Hl.
  - replace (list_to_set (old :: rest) ∖ {[old]} : gset string) with (list_to_set rest : gset string).
    2:{ apply set_eq. intros x. simpl. set_solver. }
    rewrite IH by done. simpl in Hl. unfold lastn. simpl length.
    by replace (S (length rest) - MAX_SEEN_NONCES)
      with (S (length rest - MAX_SEEN_NONCES)) by lia.
  - by rewrite lastn_all by lia.
Qed.

(** One call, on a guard that is a window. *)
Lemma check_and_insert_spec nonce g : guard_ok g →
  check_and_insert nonce g =
    if str_is_empty nonce then (Err ReplayEmpty, g)
    else if bool_decide (nonce ∈ rg_order g) then (Err ReplaySeen, g)
    else let o := lastn MAX_SEEN_NONCES (rg_order g ++ [nonce]) in
         (Ok (), MkReplayGuard (list_to_set o) o).
Proof.
  intros (Hs & Hnd & _). unfold check_and_insert. destruct (str_is_empty nonce); [done|].
  rewrite Hs. rewrite (bool_decide_ext _ _ (elem_of_list_to_set nonce (rg_order g))).
  case_bool_decide as Hin; [done|]. f_equal. rewrite <-evict_spec.
  - f_equal. apply set_eq. intros x. set_solver.
  - apply NoDup_app. split_and!; [done| |apply NoDup_singleton]. set_solver.
Qed.

Lemma NoDup_lastn {A} n (l : list A) : NoDup l → NoDup (lastn n l).
Proof.
  unfold lastn. intros Hl. rewrite <-(take_drop (length l - n) l) in Hl.
  by apply NoDup_app in Hl as (_ & _ & ?).
Qed.

Lemma check_and_insert_guard_ok nonce g : guard_ok g → guard_ok (check_and_insert nonce g).2.
Proof.
  intros Hg. rewrite check_and_insert_spec by done. destruct Hg as (Hs & Hnd & Hl).
  destruct (str_is_empty nonce); [done|]. case_bool_decide; [done|]. simpl.
  split_and!; [done| |simpl; rewrite lastn_length; lia].
  apply NoDup_lastn, NoDup_app. split_and!; [done|set_solver|apply NoDup_singleton].
Qed.

Lemma guard_ok_default : guard_ok ReplayGuard_default.
Proof. split_and!; simpl; [done|apply NoDup_nil_2|lia]. Qed.

Lemma run_guard_spec ns g acc g' : guard_ok g → run_guard ns g = (acc, g') →
  guard_ok g' ∧ rg_order g' = lastn MAX_SEEN_NONCES (rg_order g ++ acc).
Proof.
  revert g acc g'. induction ns as [|n ns IH]; intros g acc g' Hg; simpl.
  { intros [= <- <-]. rewrite app_nil_r, lastn_all by apply Hg. done. }
  pose proof (check_and_insert_guard_ok n g Hg) as Hg1.
  pose proof (check_and_insert_spec n g Hg) as Hc.
  destruct (check_and_insert n g) as [r g1]. simpl in Hg1.
  destruct (run_guard ns g1) as [acc1 g2] eqn:Hr. destruct (IH _ _ _ Hg1 Hr) as [Hg2 Ho].
  intros [= <- <-]. split; [done|]. rewrite Ho. revert Hc.
  destruct (str_is_empty n); [by intros [= -> ->]|].
  case_bool_decide; intros [= -> ->]; [done|]. simpl.
  by rewrite lastn_lastn_app, <-app_assoc.
Qed.

(** ** Properties *)

(** From a fresh guard, after any sequence of calls: the hash set and the
    queue agree, the queue has no duplicates, it never holds more than
    [MAX_SEEN_NONCES] nonces, and it is exactly the last [MAX_SEEN_NONCES]
    accepted nonces in order (the guard refines a sliding window). *)
Theorem replay_guard_is_window ns acc g :
  run_guard ns ReplayGuard_default = (acc, g) →
  guard_ok g ∧ rg_order g = lastn MAX_SEEN_NONCES acc.
Proof. intros Hr. by apply (run_guard_spec ns _ _ _ guard_ok_default) in Hr. Qed.

(** No replay inside the window: once a nonce was accepted, it is refused as
    a replay as long as fewer than [MAX_SEEN_NONCES] other nonces were accepted
    since, whatever calls (accepted or refused) were made in between. *)
Theorem accepted_nonce_not_replayed ns0 acc0 g0 nonce g1 ns acc g :
  run_guard ns0 ReplayGuard_default = (acc0, g0) →
  check_and_insert nonce g0 = (Ok (), g1) →
  run_guard ns g1 = (acc, g) → length acc < MAX_SEEN_NONCES →
  check_and_insert nonce g = (Err ReplaySeen, g).
Proof.
  intros Hr0 Hc Hr Hl. destruct (run_guard_spec _ _ _ _ guard_ok_default Hr0) as [Hg0 _].
  pose proof (check_and_insert_guard_ok nonce g0 Hg0) as Hg1. rewrite Hc in Hg1.
  destruct (run_guard_spec _ _ _ _ Hg1 Hr) as [Hg Ho].
  rewrite check_and_insert_spec in Hc by done. rewrite check_and_insert_spec by done.
  destruct (str_is_empty nonce); [done|]. case_bool_decide; [done|].
  injection Hc as <-. rewrite bool_decide_eq_true_2; [done|]. rewrite Ho. simpl.
  rewrite lastn_lastn_app, <-app_assoc. simpl.
  destruct (lastn_app_r MAX_SEEN_NONCES (rg_order g0) (nonce :: acc)) as [p ->]; [simpl; lia|].
  set_solver.
Qed.

(** ** Examples *)

Lemma replay_guard_is_window_witness :
  rg_order (run_guard ["a"; "b"; "a"; ""] ReplayGuard_default).2
  = lastn MAX_SEEN_NONCES ["a"; "b"].
Proof. apply (replay_guard_is_window ["a"; "b"; "a"; ""]). vm_compute. reflexivity. Defined.

Lemma accepted_nonce_not_replayed_witness :
  let g := (run_guard ["b"; "c"] (check_and_insert "a" ReplayGuard_default).2).2 in
  check_and_insert "a" g = (Err ReplaySeen, g).
Proof.
  eapply (accepted_nonce_not_replayed [] [] _ "a" _ ["b"; "c"]); [reflexivity|vm_compute; reflexivity..|].
  apply Nat.ltb_lt. vm_compute. reflexivity.
Defined.
