(* ===== verification/Store.v ===== *)
(** * Membership store: [src/src/store.rs]

    The services of a network with their member sets and versions, tombstones of
    deleted services, and the index version.  Every mutation is written to a TOML
    file; the merge operations serve replication between sidecars.

    An operation on [&mut Store] acts on the store in memory and on the file
    system; the state after an error is part of the result. *)
From S2P Require Import Prelude Fsutil Crypto Authority.

(** ** Data *)

Inductive StoreError :=
  | StoreIo (e : IoError)
  | StoreParse (e : string)
  | NetworkMismatch (expected found : string)
  | InvalidService (s : string)
  | InvalidPeer (p : string)
  | ServiceNotFound (s : string)
  | ServiceExists (s : string)
  (** Not a value of the Rust type: an [expect] or an index that panics. *)
  | StorePanic (msg : string).
Global Instance StoreError_eq_dec : EqDecision StoreError.
Proof. solve_decision. Defined.

Definition store_error_text (e : StoreError) : string :=
  match e with
  | StoreIo e => "io error: " +:+ io_text e
  | StoreParse e => "state parse error: " +:+ e
  | NetworkMismatch x f =>
      "state network mismatch: expected '" +:+ x +:+ "', found '" +:+ f +:+ "'"
  | InvalidService s => "invalid service name: '" +:+ s +:+ "'"
  | InvalidPeer p => "invalid peer id: '" +:+ p +:+ "'"
  | ServiceNotFound s => "service not found: '" +:+ s +:+ "'"
  | ServiceExists s => "service already exists: '" +:+ s +:+ "'"
  | StorePanic m => m
  end.

Record ServiceState := MkServiceState { st_version : N; st_members : gset string }.
Global Instance ServiceState_eq_dec : EqDecision ServiceState.
Proof. solve_decision. Defined.
Global Instance ServiceState_countable : Countable ServiceState.
Proof.
  refine (inj_countable' (λ s, (st_version s, st_members s)) (λ '(v, m), MkServiceState v m) _).
  by intros [].
Defined.

Record StoreSnapshot := MkStoreSnapshot {
  sn_network : string;
  sn_index_version : N;
  sn_services : gmap string ServiceState;
  sn_tombstones : gmap string N;
}.
Global Instance StoreSnapshot_eq_dec : EqDecision StoreSnapshot.
Proof. solve_decision. Defined.
Global Instance StoreSnapshot_countable : Countable StoreSnapshot.
Proof.
  refine (inj_countable' (λ s, (sn_network s, sn_index_version s, sn_services s, sn_tombstones s))
    (λ '(n, i, s, t), MkStoreSnapshot n i s t) _).
  by intros [].
Defined.

Record Store := MkStore {
  s_path : path;
  s_network : string;
  s_index_version : N;
  s_services : gmap string ServiceState;
  s_tombstones : gmap string N;
}.
Global Instance Store_eq_dec : EqDecision Store.
Proof. solve_decision. Defined.

Definition set_services (s : Store) (m : gmap string ServiceState) : Store :=
  MkStore (s_path s) (s_network s) (s_index_version s) m (s_tombstones s).
Definition set_tombstones (s : Store) (t : gmap string N) : Store :=
  MkStore (s_path s) (s_network s) (s_index_version s) (s_services s) t.
Definition set_index (s : Store) (i : N) : Store :=
  MkStore (s_path s) (s_network s) i (s_services s) (s_tombstones s).

(** ** Operations *)

Section store.
Context `{Crypto, Codec Toml StoreSnapshot}.

Fixpoint validate_peers (peers : list string) : result StoreError unit :=
  match peers with
  | [] => Ok ()
  | p :: peers => if negb (is_valid_peer_id p) then Err (InvalidPeer p) else validate_peers peers
  end.

(** The buffer [members_hash] digests: every member followed by a NUL, in order. *)
Definition members_buf (members : gset string) : string :=
  str_concat ((λ m, m +:+ nul) <$> btree_set members).

Definition members_hash (members : gset string) : string := content_hash (members_buf members).

Definition snapshot (s : Store) : StoreSnapshot :=
  MkStoreSnapshot (s_network s) (s_index_version s) (s_services s) (s_tombstones s).

Definition save (s : Store) : ST Fs StoreError unit :=
  toml_string ← st_lift (map_err StoreParse (encode_to Toml (snapshot s)));
  st_map_err StoreIo (atomic_write (s_path s) toml_string (Some 384%N)).

(** The two loops of the first start: the services of the configuration, in key
    order, each with its members in the order of the file. *)
Fixpoint seed_members (members : list string) (set : gset string) : result StoreError (gset string) :=
  match members with
  | [] => Ok set
  | m :: members =>
      if negb (is_valid_peer_id m) then Err (InvalidPeer m) else seed_members members ({[m]} ∪ set)
  end.
Fixpoint seed_services (initial : list (string * list string)) (services : gmap string ServiceState)
    : result StoreError (gmap string ServiceState) :=
  match initial with
  | [] => Ok services
  | (name, members) :: initial =>
      if negb (is_valid_service_name name) then Err (InvalidService name)
      else set ← seed_members members ∅;
           seed_services initial (<[name := MkServiceState 1 set]> services)
  end.

Definition load_or_create (p : path) (network : string) (initial : gmap string (list string))
    : ST Fs StoreError Store := λ fs,
  match fs_read_to_string p fs with
  | (Ok content, fs) =>
      (file ← map_err StoreParse (decode_from Toml content);
       if bool_decide (sn_network file ≠ network)
       then Err (NetworkMismatch network (sn_network file))
       else Ok (MkStore p network (sn_index_version file) (sn_services file) (sn_tombstones file)),
       fs)
  | (Err e, fs) =>
      if bool_decide (io_kind e = NotFound) then
        (services ← st_lift (seed_services (btree_entries initial) ∅);
         let store := MkStore p network 1 services ∅ in
         save store ;; mret store) fs
      else (Err (StoreIo e), fs)
  end.

Definition from_snapshot (p : path) (network : string) (snap : StoreSnapshot)
    : ST Fs StoreError Store :=
  if bool_decide (sn_network snap ≠ network)
  then st_err (NetworkMismatch network (sn_network snap))
  else
    let store := MkStore p network (sn_index_version snap) (sn_services snap) (sn_tombstones snap) in
    save store ;; mret store.

Definition service_names (s : Store) : list string := btree_keys (s_services s).
Definition contains (s : Store) (service : string) : bool :=
  bool_decide (is_Some (s_services s !! service)).
Definition version (s : Store) (service : string) : option N := st_version <$> s_services s !! service.
Definition members (s : Store) (service : string) : option (list string) :=
  (λ st, btree_set (st_members st)) <$> s_services s !! service.
Definition member_count (s : Store) (service : string) : option nat :=
  (λ st, size (st_members st)) <$> s_services s !! service.

(** [for p in peers { changed |= members.insert(p) }], and the same with [remove]. *)
Fixpoint insert_all (peers : list string) (members : gset string) (changed : bool) : gset string * bool :=
  match peers with
  | [] => (members, changed)
  | p :: peers => insert_all peers ({[p]} ∪ members) (changed || bool_decide (p ∉ members))
  end.
Fixpoint remove_all (peers : list string) (members : gset string) (changed : bool) : gset string * bool :=
  match peers with
  | [] => (members, changed)
  | p :: peers => remove_all peers (members ∖ {[p]}) (changed || bool_decide (p ∈ members))
  end.

(** [save] from a method of [&mut self]: [self.save()?] and [let _ = self.save()]. *)
Definition save_self : ST (Store * Fs) StoreError unit := λ '(s, fs),
  let '(r, fs) := save s fs in (r, (s, fs)).
Definition save_ignored : ST (Store * Fs) StoreError unit := λ '(s, fs), (Ok (), (s, (save s fs).2)).
Definition set_self (s : Store) : ST (Store * Fs) StoreError unit := λ '(_, fs), (Ok (), (s, fs)).
Definition get_self : ST (Store * Fs) StoreError Store := λ '(s, fs), (Ok s, (s, fs)).

Definition finish_change (service : string) (changed : bool) : ST (Store * Fs) StoreError N :=
  s ← get_self;
  match s_services s !! service with
  | None => st_err (StorePanic "service exists")
  | Some state =>
      if negb changed then mret (st_version state)
      else
        let v := wrap_add64 (st_version state) 1 in
        let s := set_services s (<[service := MkServiceState v (st_members state)]> (s_services s)) in
        set_self (set_index s (wrap_add64 (s_index_version s) 1)) ;;
        save_ignored ;;
        mret v
  end.

(** The body the three member operations share: find the service, compute the
    new member set and whether it changed, finish. *)
Definition with_members (service : string) (f : gset string → gset string * bool)
    : ST (Store * Fs) StoreError N :=
  s ← get_self;
  state ← st_lift (ok_or (s_services s !! service) (ServiceNotFound service));
  let '(m, changed) := f (st_members state) in
  set_self (set_services s (<[service := MkServiceState (st_version state) m]> (s_services s))) ;;
  finish_change service changed.

Definition add_members (service : string) (peers : list string) : ST (Store * Fs) StoreError N :=
  st_lift (validate_peers peers) ;;
  with_members service (λ m, insert_all peers m false).

Definition remove_members (service : string) (peers : list string) : ST (Store * Fs) StoreError N :=
  st_lift (validate_peers peers) ;;
  with_members service (λ m, remove_all peers m false).

Definition set_members (service : string) (peers : list string) : ST (Store * Fs) StoreError N :=
  st_lift (validate_peers peers) ;;
  let new : gset string := list_to_set peers in
  with_members service (λ m, if bool_decide (m ≠ new) then (new, true) else (m, false)).

Definition create_service (service : string) (peers : list string) : ST (Store * Fs) StoreError N :=
  if negb (is_valid_service_name service) then st_err (InvalidService service)
  else
    st_lift (validate_peers peers) ;;
    s ← get_self;
    if contains s service then st_err (ServiceExists service)
    else
      let s := set_services s (<[service := MkServiceState 1 (list_to_set peers)]> (s_services s)) in
      set_self (set_index s (wrap_add64 (s_index_version s) 1)) ;;
      save_self ;;
      mret 1%N.

Definition delete_service (service : string) : ST (Store * Fs) StoreError N :=
  s ← get_self;
  removed ← st_lift (ok_or (s_services s !! service) (ServiceNotFound service));
  let s := set_services s (delete service (s_services s)) in
  let tombstone := wrap_add64 (st_version removed) 1 in
  let s := set_tombstones s (<[service := tombstone]> (s_tombstones s)) in
  set_self (set_index s (wrap_add64 (s_index_version s) 1)) ;;
  save_self ;;
  mret tombstone.

(** ** Merging *)

Definition merge_service (service : string) (version : N) (members : list string) (deleted : bool)
    : ST Store StoreError bool := λ s,
  if negb (is_valid_service_name service) then (Err (InvalidService service), s)
  else
    let current := default 0%N (st_version <$> s_services s !! service) in
    let tombstone := default 0%N (s_tombstones s !! service) in
    if deleted then
      if (version <? current)%N || (version <? tombstone)%N then (Ok false, s)
      else if negb (contains s service) && (version <=? tombstone)%N then (Ok false, s)
      else
        (Ok true,
         set_tombstones (set_services s (delete service (s_services s)))
           (<[service := version]> (s_tombstones s)))
    else
      match validate_peers members with
      | Err e => (Err e, s)
      | Ok _ =>
          if (version <=? tombstone)%N || (version <? current)%N then (Ok false, s)
          else
            let incoming : gset string := list_to_set members in
            let insert :=
              (Ok true,
               set_tombstones (set_services s (<[service := MkServiceState version incoming]> (s_services s)))
                 (delete service (s_tombstones s))) in
            if (version =? current)%N then
              match s_services s !! service with
              | None => (Err (StorePanic "current > 0"), s)
              | Some existing =>
                  if bool_decide (st_members existing = incoming) then (Ok false, s)
                  else if bool_decide
                            (String.le (members_hash incoming) (members_hash (st_members existing)))
                  then (Ok false, s)
                  else insert
              end
            else insert
      end.

Definition merge_entry (service : string) (version : N) (members : list string)
    (index_version : N) (deleted : bool) : ST Store StoreError bool :=
  entry_changed ← merge_service service version members deleted;
  s ← st_get;
  let index_changed := (s_index_version s <? index_version)%N in
  (if index_changed then st_put (set_index s index_version) else mret ()) ;;
  mret (entry_changed || index_changed).

(** A merge on [self], leaving the file system alone. *)
Definition in_memory {A} (m : ST Store StoreError A) : ST (Store * Fs) StoreError A := λ '(s, fs),
  let '(r, s) := m s in (r, (s, fs)).

Definition apply_replicated (service : string) (version : N) (members : list string)
    (index_version : N) (deleted : bool) : ST (Store * Fs) StoreError bool :=
  changed ← in_memory (merge_entry service version members index_version deleted);
  (if changed : bool then save_self else mret ()) ;;
  mret changed.

(** The entries a snapshot is merged as, in the order of the two loops. *)
Record Entry := MkEntry {
  en_service : string; en_version : N; en_members : list string; en_index : N; en_deleted : bool
}.

Definition snapshot_entries (snap : StoreSnapshot) : list Entry :=
  ((λ '(name, state), MkEntry name (st_version state) (btree_set (st_members state))
                        (sn_index_version snap) false) <$> btree_entries (sn_services snap)) ++
  ((λ '(name, v), MkEntry name v [] (sn_index_version snap) true) <$> btree_entries (sn_tombstones snap)).

Fixpoint merge_entries (es : list Entry) (changed : bool) : ST Store StoreError bool :=
  match es with
  | [] => mret changed
  | e :: es =>
      c ← merge_entry (en_service e) (en_version e) (en_members e) (en_index e) (en_deleted e);
      merge_entries es (changed || c)
  end.

Definition merge_snapshot (snap : StoreSnapshot) : ST (Store * Fs) StoreError bool :=
  changed ← in_memory (merge_entries (snapshot_entries snap) false);
  (if changed : bool then save_self else mret ()) ;;
  mret changed.

Definition set_index_version (v : N) : ST (Store * Fs) StoreError unit :=
  s ← get_self;
  if bool_decide (s_index_version s ≠ v)
  then set_self (set_index s v) ;; save_self
  else mret ().

Definition bump_index_version : ST (Store * Fs) StoreError N :=
  s ← get_self;
  let v := wrap_add64 (s_index_version s) 1 in
  set_self (set_index s v) ;;
  save_ignored ;;
  mret v.
End store.
