(* ===== verification/StoreMerge.v ===== *)
(** * Convergence of replication: the merge operations of [src/src/store.rs]

    What a store knows about a service is a [Status]; merging an entry moves the
    status up in a total order (a newer version wins, a deletion wins at the same
    version, the larger member hash wins among live contents of the same version).
    The order is what makes the replicas converge: the status after a set of
    entries is their maximum, whatever the order and the repetitions they arrive
    with. *)
From S2P Require Import Prelude Fsutil Crypto Authority Store.

(** ** The abstract view *)

Inductive Status :=
  | Absent
  | Live (v : N) (m : gset string)
  | Dead (v : N).
Global Instance Status_eq_dec : EqDecision Status.
Proof. solve_decision. Defined.

(** Versions start at 1: an entry of version 0 says nothing. *)
Definition entry_status (e : Entry) : Status :=
  if (en_version e =? 0)%N then Absent
  else if en_deleted e then Dead (en_version e)
  else Live (en_version e) (list_to_set (en_members e)).

Definition status (s : Store) (service : string) : Status :=
  match s_services s !! service with
  | Some st => Live (st_version st) (st_members st)
  | None => match s_tombstones s !! service with Some v => Dead v | None => Absent end
  end.

Section merge.
Context `{CR : Crypto, TC : Codec Toml StoreSnapshot}.

(** [status_le a b]: [b] wins over [a] or is as good. *)
Definition status_le (a b : Status) : bool :=
  match a, b with
  | Absent, _ => true
  | _, Absent => false
  | Live v m, Live v' m' =>
      (v <? v')%N || (v =? v')%N &&
        bool_decide (m = m' ∨ String.le (members_hash m) (members_hash m'))
  | Live v _, Dead v' => (v <=? v')%N
  | Dead v, Live v' _ => (v <? v')%N
  | Dead v, Dead v' => (v <=? v')%N
  end.

Definition status_max (a b : Status) : Status := if status_le b a then a else b.

(** ** Well-formed stores *)

Definition service_ok (name : string) (st : ServiceState) : Prop :=
  is_valid_service_name name = true ∧ (1 ≤ st_version st)%N
  ∧ ∀ m, m ∈ st_members st → is_valid_peer_id m = true.

(** Every name and member is valid and versions are positive. *)
Definition store_wf (s : Store) : Prop :=
  (∀ name st, s_services s !! name = Some st → service_ok name st) ∧
  (∀ name v, s_tombstones s !! name = Some v → is_valid_service_name name = true ∧ (1 ≤ v)%N).

(** No service is both live and deleted. *)
Definition store_excl (s : Store) : Prop :=
  ∀ name, s_services s !! name = None ∨ s_tombstones s !! name = None.

(** An entry the merge accepts: the name is valid and, unless it is a deletion,
    so are the members. *)
Definition entry_valid (e : Entry) : bool :=
  is_valid_service_name (en_service e) &&
  (en_deleted e || forallb is_valid_peer_id (en_members e)).

(** A sequence of replicated entries, each applied as one message: a rejected
    entry is reported to its sender and changes nothing. *)
Definition apply_entry (s : Store) (e : Entry) : Store :=
  (merge_entry (en_service e) (en_version e) (en_members e) (en_index e) (en_deleted e) s).2.
Definition apply_entries (s : Store) (es : list Entry) : Store := foldl apply_entry s es.

Lemma validate_peers_Ok peers :
  validate_peers peers = Ok () ↔ forallb is_valid_peer_id peers = true.
Proof.
  induction peers as [|p peers IH]; simpl; [done|].
  destruct (is_valid_peer_id p); simpl; [done|]. naive_solver.
Qed.

Lemma validate_peers_Err peers :
  forallb is_valid_peer_id peers = false → ∃ e, validate_peers peers = Err e.
Proof.
  induction peers as [|p peers IH]; simpl; [done|].
  destruct (is_valid_peer_id p); simpl; [done|]. eauto.
Qed.

Lemma status_max_absent_r a : status_max a Absent = a.
Proof. unfold status_max. by destruct a. Qed.

(** Updating one service of an exclusive store. *)
Lemma status_delete s service v :
  status (set_tombstones (set_services s (delete service (s_services s)))
    (<[service := v]> (s_tombstones s))) service = Dead v.
Proof. unfold status. simpl. by rewrite lookup_delete_eq, lookup_insert_eq. Qed.

Lemma status_insert s service st :
  status (set_tombstones (set_services s (<[service := st]> (s_services s)))
    (delete service (s_tombstones s))) service = Live (st_version st) (st_members st).
Proof. unfold status. simpl. by rewrite lookup_insert_eq. Qed.

(** What [merge_service] does to the store, on a valid entry. *)
Definition merge_rel (s : Store) (service : string) (new : Status) (s' : Store) : Prop :=
  store_excl s' ∧ status s' service = new
  ∧ (∀ name, name ≠ service →
       s_services s' !! name = s_services s !! name ∧ s_tombstones s' !! name = s_tombstones s !! name)
  ∧ s_network s' = s_network s ∧ s_path s' = s_path s ∧ s_index_version s' = s_index_version s.

Lemma merge_rel_refl s service new :
  store_excl s → new = status s service → merge_rel s service new s.
Proof. intros Hx ->. by split_and!. Qed.

Lemma merge_rel_dead s service v :
  store_excl s → merge_rel s service (Dead v)
    (set_tombstones (set_services s (delete service (s_services s)))
      (<[service := v]> (s_tombstones s))).
Proof.
  intros Hx. split_and!; try done; [|apply status_delete|].
  - intros name. simpl. destruct (decide (name = service)) as [->|].
    + left. apply lookup_delete_eq.
    + rewrite lookup_delete_ne, lookup_insert_ne by done. apply Hx.
  - intros name Hn. simpl. by rewrite lookup_delete_ne, lookup_insert_ne by done.
Qed.

Lemma merge_rel_live s service st :
  store_excl s → merge_rel s service (Live (st_version st) (st_members st))
    (set_tombstones (set_services s (<[service := st]> (s_services s)))
      (delete service (s_tombstones s))).
Proof.
  intros Hx. split_and!; try done; [|apply status_insert|].
  - intros name. simpl. destruct (decide (name = service)) as [->|].
    + right. apply lookup_delete_eq.
    + rewrite lookup_delete_ne, lookup_insert_ne by done. apply Hx.
  - intros name Hn. simpl. by rewrite lookup_delete_ne, lookup_insert_ne by done.
Qed.

(** Decide every comparison of versions in the goal. *)
Ltac decide_versions :=
  repeat (match goal with
  | |- context [(?a <? ?b)%N] => destruct (N.ltb_spec a b)
  | |- context [(?a <=? ?b)%N] => destruct (N.leb_spec a b)
  | |- context [(?a =? ?b)%N] => destruct (N.eqb_spec a b)
  end; simpl; try lia).

(** Close the branches of a merge once the status of the service is known. *)
Ltac merge_branches Hst :=
  rewrite Hst; unfold status_max; simpl; decide_versions;
  eexists _, _; (split_and!; [reflexivity| |done]);
  first [apply merge_rel_refl; [done|rewrite Hst; f_equal; lia]
        |by apply merge_rel_dead
        |by apply (merge_rel_live _ _ (MkServiceState _ _))].

Lemma merge_service_deleted s service v ms :
  store_wf s → store_excl s → is_valid_service_name service = true →
  ∃ ch s', merge_service service v ms true s = (Ok ch, s')
    ∧ merge_rel s service (status_max (status s service)
                             (if (v =? 0)%N then Absent else Dead v)) s'
    ∧ (ch = false → s' = s).
Proof.
  intros [Hs Ht] Hx Hv. unfold merge_service, contains. rewrite Hv. simpl.
  assert (Hst : status s service = status s service) by done. unfold status in Hst at 2.
  destruct (s_services s !! service) as [st|] eqn:Es; simpl.
  - destruct (Hx service) as [?|E]; [congruence|]. rewrite E. simpl.
    destruct (Hs _ _ Es) as (_ & ? & _). merge_branches Hst.
  - destruct (s_tombstones s !! service) as [t|] eqn:Et; simpl.
    + destruct (Ht _ _ Et) as [_ ?]. merge_branches Hst.
    + merge_branches Hst.
Qed.

Lemma merge_service_live s service v ms :
  store_wf s → store_excl s → is_valid_service_name service = true →
  forallb is_valid_peer_id ms = true →
  ∃ ch s', merge_service service v ms false s = (Ok ch, s')
    ∧ merge_rel s service (status_max (status s service)
                             (if (v =? 0)%N then Absent else Live v (list_to_set ms))) s'
    ∧ (ch = false → s' = s).
Proof.
  intros [Hs Ht] Hx Hv Hms%validate_peers_Ok. unfold merge_service. rewrite Hv, Hms. simpl.
  assert (Hst : status s service = status s service) by done. unfold status in Hst at 2.
  destruct (s_services s !! service) as [st|] eqn:Es; simpl.
  - destruct (Hx service) as [?|E]; [congruence|]. rewrite E. simpl.
    destruct (Hs _ _ Es) as (_ & ? & _).
    destruct (N.eqb_spec v (st_version st)) as [->|Hne].
    + rewrite (proj2 (N.leb_gt _ _)), N.ltb_irrefl by lia. simpl.
      rewrite Hst. unfold status_max. rewrite (proj2 (N.eqb_neq _ _)) by lia. simpl.
      rewrite N.ltb_irrefl, N.eqb_refl. simpl.
      destruct (decide (st_members st = list_to_set ms)) as [Heq|Hmne].
      { rewrite !bool_decide_eq_true_2 by auto. eexists _, _. split_and!; [done| |done].
        by apply merge_rel_refl. }
      rewrite (bool_decide_eq_false_2 (st_members st = _)) by done.
      destruct (decide (String.le (members_hash (list_to_set ms)) (members_hash (st_members st)))).
      { rewrite !bool_decide_eq_true_2 by auto. eexists _, _. split_and!; [done| |done].
        by apply merge_rel_refl. }
      rewrite (bool_decide_eq_false_2 (String.le _ _)) by done.
      rewrite (bool_decide_eq_false_2 (_ ∨ _)) by naive_solver.
      eexists _, _. split_and!; [done| |done]. by apply (merge_rel_live _ _ (MkServiceState _ _)).
    + merge_branches Hst.
  - destruct (s_tombstones s !! service) as [t|] eqn:Et; simpl.
    + destruct (Ht _ _ Et) as [_ ?]. merge_branches Hst.
    + merge_branches Hst.
Qed.

(** ** The order on statuses *)

Lemma status_le_live v m v' m' :
  status_le (Live v m) (Live v' m') = true ↔
  (v < v')%N ∨ v = v' ∧ String.le (members_hash m) (members_hash m').
Proof.
  simpl. rewrite orb_true_iff, andb_true_iff, N.ltb_lt, N.eqb_eq, bool_decide_eq_true.
  split; intros [?|[? Hm]]; auto. right. split; [done|]. by destruct Hm as [->|].
Qed.

Lemma status_le_total a b : status_le a b = true ∨ status_le b a = true.
Proof.
  destruct a as [|v m|v], b as [|v' m'|v']; try (by auto);
    rewrite ?status_le_live; simpl; rewrite ?N.leb_le, ?N.ltb_lt; try lia.
  destruct (N.lt_trichotomy v v') as [?|[->|?]]; auto.
  destruct (total String.le (members_hash m) (members_hash m')); auto.
Qed.

Lemma status_le_trans a b c : status_le a b = true → status_le b c = true → status_le a c = true.
Proof.
  destruct a as [|v m|v], b as [|v' m'|v'], c as [|v'' m''|v'']; try done;
    rewrite ?status_le_live; simpl; rewrite ?N.leb_le, ?N.ltb_lt; try lia.
  intros [?|[-> ?]] [?|[-> ?]]; auto with lia. right. split; [done|]. by etrans.
Qed.

Lemma status_le_refl a : status_le a a = true.
Proof. by destruct (status_le_total a a). Qed.

(** The member sets of a status, and statuses whose members are valid. *)
Definition status_members_valid (a : Status) : Prop :=
  match a with Live _ m => ∀ p, p ∈ m → is_valid_peer_id p = true | _ => True end.

Lemma str_concat_nul_inj (l k : list string) :
  Forall (λ m, str_has "000" m = false) l → Forall (λ m, str_has "000" m = false) k →
  str_concat ((λ m, m +:+ nul) <$> l) = str_concat ((λ m, m +:+ nul) <$> k) → l = k.
Proof.
  intros Hl. revert k. induction Hl as [|x l Hx Hl IH]; intros k Hk Heq.
  - destruct Hk as [|y k Hy Hk]; [done|]. exfalso. cbn in Heq.
    apply (f_equal String.length) in Heq. rewrite !string_length_app in Heq. simpl in Heq. lia.
  - destruct Hk as [|y k Hy Hk]; cbn in Heq.
    { apply (f_equal String.length) in Heq. rewrite !string_length_app in Heq. simpl in Heq. lia. }
    unfold nul in Heq. rewrite !string_app_assoc, !string_app_cons in Heq.
    apply (string_app_sep_inj "000") in Heq as [-> Heq]; [|done..].
    rewrite !string_app_nil_l in Heq. f_equal. by apply IH.
Qed.

Lemma valid_peer_no_nul `{!CryptoLaws} p : is_valid_peer_id p = true → str_has "000" p = false.
Proof. unfold is_valid_peer_id. rewrite bool_decide_eq_true. apply peer_id_no_nul. Qed.

Lemma members_buf_inj `{!CryptoLaws} (m m' : gset string) :
  (∀ p, p ∈ m → is_valid_peer_id p = true) → (∀ p, p ∈ m' → is_valid_peer_id p = true) →
  members_buf m = members_buf m' → m = m'.
Proof.
  intros Hm Hm' Heq. apply (ord_elements_inj String.le), str_concat_nul_inj; [| |done];
    apply Forall_forall; intros p Hp; apply valid_peer_no_nul;
    rewrite elem_of_ord_elements in Hp; auto.
Qed.

(** SHA-256 does not collide on the member buffers of these statuses. *)
Definition no_collision (P : Status → Prop) : Prop :=
  ∀ v m v' m', P (Live v m) → P (Live v' m') →
    members_hash m = members_hash m' → members_buf m = members_buf m'.

Lemma status_le_antisym `{!CryptoLaws} P a b :
  no_collision P → P a → P b → status_members_valid a → status_members_valid b →
  status_le a b = true → status_le b a = true → a = b.
Proof.
  intros Hc Ha Hb Hva Hvb. destruct a as [|v m|v], b as [|v' m'|v']; try done;
    rewrite ?status_le_live; simpl; rewrite ?N.leb_le, ?N.ltb_lt; try lia.
  - intros [?|[-> Ha1]] [?|[? Ha2]]; try lia. f_equal. apply members_buf_inj; [done..|].
    apply (Hc v' m v' m'); [done..|]. by apply (anti_symm String.le).
  - intros. f_equal. lia.
Qed.

Lemma status_max_cases a b : status_max a b = a ∨ status_max a b = b.
Proof. unfold status_max. destruct (status_le b a); auto. Qed.

Lemma status_max_ge a b : status_le a (status_max a b) = true ∧ status_le b (status_max a b) = true.
Proof.
  unfold status_max. destruct (status_le b a) eqn:E; [by rewrite status_le_refl, E|].
  destruct (status_le_total a b); [|congruence]. by rewrite status_le_refl.
Qed.

(** A fold of [status_max] is an upper bound of its inputs and one of them. *)
Lemma foldl_status_max l a :
  let r := foldl status_max a l in
  (r = a ∨ r ∈ l) ∧ status_le a r = true ∧ ∀ x, x ∈ l → status_le x r = true.
Proof.
  revert a. induction l as [|x l IH]; intros a; simpl.
  { split_and!; [by left|apply status_le_refl|set_solver]. }
  destruct (IH (status_max a x)) as (Hr & Hle & Hall). destruct (status_max_ge a x) as [Ha Hx].
  split_and!.
  - destruct Hr as [->|]; [|set_solver]. destruct (status_max_cases a x) as [->| ->]; set_solver.
  - by eapply status_le_trans.
  - intros y [->|Hy]%elem_of_cons; [by eapply status_le_trans|auto].
Qed.

(** The maximum does not depend on the order or the multiplicity. *)
Lemma foldl_status_max_unique `{!CryptoLaws} a b l k :
  no_collision (λ x, x = a ∨ x = b ∨ x ∈ l ∨ x ∈ k) →
  (∀ x, x = a ∨ x = b ∨ x ∈ l ∨ x ∈ k → status_members_valid x) →
  (∀ x, x = a ∨ x ∈ l ↔ x = b ∨ x ∈ k) →
  foldl status_max a l = foldl status_max b k.
Proof.
  intros Hc Hv Hlk.
  destruct (foldl_status_max l a) as (Hr & Ha & Hl). destruct (foldl_status_max k b) as (Hr' & Hb & Hk).
  set (r := foldl status_max a l) in *. set (r' := foldl status_max b k) in *.
  assert (∀ x, x = a ∨ x ∈ l → status_le x r = true) by naive_solver.
  assert (∀ x, x = b ∨ x ∈ k → status_le x r' = true) by naive_solver.
  assert (r = a ∨ r = b ∨ r ∈ l ∨ r ∈ k) by naive_solver.
  assert (r' = a ∨ r' = b ∨ r' ∈ l ∨ r' ∈ k) by naive_solver.
  apply (status_le_antisym _ r r' Hc); try done; [auto..| |].
  - naive_solver.
  - naive_solver.
Qed.

(** ** What an entry does to a store *)

Lemma status_other s s' name :
  s_services s' !! name = s_services s !! name → s_tombstones s' !! name = s_tombstones s !! name →
  status s' name = status s name.
Proof. unfold status. by intros -> ->. Qed.

Lemma status_Live s name v m :
  status s name = Live v m ↔ s_services s !! name = Some (MkServiceState v m).
Proof.
  unfold status. destruct (s_services s !! name) as [[]|]; [naive_solver|].
  destruct (s_tombstones s !! name); naive_solver.
Qed.

Lemma status_Dead s name v : store_excl s →
  status s name = Dead v ↔ s_tombstones s !! name = Some v.
Proof.
  intros Hx. unfold status.
  destruct (Hx name) as [->|Ht]; [destruct (s_tombstones s !! name); naive_solver|].
  rewrite Ht. destruct (s_services s !! name); naive_solver.
Qed.

(** Exclusive stores with the same statuses have the same contents. *)
Lemma status_ext s s' : store_excl s → store_excl s' →
  (∀ name, status s name = status s' name) →
  s_services s = s_services s' ∧ s_tombstones s = s_tombstones s'.
Proof.
  intros Hx Hx' Heq. split; apply map_eq; intros name; apply option_eq.
  - intros [v m]. by rewrite <-!status_Live, Heq.
  - intros v. by rewrite <-!status_Dead, Heq.
Qed.

Lemma entry_status_valid e : entry_valid e = true → status_members_valid (entry_status e).
Proof.
  unfold entry_valid, entry_status. intros [_ He]%andb_true_iff.
  destruct (en_version e =? 0)%N; [done|]. destruct (en_deleted e); [done|]. simpl in *.
  intros p. rewrite elem_of_list_to_set, list_elem_of_In. by apply forallb_forall.
Qed.

Lemma status_wf s : store_excl s →
  store_wf s ↔ ∀ name, match status s name with
    | Absent => True
    | Live v m => service_ok name (MkServiceState v m)
    | Dead v => is_valid_service_name name = true ∧ (1 ≤ v)%N
    end.
Proof.
  intros Hx. split.
  - intros [Hs Ht] name. destruct (status s name) eqn:E; [done| |].
    + by apply status_Live, Hs in E.
    + apply (status_Dead _ _ _ Hx) in E. by apply Ht.
  - intros Hall. split.
    + intros name [v m] Hn%status_Live. specialize (Hall name). by rewrite Hn in Hall.
    + intros name v Hn%(status_Dead _ _ _ Hx). specialize (Hall name). by rewrite Hn in Hall.
Qed.

Lemma apply_entry_invalid s e : entry_valid e = false → apply_entry s e = s.
Proof.
  unfold entry_valid, apply_entry, merge_entry, merge_service, mbind, ST_bind.
  destruct (is_valid_service_name _); [|done]. simpl.
  intros [-> Hp]%orb_false_iff. destruct (validate_peers_Err _ Hp) as [err ->]. done.
Qed.

Definition entry_ok (s : Store) (e : Entry) (s' : Store) : Prop :=
  store_wf s' ∧ store_excl s'
  ∧ status s' (en_service e) = status_max (status s (en_service e)) (entry_status e)
  ∧ (∀ name, name ≠ en_service e → status s' name = status s name)
  ∧ s_index_version s' = N.max (s_index_version s) (en_index e)
  ∧ s_network s' = s_network s ∧ s_path s' = s_path s.

Lemma merge_rel_entry_ok s e s1 : store_wf s → store_excl s → entry_valid e = true →
  merge_rel s (en_service e) (status_max (status s (en_service e)) (entry_status e)) s1 →
  entry_ok s e (if (s_index_version s1 <? en_index e)%N then set_index s1 (en_index e) else s1).
Proof.
  intros Hwf Hx He (Hx1 & Hst & Hne & Hnet & Hpath & Hix).
  assert (store_wf s1) as Hwf1.
  { apply status_wf; [done|]. intros name. destruct (decide (name = en_service e)) as [->|Hn].
    - rewrite Hst. destruct (status_max_cases (status s (en_service e)) (entry_status e)) as [->| ->];
        [by apply status_wf|].
      pose proof (entry_status_valid e He) as Hm. unfold entry_valid in He.
      apply andb_true_iff in He as [Hv _]. unfold entry_status in *.
      destruct (N.eqb_spec (en_version e) 0); [done|].
      destruct (en_deleted e); [split; [done|lia]|]. split_and!; [done|simpl; lia|done].
    - destruct (Hne name Hn) as [Ha1 Ha2]. rewrite (status_other _ _ _ Ha1 Ha2). by apply status_wf. }
  destruct (N.ltb_spec (s_index_version s1) (en_index e)) as [Hlt|Hge];
    split_and!; try done; simpl; try lia;
    intros name Hn; destruct (Hne name Hn) as [Ha1 Ha2]; exact (status_other _ _ _ Ha1 Ha2).
Qed.

Lemma merge_entry_spec s e : store_wf s → store_excl s → entry_valid e = true →
  ∃ ch s', merge_entry (en_service e) (en_version e) (en_members e) (en_index e) (en_deleted e) s
           = (Ok ch, s')
    ∧ entry_ok s e s' ∧ (ch = false → s' = s).
Proof.
  intros Hwf Hx He. pose proof He as Hv. unfold entry_valid in Hv.
  apply andb_true_iff in Hv as [Hv Hms].
  assert (∃ ch s1, merge_service (en_service e) (en_version e) (en_members e) (en_deleted e) s = (Ok ch, s1)
    ∧ merge_rel s (en_service e) (status_max (status s (en_service e)) (entry_status e)) s1
    ∧ (ch = false → s1 = s)) as (ch & s1 & Hm & Hrel & Hch).
  { unfold entry_status. destruct (en_deleted e); simpl in *.
    - by apply merge_service_deleted.
    - by apply merge_service_live. }
  apply merge_rel_entry_ok in Hrel; [|done..].
  unfold merge_entry, mbind, ST_bind. rewrite Hm. simpl.
  destruct (N.ltb_spec (s_index_version s1) (en_index e)) as [Hlt|Hge]; eexists _, _; (split_and!; [done..|]).
  - by rewrite orb_true_r.
  - by rewrite orb_false_r.
Qed.

Lemma apply_entry_spec s e : store_wf s → store_excl s → entry_valid e = true →
  entry_ok s e (apply_entry s e).
Proof.
  intros Hwf Hx He. destruct (merge_entry_spec s e Hwf Hx He) as (ch & s' & Hm & Hok & _).
  unfold apply_entry. by rewrite Hm.
Qed.

(** ** What a sequence of entries does *)

Definition valid_entries (es : list Entry) : list Entry := filter (λ e, entry_valid e = true) es.
Definition statuses_for (name : string) (es : list Entry) : list Status :=
  entry_status <$> filter (λ e, en_service e = name) (valid_entries es).

Lemma apply_entries_spec es s : store_wf s → store_excl s →
  let s' := apply_entries s es in
  store_wf s' ∧ store_excl s'
  ∧ (∀ name, status s' name = foldl status_max (status s name) (statuses_for name es))
  ∧ s_index_version s' = foldl N.max (s_index_version s) (en_index <$> valid_entries es)
  ∧ s_network s' = s_network s ∧ s_path s' = s_path s.
Proof.
  unfold apply_entries, statuses_for, valid_entries.
  revert s. induction es as [|e es IH]; intros s Hwf Hx; [by split_and!|]. cbn [foldl].
  destruct (entry_valid e) eqn:He.
  - destruct (apply_entry_spec s e Hwf Hx He) as (Hwf' & Hx' & Hst & Hne & Hix & Hnet & Hp).
    destruct (IH (apply_entry s e) Hwf' Hx') as (? & ? & Hsts & Hixs & ? & ?).
    split_and!; try done; try congruence.
    + intros name. rewrite Hsts. rewrite (filter_cons_True _ e) by done.
      destruct (decide (en_service e = name)) as [<-|Hn].
      * rewrite filter_cons_True by done. cbn. by rewrite Hst.
      * rewrite filter_cons_False by done. by rewrite Hne.
    + rewrite Hixs, Hix. by rewrite filter_cons_True.
  - rewrite apply_entry_invalid by done. rewrite filter_cons_False by congruence. by apply IH.
Qed.

Lemma foldl_max_spec l i :
  let r := foldl N.max i l in (r = i ∨ r ∈ l) ∧ (i ≤ r)%N ∧ ∀ x, x ∈ l → (x ≤ r)%N.
Proof.
  revert i. induction l as [|y l IH]; intros i; simpl; [split_and!; [by left|lia|set_solver]|].
  destruct (IH (N.max i y)) as (Hr & Hi & Hl). split_and!; [|lia|].
  - destruct Hr as [->|]; [|set_solver]. destruct (N.max_spec i y) as [[_ ->]|[_ ->]]; set_solver.
  - intros x [->|Hx]%elem_of_cons; [lia|auto].
Qed.

Lemma foldl_max_set l k i : (∀ x, x ∈ l ↔ x ∈ k) → foldl N.max i l = foldl N.max i k.
Proof.
  intros Hlk. destruct (foldl_max_spec l i) as (Hr & Hi & Hl). destruct (foldl_max_spec k i) as (Hr' & Hi' & Hk).
  apply N.le_antisymm; [destruct Hr as [->|]; [done|]|destruct Hr' as [->|]; [done|]]; naive_solver.
Qed.

Lemma statuses_for_elem name es x :
  x ∈ statuses_for name es ↔
  ∃ e, e ∈ es ∧ entry_valid e = true ∧ en_service e = name ∧ x = entry_status e.
Proof.
  unfold statuses_for, valid_entries. rewrite list_elem_of_fmap.
  setoid_rewrite list_elem_of_filter. setoid_rewrite list_elem_of_filter. naive_solver.
Qed.

Lemma status_valid s name : store_wf s → status_members_valid (status s name).
Proof.
  intros [Hs _]. destruct (status s name) as [|v m|] eqn:E; [done| |done].
  by apply status_Live, Hs in E as (_ & _ & ?).
Qed.

(** SHA-256 does not collide on what a store and some entries say of a service. *)
Definition entries_no_collision (s : Store) (es : list Entry) : Prop :=
  ∀ name, no_collision (λ x, x = status s name ∨ x ∈ statuses_for name es).

(** C29: replication converges.  Take any well-formed store and two sequences of
    replicated entries with the same entries, in any order and with any
    repetitions (re-delivery, gossip): applying either leaves exactly the same
    store.  Entries with invalid names or peers may be among them.  The only
    assumption is that SHA-256 does not collide on the member sets at hand,
    which is what breaks ties between contents of the same version. *)
Theorem replication_converges `{!CryptoLaws} s es es' :
  store_wf s → store_excl s → entries_no_collision s es →
  (∀ e, e ∈ es ↔ e ∈ es') →
  apply_entries s es = apply_entries s es'.
Proof.
  intros Hwf Hx Hc Hes.
  destruct (apply_entries_spec es s Hwf Hx) as (Hwf1 & Hx1 & Hst1 & Hix1 & Hn1 & Hp1).
  destruct (apply_entries_spec es' s Hwf Hx) as (Hwf2 & Hx2 & Hst2 & Hix2 & Hn2 & Hp2).
  assert (∀ name x, x ∈ statuses_for name es ↔ x ∈ statuses_for name es') as Hsf.
  { intros name x. rewrite !statuses_for_elem. naive_solver. }
  destruct (status_ext (apply_entries s es) (apply_entries s es')) as [Hs Ht]; [done..| |].
  { intros name. rewrite Hst1, Hst2. apply foldl_status_max_unique.
    - intros v m v' m' Ha1 Ha2. apply (Hc name v m v' m'); rewrite ?Hsf; naive_solver.
    - intros x Hin. assert (x = status s name ∨ x ∈ statuses_for name es) as [->|Hx']
        by (rewrite ?Hsf in *; naive_solver); [by apply status_valid|].
      apply statuses_for_elem in Hx' as (e & _ & He & _ & ->). by apply entry_status_valid.
    - intros x. by rewrite Hsf. }
  assert (s_index_version (apply_entries s es) = s_index_version (apply_entries s es')) as Hix.
  { rewrite Hix1, Hix2. apply foldl_max_set. intros i. unfold valid_entries.
    rewrite !list_elem_of_fmap. setoid_rewrite list_elem_of_filter. naive_solver. }
  destruct (apply_entries s es), (apply_entries s es'); simpl in *. congruence.
Qed.

(** ** Snapshots *)

Lemma merge_entries_valid es ch s : store_wf s → store_excl s →
  (∀ e, e ∈ es → entry_valid e = true) →
  ∃ ch', merge_entries es ch s = (Ok ch', apply_entries s es).
Proof.
  revert ch s. induction es as [|e es IH]; intros ch s Hwf Hx Hv; [by eexists|].
  cbn [merge_entries]. unfold mbind, ST_bind.
  assert (entry_valid e = true) as He by (apply Hv; set_solver).
  destruct (merge_entry_spec s e Hwf Hx He) as (c & s' & Hm & Hok & _).
  rewrite Hm. destruct Hok as (Hwf' & Hx' & _).
  destruct (IH (ch || c) s' Hwf' Hx') as [ch' Hch]; [set_solver|].
  assert (apply_entry s e = s') as Hs' by (unfold apply_entry; by rewrite Hm).
  exists ch'. rewrite Hch. unfold apply_entries. cbn [foldl]. by rewrite Hs'.
Qed.

Lemma elem_of_snapshot_entries e snap :
  e ∈ snapshot_entries snap ↔
    (∃ name st, sn_services snap !! name = Some st ∧
       e = MkEntry name (st_version st) (btree_set (st_members st)) (sn_index_version snap) false)
    ∨ (∃ name v, sn_tombstones snap !! name = Some v ∧
       e = MkEntry name v [] (sn_index_version snap) true).
Proof.
  unfold snapshot_entries. rewrite elem_of_app, !list_elem_of_fmap.
  split; intros [Hl|Hr]; [left|right|left|right].
  - destruct Hl as ([n st] & -> & Hin%elem_of_ord_entries). eauto.
  - destruct Hr as ([n v] & -> & Hin%elem_of_ord_entries). eauto.
  - destruct Hl as (n & st & Hin & ->). exists (n, st). split; [done|]. by apply elem_of_ord_entries.
  - destruct Hr as (n & v & Hin & ->). exists (n, v). split; [done|]. by apply elem_of_ord_entries.
Qed.

Lemma snapshot_entries_valid s e : store_wf s → e ∈ snapshot_entries (snapshot s) → entry_valid e = true.
Proof.
  intros [Hs Ht] [(n & st & Hin & ->)|(n & v & Hin & ->)]%elem_of_snapshot_entries; unfold entry_valid; simpl.
  - destruct (Hs _ _ Hin) as (Hn & _ & Hm). rewrite Hn. simpl. apply forallb_forall.
    intros p Hp%list_elem_of_In. rewrite elem_of_ord_elements in Hp. auto.
  - by destruct (Ht _ _ Hin) as [-> _].
Qed.

Lemma statuses_for_snapshot s name x : store_wf s → store_excl s →
  x ∈ statuses_for name (snapshot_entries (snapshot s)) ↔ x = status s name ∧ x ≠ Absent.
Proof.
  intros Hwf Hx. pose proof Hwf as [Hs Ht]. rewrite statuses_for_elem. split.
  - intros (e & He & _ & <- & ->).
    apply elem_of_snapshot_entries in He as [(n & st & Hin & ->)|(n & v & Hin & ->)]; simpl in *.
    + destruct (Hs _ _ Hin) as (_ & Hv & _). unfold entry_status. simpl.
      rewrite (proj2 (N.eqb_neq _ _)) by lia. rewrite list_to_set_ord_elements. split; [|done].
      symmetry. apply status_Live. destruct st. done.
    + destruct (Ht _ _ Hin) as (_ & Hv). unfold entry_status. simpl.
      rewrite (proj2 (N.eqb_neq _ _)) by lia. split; [|done]. symmetry. by apply status_Dead.
  - intros [-> Hne]. destruct (status s name) as [|v m|v] eqn:E; [done| |].
    + apply status_Live in E. exists (MkEntry name v (btree_set m) (s_index_version s) false).
      assert (MkEntry name v (btree_set m) (s_index_version s) false ∈ snapshot_entries (snapshot s)) as Hin.
      { apply elem_of_snapshot_entries. left. eexists name, _. by split. }
      split_and!; [done|by eapply snapshot_entries_valid|done|]. unfold entry_status. simpl.
      destruct (Hs _ _ E) as (_ & Hv & _). simpl in Hv.
      rewrite (proj2 (N.eqb_neq _ _)) by lia. by rewrite list_to_set_ord_elements.
    + apply (status_Dead _ _ _ Hx) in E. exists (MkEntry name v [] (s_index_version s) true).
      assert (MkEntry name v [] (s_index_version s) true ∈ snapshot_entries (snapshot s)) as Hin.
      { apply elem_of_snapshot_entries. right. eauto. }
      split_and!; [done|by eapply snapshot_entries_valid|done|]. unfold entry_status. simpl.
      destruct (Ht _ _ E) as (_ & Hv). by rewrite (proj2 (N.eqb_neq _ _)) by lia.
Qed.

Lemma foldl_status_max_same a x l :
  (∀ y, y ∈ l ↔ y = x ∧ y ≠ Absent) → foldl status_max a l = status_max a x.
Proof.
  intros Hl. assert (∀ y, y ∈ l → y = x) as Hall by naive_solver. assert (x ≠ Absent → x ∈ l) as Hin by naive_solver.
  clear Hl. destruct (decide (x = Absent)) as [->|Hx].
  - rewrite status_max_absent_r. revert a Hall. clear Hin. induction l as [|y l IH]; intros a Hall; [done|].
    simpl. rewrite (Hall y), status_max_absent_r by set_solver. apply IH. set_solver.
  - destruct l as [|y l]; [set_solver|]. simpl. rewrite (Hall y) by set_solver.
    assert (∀ z, z ∈ l → z = x) as Hl by set_solver. clear Hall Hin.
    assert (status_max (status_max a x) x = status_max a x) as Hmm.
    { unfold status_max at 1. by rewrite (proj2 (status_max_ge a x)). }
    induction l as [|z l IH]; [done|]. simpl. rewrite (Hl z), Hmm by set_solver. apply IH. set_solver.
Qed.

(** Writing the file does not change the store. *)
Lemma saved_memory (ch : bool) s fs :
  ((if ch then save_self else mret ()) ;; (mret ch : ST (Store * Fs) StoreError bool)) (s, fs)
  = (if ch then (λ _, ch) <$> (save s fs).1 else Ok ch, (s, if ch then (save s fs).2 else fs)).
Proof.
  unfold mbind, ST_bind. destruct ch; [|done]. unfold save_self. by destruct (save s fs) as [[] ?].
Qed.

(** Merging a well-formed snapshot in memory: the status of each service is the
    maximum of the two. *)
Lemma merge_snapshot_memory a b fs : store_wf a → store_excl a → store_wf b → store_excl b →
  let a' := (merge_snapshot (snapshot b) (a, fs)).2.1 in
  store_wf a' ∧ store_excl a'
  ∧ (∀ name, status a' name = status_max (status a name) (status b name))
  ∧ s_index_version a' = foldl N.max (s_index_version a)
      (en_index <$> valid_entries (snapshot_entries (snapshot b))).
Proof.
  intros Hwa Hxa Hwb Hxb a'. subst a'.
  assert ((merge_snapshot (snapshot b) (a, fs)).2.1
    = apply_entries a (snapshot_entries (snapshot b))) as ->.
  { unfold merge_snapshot. unfold mbind at 1, ST_bind at 1, in_memory.
    destruct (merge_entries_valid (snapshot_entries (snapshot b)) false a) as [ch Hm]; [done..| |].
    { intros e. by apply snapshot_entries_valid. }
    rewrite Hm. by rewrite (saved_memory ch). }
  destruct (apply_entries_spec (snapshot_entries (snapshot b)) a) as (Hwf & Hx & Hst & Hix & _); [done..|].
  split; [done|]. split; [done|]. split; [|done].
  intros name. rewrite Hst. apply foldl_status_max_same. intros y. by apply statuses_for_snapshot.
Qed.

Lemma status_max_comm `{!CryptoLaws} P a b :
  no_collision P → P a → P b → status_members_valid a → status_members_valid b →
  status_max a b = status_max b a.
Proof.
  intros Hc Ha Hb Hva Hvb. unfold status_max.
  destruct (status_le b a) eqn:Eba, (status_le a b) eqn:Eab; try done.
  - by apply (status_le_antisym P).
  - destruct (status_le_total a b); congruence.
Qed.

(** SHA-256 does not collide on what two stores say of a service. *)
Definition stores_no_collision (a b : Store) : Prop :=
  ∀ name, no_collision (λ x, x = status a name ∨ x = status b name).

Lemma snapshot_entries_index b e :
  e ∈ snapshot_entries (snapshot b) → en_index e = s_index_version b.
Proof. intros [(n & st & _ & ->)|(n & v & _ & ->)]%elem_of_snapshot_entries; done. Qed.

Lemma merged_index a b : store_wf b → s_services b ≠ ∅ ∨ s_tombstones b ≠ ∅ →
  foldl N.max (s_index_version a) (en_index <$> valid_entries (snapshot_entries (snapshot b)))
  = N.max (s_index_version a) (s_index_version b).
Proof.
  intros Hwf Hne. change (N.max _ _) with (foldl N.max (s_index_version a) [s_index_version b]).
  apply foldl_max_set. intros i. rewrite list_elem_of_fmap, list_elem_of_singleton. split.
  - intros (e & -> & [_ He]%list_elem_of_filter). by apply snapshot_entries_index.
  - intros ->. assert (∃ e, e ∈ snapshot_entries (snapshot b)) as [e He].
    { destruct Hne as [(n & x & Hx)%map_choose|(n & x & Hx)%map_choose];
        eexists; apply elem_of_snapshot_entries; [left|right]; eauto. }
    exists e. split; [symmetry; by apply snapshot_entries_index|].
    apply list_elem_of_filter. split; [by eapply snapshot_entries_valid|done].
Qed.

(** Anti-entropy converges.  When two sidecars exchange their snapshots and
    each merges the other's, both end with the same services and tombstones,
    whatever they held before and whatever file operations fail on either side;
    and both end with the larger index version when neither store was empty. *)
Theorem anti_entropy_converges `{!CryptoLaws} a b fsa fsb :
  store_wf a → store_excl a → store_wf b → store_excl b → stores_no_collision a b →
  let a' := (merge_snapshot (snapshot b) (a, fsa)).2.1 in
  let b' := (merge_snapshot (snapshot a) (b, fsb)).2.1 in
  s_services a' = s_services b' ∧ s_tombstones a' = s_tombstones b'
  ∧ (s_services a ≠ ∅ ∨ s_tombstones a ≠ ∅ → s_services b ≠ ∅ ∨ s_tombstones b ≠ ∅ →
     s_index_version a' = N.max (s_index_version a) (s_index_version b)
     ∧ s_index_version b' = s_index_version a').
Proof.
  intros Hwa Hxa Hwb Hxb Hc a' b'.
  destruct (merge_snapshot_memory a b fsa Hwa Hxa Hwb Hxb) as (_ & Hxa' & Hsa & Hia).
  destruct (merge_snapshot_memory b a fsb Hwb Hxb Hwa Hxa) as (_ & Hxb' & Hsb & Hib).
  destruct (status_ext a' b' Hxa' Hxb') as [Hs Ht].
  { intros name. unfold a', b'. rewrite Hsa, Hsb.
    apply (status_max_comm (λ x, x = status a name ∨ x = status b name)); auto using status_valid. }
  split; [done|]. split; [done|]. intros Hna Hnb. unfold a', b'.
  rewrite Hia, Hib, !merged_index by done. lia.
Qed.

(** Merging never panics: the [expect("current > 0")] of [merge_service] is
    unreachable, for every store (well-formed or not) and every entry. *)
Theorem merge_service_no_panic s service v ms deleted msg :
  (merge_service service v ms deleted s).1 ≠ Err (StorePanic msg).
Proof.
  unfold merge_service. destruct (is_valid_service_name service); simpl; [|done].
  destruct deleted; [by split_matches|].
  destruct (validate_peers ms) as [[]|e] eqn:Hp.
  - destruct (s_services s !! service) as [st|]; simpl; [by split_matches|].
    destruct (N.leb_spec v (default 0%N (s_tombstones s !! service))); simpl; [done|].
    destruct (N.ltb_spec v 0); [done|]. destruct (N.eqb_spec v 0); [lia|done].
  - revert Hp. induction ms as [|p ms IH]; simpl; [done|].
    destruct (is_valid_peer_id p); simpl; [done|]. by intros [= <-].
Qed.

(** What a successful [delete_service] and [create_service] leave in memory. *)
Lemma delete_service_memory s fs service t s' fs' :
  delete_service service (s, fs) = (Ok t, (s', fs')) →
  ∃ st, s_services s !! service = Some st ∧ t = wrap_add64 (st_version st) 1
    ∧ s_services s' = delete service (s_services s)
    ∧ s_tombstones s' = <[service := t]> (s_tombstones s).
Proof.
  unfold delete_service, mbind, ST_bind, get_self, st_lift, set_self, save_self.
  destruct (s_services s !! service) as [st|] eqn:E; simpl; [|done].
  destruct (save _ fs) as [[] ?]; [|done]. intros [= <- <- <-]. eauto.
Qed.

Lemma create_service_memory s fs service peers v s' fs' :
  create_service service peers (s, fs) = (Ok v, (s', fs')) →
  v = 1%N ∧ is_valid_service_name service = true ∧ s_services s !! service = None
  ∧ s_services s' = <[service := MkServiceState 1 (list_to_set peers)]> (s_services s)
  ∧ s_tombstones s' = s_tombstones s.
Proof.
  unfold create_service, mbind, ST_bind, get_self, st_lift, st_err, set_self, save_self, contains.
  destruct (is_valid_service_name service) eqn:Hv; simpl; [|done].
  destruct (validate_peers peers); simpl; [|done].
  case_bool_decide as Hn; [done|]. rewrite <-eq_None_not_Some in Hn.
  destruct (save _ fs) as [[] ?]; [|done]. by intros [= <- <- <-].
Qed.

(** A service that is deleted and created again is lost to replication.
    Creation starts at version 1 and leaves the tombstone, so (i) every peer
    that has seen the deletion ignores the new service, whatever its members,
    and (ii) the first tombstone the creator hears back deletes the service it
    has just created. *)
Theorem recreated_service_is_lost s fs service t s1 fs1 fs2 peers v s2 fs3 :
  store_wf s →
  (∀ st, s_services s !! service = Some st → st_version st < u64_max)%N →
  delete_service service (s, fs) = (Ok t, (s1, fs1)) →
  create_service service peers (s1, fs2) = (Ok v, (s2, fs3)) →
  (∀ p, s_tombstones p !! service = Some t →
     merge_service service v peers false p = (Ok false, p))
  ∧ ∃ s3, merge_service service t [] true s2 = (Ok true, s3) ∧ status s3 service = Dead t.
Proof.
  intros [Hs _] Hroom Hd Hc.
  assert (validate_peers peers = Ok ()) as Hp.
  { revert Hc. unfold create_service, mbind, ST_bind, st_lift. destruct (negb _); [done|].
    destruct (validate_peers peers) as [[]|]; done. }
  apply delete_service_memory in Hd as (st & Hst & -> & Hs1 & Ht1).
  apply create_service_memory in Hc as (-> & Hv & Hn & Hs2 & Ht2).
  destruct (Hs _ _ Hst) as (_ & Hpos & _). specialize (Hroom _ Hst).
  rewrite wrap_add64_small in * by lia. split.
  - intros p Hpt. unfold merge_service. rewrite Hv, Hp, Hpt. simpl.
    by rewrite (proj2 (N.leb_le 1 (st_version st + 1))) by lia.
  - unfold merge_service, contains. rewrite Hv, Ht2, Ht1, Hs2, lookup_insert_eq, lookup_insert_eq. simpl.
    rewrite (proj2 (N.ltb_ge (st_version st + 1) 1)), N.ltb_irrefl by lia. simpl.
    eexists. split; [done|]. unfold status. simpl. by rewrite lookup_delete_eq, lookup_insert_eq.
Qed.
End merge.

(** ** Examples *)

Section merge_examples.
Import Toy.

Definition ex_path : path := ["state.toml"].
Definition ex_fs : Fs := MkFs ∅ ∅ 18 [].
Definition ex_store : Store :=
  MkStore ex_path "net" 4 {["web" := MkServiceState 2 {["alice"]}]} {["old" := 3%N]}.
Definition ex_store2 : Store :=
  MkStore ex_path "net" 7
    {["web" := MkServiceState 2 {["bob"]}; "old" := MkServiceState 2 {["carol"]}]} ∅.
Definition ex_entries : list Entry :=
  [MkEntry "web" 2 ["bob"] 5 false; MkEntry "web" 3 [] 6 true; MkEntry "old" 2 ["eve"] 9 false].

Lemma service_ok_dec_true (m : gmap string ServiceState) :
  map_Forall (λ n st, is_valid_service_name n = true ∧ (1 ≤ st_version st)%N
    ∧ set_Forall (λ p, is_valid_peer_id p = true) (st_members st)) m →
  ∀ n st, m !! n = Some st → service_ok n st.
Proof. intros Hm n st Hn. destruct (Hm n st Hn) as (? & ? & ?). by split_and!. Qed.

Lemma ex_store_wf : store_wf ex_store ∧ store_excl ex_store.
Proof.
  split; [split|].
  - apply service_ok_dec_true. refine (bool_decide_unpack _ _). vm_compute. exact I.
  - change (map_Forall (λ n v, is_valid_service_name n = true ∧ (1 ≤ v)%N) (s_tombstones ex_store)).
    refine (bool_decide_unpack _ _). vm_compute. exact I.
  - intros n. simpl. destruct (decide (n = "web")) as [->|]; [right; reflexivity|left].
    by rewrite lookup_singleton_ne.
Defined.

Lemma ex_store2_wf : store_wf ex_store2 ∧ store_excl ex_store2.
Proof.
  split; [split|].
  - apply service_ok_dec_true. refine (bool_decide_unpack _ _). vm_compute. exact I.
  - intros n v. simpl. by rewrite lookup_empty.
  - intros n. right. apply lookup_empty.
Defined.

(** [no_collision] is decidable on a list of statuses. *)
Definition collision_free (l : list Status) : bool :=
  forallb (λ x, forallb (λ y, match x, y with
    | Live _ m, Live _ m' =>
        negb (bool_decide (members_hash m = members_hash m')) || bool_decide (members_buf m = members_buf m')
    | _, _ => true end) l) l.

Lemma collision_free_ok (P : Status → Prop) l :
  (∀ x, P x → x ∈ l) → collision_free l = true → no_collision P.
Proof.
  intros Hl Hc v m v' m' Hm Hm' Heq. unfold collision_free in Hc.
  rewrite forallb_forall in Hc. specialize (Hc _ (proj1 (list_elem_of_In _ _) (Hl _ Hm))).
  rewrite forallb_forall in Hc. specialize (Hc _ (proj1 (list_elem_of_In _ _) (Hl _ Hm'))). simpl in Hc.
  rewrite bool_decide_eq_true_2 in Hc by done. by apply bool_decide_eq_true in Hc.
Qed.

Definition ex_statuses : list Status :=
  [Absent; Live 2 {["alice"]}; Dead 3; Live 2 {["bob"]}; Live 2 {["eve"]}; Live 2 {["carol"]}].

Lemma ex_status_in name : status ex_store name ∈ ex_statuses ∧ status ex_store2 name ∈ ex_statuses.
Proof.
  destruct (decide (name = "web")) as [->|]; [split; refine (bool_decide_unpack _ _); vm_compute; exact I|].
  destruct (decide (name = "old")) as [->|]; [split; refine (bool_decide_unpack _ _); vm_compute; exact I|].
  unfold status. simpl.
  rewrite !lookup_insert_ne, !lookup_singleton_ne, !lookup_empty by done. by split; left.
Qed.

Lemma replication_converges_witness :
  apply_entries ex_store ex_entries
  = apply_entries ex_store (reverse ex_entries ++ ex_entries).
Proof.
  apply (replication_converges ex_store ex_entries);
    [apply ex_store_wf|apply ex_store_wf| |intros e; rewrite elem_of_app, elem_of_reverse; tauto].
  intros name. apply (collision_free_ok _ ex_statuses); [|vm_compute; reflexivity].
  intros x [->|(e & He & _ & _ & ->)%statuses_for_elem]; [apply ex_status_in|].
  repeat (apply elem_of_cons in He as [->|He]; [refine (bool_decide_unpack _ _); vm_compute; exact I|]).
  by apply elem_of_nil in He.
Defined.

Lemma anti_entropy_converges_witness :
  s_services (merge_snapshot (snapshot ex_store2) (ex_store, ex_fs)).2.1
  = s_services (merge_snapshot (snapshot ex_store) (ex_store2, ex_fs)).2.1.
Proof.
  apply (anti_entropy_converges ex_store ex_store2 ex_fs ex_fs);
    [apply ex_store_wf|apply ex_store_wf|apply ex_store2_wf|apply ex_store2_wf|].
  intros name. apply (collision_free_ok _ ex_statuses); [|vm_compute; reflexivity].
  intros x [->| ->]; apply ex_status_in.
Defined.

Lemma recreated_service_is_lost_witness :
  ∃ s1 fs1 s2 fs2,
    delete_service "web" (ex_store, ex_fs) = (Ok 3%N, (s1, fs1))
    ∧ create_service "web" ["bob"] (s1, fs1) = (Ok 1%N, (s2, fs2))
    ∧ ∃ s3, merge_service "web" 3 [] true s2 = (Ok true, s3) ∧ status s3 "web" = Dead 3.
Proof.
  destruct (delete_service "web" (ex_store, ex_fs)) as [[t|e] [s1 fs1]] eqn:Hd;
    [|vm_compute in Hd; discriminate].
  assert (t = 3%N) as -> by (vm_compute in Hd; congruence).
  destruct (create_service "web" ["bob"] (s1, fs1)) as [[v|e] [s2 fs2]] eqn:Hc;
    [|vm_compute in Hd; injection Hd as <- <-; vm_compute in Hc; discriminate].
  assert (v = 1%N) as ->
    by (vm_compute in Hd; injection Hd as <- <-; vm_compute in Hc; congruence).
  exists s1, fs1, s2, fs2. split_and!; [reflexivity|exact Hc|].
  eapply (recreated_service_is_lost ex_store ex_fs "web" 3 s1 fs1 fs1 ["bob"] 1 s2 fs2);
    [apply ex_store_wf| |exact Hd|exact Hc].
  intros st Hst. vm_compute in Hst. injection Hst as <-. reflexivity.
Defined.
End merge_examples.
