(* ===== verification/StoreOps.v ===== *)
(** * Local operations on the store: what each does, on every branch, and what
    reaches the disk ([src/src/store.rs]). *)
From S2P Require Import Prelude Fsutil Crypto Authority Store StoreMerge.

(** ** The three member operations as updates of the member set *)

Inductive MemberOp := OpAdd | OpRemove | OpSet.

(** The member set an operation asks for. *)
Definition target_members (op : MemberOp) (peers : list string) (m : gset string) : gset string :=
  match op with
  | OpAdd => m ∪ list_to_set peers
  | OpRemove => m ∖ list_to_set peers
  | OpSet => list_to_set peers
  end.

Section store_ops.
Context `{CR : Crypto, TC : Codec Toml StoreSnapshot}.

Definition member_op (op : MemberOp) : string → list string → ST (Store * Fs) StoreError N :=
  match op with OpAdd => add_members | OpRemove => remove_members | OpSet => set_members end.

(** The loop of an operation: the new set and the [changed] flag. *)
Definition member_step (op : MemberOp) (peers : list string) (m : gset string) : gset string * bool :=
  match op with
  | OpAdd => insert_all peers m false
  | OpRemove => remove_all peers m false
  | OpSet => if bool_decide (m ≠ list_to_set peers) then (list_to_set peers, true) else (m, false)
  end.

Lemma insert_all_spec peers m ch :
  insert_all peers m ch = (m ∪ list_to_set peers, ch || bool_decide (m ∪ list_to_set peers ≠ m)).
Proof.
  revert m ch. induction peers as [|p peers IH]; intros m ch; simpl.
  { rewrite union_empty_r_L, bool_decide_eq_false_2 by (intros Hn; by apply Hn). by rewrite orb_false_r. }
  rewrite IH. replace ({[p]} ∪ m ∪ list_to_set peers) with (m ∪ ({[p]} ∪ list_to_set peers)) by set_solver.
  f_equal. rewrite <-orb_assoc. f_equal.
  destruct (decide (p ∈ m)) as [Hp|Hp].
  - rewrite (bool_decide_eq_false_2 (p ∉ m)) by auto. simpl. apply bool_decide_ext.
    by replace ({[p]} ∪ m) with m by set_solver.
  - rewrite (bool_decide_eq_true_2 (p ∉ m)) by done. symmetry. apply bool_decide_eq_true_2.
    intros Heq. apply Hp. rewrite <-Heq. set_solver.
Qed.

Lemma remove_all_spec peers m ch :
  remove_all peers m ch = (m ∖ list_to_set peers, ch || bool_decide (m ∖ list_to_set peers ≠ m)).
Proof.
  revert m ch. induction peers as [|p peers IH]; intros m ch; simpl.
  { rewrite difference_empty_L, bool_decide_eq_false_2 by (intros Hn; by apply Hn). by rewrite orb_false_r. }
  rewrite IH. replace (m ∖ {[p]} ∖ list_to_set peers) with (m ∖ ({[p]} ∪ list_to_set peers)) by set_solver.
  f_equal. rewrite <-orb_assoc. f_equal.
  destruct (decide (p ∈ m)) as [Hp|Hp].
  - rewrite (bool_decide_eq_true_2 (p ∈ m)) by done. symmetry. apply bool_decide_eq_true_2.
    intros Heq. rewrite <-Heq in Hp. set_solver.
  - rewrite (bool_decide_eq_false_2 (p ∈ m)) by done. simpl. apply bool_decide_ext.
    by replace (m ∖ {[p]}) with m by set_solver.
Qed.

Lemma member_step_spec op peers m :
  member_step op peers m
  = (target_members op peers m, bool_decide (target_members op peers m ≠ m)).
Proof.
  destruct op; simpl; [apply insert_all_spec|apply remove_all_spec|].
  repeat case_bool_decide; naive_solver.
Qed.

Lemma member_op_unfold op service peers :
  member_op op service peers =
  (st_lift (validate_peers peers) ;; with_members service (member_step op peers)).
Proof. by destruct op. Qed.

(** The store after a change of one service's members. *)
Definition store_bumped (s : Store) (service : string) (st : ServiceState) (m : gset string) : Store :=
  set_index (set_services s (<[service := MkServiceState (wrap_add64 (st_version st) 1) m]> (s_services s)))
    (wrap_add64 (s_index_version s) 1).

(** [add_members], [remove_members] and [set_members] on every branch.  Invalid
    peers and an unknown service are refused, with nothing changed in memory or
    on disk.  Otherwise the service ends with exactly the requested member set;
    when that is the set it had, version, index and disk are untouched, and when
    it differs both versions advance by one and the store is written (the
    returned version is reported even when the write fails). *)
Theorem member_op_spec op service peers s fs :
  member_op op service peers (s, fs) =
  match validate_peers peers with
  | Err e => (Err e, (s, fs))
  | Ok _ =>
      match s_services s !! service with
      | None => (Err (ServiceNotFound service), (s, fs))
      | Some st =>
          let m := target_members op peers (st_members st) in
          if bool_decide (m = st_members st) then (Ok (st_version st), (s, fs))
          else let s' := store_bumped s service st m in
               (Ok (wrap_add64 (st_version st) 1), (s', (save s' fs).2))
      end
  end.
Proof.
  rewrite member_op_unfold. unfold mbind, ST_bind, st_lift.
  destruct (validate_peers peers); [|done]. unfold with_members, mbind, ST_bind, get_self, st_lift.
  destruct (s_services s !! service) as [st|] eqn:E; simpl; [|done].
  rewrite member_step_spec. unfold finish_change, mbind, ST_bind, set_self, get_self, save_ignored. simpl.
  rewrite lookup_insert_eq.
  destruct (decide (target_members op peers (st_members st) = st_members st)) as [Hm|Hm].
  - rewrite bool_decide_eq_false_2, bool_decide_eq_true_2 by auto. simpl. rewrite Hm.
    unfold set_services. simpl. rewrite insert_id by (by destruct st). by destruct s.
  - rewrite bool_decide_eq_true_2, bool_decide_eq_false_2 by auto. simpl.
    unfold store_bumped, set_index, set_services. simpl. by rewrite insert_insert_eq.
Qed.

(** ** Creation and deletion *)

Definition store_created (s : Store) (service : string) (peers : list string) : Store :=
  set_index (set_services s (<[service := MkServiceState 1 (list_to_set peers)]> (s_services s)))
    (wrap_add64 (s_index_version s) 1).
Definition store_deleted (s : Store) (service : string) (st : ServiceState) : Store :=
  set_index (set_tombstones (set_services s (delete service (s_services s)))
    (<[service := wrap_add64 (st_version st) 1]> (s_tombstones s))) (wrap_add64 (s_index_version s) 1).

Lemma create_service_eq service peers s fs :
  create_service service peers (s, fs) =
    if negb (is_valid_service_name service) then (Err (InvalidService service), (s, fs))
    else match validate_peers peers with
      | Err e => (Err e, (s, fs))
      | Ok _ =>
          if contains s service then (Err (ServiceExists service), (s, fs))
          else let s' := store_created s service peers in
               ((λ _, 1%N) <$> (save s' fs).1, (s', (save s' fs).2))
      end.
Proof.
  unfold create_service, mbind, ST_bind, st_err, st_lift, get_self, set_self, save_self.
  destruct (is_valid_service_name service); simpl; [|done].
  destruct (validate_peers peers); [|done]. destruct (contains s service); [done|].
  unfold store_created. simpl. by destruct (save _ fs) as [[] ?].
Qed.

Lemma delete_service_eq service s fs :
  delete_service service (s, fs) =
    match s_services s !! service with
    | None => (Err (ServiceNotFound service), (s, fs))
    | Some st =>
        let s' := store_deleted s service st in
        ((λ _, wrap_add64 (st_version st) 1) <$> (save s' fs).1, (s', (save s' fs).2))
    end.
Proof.
  unfold delete_service, mbind, ST_bind, st_lift, get_self, set_self, save_self.
  destruct (s_services s !! service) as [st|]; simpl; [|done].
  unfold store_deleted. simpl. by destruct (save _ fs) as [[] ?].
Qed.

(** ** Durability *)

Lemma save_spec s fs : with_extension (s_path s) "tmp" ≠ s_path s →
  match save s fs with
  | (Ok _, fs') => ∃ text, encode_to Toml (snapshot s) = Ok text
      ∧ fs_files fs' !! s_path s = Some (MkFile text 384)
  | (Err _, fs') => fs_files fs' !! s_path s = fs_files fs !! s_path s
  end.
Proof.
  intros Hne. unfold save, mbind, ST_bind, st_lift, st_map_err.
  destruct (encode_to Toml (snapshot s)) as [text|e]; simpl; [|done].
  pose proof (atomic_write_spec (s_path s) text (Some 384%N) fs Hne) as Hw.
  destruct (atomic_write (s_path s) text (Some 384%N) fs) as [[[]|] fs']; simpl; [|apply Hw].
  destruct Hw as (_ & m & Hf & Hm & _). exists text. simpl in Hm. by subst.
Qed.

(** Writing the store is all or nothing and loses nothing.  Whatever file
    operations fail: when [save] succeeds, opening the file again (with any
    initial services) gives back exactly the store in memory; when it fails, the
    state file is what it was before. *)
Theorem save_round_trip `{!CodecLaws Toml StoreSnapshot, !TextLaws Toml StoreSnapshot}
    s fs r fs' fs'' initial :
  with_extension (s_path s) "tmp" ≠ s_path s →
  save s fs = (r, fs') → fs_files fs'' = fs_files fs' → fs_faults fs'' = [] →
  match r with
  | Ok _ => Store.load_or_create (s_path s) (s_network s) initial fs'' = (Ok s, fs'')
  | Err _ => fs_files fs' !! s_path s = fs_files fs !! s_path s
  end.
Proof.
  intros Hne Hs Hfs Hnf. pose proof (save_spec s fs Hne) as Hspec. rewrite Hs in Hspec.
  destruct r; [|done]. destruct Hspec as (text & Ht & Hf).
  unfold Store.load_or_create, fs_read_to_string, mbind, ST_bind, fs_read, next_fault.
  rewrite Hnf, Hfs, Hf. simpl. rewrite (encode_utf8 _ _ Ht). simpl.
  rewrite (codec_round_trip _ _ Ht). simpl. rewrite bool_decide_eq_false_2 by auto. by destruct s.
Qed.

(** [create_service] and [delete_service] when the disk refuses the write:
    the call reports the error, the state file keeps its old contents, and the
    change is nevertheless in memory (a following call sees the service created
    or deleted). *)
Theorem failed_write_keeps_memory s fs service peers e w :
  with_extension (s_path s) "tmp" ≠ s_path s →
  is_valid_service_name service = true → validate_peers peers = Ok () →
  (contains s service = false → create_service service peers (s, fs) = (Err e, w) →
     s_services w.1 !! service = Some (MkServiceState 1 (list_to_set peers))
     ∧ fs_files w.2 !! s_path s = fs_files fs !! s_path s)
  ∧ (contains s service = true → delete_service service (s, fs) = (Err e, w) →
     s_services w.1 !! service = None
     ∧ fs_files w.2 !! s_path s = fs_files fs !! s_path s).
Proof.
  intros Hne Hv Hp. rewrite create_service_eq, delete_service_eq, Hv, Hp. simpl. split.
  - intros ->. pose proof (save_spec (store_created s service peers) fs Hne) as Hs.
    destruct (save _ fs) as [[]]; simpl; intros [= _ <-]. simpl. split; [apply lookup_insert_eq|done].
  - unfold contains. intros Hc%bool_decide_eq_true. destruct Hc as [st Hc]. rewrite Hc.
    pose proof (save_spec (store_deleted s service st) fs Hne) as Hs.
    destruct (save _ fs) as [[]]; simpl; intros [= _ <-]. simpl. split; [apply lookup_delete_eq|done].
Qed.

(** ** The invariant *)

Inductive StoreOp :=
  | SMembers (op : MemberOp) (service : string) (peers : list string)
  | SCreate (service : string) (peers : list string)
  | SDelete (service : string)
  | SReplicate (e : Entry)
  | SMerge (snap : StoreSnapshot)
  | SSetIndex (v : N)
  | SBump.

(** One call on the store; the results of the calls are dropped. *)
Definition run_store_op (op : StoreOp) (w : Store * Fs) : Store * Fs :=
  match op with
  | SMembers op service peers => (member_op op service peers w).2
  | SCreate service peers => (create_service service peers w).2
  | SDelete service => (delete_service service w).2
  | SReplicate e =>
      (apply_replicated (en_service e) (en_version e) (en_members e) (en_index e) (en_deleted e) w).2
  | SMerge snap => (merge_snapshot snap w).2
  | SSetIndex v => (set_index_version v w).2
  | SBump => (bump_index_version w).2
  end.

(** No version is at the end of the 64-bit range. *)
Definition store_room (s : Store) : Prop :=
  ∀ name st, s_services s !! name = Some st → (st_version st < u64_max)%N.

Lemma store_wf_index s i : store_wf (set_index s i) ↔ store_wf s.
Proof. done. Qed.

Lemma store_wf_insert s service st :
  store_wf s → service_ok service st → store_wf (set_services s (<[service := st]> (s_services s))).
Proof.
  intros [Hs Ht] Hok. split; [|done]. intros name st'. simpl.
  intros [[-> ->]|[_ Hn]]%lookup_insert_Some; auto.
Qed.

Lemma store_wf_tombstone s service v : store_wf s →
  is_valid_service_name service = true → (1 ≤ v)%N →
  store_wf (set_tombstones (set_services s (delete service (s_services s)))
    (<[service := v]> (s_tombstones s))).
Proof.
  intros [Hs Ht] Hv Hpos. split; simpl.
  - intros name st [_ Hn]%lookup_delete_Some. auto.
  - intros name v'. intros [[-> ->]|[_ Hn]]%lookup_insert_Some; auto.
Qed.

Lemma store_wf_untombstone s service : store_wf s →
  store_wf (set_tombstones s (delete service (s_tombstones s))).
Proof. intros [Hs Ht]. split; [done|]. simpl. intros name v [_ Hn]%lookup_delete_Some. auto. Qed.

Lemma validate_peers_members peers :
  validate_peers peers = Ok () → ∀ p, p ∈ (list_to_set peers : gset string) → is_valid_peer_id p = true.
Proof.
  intros Hp%validate_peers_Ok p. rewrite elem_of_list_to_set, list_elem_of_In.
  by apply forallb_forall.
Qed.

Lemma merge_service_wf service v ms deleted s :
  store_wf s → store_wf (merge_service service v ms deleted s).2.
Proof.
  intros Hwf. pose proof Hwf as [Hs Ht]. unfold merge_service, contains.
  destruct (is_valid_service_name service) eqn:Hv; simpl; [|done]. destruct deleted.
  - destruct (N.ltb_spec v (default 0%N (st_version <$> s_services s !! service))); [done|].
    destruct (N.ltb_spec v (default 0%N (s_tombstones s !! service))); [done|]. simpl.
    destruct (s_services s !! service) as [st|] eqn:E; simpl in *.
    + destruct (Hs _ _ E) as (_ & ? & _). apply store_wf_tombstone; [done..|lia].
    + destruct (N.leb_spec v (default 0%N (s_tombstones s !! service))); simpl; [done|].
      apply store_wf_tombstone; [done..|lia].
  - destruct (validate_peers ms) as [[]|] eqn:Hp; [|done].
    destruct (N.leb_spec v (default 0%N (s_tombstones s !! service))); [done|].
    destruct (N.ltb_spec v (default 0%N (st_version <$> s_services s !! service))); [done|]. simpl.
    assert (store_wf (set_tombstones (set_services s
      (<[service := MkServiceState v (list_to_set ms)]> (s_services s)))
        (delete service (s_tombstones s)))) as Hins.
    { apply (store_wf_untombstone (set_services s _)). apply store_wf_insert; [done|].
      split; [done|]. split; [simpl; lia|]. by apply validate_peers_members. }
    split_matches.
Qed.

Lemma merge_entry_wf service v ms ix deleted s :
  store_wf s → store_wf (merge_entry service v ms ix deleted s).2.
Proof.
  intros Hwf%(merge_service_wf service v ms deleted). unfold merge_entry, mbind, ST_bind.
  destruct (merge_service service v ms deleted s) as [[ch|e] s1]; simpl in *; [|done].
  by destruct (s_index_version s1 <? ix)%N.
Qed.

Lemma merge_entries_wf es ch s : store_wf s → store_wf (merge_entries es ch s).2.
Proof.
  revert ch s. induction es as [|e es IH]; intros ch s Hwf; [done|]. cbn [merge_entries].
  unfold mbind, ST_bind. pose proof (merge_entry_wf (en_service e) (en_version e) (en_members e)
    (en_index e) (en_deleted e) s Hwf) as Hm.
  destruct (merge_entry _ _ _ _ _ s) as [[c|err] s1]; simpl in *; [|done]. by apply IH.
Qed.

(** Writing after an operation in memory leaves the store of that operation. *)
Lemma in_memory_saved (m : ST Store StoreError bool) s fs :
  ((changed ← in_memory m; (if changed : bool then save_self else mret ()) ;; mret changed) (s, fs)).2.1
  = (m s).2.
Proof.
  unfold mbind at 1, ST_bind at 1, in_memory. destruct (m s) as [[ch|e] s1]; [|done].
  by rewrite (saved_memory ch).
Qed.

Lemma target_members_valid op peers st service : validate_peers peers = Ok () → service_ok service st →
  ∀ p, p ∈ target_members op peers (st_members st) → is_valid_peer_id p = true.
Proof.
  intros Hp (_ & _ & Hm) p. pose proof (validate_peers_members _ Hp p).
  destruct op; simpl; set_solver.
Qed.

(** C30: the store invariant.  Every operation, local or replicated, successful or
    failing, and with any file-system faults, keeps the store well formed: valid
    service names, valid peer ids, and positive versions of services and
    tombstones, as long as no local version is at the end of the 64-bit range
    (there the increment wraps to 0). *)
Theorem store_ops_preserve_wf op s fs :
  store_wf s → store_room s → store_wf (run_store_op op (s, fs)).1.
Proof.
  intros Hwf Hroom. pose proof Hwf as [Hs Ht]. destruct op as [op service peers|service peers|service|e|snap|v|]; simpl.
  - rewrite member_op_spec. destruct (validate_peers peers) as [[]|] eqn:Hp; [|done].
    destruct (s_services s !! service) as [st|] eqn:E; [|done]. simpl. case_bool_decide; [done|].
    apply store_wf_index, store_wf_insert; [done|]. pose proof (Hs _ _ E) as Hok. pose proof (Hroom _ _ E).
    split; [apply Hok|]. split; [simpl; rewrite wrap_add64_small by lia; lia|].
    by eapply target_members_valid.
  - rewrite create_service_eq. destruct (is_valid_service_name service) eqn:Hv; simpl; [|done].
    destruct (validate_peers peers) as [[]|] eqn:Hp; [|done]. destruct (contains s service); [done|].
    apply store_wf_index, store_wf_insert; [done|].
    split; [done|]. split; [done|]. by apply validate_peers_members.
  - rewrite delete_service_eq. destruct (s_services s !! service) as [st|] eqn:E; [|done]. simpl.
    pose proof (Hroom _ _ E). apply store_wf_index, store_wf_tombstone; [done|apply (Hs _ _ E)|].
    rewrite wrap_add64_small by lia. lia.
  - unfold apply_replicated. rewrite in_memory_saved. by apply merge_entry_wf.
  - unfold merge_snapshot. rewrite in_memory_saved. by apply merge_entries_wf.
  - unfold set_index_version, mbind, ST_bind, get_self, set_self, save_self.
    case_bool_decide; [|done]. by destruct (save _ fs).
  - done.
Qed.
End store_ops.

(** ** Examples *)

Section store_ops_examples.
Import Toy.

Lemma save_round_trip_witness :
  Store.load_or_create ex_path "net" ∅ (save ex_store ex_fs).2 = (Ok ex_store, (save ex_store ex_fs).2).
Proof.
  eapply (save_round_trip ex_store ex_fs (Ok ()) (save ex_store ex_fs).2);
    [vm_compute; discriminate| |reflexivity|reflexivity].
  vm_compute. reflexivity.
Defined.

(** The rename fails: the fourth call after [create_dir_all] is skipped. *)
Definition ex_bad_fs : Fs := MkFs ∅ ∅ 18 [None; None; Some (MkFault (fs_error PermissionDenied) 0)].

Lemma failed_write_keeps_memory_witness :
  let w := (create_service "new" ["bob"] (ex_store, ex_bad_fs)).2 in
  s_services w.1 !! "new" = Some (MkServiceState 1 {["bob"]}).
Proof.
  intros w.
  assert (create_service "new" ["bob"] (ex_store, ex_bad_fs) = (Err (StoreIo (fs_error PermissionDenied)), w))
    as Hw by (vm_compute; reflexivity).
  destruct (failed_write_keeps_memory ex_store ex_bad_fs "new" ["bob"] (StoreIo (fs_error PermissionDenied)) w)
    as [Hc _]; [vm_compute; discriminate|reflexivity|reflexivity|].
  destruct (Hc eq_refl Hw) as [Hs _]. rewrite Hs. vm_compute. reflexivity.
Defined.

Lemma store_ops_preserve_wf_witness :
  store_wf (run_store_op (SMembers OpAdd "web" ["bob"]) (ex_store, ex_bad_fs)).1.
Proof.
  apply (store_ops_preserve_wf (SMembers OpAdd "web" ["bob"]) ex_store ex_bad_fs); [apply ex_store_wf|].
  intros name st Hst. destruct (decide (name = "web")) as [->|].
  - vm_compute in Hst. injection Hst as <-. reflexivity.
  - simpl in Hst. by rewrite lookup_singleton_ne in Hst.
Defined.
End store_ops_examples.
