(* ===== verification/Types.v ===== *)
(** * Control-plane data: [src/src/raft/types.rs]

    Node ids are [u64] numbers; the [openraft] request bodies are opaque. *)
From S2P Require Import Prelude.

Abbreviation NodeId := N.

Record RaftNode := MkRaftNode { rn_peer_id : string; rn_identity_key : string; rn_x25519_key : string }.
Global Instance RaftNode_eq_dec : EqDecision RaftNode.
Proof. solve_decision. Defined.
Global Instance RaftNode_countable : Countable RaftNode.
Proof.
  refine (inj_countable' (λ n, (rn_peer_id n, rn_identity_key n, rn_x25519_key n))
    (λ '(a, b, c), MkRaftNode a b c) _). by intros [].
Defined.

(** A join token signed by a root administrator; [jt_max_uses] is a [u32]. *)
Record JoinToken := MkJoinToken {
  jt_v : N; jt_jti : string; jt_cluster_id : string; jt_network : string; jt_audience : string;
  jt_expires_at : N; jt_max_uses : N; jt_bind_peer_id : string; jt_kid : string; jt_sig : string;
}.
Global Instance JoinToken_eq_dec : EqDecision JoinToken.
Proof. solve_decision. Defined.
Global Instance JoinToken_countable : Countable JoinToken.
Proof.
  refine (inj_countable' (λ t, (jt_v t, jt_jti t, jt_cluster_id t, jt_network t, jt_audience t,
      (jt_expires_at t, jt_max_uses t, jt_bind_peer_id t, jt_kid t, jt_sig t)))
    (λ '(a, b, c, d, e, (f, g, h, i, j)), MkJoinToken a b c d e f g h i j) _). by intros [].
Defined.

Record StoredJoinToken := MkStoredJoinToken { sj_token : JoinToken; sj_uses : N }.
Global Instance StoredJoinToken_eq_dec : EqDecision StoredJoinToken.
Proof. solve_decision. Defined.
Global Instance StoredJoinToken_countable : Countable StoredJoinToken.
Proof.
  refine (inj_countable' (λ t, (sj_token t, sj_uses t)) (λ '(a, b), MkStoredJoinToken a b) _).
  by intros [].
Defined.

Inductive PolicyCommand :=
  | CreateService (service : string) (members : list string)
  | DeleteService (service : string)
  | AddMembers (service : string) (peers : list string)
  | RemoveMembers (service : string) (peers : list string)
  | SetMembers (service : string) (peers : list string)
  | Admin (request_id kid request_hash : string) (request_ts : N) (command : PolicyCommand)
  | RenewIndex (expires_at : N)
  | IssueJoinToken (token : JoinToken)
  | ConsumeJoinToken (jti : string) (node_id : NodeId) (peer_id : string) (used_at : N).
Global Instance PolicyCommand_eq_dec : EqDecision PolicyCommand.
Proof. solve_decision. Defined.

(** The administrator command is a box around another command: as a tree of
    labels, for the codecs. *)
Fixpoint command_tree (c : PolicyCommand) : list (list string * list N) :=
  match c with
  | CreateService s m => [(s :: m, [0%N])]
  | DeleteService s => [([s], [1%N])]
  | AddMembers s p => [(s :: p, [2%N])]
  | RemoveMembers s p => [(s :: p, [3%N])]
  | SetMembers s p => [(s :: p, [4%N])]
  | Admin i k h t c => ([i; k; h], [5%N; t]) :: command_tree c
  | RenewIndex e => [([], [6%N; e])]
  | IssueJoinToken t =>
      [([jt_jti t; jt_cluster_id t; jt_network t; jt_audience t; jt_bind_peer_id t; jt_kid t; jt_sig t],
        [7%N; jt_v t; jt_expires_at t; jt_max_uses t])]
  | ConsumeJoinToken j n p u => [([j; p], [8%N; n; u])]
  end.
Fixpoint command_of_tree (l : list (list string * list N)) : option PolicyCommand :=
  match l with
  | [] => None
  | (ss, ns) :: rest =>
      match ns, ss with
      | [0%N], s :: m => Some (CreateService s m)
      | [1%N], [s] => Some (DeleteService s)
      | [2%N], s :: p => Some (AddMembers s p)
      | [3%N], s :: p => Some (RemoveMembers s p)
      | [4%N], s :: p => Some (SetMembers s p)
      | [5%N; t], [i; k; h] => Admin i k h t <$> command_of_tree rest
      | [6%N; e], [] => Some (RenewIndex e)
      | [7%N; v; x; m], [a; b; c; d; e; f; g] => Some (IssueJoinToken (MkJoinToken v a b c d x m e f g))
      | [8%N; n; u], [j; p] => Some (ConsumeJoinToken j n p u)
      | _, _ => None
      end
  end.
Lemma command_of_command_tree c : command_of_tree (command_tree c) = Some c.
Proof. induction c as [| | | | |i k h t c IH| |[]|]; try done. simpl. by rewrite IH. Qed.
Global Instance PolicyCommand_countable : Countable PolicyCommand.
Proof. apply (inj_countable command_tree command_of_tree), command_of_command_tree. Defined.

Inductive AdminOutcome :=
  | OutApplied (service : option string) (version : option N) (changed : bool)
  | OutRejected (code message : string).
Global Instance AdminOutcome_eq_dec : EqDecision AdminOutcome.
Proof. solve_decision. Defined.
Global Instance AdminOutcome_countable : Countable AdminOutcome.
Proof.
  refine (inj_countable' (λ o, match o with
      | OutApplied s v c => inl (s, v, c) | OutRejected a b => inr (a, b) end)
    (λ x, match x with inl (s, v, c) => OutApplied s v c | inr (a, b) => OutRejected a b end) _).
  by intros [].
Defined.

Inductive PolicyResult :=
  | Applied (service : option string) (version : option N) (policy_epoch : N) (changed : bool)
  | Rejected (code message : string) (policy_epoch : N)
  | AdminResult (request_id : string) (policy_epoch raft_index : N) (duplicate : bool)
      (outcome : AdminOutcome).
Global Instance PolicyResult_eq_dec : EqDecision PolicyResult.
Proof. solve_decision. Defined.

(** The body of an internal RPC, over [openraft]'s request types. *)
Inductive RaftRpcBody (VoteReq AppendReq InstallReq : Type) :=
  | RpcVote (r : VoteReq)
  | RpcAppendEntries (r : AppendReq)
  | RpcInstallSnapshot (r : InstallReq)
  | RpcElect.
Global Arguments RpcVote {_ _ _} _.
Global Arguments RpcAppendEntries {_ _ _} _.
Global Arguments RpcInstallSnapshot {_ _ _} _.
Global Arguments RpcElect {_ _ _}.
Global Instance RaftRpcBody_eq_dec `{EqDecision V, EqDecision A, EqDecision B} : EqDecision (RaftRpcBody V A B).
Proof. solve_decision. Defined.
Global Instance RaftRpcBody_countable `{Countable V, Countable A, Countable B} : Countable (RaftRpcBody V A B).
Proof.
  refine (inj_countable' (λ b, match b with
      | RpcVote r => inl r | RpcAppendEntries r => inr (inl r)
      | RpcInstallSnapshot r => inr (inr (inl r)) | RpcElect => inr (inr (inr ())) end)
    (λ x, match x with
      | inl r => RpcVote r | inr (inl r) => RpcAppendEntries r
      | inr (inr (inl r)) => RpcInstallSnapshot r | inr (inr (inr _)) => RpcElect end) _).
  by intros [].
Defined.

(** The envelopes of the internal RPC. *)
Record RaftRpcEnvelope := MkRaftRpcEnvelope {
  re_op : string; re_cluster_id : string; re_from : NodeId; re_to : NodeId;
  re_body : string; re_signature : string;
}.
Global Instance RaftRpcEnvelope_eq_dec : EqDecision RaftRpcEnvelope.
Proof. solve_decision. Defined.
Global Instance RaftRpcEnvelope_countable : Countable RaftRpcEnvelope.
Proof.
  refine (inj_countable' (λ e, (re_op e, re_cluster_id e, re_from e, re_to e, re_body e, re_signature e))
    (λ '(a, b, c, d, e, f), MkRaftRpcEnvelope a b c d e f) _). by intros [].
Defined.
Record RaftRpcReply := MkRaftRpcReply {
  rr_op : string; rr_cluster_id : string; rr_from : NodeId; rr_to : NodeId; rr_ok : bool;
  rr_body : string; rr_error : string; rr_signature : string;
}.
Global Instance RaftRpcReply_eq_dec : EqDecision RaftRpcReply.
Proof. solve_decision. Defined.
Global Instance RaftRpcReply_countable : Countable RaftRpcReply.
Proof.
  refine (inj_countable' (λ e, (rr_op e, rr_cluster_id e, rr_from e, rr_to e, rr_ok e,
      (rr_body e, rr_error e, rr_signature e)))
    (λ '(a, b, c, d, e, (f, g, h)), MkRaftRpcReply a b c d e f g h) _). by intros [].
Defined.
