(* ===== verification/StateMachine.v ===== *)
(** * The policy state machine: [src/src/raft/state_machine.rs]

    Commands committed by Raft are applied in log order to a [PolicyState].  All
    arithmetic on versions and the epoch saturates. *)
From S2P Require Import Prelude Fsutil Crypto Authority Store Types.

Definition DEDUP_MAX_ENTRIES : nat := N.to_nat 10000.
Global Opaque DEDUP_MAX_ENTRIES.
Definition DEDUP_TTL_SECS : N := 86400.

Record AdminRecord := MkAdminRecord {
  ar_request_hash : string; ar_outcome : AdminOutcome; ar_policy_epoch : N; ar_raft_index : N;
  ar_request_ts : N;
}.
Global Instance AdminRecord_eq_dec : EqDecision AdminRecord.
Proof. solve_decision. Defined.
Global Instance AdminRecord_countable : Countable AdminRecord.
Proof.
  refine (inj_countable' (λ r, (ar_request_hash r, ar_outcome r, ar_policy_epoch r, ar_raft_index r,
      ar_request_ts r)) (λ '(a, b, c, d, e), MkAdminRecord a b c d e) _). by intros [].
Defined.

Record PolicyState := MkPolicyState {
  p_network : string;
  p_policy_epoch : N;
  p_index_expires_at : N;
  p_services : gmap string ServiceState;
  p_tombstones : gmap string N;
  p_dedup : gmap string AdminRecord;
  p_join_tokens : gmap string StoredJoinToken;
}.
Global Instance PolicyState_eq_dec : EqDecision PolicyState.
Proof. solve_decision. Defined.
Global Instance PolicyState_countable : Countable PolicyState.
Proof.
  refine (inj_countable' (λ p, (p_network p, p_policy_epoch p, p_index_expires_at p, p_services p,
      (p_tombstones p, p_dedup p, p_join_tokens p)))
    (λ '(a, b, c, d, (e, f, g)), MkPolicyState a b c d e f g) _). by intros [].
Defined.

Definition PolicyState_new (network : string) : PolicyState :=
  MkPolicyState network 1 0 ∅ ∅ ∅ ∅.

Definition from_store_snapshot (s : StoreSnapshot) : PolicyState :=
  MkPolicyState (sn_network s) (N.max (sn_index_version s) 1) 0 (sn_services s) (sn_tombstones s) ∅ ∅.

Definition to_store_snapshot (p : PolicyState) : StoreSnapshot :=
  MkStoreSnapshot (p_network p) (p_policy_epoch p) (p_services p) (p_tombstones p).

(** Updates of single fields. *)
Definition set_epoch (p : PolicyState) (e : N) : PolicyState :=
  MkPolicyState (p_network p) e (p_index_expires_at p) (p_services p) (p_tombstones p) (p_dedup p)
    (p_join_tokens p).
Definition set_expires (p : PolicyState) (e : N) : PolicyState :=
  MkPolicyState (p_network p) (p_policy_epoch p) e (p_services p) (p_tombstones p) (p_dedup p)
    (p_join_tokens p).
Definition set_p_services (p : PolicyState) (m : gmap string ServiceState) : PolicyState :=
  MkPolicyState (p_network p) (p_policy_epoch p) (p_index_expires_at p) m (p_tombstones p) (p_dedup p)
    (p_join_tokens p).
Definition set_p_tombstones (p : PolicyState) (t : gmap string N) : PolicyState :=
  MkPolicyState (p_network p) (p_policy_epoch p) (p_index_expires_at p) (p_services p) t (p_dedup p)
    (p_join_tokens p).
Definition set_dedup (p : PolicyState) (d : gmap string AdminRecord) : PolicyState :=
  MkPolicyState (p_network p) (p_policy_epoch p) (p_index_expires_at p) (p_services p) (p_tombstones p) d
    (p_join_tokens p).
Definition set_join_tokens (p : PolicyState) (t : gmap string StoredJoinToken) : PolicyState :=
  MkPolicyState (p_network p) (p_policy_epoch p) (p_index_expires_at p) (p_services p) (p_tombstones p)
    (p_dedup p) t.
Definition bump_epoch (p : PolicyState) : PolicyState := set_epoch p (sat_add64 (p_policy_epoch p) 1).

(** A rejection: code and message. *)
Abbreviation rejection := (string * string)%type.

Section state_machine.
Context `{Crypto}.

Fixpoint validate_peers (peers : list string) : result rejection unit :=
  match peers with
  | [] => Ok ()
  | p :: peers =>
      if negb (is_valid_peer_id p) then Err ("invalid_peer", "非法 PeerId: " +:+ p)
      else validate_peers peers
  end.

Definition finish_change (service : string) (changed : bool) : ST PolicyState rejection (N * bool) := λ p,
  match p_services p !! service with
  | None => (Err ("panic", "service exists"), p)
  | Some state =>
      if negb changed then (Ok (st_version state, false), p)
      else
        let v := sat_add64 (st_version state) 1 in
        (Ok (v, true),
         bump_epoch (set_p_services p (<[service := MkServiceState v (st_members state)]> (p_services p))))
  end.

(** The body the member commands share. *)
Definition with_members (service : string) (f : gset string → gset string * bool)
    : ST PolicyState rejection (N * bool) :=
  p ← st_get;
  state ← st_lift (ok_or (p_services p !! service) ("not_found", "服务不存在: " +:+ service));
  let '(m, changed) := f (st_members state) in
  st_put (set_p_services p (<[service := MkServiceState (st_version state) m]> (p_services p))) ;;
  finish_change service changed.

Definition add_members (service : string) (peers : list string) : ST PolicyState rejection (N * bool) :=
  st_lift (validate_peers peers) ;;
  with_members service (λ m, insert_all peers m false).

Definition remove_members (service : string) (peers : list string) : ST PolicyState rejection (N * bool) :=
  st_lift (validate_peers peers) ;;
  with_members service (λ m, remove_all peers m false).

Definition set_members (service : string) (peers : list string) : ST PolicyState rejection (N * bool) :=
  st_lift (validate_peers peers) ;;
  let incoming : gset string := list_to_set peers in
  with_members service (λ m, if bool_decide (m ≠ incoming) then (incoming, true) else (m, false)).

Definition create_service (service : string) (members : list string) : ST PolicyState rejection N := λ p,
  if negb (is_valid_service_name service) then (Err ("invalid_service", "非法服务名: " +:+ service), p)
  else match validate_peers members with
  | Err e => (Err e, p)
  | Ok _ =>
      if bool_decide (is_Some (p_services p !! service))
      then (Err ("already_exists", "服务已存在: " +:+ service), p)
      else (Ok 1%N,
            bump_epoch (set_p_services p
              (<[service := MkServiceState 1 (list_to_set members)]> (p_services p))))
  end.

Definition delete_service (service : string) : ST PolicyState rejection N := λ p,
  match p_services p !! service with
  | None => (Err ("not_found", "服务不存在: " +:+ service), p)
  | Some removed =>
      let p := set_p_services p (delete service (p_services p)) in
      let tombstone := sat_add64 (st_version removed) 1 in
      (Ok tombstone, bump_epoch (set_p_tombstones p (<[service := tombstone]> (p_tombstones p))))
  end.

Definition issue_join_token (token : JoinToken) : ST PolicyState rejection unit := λ p,
  if negb (jt_v token =? 1)%N then
    (Err ("join_token_bad_version", "unsupported join token version: " +:+ pretty (jt_v token)), p)
  else if trim_is_empty (jt_jti token) then
    (Err ("join_token_bad_jti", "join token jti is empty"), p)
  else if (jt_max_uses token =? 0)%N then
    (Err ("join_token_bad_uses", "join token max_uses must be positive"), p)
  else if negb (bool_decide (jt_network token = p_network p)) then
    (Err ("join_token_wrong_network",
          "join token network " +:+ jt_network token +:+ " does not match state network " +:+ p_network p), p)
  else if bool_decide (is_Some (p_join_tokens p !! jt_jti token)) then
    (Err ("join_token_exists", "join token jti already recorded: " +:+ jt_jti token), p)
  else
    (Ok (), set_join_tokens p (<[jt_jti token := MkStoredJoinToken token 0]> (p_join_tokens p))).

Definition consume_join_token (jti peer_id : string) (used_at : N) : ST PolicyState rejection unit := λ p,
  match p_join_tokens p !! jti with
  | None => (Err ("join_token_unknown", "unknown join token: " +:+ jti), p)
  | Some record =>
      let token := sj_token record in
      if (jt_max_uses token <=? sj_uses record)%N then
        (Err ("join_token_replayed", "join token already used: " +:+ jti), p)
      else if negb (str_is_empty (jt_bind_peer_id token)) && negb (bool_decide (jt_bind_peer_id token = peer_id)) then
        (Err ("join_token_wrong_peer", "join token bound to a different peer: " +:+ jti), p)
      else if (jt_expires_at token =? 0)%N || (jt_expires_at token <? used_at)%N then
        (Err ("join_token_expired", "join token expired: " +:+ jti), p)
      else
        (Ok (), set_join_tokens p
                  (<[jti := MkStoredJoinToken token (sat_add32 (sj_uses record) 1)]> (p_join_tokens p)))
  end.

Definition apply_inner (cmd : PolicyCommand)
    : ST PolicyState rejection (option string * option N * bool) :=
  match cmd with
  | CreateService service members =>
      v ← create_service service members;
      mret (Some service, Some v, true)
  | DeleteService service =>
      tombstone ← delete_service service;
      mret (Some service, Some tombstone, true)
  | AddMembers service peers =>
      vc ← add_members service peers;
      mret (Some service, Some vc.1, vc.2)
  | RemoveMembers service peers =>
      vc ← remove_members service peers;
      mret (Some service, Some vc.1, vc.2)
  | SetMembers service peers =>
      vc ← set_members service peers;
      mret (Some service, Some vc.1, vc.2)
  | Admin _ _ _ _ _ => st_err ("bad_command", "nested Admin command is not allowed")
  | RenewIndex expires_at =>
      p ← st_get;
      st_put (set_expires (bump_epoch p) expires_at) ;;
      mret (None, None, true)
  | IssueJoinToken token =>
      issue_join_token token ;;
      mret (Some (jt_jti token), Some (jt_expires_at token), true)
  | ConsumeJoinToken jti _ peer_id used_at =>
      consume_join_token jti peer_id used_at ;;
      mret (Some jti, None, true)
  end.

(** [iter().min_by_key(|(_, r)| r.raft_index)]: the first of the entries with the
    least log index, in key order. *)
Definition older (a b : string * AdminRecord) : string * AdminRecord :=
  if (ar_raft_index b.2 <? ar_raft_index a.2)%N then b else a.
Definition oldest (d : gmap string AdminRecord) : option string :=
  match btree_entries d with
  | [] => None
  | e :: es => Some (foldl older e es).1
  end.

(** The [while] loop; the number of entries is enough fuel. *)
Fixpoint evict_oldest (fuel : nat) (d : gmap string AdminRecord) : gmap string AdminRecord :=
  match fuel with
  | O => d
  | S fuel =>
      if bool_decide (DEDUP_MAX_ENTRIES < size d) then
        match oldest d with
        | Some key => evict_oldest fuel (delete key d)
        | None => d
        end
      else d
  end.

Definition prune_dedup (p : PolicyState) (now : N) : PolicyState :=
  let d := filter (λ kr, (sat_sub now (ar_request_ts kr.2) <= DEDUP_TTL_SECS)%N) (p_dedup p) in
  set_dedup p (evict_oldest (size d) d).

Definition outcome_of (r : result rejection (option string * option N * bool)) : AdminOutcome :=
  match r with
  | Ok (service, version, changed) => OutApplied service version changed
  | Err (code, message) => OutRejected code message
  end.

Definition apply_admin (request_id request_hash : string) (request_ts : N) (command : PolicyCommand)
    (raft_index : N) (p : PolicyState) : PolicyResult * PolicyState :=
  match p_dedup p !! request_id with
  | Some record =>
      if bool_decide (ar_request_hash record = request_hash) then
        (AdminResult request_id (ar_policy_epoch record) (ar_raft_index record) true (ar_outcome record), p)
      else
        (AdminResult request_id (p_policy_epoch p) raft_index true
           (OutRejected "request_id_conflict"
              ("request_id " +:+ request_id +:+ " reused with different request content")), p)
  | None =>
      let '(r, p) := apply_inner command p in
      let outcome := outcome_of r in
      let policy_epoch := p_policy_epoch p in
      let p := set_dedup p
        (<[request_id := MkAdminRecord request_hash outcome policy_epoch raft_index request_ts]> (p_dedup p)) in
      (AdminResult request_id policy_epoch raft_index false outcome, prune_dedup p request_ts)
  end.

Definition apply_command_at (cmd : PolicyCommand) (raft_index : N) (p : PolicyState)
    : PolicyResult * PolicyState :=
  match cmd with
  | Admin request_id _ request_hash request_ts command =>
      apply_admin request_id request_hash request_ts command raft_index p
  | _ =>
      match apply_inner cmd p with
      | (Ok (service, version, changed), p) => (Applied service version (p_policy_epoch p) changed, p)
      | (Err (code, message), p) => (Rejected code message (p_policy_epoch p), p)
      end
  end.

Definition apply_command (cmd : PolicyCommand) (p : PolicyState) : PolicyResult * PolicyState :=
  apply_command_at cmd 0 p.

Definition service_version (p : PolicyState) (service : string) : option N :=
  st_version <$> p_services p !! service.
Definition service_members (p : PolicyState) (service : string) : option (list string) :=
  (λ st, btree_set (st_members st)) <$> p_services p !! service.
End state_machine.
