(* ===== verification/PolicyProps.v ===== *)
(** * Properties of the policy state machine ([src/src/raft/state_machine.rs]) *)
From S2P Require Import Prelude Fsutil Crypto Authority Store StoreMerge StoreOps Types StateMachine.

(** What the published records are made of. *)
Definition policy_of (p : PolicyState) : gmap string ServiceState * gmap string N * N :=
  (p_services p, p_tombstones p, p_index_expires_at p).

Section policy_props.
Context `{CR : Crypto}.

(** A log: commands with the index each was committed at. *)
Definition run_log (log : list (N * PolicyCommand)) (p : PolicyState) : PolicyState :=
  foldl (λ p ic, (apply_command_at ic.2 ic.1 p).2) p log.

(** ** Equations of the operations *)

Lemma with_members_eq op peers service p :
  with_members service (member_step op peers) p =
  match p_services p !! service with
  | None => (Err ("not_found", "服务不存在: " +:+ service), p)
  | Some st =>
      let m := target_members op peers (st_members st) in
      if bool_decide (m = st_members st) then (Ok (st_version st, false), p)
      else
        let v := sat_add64 (st_version st) 1 in
        (Ok (v, true), bump_epoch (set_p_services p (<[service := MkServiceState v m]> (p_services p))))
  end.
Proof.
  unfold with_members, mbind, ST_bind, st_get, st_lift, st_put.
  destruct (p_services p !! service) as [st|] eqn:E; simpl; [|done].
  rewrite member_step_spec. unfold finish_change. simpl. rewrite lookup_insert_eq.
  destruct (decide (target_members op peers (st_members st) = st_members st)) as [Hm|Hm].
  - rewrite bool_decide_eq_false_2, bool_decide_eq_true_2 by auto. simpl. rewrite Hm.
    unfold set_p_services. simpl. rewrite insert_id by (by destruct st). by destruct p.
  - rewrite bool_decide_eq_true_2, bool_decide_eq_false_2 by auto. simpl.
    unfold set_p_services. simpl. by rewrite insert_insert_eq.
Qed.

Definition member_cmd (op : MemberOp) (service : string) (peers : list string) : PolicyCommand :=
  match op with
  | OpAdd => AddMembers service peers
  | OpRemove => RemoveMembers service peers
  | OpSet => SetMembers service peers
  end.

Lemma apply_inner_member op service peers p :
  apply_inner (member_cmd op service peers) p =
  match validate_peers peers with
  | Err e => (Err e, p)
  | Ok _ =>
      match with_members service (member_step op peers) p with
      | (Ok (v, ch), p') => (Ok (Some service, Some v, ch), p')
      | (Err e, p') => (Err e, p')
      end
  end.
Proof.
  destruct op; unfold apply_inner, member_cmd, add_members, remove_members, set_members, mbind, ST_bind, st_lift;
    (destruct (validate_peers peers); [|done]); by destruct (with_members _ _ p) as [[[]|] ?].
Qed.

(** What one command does to the parts of the state, on every branch. *)
Lemma apply_inner_effect cmd p :
  let '(r, p') := apply_inner cmd p in
  p_network p' = p_network p ∧ p_dedup p' = p_dedup p ∧
  match r with
  | Err _ => p' = p
  | Ok (_, _, changed) =>
      (policy_of p' = policy_of p ∧ p_policy_epoch p' = p_policy_epoch p)
      ∨ (changed = true ∧ p_policy_epoch p' = sat_add64 (p_policy_epoch p) 1
         ∧ p_join_tokens p' = p_join_tokens p)
  end.
Proof.
  assert (∀ op service peers, let '(r, p') := apply_inner (member_cmd op service peers) p in
    p_network p' = p_network p ∧ p_dedup p' = p_dedup p ∧
    match r with
    | Err _ => p' = p
    | Ok (_, _, changed) =>
        (policy_of p' = policy_of p ∧ p_policy_epoch p' = p_policy_epoch p)
        ∨ (changed = true ∧ p_policy_epoch p' = sat_add64 (p_policy_epoch p) 1
           ∧ p_join_tokens p' = p_join_tokens p)
    end) as Hm.
  { intros op service peers. rewrite apply_inner_member, with_members_eq.
    destruct (validate_peers peers); [|done]. destruct (p_services p !! service); [|done]. simpl.
    case_bool_decide; simpl; auto 6. }
  destruct cmd as [service ms|service|service ps|service ps|service ps|id k h ts c|e|t|j n peer u].
  - unfold apply_inner, create_service, mbind, ST_bind, mret, ST_ret. split_matches; auto 6.
  - unfold apply_inner, delete_service, mbind, ST_bind, mret, ST_ret. split_matches; auto 6.
  - apply (Hm OpAdd).
  - apply (Hm OpRemove).
  - apply (Hm OpSet).
  - done.
  - simpl. auto 6.
  - unfold apply_inner, issue_join_token, mbind, ST_bind, mret, ST_ret. split_matches; auto 6.
  - unfold apply_inner, consume_join_token, mbind, ST_bind, mret, ST_ret. split_matches; auto 6.
Qed.

Lemma prune_dedup_fields p now :
  p_network (prune_dedup p now) = p_network p ∧ policy_of (prune_dedup p now) = policy_of p
  ∧ p_policy_epoch (prune_dedup p now) = p_policy_epoch p ∧ p_join_tokens (prune_dedup p now) = p_join_tokens p.
Proof. done. Qed.

Lemma command_cases cmd :
  (∃ id k h ts c, cmd = Admin id k h ts c) ∨ (∀ id k h ts c, cmd ≠ Admin id k h ts c).
Proof. destruct cmd; try (right; done). left. eauto 6. Qed.

Lemma apply_command_plain cmd i p : (∀ id k h ts c, cmd ≠ Admin id k h ts c) →
  apply_command_at cmd i p = match apply_inner cmd p with
    | (Ok (s, v, ch), p) => (Applied s v (p_policy_epoch p) ch, p)
    | (Err (code, message), p) => (Rejected code message (p_policy_epoch p), p)
    end.
Proof. intros Hn. destruct cmd; try done. by destruct (Hn request_id kid request_hash request_ts cmd). Qed.

Lemma apply_command_effect cmd i p :
  let '(r, p') := apply_command_at cmd i p in
  p_network p' = p_network p ∧
  ((policy_of p' = policy_of p ∧ p_policy_epoch p' = p_policy_epoch p)
   ∨ p_policy_epoch p' = sat_add64 (p_policy_epoch p) 1).
Proof.
  assert (∀ c, (∀ r p', apply_inner c p = (r, p') → p_network p' = p_network p ∧
    ((policy_of p' = policy_of p ∧ p_policy_epoch p' = p_policy_epoch p)
     ∨ p_policy_epoch p' = sat_add64 (p_policy_epoch p) 1))) as Hc.
  { intros c r p' Hr. pose proof (apply_inner_effect c p) as He. rewrite Hr in He.
    destruct He as (? & _ & He). split; [done|]. destruct r as [[[s v] ch]|e]; [|subst; auto].
    destruct He as [?|(_ & ? & _)]; auto. }
  destruct (command_cases cmd) as [(id & k & h & ts & c & ->)|Hn].
  - unfold apply_command_at, apply_admin. destruct (p_dedup p !! id); [by case_bool_decide; auto|].
    destruct (apply_inner c p) as [r p'] eqn:Hr. apply (Hc _ _ _ Hr).
  - rewrite (apply_command_plain _ _ _ Hn).
    destruct (apply_inner cmd p) as [[[[s v] ch]|[a b]] p'] eqn:Hr; apply (Hc _ _ _ Hr).
Qed.

(** C20: the policy epoch never goes back, advances by at most one per command, and
    identifies the policy: as long as it has not moved (and is not at the end of
    the 64-bit range), neither have the services, the tombstones and the index
    expiry.  This is what lets a publisher fence on the epoch. *)
Theorem epoch_identifies_policy log p :
  (p_policy_epoch p ≤ u64_max)%N →
  let p' := run_log log p in
  (p_policy_epoch p ≤ p_policy_epoch p' ≤ u64_max)%N
  ∧ (p_policy_epoch p' ≤ p_policy_epoch p + N.of_nat (length log))%N
  ∧ (p_policy_epoch p' = p_policy_epoch p → (p_policy_epoch p < u64_max)%N → policy_of p' = policy_of p).
Proof.
  unfold run_log. revert p. induction log as [|[i cmd] log IH]; intros p Hp; simpl.
  { split_and!; [lia..|done]. }
  pose proof (apply_command_effect cmd i p) as He.
  destruct (apply_command_at cmd i p) as [r p1]. destruct He as [_ He]. simpl.
  destruct (IH p1) as (Hle & Hub & Heq).
  { destruct He as [[_ ->]| ->]; [done|apply sat_add64_le]. }
  unfold sat_add64 in He. split_and!; [lia..|]. intros Hsame Hlt.
  destruct He as [[Hpol He]|He]; [|lia]. rewrite Heq, Hpol by lia. done.
Qed.

(** A refused command changes nothing.  A [Rejected] result and a duplicate or
    conflicting administrator request leave the state exactly as it was; a
    refused administrator request leaves only its entry in the duplicate table. *)
Theorem rejection_changes_nothing cmd i p r p' :
  apply_command_at cmd i p = (r, p') →
  match r with
  | Applied _ _ _ _ => True
  | Rejected _ _ e => p' = p ∧ e = p_policy_epoch p
  | AdminResult _ _ _ true _ => p' = p
  | AdminResult _ _ _ false (OutRejected _ _) => p' = set_dedup p (p_dedup p')
  | AdminResult _ _ _ false (OutApplied _ _ _) => True
  end.
Proof.
  destruct (command_cases cmd) as [(id & k & h & ts & c & ->)|Hn].
  - unfold apply_command_at, apply_admin. destruct (p_dedup p !! id).
    { case_bool_decide; by intros [= <- <-]. }
    pose proof (apply_inner_effect c p) as He. destruct (apply_inner c p) as [r0 p0].
    intros [= <- <-]. destruct r0 as [[[s v] ch]|[a b]]; simpl; [done|].
    destruct He as (_ & _ & ->). done.
  - rewrite (apply_command_plain _ _ _ Hn). pose proof (apply_inner_effect cmd p) as He.
    destruct (apply_inner cmd p) as [[[[s v] ch]|[a b]] p0]; intros [= <- <-]; [done|].
    destruct He as (_ & _ & ->). done.
Qed.

(** ** The duplicate table *)

Lemma foldl_older es e :
  let r := foldl older e es in
  r ∈ e :: es ∧ ∀ x, x ∈ e :: es → (ar_raft_index r.2 ≤ ar_raft_index x.2)%N.
Proof.
  revert e. induction es as [|y es IH]; intros e; simpl.
  { split; [set_solver|]. intros x ->%list_elem_of_singleton. lia. }
  destruct (IH (older e y)) as [Hin Hle].
  assert (older e y = e ∨ older e y = y) as Hc by (unfold older; case_match; auto).
  assert (ar_raft_index (older e y).2 ≤ ar_raft_index e.2
    ∧ ar_raft_index (older e y).2 ≤ ar_raft_index y.2)%N as [He Hy].
  { unfold older. destruct (N.ltb_spec (ar_raft_index y.2) (ar_raft_index e.2)); lia. }
  split.
  { apply elem_of_cons in Hin as [->|Hin]; [|set_solver]. destruct Hc as [->| ->]; set_solver. }
  intros x Hx.
  pose proof (Hle (older e y) ltac:(set_solver)).
  apply elem_of_cons in Hx as [->|[->|Hx]%elem_of_cons]; [lia..|]. apply Hle. set_solver.
Qed.

Lemma oldest_Some d k : oldest d = Some k →
  ∃ r, d !! k = Some r ∧ ∀ k' r', d !! k' = Some r' → (ar_raft_index r ≤ ar_raft_index r')%N.
Proof.
  unfold oldest. destruct (btree_entries d) as [|e es] eqn:E; [done|]. intros [= <-].
  destruct (foldl_older es e) as [Hin Hle]. destruct (foldl older e es) as [k r]. exists r.
  rewrite <-E in Hin. apply elem_of_ord_entries in Hin. split; [done|].
  intros k' r' Hk'. apply (Hle (k', r')). rewrite <-E. by apply elem_of_ord_entries.
Qed.

Lemma oldest_None d : oldest d = None → d = ∅.
Proof.
  unfold oldest. destruct (btree_entries d) as [|e es] eqn:E; [|done]. intros _.
  apply map_empty. intros k. apply eq_None_ne_Some. intros r Hr.
  apply (elem_of_ord_entries String.le) in Hr. rewrite E in Hr. set_solver.
Qed.

Lemma evict_oldest_size fuel d : size d ≤ DEDUP_MAX_ENTRIES + fuel →
  size (evict_oldest fuel d) ≤ DEDUP_MAX_ENTRIES.
Proof.
  revert d. induction fuel as [|fuel IH]; intros d Hs; simpl; [lia|].
  case_bool_decide as Hgt; [|lia]. destruct (oldest d) as [k|] eqn:Ho.
  - apply oldest_Some in Ho as (r & Hk & _). apply IH. rewrite map_size_delete, Hk. simpl. lia.
  - apply oldest_None in Ho as ->. rewrite map_size_empty in Hgt. lia.
Qed.

Lemma evict_oldest_subset fuel d : evict_oldest fuel d ⊆ d.
Proof.
  revert d. induction fuel as [|fuel IH]; intros d; simpl; [done|].
  case_bool_decide; [|done]. destruct (oldest d) as [k|]; [|done].
  etrans; [apply IH|]. apply delete_subseteq.
Qed.

(** The other entries of the table that are at least as new as index [i]. *)
Definition newer_entries (id : string) (i : N) (d : gmap string AdminRecord) : gmap string AdminRecord :=
  filter (λ kr, kr.1 ≠ id ∧ (i ≤ ar_raft_index kr.2)%N) d.

Lemma newer_entries_mono id i d d' : d ⊆ d' → size (newer_entries id i d) ≤ size (newer_entries id i d').
Proof.
  intros Hsub. apply map_subseteq_size. apply map_subseteq_spec. intros k r Hk.
  apply map_lookup_filter_Some in Hk as [Hk Hp]. apply map_lookup_filter_Some. split; [|done].
  by eapply lookup_weaken.
Qed.

Lemma newer_entries_insert id i d k r :
  size (newer_entries id i (<[k := r]> d)) ≤ S (size (newer_entries id i d)).
Proof.
  unfold newer_entries. destruct (decide ((k, r).1 ≠ id ∧ (i ≤ ar_raft_index (k, r).2)%N)) as [Hp|Hp].
  - rewrite map_filter_insert_True by done. rewrite map_size_insert. destruct (filter _ d !! k); simpl; lia.
  - rewrite map_filter_insert_False by done. etrans; [|apply le_S, le_n].
    apply (newer_entries_mono id i). apply delete_subseteq.
Qed.

Lemma evict_oldest_keeps fuel d id r : d !! id = Some r →
  size (newer_entries id (ar_raft_index r) d) < DEDUP_MAX_ENTRIES →
  evict_oldest fuel d !! id = Some r.
Proof.
  revert d. induction fuel as [|fuel IH]; intros d Hid Hn; simpl; [done|].
  case_bool_decide as Hgt; [|done]. destruct (oldest d) as [k|] eqn:Ho; [|done].
  apply oldest_Some in Ho as (rk & Hk & Hmin). destruct (decide (k = id)) as [->|Hne].
  - exfalso. assert (rk = r) as -> by congruence.
    assert (newer_entries id (ar_raft_index r) d = delete id d) as Heq.
    { apply map_eq. intros k. apply option_eq. intros r'. unfold newer_entries.
      rewrite map_lookup_filter_Some, lookup_delete_Some. simpl. split; [naive_solver|].
      intros [Hki Hd]. split; [done|]. split; [auto|]. by eapply Hmin. }
    rewrite Heq, map_size_delete, Hk in Hn. simpl in Hn. lia.
  - apply IH; [by rewrite lookup_delete_ne|]. eapply Nat.le_lt_trans; [|done].
    apply newer_entries_mono, delete_subseteq.
Qed.

Lemma prune_dedup_keeps p now id r : p_dedup p !! id = Some r →
  (now ≤ ar_request_ts r + DEDUP_TTL_SECS)%N →
  size (newer_entries id (ar_raft_index r) (p_dedup p)) < DEDUP_MAX_ENTRIES →
  p_dedup (prune_dedup p now) !! id = Some r.
Proof.
  intros Hid Hts Hn. unfold prune_dedup. cbn [p_dedup set_dedup]. apply evict_oldest_keeps.
  - apply map_lookup_filter_Some. split; [done|]. unfold sat_sub. simpl. lia.
  - eapply Nat.le_lt_trans; [|done]. apply newer_entries_mono, map_filter_subseteq.
Qed.

Lemma prune_dedup_subset p now : p_dedup (prune_dedup p now) ⊆ p_dedup p.
Proof.
  unfold prune_dedup. cbn [p_dedup set_dedup]. etrans; [apply evict_oldest_subset|].
  apply map_filter_subseteq.
Qed.

Definition admin_ts (cmd : PolicyCommand) : option N :=
  match cmd with Admin _ _ _ ts _ => Some ts | _ => None end.

Definition admin_weight (cmd : PolicyCommand) : nat :=
  match admin_ts cmd with Some _ => 1 | None => 0 end.

(** The administrator requests of a log. *)
Definition admin_entries (log : list (N * PolicyCommand)) : list (N * PolicyCommand) :=
  filter (λ ic, is_Some (admin_ts ic.2)) log.

(** One command keeps a recent record, and adds at most one newer entry. *)
Lemma apply_command_keeps cmd i p id r :
  p_dedup p !! id = Some r →
  from_option (λ ts, ts ≤ ar_request_ts r + DEDUP_TTL_SECS)%N True (admin_ts cmd) →
  size (newer_entries id (ar_raft_index r) (p_dedup p)) + admin_weight cmd < DEDUP_MAX_ENTRIES →
  let p' := (apply_command_at cmd i p).2 in
  p_dedup p' !! id = Some r ∧
  size (newer_entries id (ar_raft_index r) (p_dedup p'))
    ≤ size (newer_entries id (ar_raft_index r) (p_dedup p)) + admin_weight cmd.
Proof.
  intros Hid Hts Hn. destruct (command_cases cmd) as [(id' & k & h & ts & c & ->)|Hc].
  - unfold admin_weight in *. simpl in *. unfold apply_admin.
    destruct (p_dedup p !! id') as [r'|] eqn:Hid'.
    { case_bool_decide; simpl; split; [done|lia|done|lia]. }
    assert (id ≠ id') as Hne by congruence.
    pose proof (apply_inner_effect c p) as He. destruct (apply_inner c p) as [r0 p0].
    destruct He as (_ & Hd & _). cbn [snd].
    set (d := <[id' := _]> (p_dedup p0)).
    assert (size (newer_entries id (ar_raft_index r) d)
      ≤ S (size (newer_entries id (ar_raft_index r) (p_dedup p)))) as Hsz.
    { unfold d. rewrite Hd. apply newer_entries_insert. }
    split.
    + apply prune_dedup_keeps; [|done|simpl; lia]. unfold d. simpl. rewrite lookup_insert_ne by done.
      by rewrite Hd.
    + etrans; [apply newer_entries_mono, prune_dedup_subset|]. simpl. lia.
  - rewrite (apply_command_plain _ _ _ Hc). pose proof (apply_inner_effect cmd p) as He.
    destruct (apply_inner cmd p) as [[[[s v] ch]|[a b]] p0]; destruct He as (_ & Hd & _);
      simpl; rewrite Hd; (split; [done|lia]).
Qed.

Lemma run_log_keeps log p id r :
  p_dedup p !! id = Some r →
  (∀ ic ts, ic ∈ log → admin_ts ic.2 = Some ts → ts ≤ ar_request_ts r + DEDUP_TTL_SECS)%N →
  size (newer_entries id (ar_raft_index r) (p_dedup p)) + length (admin_entries log) < DEDUP_MAX_ENTRIES →
  p_dedup (run_log log p) !! id = Some r.
Proof.
  unfold run_log, admin_entries. revert p. induction log as [|[i cmd] log IH]; intros p Hid Hts Hn; [done|].
  cbn [foldl fst snd].
  destruct (apply_command_keeps cmd i p id r) as [Hid' Hsz]; [done| | |].
  - destruct (admin_ts cmd) eqn:E; simpl; [|done]. apply (Hts (i, cmd)); [set_solver|done].
  - rewrite filter_cons in Hn. unfold admin_weight. simpl in Hn.
    destruct (admin_ts cmd); simpl in *; lia.
  - apply IH; [done| |].
    + intros ic ts Hin. apply Hts. set_solver.
    + rewrite filter_cons in Hn. unfold admin_weight in Hsz. simpl in Hn.
      destruct (admin_ts cmd); simpl in *; lia.
Qed.

(** From a fresh state, the records carry the indices of the log. *)
Lemma run_log_indices network log i :
  (∀ ic, ic ∈ log → (ic.1 < i)%N) →
  map_Forall (λ _ r, ar_raft_index r < i)%N (p_dedup (run_log log (PolicyState_new network))).
Proof.
  intros Hlog. unfold run_log.
  assert (∀ p, map_Forall (λ _ r, ar_raft_index r < i)%N (p_dedup p) →
    map_Forall (λ _ r, ar_raft_index r < i)%N
      (p_dedup (foldl (λ p ic, (apply_command_at ic.2 ic.1 p).2) p log))) as Hgen.
  { induction log as [|[j cmd] log IH]; intros p Hp; [done|]. simpl. apply IH; [set_solver|].
    destruct (command_cases cmd) as [(id' & k & h & ts & c & ->)|Hc].
    - simpl. unfold apply_admin. destruct (p_dedup p !! id'); [by case_bool_decide|].
      pose proof (apply_inner_effect c p) as He. destruct (apply_inner c p) as [r0 p0].
      destruct He as (_ & Hd & _). cbn [snd].
      intros key x Hx. pose proof (lookup_weaken _ _ _ _ Hx (prune_dedup_subset _ _)) as Hx'. simpl in Hx'.
      revert key x Hx' Hx. cut (map_Forall (λ _ r, ar_raft_index r < i)%N
        (<[id' := MkAdminRecord h (outcome_of r0) (p_policy_epoch p0) j ts]> (p_dedup p0))); [by eauto|].
      apply map_Forall_insert_2; [|by rewrite Hd]. apply (Hlog (j, Admin id' k h ts c)). set_solver.
    - rewrite (apply_command_plain _ _ _ Hc). pose proof (apply_inner_effect cmd p) as He.
      destruct (apply_inner cmd p) as [[[[s v] ch]|[a b]] p0]; destruct He as (_ & Hd & _);
        simpl; by rewrite Hd. }
  apply Hgen. apply map_Forall_empty.
Qed.

(** What a new request leaves behind: its record, and no newer one. *)
Definition record_of (id h : string) (ts i : N) (r : PolicyResult) (x : AdminRecord) : Prop :=
  ∃ epoch outcome, r = AdminResult id epoch i false outcome ∧ x = MkAdminRecord h outcome epoch i ts.
Lemma applied_recorded network log i id kid h ts c r p1 :
  (∀ ic, ic ∈ log → (ic.1 < i)%N) →
  p_dedup (run_log log (PolicyState_new network)) !! id = None →
  apply_command_at (Admin id kid h ts c) i (run_log log (PolicyState_new network)) = (r, p1) →
  ∃ x, record_of id h ts i r x ∧ p_dedup p1 !! id = Some x ∧ size (newer_entries id i (p_dedup p1)) = 0.
Proof.
  intros Hlog Hnew. pose proof (run_log_indices network log i Hlog) as Hidx.
  set (p := run_log log (PolicyState_new network)) in *. simpl. unfold apply_admin at 1. rewrite Hnew.
  pose proof (apply_inner_effect c p) as He. destruct (apply_inner c p) as [r0 p0].
  destruct He as (_ & Hd & _). intros [= <- <-].
  set (rec := MkAdminRecord h (outcome_of r0) (p_policy_epoch p0) i ts).
  set (q := set_dedup p0 _). assert (p_dedup q !! id = Some rec) as Hq by apply lookup_insert_eq.
  assert (size (newer_entries id i (p_dedup q)) = 0) as Hnewer.
  { apply map_size_empty_iff, map_empty. intros k. apply eq_None_ne_Some. intros x.
    unfold newer_entries, q. simpl. rewrite map_lookup_filter_Some, lookup_insert_Some, Hd.
    simpl. intros [[[<- _]|[_ Hx]] [Hk Hi]]; [done|]. specialize (Hidx _ _ Hx). simpl in Hidx. lia. }
  exists rec. split; [by eexists _, _|]. split.
  - apply prune_dedup_keeps; [done|simpl; unfold DEDUP_TTL_SECS; lia|]. cbn [ar_raft_index rec]. rewrite Hnewer.
    apply Nat.ltb_lt. vm_compute. reflexivity.
  - pose proof (newer_entries_mono id i _ _ (prune_dedup_subset q ts)). lia.
Qed.
(** How a recorded request is answered from then on. *)
Lemma recorded_answer id h ts i r x p : record_of id h ts i r x → p_dedup p !! id = Some x →
  ∃ epoch outcome, r = AdminResult id epoch i false outcome
    ∧ (∀ kid' ts' c' j, apply_command_at (Admin id kid' h ts' c') j p = (AdminResult id epoch i true outcome, p))
    ∧ (∀ kid' h' ts' c' j, h' ≠ h → ∃ message, apply_command_at (Admin id kid' h' ts' c') j p
         = (AdminResult id (p_policy_epoch p) j true (OutRejected "request_id_conflict" message), p)).
Proof.
  intros (epoch & outcome & -> & ->) Hp. exists epoch, outcome. split; [done|]. split.
  - intros kid' ts' c' j. simpl. unfold apply_admin. rewrite Hp. by rewrite bool_decide_eq_true_2.
  - intros kid' h' ts' c' j Hne. simpl. unfold apply_admin. rewrite Hp.
    rewrite bool_decide_eq_false_2 by (simpl; congruence). eauto.
Qed.

(** C5: administrator requests are idempotent.  Take any log from a fresh state and
    an administrator request [id] that is new there, committed at an index above
    the log's.  While fewer than [DEDUP_MAX_ENTRIES] - 1 further administrator
    requests are committed, none dated more than a day after it, committing the
    request again (from any node, with any payload under the same hash) returns
    the first outcome, epoch and log index marked as a duplicate and changes
    nothing; with another hash it is refused as a conflict and changes nothing. *)
Theorem admin_request_idempotent network log i id kid h ts c r p1 log2 :
  (∀ ic, ic ∈ log → (ic.1 < i)%N) →
  p_dedup (run_log log (PolicyState_new network)) !! id = None →
  apply_command_at (Admin id kid h ts c) i (run_log log (PolicyState_new network)) = (r, p1) →
  (∀ ic ts', ic ∈ log2 → admin_ts ic.2 = Some ts' → ts' ≤ ts + DEDUP_TTL_SECS)%N →
  S (length (admin_entries log2)) < DEDUP_MAX_ENTRIES →
  let p2 := run_log log2 p1 in
  ∃ epoch outcome, r = AdminResult id epoch i false outcome
    ∧ (∀ kid' ts' c' j, apply_command_at (Admin id kid' h ts' c') j p2
                        = (AdminResult id epoch i true outcome, p2))
    ∧ (∀ kid' h' ts' c' j, h' ≠ h → ∃ message,
         apply_command_at (Admin id kid' h' ts' c') j p2
         = (AdminResult id (p_policy_epoch p2) j true (OutRejected "request_id_conflict" message), p2)).
Proof.
  intros Hlog Hnew Happ Hts Hlen p2.
  destruct (applied_recorded _ _ _ _ _ _ _ _ _ _ Hlog Hnew Happ) as (x & Hx & Hp1 & Hnewer).
  apply (recorded_answer id h ts i r x); [done|]. destruct Hx as (epoch & outcome & _ & ->).
  apply run_log_keeps; [done|apply Hts|]. cbn [ar_raft_index]. lia.
Qed.

(** ** The invariant *)

Definition services_wf (m : gmap string ServiceState) : Prop :=
  ∀ name st, m !! name = Some st → service_ok name st ∧ (st_version st ≤ u64_max)%N.
Definition tombstones_wf (t : gmap string N) : Prop :=
  ∀ name v, t !! name = Some v → is_valid_service_name name = true ∧ (1 ≤ v ≤ u64_max)%N.
Definition token_wf (network jti : string) (r : StoredJoinToken) : Prop :=
  jt_jti (sj_token r) = jti ∧ jt_v (sj_token r) = 1%N ∧ trim_is_empty jti = false
  ∧ jt_network (sj_token r) = network ∧ (1 ≤ jt_max_uses (sj_token r))%N
  ∧ (sj_uses r ≤ jt_max_uses (sj_token r))%N.
Definition tokens_wf (network : string) (t : gmap string StoredJoinToken) : Prop :=
  ∀ jti r, t !! jti = Some r → token_wf network jti r.

Definition policy_wf (p : PolicyState) : Prop :=
  services_wf (p_services p) ∧ tombstones_wf (p_tombstones p)
  ∧ (1 ≤ p_policy_epoch p ≤ u64_max)%N
  ∧ tokens_wf (p_network p) (p_join_tokens p)
  ∧ size (p_dedup p) ≤ DEDUP_MAX_ENTRIES.

Lemma validate_peers_members_p peers :
  StateMachine.validate_peers peers = Ok () →
  ∀ m, m ∈ (list_to_set peers : gset string) → is_valid_peer_id m = true.
Proof.
  intros Hp m. rewrite elem_of_list_to_set. revert Hp. induction peers as [|q peers IH]; simpl; [set_solver|].
  destruct (is_valid_peer_id q) eqn:Hq; simpl; [|done]. intros Hp [->|Hm]%elem_of_cons; auto.
Qed.

Lemma services_wf_insert m name st : services_wf m → service_ok name st → (st_version st ≤ u64_max)%N →
  services_wf (<[name := st]> m).
Proof. intros Hm Hok Hv n st'. intros [[-> ->]|[_ Hn]]%lookup_insert_Some; auto. Qed.

Lemma sat_add64_pos a : (1 ≤ sat_add64 a 1)%N.
Proof. unfold sat_add64, u64_max. lia. Qed.

Lemma with_members_wf op peers service p :
  StateMachine.validate_peers peers = Ok () → policy_wf p →
  policy_wf (StateMachine.with_members service (member_step op peers) p).2.
Proof.
  intros Hp Hwf. pose proof Hwf as (Hs & Ht & He & Hj & Hd). rewrite with_members_eq.
  destruct (p_services p !! service) as [st|] eqn:E; [|done]. simpl. case_bool_decide; [done|].
  destruct (Hs _ _ E) as [(Hn & Hv & Hm) Hmax]. split_and!; try done.
  - apply services_wf_insert; [done| |apply sat_add64_le].
    split; [done|]. split; [apply sat_add64_pos|]. simpl. intros m Hin.
    pose proof (validate_peers_members_p _ Hp m) as Hpm. specialize (Hm m).
    destruct op; simpl in Hin; set_solver.
  - apply sat_add64_pos.
  - apply sat_add64_le.
Qed.

Lemma apply_inner_wf cmd p : policy_wf p → policy_wf (apply_inner cmd p).2.
Proof.
  intros Hwf. pose proof Hwf as (Hs & Ht & He & Hj & Hd).
  assert (∀ op service peers, policy_wf (apply_inner (member_cmd op service peers) p).2) as Hm.
  { intros op service peers. rewrite apply_inner_member.
    destruct (StateMachine.validate_peers peers) as [[]|] eqn:Hp; [|done].
    pose proof (with_members_wf op peers service p Hp Hwf).
    by destruct (StateMachine.with_members service (member_step op peers) p) as [[[]|] ?]. }
  destruct cmd as [service ms|service|service ps|service ps|service ps|id k h ts c|e|t|j n peer u];
    [..|apply (Hm OpAdd)|apply (Hm OpRemove)|apply (Hm OpSet)|done| | |].
  - unfold apply_inner, StateMachine.create_service, mbind, ST_bind.
    destruct (is_valid_service_name service) eqn:Hv; simpl; [|done].
    destruct (StateMachine.validate_peers ms) as [[]|] eqn:Hp; [|done].
    case_bool_decide; simpl; [done|]. split_and!; simpl; try done.
    + apply services_wf_insert; [done| |done]. split; [done|]. split; [done|].
      by apply validate_peers_members_p.
    + apply sat_add64_pos.
    + apply sat_add64_le.
  - unfold apply_inner, StateMachine.delete_service, mbind, ST_bind.
    destruct (p_services p !! service) as [st|] eqn:E; simpl; [|done]. split_and!; simpl; try done.
    + intros n st' [_ Hn]%lookup_delete_Some. auto.
    + intros n v [[-> <-]|[_ Hn]]%lookup_insert_Some; [|auto].
      destruct (Hs _ _ E) as [(Hn & _) _]. split; [done|]. split; [apply sat_add64_pos|apply sat_add64_le].
    + apply sat_add64_pos.
    + apply sat_add64_le.
  - split_and!; simpl; try done; [apply sat_add64_pos|apply sat_add64_le].
  - unfold apply_inner, issue_join_token, mbind, ST_bind, mret, ST_ret. split_matches. bool_tests.
    split_and!; simpl; try done; try apply He. intros jti r [[<- <-]|[_ Hn]]%lookup_insert_Some; [|auto].
    split_and!; simpl; try done; lia.
  - unfold apply_inner, consume_join_token, mbind, ST_bind, mret, ST_ret.
    destruct (p_join_tokens p !! j) as [rec|] eqn:E; [|done]. split_matches. bool_tests.
    split_and!; simpl; try done; try apply He. intros jti r [[<- <-]|[_ Hn]]%lookup_insert_Some; [|auto].
    destruct (Hj _ _ E) as (? & ? & ? & ? & ? & ?). split_and!; simpl; try done. unfold sat_add32. lia.
Qed.

Lemma prune_dedup_size p now : size (p_dedup (prune_dedup p now)) ≤ DEDUP_MAX_ENTRIES.
Proof. unfold prune_dedup. cbn [p_dedup set_dedup]. apply evict_oldest_size. lia. Qed.

Lemma apply_command_wf cmd i p : policy_wf p → policy_wf (apply_command_at cmd i p).2.
Proof.
  intros Hwf. destruct (command_cases cmd) as [(id & k & h & ts & c & ->)|Hn].
  - simpl. unfold apply_admin. destruct (p_dedup p !! id); [by case_bool_decide|].
    pose proof (apply_inner_wf c p Hwf) as Hw. destruct (apply_inner c p) as [r p0]. cbn [snd] in *.
    destruct Hw as (? & ? & ? & ? & ?). split; [done|]. split; [done|]. split; [done|]. split; [done|].
    apply prune_dedup_size.
  - rewrite (apply_command_plain _ _ _ Hn). pose proof (apply_inner_wf cmd p Hwf) as Hw.
    by destruct (apply_inner cmd p) as [[[[s v] ch]|[a b]] p0].
Qed.

Lemma policy_wf_new network : policy_wf (PolicyState_new network).
Proof.
  split_and!; simpl; try (intros ??; by rewrite lookup_empty); try done. rewrite map_size_empty. lia.
Qed.

Lemma run_log_wf log p : policy_wf p → policy_wf (run_log log p).
Proof.
  unfold run_log. revert p. induction log as [|[i cmd] log IH]; intros p Hp; [done|].
  simpl. by apply IH, apply_command_wf.
Qed.

(** C1: the state machine invariant.  After any log of commands from a fresh state:
    service names, peer ids and tombstones are valid, versions and the epoch are
    positive 64-bit numbers, every join token is stored under its own id for this
    network with uses at most its maximum, and the duplicate table has at most
    [DEDUP_MAX_ENTRIES] entries (its pruning loop ends). *)
Theorem policy_invariant network log : policy_wf (run_log log (PolicyState_new network)).
Proof. apply run_log_wf, policy_wf_new. Qed.

(** ** Join tokens *)

(** A command that consumed [jti] when it was applied: its result says so and is
    not the replayed answer to a repeated request. *)
Definition consumes (jti : string) (cmd : PolicyCommand) (r : PolicyResult) : bool :=
  match cmd, r with
  | ConsumeJoinToken j _ _ _, Applied _ _ _ _ => bool_decide (j = jti)
  | Admin _ _ _ _ (ConsumeJoinToken j _ _ _), AdminResult _ _ _ false (OutApplied _ _ _) =>
      bool_decide (j = jti)
  | _, _ => false
  end.

Fixpoint consumptions (jti : string) (log : list (N * PolicyCommand)) (p : PolicyState) : nat :=
  match log with
  | [] => 0
  | (i, cmd) :: log =>
      let '(r, p') := apply_command_at cmd i p in
      (if consumes jti cmd r then 1 else 0) + consumptions jti log p'
  end.

(** The recorded uses of a token, none when it is unknown. *)
Definition uses_of (p : PolicyState) (jti : string) : N :=
  from_option sj_uses 0%N (p_join_tokens p !! jti).

(** [max_uses] is a [u32], in the commands and in the state. *)
Fixpoint command_in_range (cmd : PolicyCommand) : Prop :=
  match cmd with
  | IssueJoinToken t => (jt_max_uses t ≤ u32_max)%N
  | Admin _ _ _ _ c => command_in_range c
  | _ => True
  end.
Definition tokens_in_range (p : PolicyState) : Prop :=
  ∀ jti r, p_join_tokens p !! jti = Some r → (jt_max_uses (sj_token r) ≤ u32_max)%N.

Lemma consume_join_token_spec jti peer u p r p' : tokens_wf (p_network p) (p_join_tokens p) →
  consume_join_token jti peer u p = (r, p') →
  match r with
  | Err _ => p' = p
  | Ok _ => ∃ rec, p_join_tokens p !! jti = Some rec
      ∧ (sj_uses rec < jt_max_uses (sj_token rec))%N
      ∧ (jt_bind_peer_id (sj_token rec) = "" ∨ jt_bind_peer_id (sj_token rec) = peer)
      ∧ (u ≤ jt_expires_at (sj_token rec))%N
      ∧ ((jt_max_uses (sj_token rec) ≤ u32_max)%N →
         p_join_tokens p' = <[jti := MkStoredJoinToken (sj_token rec) (sj_uses rec + 1)]> (p_join_tokens p))
  end.
Proof.
  intros Hj. unfold consume_join_token. destruct (p_join_tokens p !! jti) as [rec|] eqn:E;
    [|by intros [= <- <-]].
  destruct (N.leb_spec (jt_max_uses (sj_token rec)) (sj_uses rec)) as [|Hlt]; [by intros [= <- <-]|].
  destruct (negb _ && negb _) eqn:Hb; [by intros [= <- <-]|].
  destruct ((jt_expires_at (sj_token rec) =? 0)%N || (jt_expires_at (sj_token rec) <? u)%N) eqn:Hx;
    intros [= <- <-]; [done|]. exists rec. bool_tests. split_and!; [done..| |lia|].
  - apply andb_false_iff in Hb as [Hb|Hb]; bool_tests; auto.
  - intros Hmax. simpl. do 2 f_equal. unfold sat_add32, u32_max in *. lia.
Qed.

Definition consumes_inner {A} (jti : string) (cmd : PolicyCommand) (r : result rejection A) : bool :=
  match cmd, r with
  | ConsumeJoinToken j _ _ _, Ok _ => bool_decide (j = jti)
  | _, _ => false
  end.

Lemma apply_inner_tokens cmd p : policy_wf p → tokens_in_range p → command_in_range cmd →
  let '(r, p') := apply_inner cmd p in
  tokens_in_range p' ∧
  ∀ jti, uses_of p' jti = (uses_of p jti + if consumes_inner jti cmd r then 1 else 0)%N.
Proof.
  intros (_ & _ & _ & Hj & _) Hr Hc.
  assert (∀ p', p_join_tokens p' = p_join_tokens p →
    tokens_in_range p' ∧ ∀ jti, uses_of p' jti = (uses_of p jti + 0)%N) as Hsame.
  { intros p' Heq. unfold tokens_in_range, uses_of. rewrite Heq. split; [done|]. intros. lia. }
  assert (∀ op service peers, p_join_tokens (apply_inner (member_cmd op service peers) p).2 = p_join_tokens p) as Hm.
  { intros op service peers. rewrite apply_inner_member, with_members_eq.
    destruct (StateMachine.validate_peers peers); [|done].
    destruct (p_services p !! service); [|done]. simpl. by case_bool_decide. }
  destruct cmd as [service ms|service|service ps|service ps|service ps|id k h ts c|e|t|j n peer u].
  - unfold apply_inner, StateMachine.create_service, mbind, ST_bind, mret, ST_ret. simpl.
    split_matches; by apply Hsame.
  - unfold apply_inner, StateMachine.delete_service, mbind, ST_bind, mret, ST_ret. simpl.
    split_matches; by apply Hsame.
  - pose proof (Hm OpAdd service ps) as Heq. cbn [member_cmd] in Heq. destruct (apply_inner _ p). by apply Hsame.
  - pose proof (Hm OpRemove service ps) as Heq. cbn [member_cmd] in Heq. destruct (apply_inner _ p). by apply Hsame.
  - pose proof (Hm OpSet service ps) as Heq. cbn [member_cmd] in Heq. destruct (apply_inner _ p). by apply Hsame.
  - by apply Hsame.
  - by apply Hsame.
  - unfold apply_inner, issue_join_token, mbind, ST_bind, mret, ST_ret. simpl in *.
    split_matches; try (by apply Hsame). bool_tests. split; simpl.
    + intros jti r. simpl. intros [[<- <-]|[_ Hn]]%lookup_insert_Some; [done|]. by eapply Hr.
    + intros jti. unfold uses_of. simpl. destruct (decide (jt_jti t = jti)) as [<-|].
      * rewrite lookup_insert_eq. rewrite <-eq_None_not_Some in *.
        match goal with H : _ !! jt_jti t = None |- _ => rewrite H end. done.
      * rewrite lookup_insert_ne by done. lia.
  - unfold apply_inner, mbind, ST_bind, mret, ST_ret.
    destruct (consume_join_token j peer u p) as [r p'] eqn:E.
    apply consume_join_token_spec in E; [|done]. destruct r as [[]|]; simpl; [|subst; by apply Hsame].
    destruct E as (rec & Hrec & Hlt & _ & _ & Hins). specialize (Hins (Hr _ _ Hrec)). split.
    + intros jti r. rewrite Hins. intros [[<- <-]|[_ Hn]]%lookup_insert_Some; simpl; by eapply Hr.
    + intros jti. unfold uses_of. rewrite Hins. case_bool_decide as Heq.
      * subst. by rewrite lookup_insert_eq, Hrec.
      * rewrite lookup_insert_ne by done. lia.
Qed.

Lemma apply_command_tokens cmd i p : policy_wf p → tokens_in_range p → command_in_range cmd →
  let '(r, p') := apply_command_at cmd i p in
  tokens_in_range p' ∧ ∀ jti, uses_of p' jti = (uses_of p jti + if consumes jti cmd r then 1 else 0)%N.
Proof.
  intros Hwf Hr Hc. destruct (command_cases cmd) as [(id & k & h & ts & c & ->)|Hn].
  - simpl. unfold apply_admin. destruct (p_dedup p !! id).
    { case_bool_decide; (split; [done|]); intros jti; destruct c; lia. }
    pose proof (apply_inner_tokens c p Hwf Hr Hc) as Hi. destruct (apply_inner c p) as [r p0].
    destruct Hi as [Hr0 Hu]. split; [done|]. intros jti. specialize (Hu jti). unfold uses_of in *. simpl.
    rewrite Hu. f_equal. destruct c, r as [[[]]|[]]; simpl; done.
  - rewrite (apply_command_plain _ _ _ Hn). pose proof (apply_inner_tokens cmd p Hwf Hr Hc) as Hi.
    destruct (apply_inner cmd p) as [[[[s v] ch]|[a b]] p0]; destruct Hi as [Hr0 Hu]; (split; [done|]);
      intros jti; rewrite Hu; f_equal; destruct cmd; simpl; try done; by destruct (Hn request_id kid request_hash request_ts cmd).
Qed.

Lemma consumptions_uses log p jti : policy_wf p → tokens_in_range p →
  (∀ ic, ic ∈ log → command_in_range ic.2) →
  uses_of (run_log log p) jti = (uses_of p jti + N.of_nat (consumptions jti log p))%N.
Proof.
  unfold run_log. revert p. induction log as [|[i cmd] log IH]; intros p Hwf Hr Hlog; simpl; [lia|].
  pose proof (apply_command_tokens cmd i p Hwf Hr (Hlog (i, cmd) ltac:(set_solver))) as Ht.
  pose proof (apply_command_wf cmd i p Hwf) as Hwf'.
  destruct (apply_command_at cmd i p) as [r p1]. destruct Ht as [Hr1 Hu]. simpl in *.
  rewrite IH by (done || set_solver). rewrite Hu. destruct (consumes jti cmd r); lia.
Qed.

(** C13: join tokens are used at most as often as they allow.  Over any log from a
    fresh state, the number of commands that consumed a token (directly or as an
    administrator request, repeated requests not counted) is exactly the recorded
    number of uses, hence never more than the token's [max_uses]; a token that was
    never issued is never consumed. *)
Theorem join_token_uses_bounded network log jti :
  (∀ ic, ic ∈ log → command_in_range ic.2) →
  let p := run_log log (PolicyState_new network) in
  match p_join_tokens p !! jti with
  | Some r => N.of_nat (consumptions jti log (PolicyState_new network)) = sj_uses r
              ∧ (sj_uses r ≤ jt_max_uses (sj_token r))%N
  | None => consumptions jti log (PolicyState_new network) = 0
  end.
Proof.
  intros Hlog p. pose proof (consumptions_uses log (PolicyState_new network) jti) as Hu.
  unfold uses_of in Hu. simpl in Hu. rewrite lookup_empty in Hu. simpl in Hu.
  specialize (Hu (policy_wf_new network) ltac:(intros ??; simpl; by rewrite lookup_empty) Hlog).
  subst p. destruct (p_join_tokens (run_log log (PolicyState_new network)) !! jti) as [r|] eqn:E; simpl in Hu; [|lia].
  split; [lia|]. pose proof (run_log_wf log _ (policy_wf_new network)) as (_ & _ & _ & Hj & _).
  by destruct (Hj _ _ E) as (_ & _ & _ & _ & _ & ?).
Qed.
End policy_props.
