(* ===== verification/PolicyRefine.v ===== *)
(** * The state machine implements the store's semantics

    The header of [src/src/raft/state_machine.rs] promises that member validation,
    tombstone versions and "the version moves only on a real change" are those of
    [src/src/store.rs].  Here each service command of the state machine is shown to
    simulate the store operation of the same name, on the state both write out as a
    [StoreSnapshot]. *)
From S2P Require Import Prelude Fsutil Crypto Authority Store StoreMerge StoreOps Types StateMachine.
From S2P Require Import PolicyProps.

Section policy_refine.
Context `{CR : Crypto, TC : Codec Toml StoreSnapshot}.

(** The service commands and the store operations they stand for. *)
Inductive ServiceCmd :=
  | SvcCreate (service : string) (peers : list string)
  | SvcDelete (service : string)
  | SvcMembers (op : MemberOp) (service : string) (peers : list string).

Definition policy_cmd (c : ServiceCmd) : PolicyCommand :=
  match c with
  | SvcCreate service peers => CreateService service peers
  | SvcDelete service => DeleteService service
  | SvcMembers op service peers => member_cmd op service peers
  end.

Definition store_cmd (c : ServiceCmd) : ST (Store * Fs) StoreError N :=
  match c with
  | SvcCreate service peers => Store.create_service service peers
  | SvcDelete service => Store.delete_service service
  | SvcMembers op service peers => member_op op service peers
  end.

(** The rejection code of a store error; a failed write has none. *)
Definition reject_code (e : StoreError) : option string :=
  match e with
  | InvalidService _ => Some "invalid_service"
  | InvalidPeer _ => Some "invalid_peer"
  | ServiceNotFound _ => Some "not_found"
  | ServiceExists _ => Some "already_exists"
  | _ => None
  end.

Definition results_match (r : result StoreError N) (r' : result rejection (option string * option N * bool)) : Prop :=
  match r, r' with
  | Ok v, Ok (_, v', _) => v' = Some v
  | Err e, Err (code, _) => reject_code e = Some code
  | Err e, Ok _ => reject_code e = None
  | Ok _, Err _ => False
  end.

(** No counter is at the end of the 64-bit range, where the store wraps and the
    state machine saturates. *)
Definition policy_room (p : PolicyState) : Prop :=
  (p_policy_epoch p < u64_max)%N
  ∧ ∀ name st, p_services p !! name = Some st → (st_version st < u64_max)%N.

Lemma validate_peers_match peers :
  match Store.validate_peers peers, StateMachine.validate_peers peers with
  | Ok _, Ok _ => True
  | Err e, Err (code, _) => reject_code e = Some code
  | _, _ => False
  end.
Proof. induction peers as [|q peers IH]; simpl; [done|]. by destruct (is_valid_peer_id q). Qed.

Lemma save_error_code s fs e : (save s fs).1 = Err e → reject_code e = None.
Proof.
  unfold save, mbind, ST_bind, st_lift, st_map_err. destruct (encode_to Toml (snapshot s)); simpl; [|by intros [= <-]].
  destruct (atomic_write _ _ _ fs) as [[] ?]; simpl; [done|]. by intros [= <-].
Qed.

Lemma sat_wrap a : (a < u64_max)%N → sat_add64 a 1 = wrap_add64 a 1.
Proof. intros. rewrite sat_add64_small, wrap_add64_small by lia. done. Qed.

(** C21: the state machine refines the store.  From a store and a policy state with
    the same snapshot, every service command gives the same snapshot again and the
    same result: the same new version on success, the rejection code of the same
    error on failure.  The one difference is a failed disk write, which the store
    reports although its memory has changed. *)
Theorem policy_refines_store c s fs p :
  snapshot s = to_store_snapshot p → policy_room p →
  let '(r, w) := store_cmd c (s, fs) in
  let '(r', p') := apply_inner (policy_cmd c) p in
  snapshot w.1 = to_store_snapshot p' ∧ results_match r r'.
Proof.
  unfold snapshot, to_store_snapshot. intros [= Hnet Hix Hs Ht] [He Hroom].
  destruct c as [service peers|service|op service peers]; cbn [store_cmd policy_cmd].
  - rewrite create_service_eq. unfold apply_inner, StateMachine.create_service, mbind, ST_bind, mret, ST_ret, contains.
    destruct (is_valid_service_name service); simpl; [|by rewrite Hnet, Hix, Hs, Ht].
    pose proof (validate_peers_match peers) as Hp.
    destruct (Store.validate_peers peers), (StateMachine.validate_peers peers) as [|[]]; try done;
      [|simpl; by rewrite Hnet, Hix, Hs, Ht].
    rewrite Hs. case_bool_decide; simpl; [by rewrite Hnet, Hix, Hs, Ht|].
    rewrite Hnet, Hs, Hix, Ht, sat_wrap by done. split; [done|].
    destruct (save _ fs).1 eqn:Hsv; simpl; [done|by eapply save_error_code].
  - rewrite delete_service_eq. unfold apply_inner, StateMachine.delete_service, mbind, ST_bind, mret, ST_ret.
    rewrite Hs. destruct (p_services p !! service) as [st|] eqn:E; simpl; [|by rewrite Hnet, Hix, Hs, Ht].
    rewrite Hnet, Hs, Hix, Ht, !sat_wrap by eauto. split; [done|].
    destruct (save _ fs).1 eqn:Hsv; simpl; [done|by eapply save_error_code].
  - rewrite member_op_spec, apply_inner_member, with_members_eq. pose proof (validate_peers_match peers) as Hp.
    destruct (Store.validate_peers peers), (StateMachine.validate_peers peers) as [|[]]; try done;
      [|simpl; by rewrite Hnet, Hix, Hs, Ht].
    rewrite Hs. destruct (p_services p !! service) as [st|] eqn:E; simpl; [|by rewrite Hnet, Hix, Hs, Ht].
    case_bool_decide; simpl; [by rewrite Hnet, Hix, Hs, Ht|].
    rewrite Hnet, Hs, Hix, Ht, !sat_wrap by eauto. done.
Qed.

(** A state file taken over by the state machine comes back unchanged: the
    conversion to a policy state and back is the identity on snapshots with a
    positive index version, and the converted state has no duplicate table and no
    tokens. *)
Theorem store_snapshot_round_trip snap :
  (1 ≤ sn_index_version snap)%N →
  to_store_snapshot (from_store_snapshot snap) = snap
  ∧ p_dedup (from_store_snapshot snap) = ∅ ∧ p_join_tokens (from_store_snapshot snap) = ∅.
Proof.
  intros Hi. destruct snap. unfold to_store_snapshot. simpl in *. split; [|done]. f_equal. lia.
Qed.
End policy_refine.

(** ** Examples *)

Section policy_examples.
Import Toy.

Definition ex_token : JoinToken :=
  MkJoinToken 1 "j1" "c" "net" "voter" 100 2 "" "root" "sig".
Definition ex_log : list (N * PolicyCommand) :=
  [(1%N, CreateService "web" ["alice"]); (2%N, IssueJoinToken ex_token);
   (3%N, ConsumeJoinToken "j1" 7 "peer" 50); (4%N, ConsumeJoinToken "j1" 8 "peer" 50);
   (5%N, ConsumeJoinToken "j1" 9 "peer" 50); (6%N, Admin "r0" "root" "h0" 90 (RenewIndex 5))].

Lemma epoch_identifies_policy_witness :
  (1 ≤ p_policy_epoch (run_log ex_log (PolicyState_new "net")))%N.
Proof. apply (epoch_identifies_policy ex_log (PolicyState_new "net")). vm_compute. discriminate. Defined.

Lemma rejection_changes_nothing_witness :
  ∃ code msg p', apply_command_at (DeleteService "web") 9 (PolicyState_new "net") = (Rejected code msg 1, p')
    ∧ p' = PolicyState_new "net".
Proof.
  eexists _, _, _. split; [vm_compute; reflexivity|].
  eapply (rejection_changes_nothing (DeleteService "web") 9 (PolicyState_new "net") (Rejected _ _ 1)).
  vm_compute. reflexivity.
Defined.

Lemma admin_request_idempotent_witness :
  ∃ p1 epoch outcome,
    (apply_command_at (Admin "r1" "root" "h" 100 (DeleteService "web")) 7
       (run_log ex_log (PolicyState_new "net")) = (AdminResult "r1" epoch 7 false outcome, p1))
    ∧ (∀ kid ts c j, apply_command_at (Admin "r1" kid "h" ts c) j
                       (run_log [(8%N, Admin "r2" "root" "h2" 200 (CreateService "web" []))] p1)
         = (AdminResult "r1" epoch 7 true outcome,
            run_log [(8%N, Admin "r2" "root" "h2" 200 (CreateService "web" []))] p1)).
Proof.
  destruct (apply_command_at (Admin "r1" "root" "h" 100 (DeleteService "web")) 7
       (run_log ex_log (PolicyState_new "net"))) as [r p1] eqn:E.
  destruct (admin_request_idempotent "net" ex_log 7 "r1" "root" "h" 100 (DeleteService "web") r p1
    [(8%N, Admin "r2" "root" "h2" 200 (CreateService "web" []))]) as (epoch & outcome & Hr & Hdup & _).
  - intros ic Hic. repeat (apply elem_of_cons in Hic as [->|Hic]; [vm_compute; reflexivity|]).
    destruct (not_elem_of_nil _ Hic).
  - vm_compute. reflexivity.
  - exact E.
  - intros ic ts Hic. apply list_elem_of_singleton in Hic as ->. intros [= <-]. vm_compute. discriminate.
  - apply Nat.ltb_lt. vm_compute. reflexivity.
  - exists p1, epoch, outcome. split; [by rewrite Hr|exact Hdup].
Defined.

Lemma join_token_uses_bounded_witness :
  consumptions "j1" ex_log (PolicyState_new "net") = 2 ∧
  match p_join_tokens (run_log ex_log (PolicyState_new "net")) !! "j1" with
  | Some r => N.of_nat (consumptions "j1" ex_log (PolicyState_new "net")) = sj_uses r
              ∧ (sj_uses r ≤ jt_max_uses (sj_token r))%N
  | None => consumptions "j1" ex_log (PolicyState_new "net") = 0
  end.
Proof.
  split; [vm_compute; reflexivity|]. apply (join_token_uses_bounded "net" ex_log "j1").
  intros ic Hic. repeat (apply elem_of_cons in Hic as [->|Hic]; [vm_compute; (exact I || discriminate)|]).
  by apply elem_of_nil in Hic.
Defined.

Lemma policy_refines_store_witness :
  let '(r, w) := store_cmd (SvcMembers OpAdd "web" ["bob"]) (ex_store, ex_fs) in
  let '(r', p') := apply_inner (policy_cmd (SvcMembers OpAdd "web" ["bob"]))
                     (from_store_snapshot (snapshot ex_store)) in
  snapshot w.1 = to_store_snapshot p' ∧ results_match r r'.
Proof.
  apply (policy_refines_store (SvcMembers OpAdd "web" ["bob"]) ex_store ex_fs
    (from_store_snapshot (snapshot ex_store))); [reflexivity|].
  split; [vm_compute; reflexivity|]. intros name st Hst. destruct (decide (name = "web")) as [->|].
  - vm_compute in Hst. injection Hst as <-. reflexivity.
  - simpl in Hst. by rewrite lookup_singleton_ne in Hst.
Defined.

Lemma store_snapshot_round_trip_witness :
  to_store_snapshot (from_store_snapshot (snapshot ex_store)) = snapshot ex_store.
Proof. apply (store_snapshot_round_trip (snapshot ex_store)). vm_compute. discriminate. Defined.
End policy_examples.
