(* ===== verification/RaftStorage.v ===== *)
(** * Persistent Raft storage: [src/src/raft/storage.rs]

    The [redb] database is three tables; a write transaction works on a copy that
    its commit installs.  Every database call consults a schedule of faults, so the
    theorems hold whichever call fails.  [openraft]'s log ids, votes and
    memberships are plain data here; their CBOR codecs are parameters. *)
From S2P Require Import Prelude Fsutil Crypto Authority Store Types StateMachine.

(** ** Data of [openraft] *)

Record LeaderId := MkLeaderId { ld_term : N; ld_node : NodeId }.
Record LogId := MkLogId { li_leader : LeaderId; li_index : N }.
Record Vote := MkVote { vt_leader : LeaderId; vt_committed : bool }.
Record Membership := MkMembership { mb_configs : list (gset NodeId); mb_nodes : gmap NodeId RaftNode }.
Record StoredMembership := MkStoredMembership { sm_log_id : option LogId; sm_membership : Membership }.
Record SnapshotMeta := MkSnapshotMeta {
  me_last_log_id : option LogId; me_last_membership : StoredMembership; me_snapshot_id : string
}.
Inductive EntryPayload :=
  | Blank
  | Normal (cmd : PolicyCommand)
  | MembershipEntry (m : Membership).
Record LogEntry := MkLogEntry { le_log_id : LogId; le_payload : EntryPayload }.

Definition StoredMembership_default : StoredMembership := MkStoredMembership None (MkMembership [] ∅).

Global Instance LeaderId_eq_dec : EqDecision LeaderId.
Proof. solve_decision. Defined.
Global Instance LogId_eq_dec : EqDecision LogId.
Proof. solve_decision. Defined.
Global Instance LogId_countable : Countable LogId.
Proof.
  refine (inj_countable' (λ l, (ld_term (li_leader l), ld_node (li_leader l), li_index l))
    (λ '(t, n, i), MkLogId (MkLeaderId t n) i) _). by intros [[]].
Defined.
Global Instance Vote_eq_dec : EqDecision Vote.
Proof. solve_decision. Defined.
Global Instance Vote_countable : Countable Vote.
Proof.
  refine (inj_countable' (λ v, (ld_term (vt_leader v), ld_node (vt_leader v), vt_committed v))
    (λ '(t, n, c), MkVote (MkLeaderId t n) c) _). by intros [[]].
Defined.
Global Instance Membership_eq_dec : EqDecision Membership.
Proof. solve_decision. Defined.
Global Instance Membership_countable : Countable Membership.
Proof.
  refine (inj_countable' (λ m, (mb_configs m, mb_nodes m)) (λ '(c, n), MkMembership c n) _). by intros [].
Defined.
Global Instance StoredMembership_eq_dec : EqDecision StoredMembership.
Proof. solve_decision. Defined.
Global Instance StoredMembership_countable : Countable StoredMembership.
Proof.
  refine (inj_countable' (λ m, (sm_log_id m, sm_membership m)) (λ '(c, n), MkStoredMembership c n) _).
  by intros [].
Defined.
Global Instance SnapshotMeta_eq_dec : EqDecision SnapshotMeta.
Proof. solve_decision. Defined.
Global Instance SnapshotMeta_countable : Countable SnapshotMeta.
Proof.
  refine (inj_countable' (λ m, (me_last_log_id m, me_last_membership m, me_snapshot_id m))
    (λ '(a, b, c), MkSnapshotMeta a b c) _). by intros [].
Defined.
Global Instance EntryPayload_eq_dec : EqDecision EntryPayload.
Proof. solve_decision. Defined.
Global Instance LogEntry_eq_dec : EqDecision LogEntry.
Proof. solve_decision. Defined.
Global Instance LogEntry_countable : Countable LogEntry.
Proof.
  refine (inj_countable' (λ e, (le_log_id e, match le_payload e with
      | Blank => inl () | Normal c => inr (inl c) | MembershipEntry m => inr (inr m) end))
    (λ '(l, p), MkLogEntry l match p with
      | inl _ => Blank | inr (inl c) => Normal c | inr (inr m) => MembershipEntry m end) _).
  by intros [? []].
Defined.

(** ** The database *)

Definition KEY_VOTE : string := "vote".
Definition KEY_LAST_PURGED : string := "last_purged".
Definition KEY_COMMITTED : string := "committed".
Definition KEY_APPLIED : string := "applied".
Definition KEY_MEMBERSHIP : string := "membership".
Definition KEY_POLICY_STATE : string := "policy_state".
Definition KEY_SNAPSHOT_META : string := "meta".
Definition KEY_SNAPSHOT_DATA : string := "data".

Record Tables := MkTables {
  t_logs : gmap N string; t_meta : gmap string string; t_snapshot : gmap string string
}.
Definition Tables_empty : Tables := MkTables ∅ ∅ ∅.

Record Db := MkDb { db_tables : Tables; db_faults : list (option string) }.

Inductive StorageError := StorageRead (msg : string) | StorageWrite (msg : string).
Definition io_read (what e : string) : StorageError := StorageRead (what +:+ ": " +:+ e).
Definition io_write (what e : string) : StorageError := StorageWrite (what +:+ ": " +:+ e).

(** One call of the database library: it fails when the schedule says so. *)
Definition db_call (f : string → string → StorageError) (what : string) : ST Db StorageError unit := λ db,
  match db_faults db with
  | Some e :: r => (Err (f what e), MkDb (db_tables db) r)
  | None :: r => (Ok (), MkDb (db_tables db) r)
  | [] => (Ok (), db)
  end.

Definition get_tables : ST Db StorageError Tables := λ db, (Ok (db_tables db), db).
Definition set_tables (t : Tables) : ST Db StorageError unit := λ db, (Ok (), MkDb t (db_faults db)).

(** A write transaction: an error or a failed commit drops the changes. *)
Definition write_txn {A} (begin commit : string) (body : ST Db StorageError A) : ST Db StorageError A := λ db,
  match (db_call io_write begin ;; x ← body; db_call io_write commit ;; mret x) db with
  | (Ok a, db') => (Ok a, db')
  | (Err e, db') => (Err e, MkDb (db_tables db) (db_faults db'))
  end.

Definition put_meta (key value what : string) : ST Db StorageError unit :=
  db_call io_write what ;;
  t ← get_tables;
  set_tables (MkTables (t_logs t) (<[key := value]> (t_meta t)) (t_snapshot t)).
Definition put_snapshot (key value what : string) : ST Db StorageError unit :=
  db_call io_write what ;;
  t ← get_tables;
  set_tables (MkTables (t_logs t) (t_meta t) (<[key := value]> (t_snapshot t))).
Definition put_log (index : N) (value what : string) : ST Db StorageError unit :=
  db_call io_write what ;;
  t ← get_tables;
  set_tables (MkTables (<[index := value]> (t_logs t)) (t_meta t) (t_snapshot t)).
Definition remove_log (index : N) (what : string) : ST Db StorageError unit :=
  db_call io_write what ;;
  t ← get_tables;
  set_tables (MkTables (delete index (t_logs t)) (t_meta t) (t_snapshot t)).

Definition meta_get (key : string) : ST Db StorageError (option string) :=
  db_call io_read "begin read meta" ;;
  db_call io_read "open meta table" ;;
  db_call io_read "read meta" ;;
  t ← get_tables;
  mret (t_meta t !! key).

Definition snapshot_get (key : string) : ST Db StorageError (option string) :=
  db_call io_read "begin read snapshot" ;;
  db_call io_read "open snapshot table" ;;
  db_call io_read "read snapshot" ;;
  t ← get_tables;
  mret (t_snapshot t !! key).

(** [for x in l { body(x)?; }] *)
Fixpoint for_each {S E A} (l : list A) (body : A → ST S E unit) : ST S E unit :=
  match l with
  | [] => mret ()
  | x :: l => body x ;; for_each l body
  end.

Section storage.
Context `{Crypto}.
Context `{Codec Cbor LogEntry, Codec Cbor LogId, Codec Cbor (option LogId), Codec Cbor Vote,
  Codec Cbor PolicyState, Codec Cbor StoredMembership, Codec Cbor SnapshotMeta}.
(** [Display] of [openraft]'s leader id. *)
Context (leader_text : LeaderId → string).

Definition encode_cbor {A} `{Codec Cbor A} (a : A) : ST Db StorageError string :=
  st_lift (map_err (io_write "cbor encode") (encode_to Cbor a)).
Definition decode_cbor {A} `{Codec Cbor A} (bytes what : string) : ST Db StorageError A :=
  st_lift (map_err (io_read what) (decode_from Cbor bytes)).
(** [.map(|bytes| decode(&bytes, what)).transpose()?] *)
Definition decode_opt {A} `{Codec Cbor A} (o : option string) (what : string)
    : ST Db StorageError (option A) :=
  match o with
  | None => mret None
  | Some bytes => a ← decode_cbor bytes what; mret (Some a)
  end.

(** ** The log store *)

Definition log_entries_sorted (t : Tables) : list (N * string) := ord_entries N.le (t_logs t).

Fixpoint read_entries (items : list (N * string)) (what_read what_decode : string)
    : ST Db StorageError (list LogEntry) :=
  match items with
  | [] => mret []
  | (_, value) :: items =>
      db_call io_read what_read ;;
      e ← decode_cbor value what_decode;
      es ← read_entries items what_read what_decode;
      mret (e :: es)
  end.

Definition try_get_log_entries (range : N → bool) : ST Db StorageError (list LogEntry) :=
  db_call io_read "begin read log" ;;
  db_call io_read "open log table" ;;
  db_call io_read "range log" ;;
  t ← get_tables;
  read_entries (filter (λ iv, range iv.1 = true) (log_entries_sorted t)) "read log entry" "decode log entry".

(** [LogState]: last purged and last log id. *)
Definition get_log_state : ST Db StorageError (option LogId * option LogId) :=
  bytes ← meta_get KEY_LAST_PURGED;
  last_purged ← decode_opt bytes "decode last_purged";
  db_call io_read "begin read log" ;;
  db_call io_read "open log table" ;;
  db_call io_read "iterate logs" ;;
  t ← get_tables;
  entries ← read_entries (log_entries_sorted t) "read last log" "decode last log";
  let last_id := le_log_id <$> last entries in
  mret (last_purged, match last_id with Some l => Some l | None => last_purged end).

Definition save_vote (vote : Vote) : ST Db StorageError unit :=
  bytes ← encode_cbor vote;
  write_txn "begin save vote" "commit vote"
    (db_call io_write "open meta table" ;; put_meta KEY_VOTE bytes "save vote").

Definition read_vote : ST Db StorageError (option Vote) :=
  bytes ← meta_get KEY_VOTE;
  decode_opt bytes "decode vote".

Definition save_committed (committed : option LogId) : ST Db StorageError unit :=
  bytes ← encode_cbor committed;
  write_txn "begin save committed" "commit committed"
    (db_call io_write "open meta table" ;; put_meta KEY_COMMITTED bytes "save committed").

(** The stored bytes are decoded as a log id, not as an option. *)
Definition read_committed : ST Db StorageError (option LogId) :=
  bytes ← meta_get KEY_COMMITTED;
  decode_opt bytes "decode committed".

Fixpoint encode_entries (entries : list LogEntry) : ST Db StorageError (list (N * string)) :=
  match entries with
  | [] => mret []
  | e :: entries =>
      bytes ← encode_cbor e;
      rest ← encode_entries entries;
      mret ((li_index (le_log_id e), bytes) :: rest)
  end.

(** The flush callback reports the outcome of the transaction that is returned. *)
Definition append (entries : list LogEntry) : ST Db StorageError unit :=
  encoded ← encode_entries entries;
  write_txn "begin append" "commit append"
    (db_call io_write "open log table" ;;
     for_each encoded (λ '(index, bytes), put_log index bytes "append log")).

(** The keys the iteration collects; every item read is a call that can fail. *)
Fixpoint collect_keys (keys : list N) (pred : N → bool) (what : string) : ST Db StorageError (list N) :=
  match keys with
  | [] => mret []
  | k :: keys =>
      db_call io_read what ;;
      rest ← collect_keys keys pred what;
      mret (if pred k then k :: rest else rest)
  end.

Definition truncate (log_id : LogId) : ST Db StorageError unit :=
  write_txn "begin truncate" "commit truncate"
    (db_call io_write "open log table" ;;
     db_call io_read "iterate truncate" ;;
     t ← get_tables;
     keys ← collect_keys (log_entries_sorted t).*1 (λ k, li_index log_id <=? k)%N "read truncate key";
     for_each keys (λ k, remove_log k "truncate log")).

Definition purge (log_id : LogId) : ST Db StorageError unit :=
  meta ← encode_cbor log_id;
  write_txn "begin purge" "commit purge"
    (db_call io_write "open log table" ;;
     db_call io_read "iterate purge" ;;
     t ← get_tables;
     keys ← collect_keys (log_entries_sorted t).*1 (λ k, k <=? li_index log_id)%N "read purge key";
     for_each keys (λ k, remove_log k "purge log") ;;
     db_call io_write "open meta table" ;;
     put_meta KEY_LAST_PURGED meta "save last_purged").

(** ** The state machine store *)

Record SmInner := MkSmInner {
  in_state : PolicyState; in_applied : option LogId; in_membership : StoredMembership
}.

(** The store's memory: [inner] and the snapshot counter. *)
Record Sm := MkSm { sm_inner : SmInner; sm_snapshot_idx : N }.

Definition sm_open (network : string) : ST Db StorageError Sm :=
  bytes ← meta_get KEY_POLICY_STATE;
  state ← match bytes with
          | Some bytes => decode_cbor bytes "decode policy state"
          | None => mret (PolicyState_new network)
          end;
  bytes ← meta_get KEY_APPLIED;
  applied ← decode_opt bytes "decode applied";
  bytes ← meta_get KEY_MEMBERSHIP;
  membership ← match bytes with
               | Some bytes => decode_cbor bytes "decode membership"
               | None => mret StoredMembership_default
               end;
  mret (MkSm (MkSmInner state applied membership) 0).

(** [open]: makes the directory, opens the file and creates the tables. *)
Definition storage_open (p : path) (network : string) : ST (Fs * Db) StorageError Sm := λ '(fs, db),
  let '(r, fs) := match path_parent p with
    | Some parent => if bool_decide (parent ≠ []) then create_dir_all parent fs else (Ok (), fs)
    | None => (Ok (), fs)
    end in
  match r with
  | Err e => (Err (io_write "create raft data dir" (io_text e)), (fs, db))
  | Ok _ =>
      let '(r, db) :=
        (db_call io_write "open redb" ;;
         write_txn "begin init" "commit init"
           (db_call io_write "open log table" ;;
            db_call io_write "open meta table" ;;
            db_call io_write "open snapshot table") ;;
         sm_open network) db in
      (r, (fs, db))
  end.

Definition policy_state (sm : Sm) : PolicyState := in_state (sm_inner sm).
Definition sm_policy_epoch (sm : Sm) : N := p_policy_epoch (in_state (sm_inner sm)).
Definition applied_index (sm : Sm) : option N := li_index <$> in_applied (sm_inner sm).
Definition membership_nodes (sm : Sm) : list (NodeId * RaftNode) :=
  ord_entries N.le (mb_nodes (sm_membership (in_membership (sm_inner sm)))).
Definition applied_state (sm : Sm) : option LogId * StoredMembership :=
  (in_applied (sm_inner sm), in_membership (sm_inner sm)).

Definition persist_state (state : PolicyState) (applied : option LogId) (membership : StoredMembership)
    : ST Db StorageError unit :=
  state_bytes ← encode_cbor state;
  applied_bytes ← encode_cbor applied;
  membership_bytes ← encode_cbor membership;
  db_call io_write "open meta table" ;;
  put_meta KEY_POLICY_STATE state_bytes "persist policy state" ;;
  put_meta KEY_APPLIED applied_bytes "persist applied" ;;
  put_meta KEY_MEMBERSHIP membership_bytes "persist membership".

(** Memory and database: an operation of the state machine store. *)
Definition on_db {A} (m : ST Db StorageError A) : ST (Sm * Db) StorageError A := λ '(sm, db),
  let '(r, db) := m db in (r, (sm, db)).
Definition set_inner (i : SmInner) : ST (Sm * Db) StorageError unit := λ '(sm, db),
  (Ok (), (MkSm i (sm_snapshot_idx sm), db)).
Definition get_sm : ST (Sm * Db) StorageError Sm := λ '(sm, db), (Ok sm, (sm, db)).

Definition build_snapshot : ST (Sm * Db) StorageError (SnapshotMeta * string) :=
  sm ← get_sm;
  let inner := sm_inner sm in
  data ← on_db (encode_cbor (in_state inner));
  let idx := wrap_add64 (sm_snapshot_idx sm) 1 in
  (λ '(sm, db), (Ok (), (MkSm (sm_inner sm) idx, db))) ;;
  let snapshot_id := match in_applied inner with
    | Some log_id => leader_text (li_leader log_id) +:+ "-" +:+ pretty (li_index log_id) +:+ "-" +:+ pretty idx
    | None => "--" +:+ pretty idx
    end in
  let meta := MkSnapshotMeta (in_applied inner) (in_membership inner) snapshot_id in
  meta_bytes ← on_db (encode_cbor meta);
  on_db (write_txn "begin snapshot" "commit snapshot"
    (db_call io_write "open snapshot table" ;;
     put_snapshot KEY_SNAPSHOT_META meta_bytes "save snapshot meta" ;;
     put_snapshot KEY_SNAPSHOT_DATA data "save snapshot data")) ;;
  mret (meta, data).

(** One entry of the batch: the state, the applied id, the membership and the
    responses so far. *)
Definition apply_entry_step (acc : SmInner * list PolicyResult) (entry : LogEntry) : SmInner * list PolicyResult :=
  let '(MkSmInner state applied membership, responses) := acc in
  let applied := Some (le_log_id entry) in
  match le_payload entry with
  | Blank => (MkSmInner state applied membership,
              responses ++ [Applied None None (p_policy_epoch state) false])
  | Normal command =>
      let '(r, state) := apply_command_at command (li_index (le_log_id entry)) state in
      (MkSmInner state applied membership, responses ++ [r])
  | MembershipEntry mem =>
      (MkSmInner state applied (MkStoredMembership (Some (le_log_id entry)) mem),
       responses ++ [Applied None None (p_policy_epoch state) true])
  end.

Definition apply (entries : list LogEntry) : ST (Sm * Db) StorageError (list PolicyResult) :=
  sm ← get_sm;
  let '(inner, responses) := foldl apply_entry_step (sm_inner sm, []) entries in
  on_db (write_txn "begin apply" "commit apply"
    (persist_state (in_state inner) (in_applied inner) (in_membership inner))) ;;
  set_inner inner ;;
  mret responses.

Definition install_snapshot (meta : SnapshotMeta) (data : string) : ST (Sm * Db) StorageError unit :=
  state ← on_db (decode_cbor data "decode snapshot state");
  meta_bytes ← on_db (encode_cbor meta);
  on_db (write_txn "begin install snapshot" "commit install snapshot"
    (persist_state state (me_last_log_id meta) (me_last_membership meta) ;;
     db_call io_write "open snapshot table" ;;
     put_snapshot KEY_SNAPSHOT_META meta_bytes "save snapshot meta" ;;
     put_snapshot KEY_SNAPSHOT_DATA data "save snapshot data")) ;;
  set_inner (MkSmInner state (me_last_log_id meta) (me_last_membership meta)).

Definition get_current_snapshot : ST Db StorageError (option (SnapshotMeta * string)) :=
  meta_bytes ← snapshot_get KEY_SNAPSHOT_META;
  match meta_bytes with
  | None => mret None
  | Some meta_bytes =>
      data ← snapshot_get KEY_SNAPSHOT_DATA;
      match data with
      | None => mret None
      | Some data =>
          meta ← decode_cbor meta_bytes "decode snapshot meta";
          mret (Some (meta, data))
      end
  end.
End storage.
