(* ===== verification/StorageProps.v ===== *)
(** * What the Raft storage guarantees ([src/src/raft/storage.rs]) *)
From S2P Require Import Prelude Fsutil Crypto Authority Store Types StateMachine PolicyProps RaftStorage.

Section storage_props.
Context `{CR : Crypto}.
Context `{C1 : Codec Cbor LogEntry, C2 : Codec Cbor LogId, C3 : Codec Cbor (option LogId), C4 : Codec Cbor Vote,
  C5 : Codec Cbor PolicyState, C6 : Codec Cbor StoredMembership, C7 : Codec Cbor SnapshotMeta}.
Context (leader_text : LeaderId → string).

(** ** Calls and transactions *)

Lemma db_call_tables f what db : db_tables (db_call f what db).2 = db_tables db.
Proof. unfold db_call. by destruct (db_faults db) as [|[]]. Qed.

Lemma db_call_Ok f what db u db' : db_call f what db = (Ok u, db') → db_tables db' = db_tables db.
Proof. intros E. rewrite <-(db_call_tables f what db). by rewrite E. Qed.

Lemma put_meta_Ok k v what db u db' : put_meta k v what db = (Ok u, db') →
  db_tables db' = MkTables (t_logs (db_tables db)) (<[k := v]> (t_meta (db_tables db))) (t_snapshot (db_tables db)).
Proof.
  unfold put_meta, get_tables, set_tables. intros H. st_inv. apply db_call_Ok in Hrun as <-.
  simplify_eq. done.
Qed.

Lemma put_snapshot_Ok k v what db u db' : put_snapshot k v what db = (Ok u, db') →
  db_tables db' = MkTables (t_logs (db_tables db)) (t_meta (db_tables db)) (<[k := v]> (t_snapshot (db_tables db))).
Proof.
  unfold put_snapshot, get_tables, set_tables. intros H. st_inv. apply db_call_Ok in Hrun as <-.
  simplify_eq. done.
Qed.

Lemma put_log_Ok i v what db u db' : put_log i v what db = (Ok u, db') →
  db_tables db' = MkTables (<[i := v]> (t_logs (db_tables db))) (t_meta (db_tables db)) (t_snapshot (db_tables db)).
Proof.
  unfold put_log, get_tables, set_tables. intros H. st_inv. apply db_call_Ok in Hrun as <-.
  simplify_eq. done.
Qed.

Lemma remove_log_Ok i what db u db' : remove_log i what db = (Ok u, db') →
  db_tables db' = MkTables (delete i (t_logs (db_tables db))) (t_meta (db_tables db)) (t_snapshot (db_tables db)).
Proof.
  unfold remove_log, get_tables, set_tables. intros H. st_inv. apply db_call_Ok in Hrun as <-.
  simplify_eq. done.
Qed.

(** A transaction that fails leaves the tables; one that succeeds has the effect of
    its body. *)
Lemma write_txn_cases {A} b c (body : ST Db StorageError A) db :
  match write_txn b c body db with
  | (Err _, db') => db_tables db' = db_tables db
  | (Ok a, db') => ∃ db1 db2, db_tables db1 = db_tables db ∧ body db1 = (Ok a, db2)
      ∧ db_tables db' = db_tables db2
  end.
Proof.
  unfold write_txn.
  destruct ((db_call io_write b ;; x ← body; db_call io_write c ;; mret x) db) as [[a|e] db'] eqn:E; [|done].
  apply st_bind_Ok in E as (u & db1 & H1 & E). apply st_bind_Ok in E as (a' & db2 & H2 & E).
  apply st_bind_Ok in E as (u' & db3 & H3 & E). unfold mret, ST_ret in E. simplify_eq.
  exists db1, db2. split_and!; [by eapply db_call_Ok|done|by eapply db_call_Ok].
Qed.

Lemma write_txn_Ok {A} b c (body : ST Db StorageError A) db a db' :
  write_txn b c body db = (Ok a, db') →
  ∃ db1 db2, db_tables db1 = db_tables db ∧ body db1 = (Ok a, db2) ∧ db_tables db' = db_tables db2.
Proof. intros E. pose proof (write_txn_cases b c body db) as Hc. by rewrite E in Hc. Qed.

Lemma write_txn_Err {A} b c (body : ST Db StorageError A) db e db' :
  write_txn b c body db = (Err e, db') → db_tables db' = db_tables db.
Proof. intros E. pose proof (write_txn_cases b c body db) as Hc. by rewrite E in Hc. Qed.

(** ** Recovery

    Opening the state machine without faults is a function of the metadata. *)

Definition read_key {A} `{Codec Cbor A} (meta : gmap string string) (key what : string) (dflt : A)
    : result StorageError A :=
  match meta !! key with
  | Some bytes => map_err (io_read what) (decode_from Cbor bytes)
  | None => Ok dflt
  end.

Definition read_key_opt {A} `{Codec Cbor A} (meta : gmap string string) (key what : string)
    : result StorageError (option A) :=
  match meta !! key with
  | Some bytes => Some <$> map_err (io_read what) (decode_from Cbor bytes)
  | None => Ok None
  end.

Definition recovered (network : string) (meta : gmap string string) : result StorageError SmInner :=
  state ← read_key meta KEY_POLICY_STATE "decode policy state" (PolicyState_new network);
  applied ← read_key_opt meta KEY_APPLIED "decode applied";
  membership ← read_key meta KEY_MEMBERSHIP "decode membership" StoredMembership_default;
  Ok (MkSmInner state applied membership).

Lemma sm_open_recovers network t :
  sm_open network (MkDb t []) = ((λ i, MkSm i 0) <$> recovered network (t_meta t), MkDb t []).
Proof.
  unfold sm_open, recovered, read_key, read_key_opt, meta_get, decode_opt, decode_cbor, st_lift, get_tables,
    mbind, ST_bind, mret, ST_ret, db_call. simpl.
  destruct (t_meta t !! KEY_POLICY_STATE) as [b1|]; simpl;
    [destruct (decode_from Cbor b1); simpl; [|done]|];
  (destruct (t_meta t !! KEY_APPLIED) as [b2|]; simpl;
    [destruct (decode_from Cbor b2); simpl; [|done]|]);
  (destruct (t_meta t !! KEY_MEMBERSHIP) as [b3|]; simpl;
    [destruct (decode_from Cbor b3); simpl; done|done]).
Qed.

(** Memory and disk agree: a process that opens the database now (no call failing)
    starts with the state this one has. *)
Definition synced (network : string) (sm : Sm) (db : Db) : Prop :=
  sm_open network (MkDb (db_tables db) []) = (Ok (MkSm (sm_inner sm) 0), MkDb (db_tables db) []).

Lemma synced_iff network sm db :
  synced network sm db ↔ recovered network (t_meta (db_tables db)) = Ok (sm_inner sm).
Proof.
  unfold synced. rewrite sm_open_recovers. destruct (recovered network _) as [i|]; simpl; split; naive_solver.
Qed.

Lemma encode_cbor_Ok {A} `{Codec Cbor A} (a : A) db b db' :
  encode_cbor a db = (Ok b, db') → encode_to Cbor a = Ok b ∧ db' = db.
Proof. unfold encode_cbor, st_lift. intros [= Hm%map_err_Ok <-]. done. Qed.

Lemma persist_state_Ok st ap mb db u db' : persist_state st ap mb db = (Ok u, db') →
  ∃ b1 b2 b3, encode_to Cbor st = Ok b1 ∧ encode_to Cbor ap = Ok b2 ∧ encode_to Cbor mb = Ok b3
    ∧ db_tables db' = MkTables (t_logs (db_tables db))
        (<[KEY_MEMBERSHIP := b3]> (<[KEY_APPLIED := b2]> (<[KEY_POLICY_STATE := b1]> (t_meta (db_tables db)))))
        (t_snapshot (db_tables db)).
Proof.
  unfold persist_state. intros H. st_inv.
  apply encode_cbor_Ok in Hrun as [He1 ->]. apply encode_cbor_Ok in Hrun0 as [He2 ->].
  apply encode_cbor_Ok in Hrun1 as [He3 ->]. apply db_call_Ok in Hrun2.
  apply put_meta_Ok in Hrun3. apply put_meta_Ok in Hrun4. apply put_meta_Ok in H.
  exists a, a0, a1. split_and!; [done..|]. rewrite H, Hrun4, Hrun3, Hrun2. done.
Qed.

Section laws.
Context `{!CodecLaws Cbor LogId, !CodecLaws Cbor PolicyState, !CodecLaws Cbor StoredMembership}.
Context `{!OptionLaws Cbor LogId}.

(** What was persisted is what is recovered. *)
Lemma persist_state_recovered network st l mb db u db' :
  persist_state st (Some l) mb db = (Ok u, db') →
  recovered network (t_meta (db_tables db')) = Ok (MkSmInner st (Some l) mb).
Proof.
  intros (b1 & b2 & b3 & E1 & E2 & E3 & ->)%persist_state_Ok. rewrite encode_some in E2.
  unfold recovered, read_key, read_key_opt. cbn [t_meta]. set (m := <[_ := b3]> _).
  assert (m !! KEY_POLICY_STATE = Some b1) as ->
    by (unfold m; rewrite lookup_insert_ne, lookup_insert_ne, lookup_insert_eq by done; done).
  assert (m !! KEY_APPLIED = Some b2) as ->
    by (unfold m; rewrite lookup_insert_ne, lookup_insert_eq by done; done).
  assert (m !! KEY_MEMBERSHIP = Some b3) as -> by (unfold m; by rewrite lookup_insert_eq).
  rewrite (codec_round_trip _ _ E1), (codec_round_trip _ _ E2), (codec_round_trip _ _ E3). done.
Qed.

(** The keys of the metadata the state machine does not use. *)
Lemma recovered_other network meta k v :
  k ≠ KEY_POLICY_STATE → k ≠ KEY_APPLIED → k ≠ KEY_MEMBERSHIP →
  recovered network (<[k := v]> meta) = recovered network meta.
Proof.
  intros. unfold recovered, read_key, read_key_opt. by rewrite !lookup_insert_ne by done.
Qed.

(** ** The log as a map from indices to entries *)

Definition log_repr (t : Tables) (L : gmap N LogEntry) : Prop :=
  ∀ i, match L !! i with
       | Some e => ∃ b, t_logs t !! i = Some b ∧ encode_to Cbor e = Ok b
       | None => t_logs t !! i = None
       end.

(** The operations of the log store, abstractly: what they do to the log, the last
    purged id, the vote and the committed id. *)
Inductive LogOp :=
  | LAppend (entries : list LogEntry)
  | LTruncate (log_id : LogId)
  | LPurge (log_id : LogId)
  | LVote (vote : Vote)
  | LCommitted (committed : option LogId).

Definition run_log_op (op : LogOp) : ST Db StorageError unit :=
  match op with
  | LAppend es => append es
  | LTruncate l => truncate l
  | LPurge l => purge l
  | LVote v => save_vote v
  | LCommitted c => save_committed c
  end.

Definition log_op_spec (op : LogOp) (L : gmap N LogEntry) : gmap N LogEntry :=
  match op with
  | LAppend es => foldl (λ L e, <[li_index (le_log_id e) := e]> L) L es
  | LTruncate l => filter (λ ie, (ie.1 < li_index l)%N) L
  | LPurge l => filter (λ ie, (li_index l < ie.1)%N) L
  | _ => L
  end.

(** The metadata after an operation. *)
Definition log_op_meta (op : LogOp) (meta meta' : gmap string string) : Prop :=
  match op with
  | LAppend _ | LTruncate _ => meta' = meta
  | LPurge l => ∃ b, encode_to Cbor l = Ok b ∧ meta' = <[KEY_LAST_PURGED := b]> meta
  | LVote v => ∃ b, encode_to Cbor v = Ok b ∧ meta' = <[KEY_VOTE := b]> meta
  | LCommitted c => ∃ b, encode_to Cbor c = Ok b ∧ meta' = <[KEY_COMMITTED := b]> meta
  end.

Lemma encode_entries_Ok es db l db' : encode_entries es db = (Ok l, db') →
  db' = db ∧ Forall2 (λ e ib, ib.1 = li_index (le_log_id e) ∧ encode_to Cbor e = Ok ib.2) es l.
Proof.
  revert db l db'. induction es as [|e es IH]; intros db l db' H; cbn [encode_entries] in H.
  - unfold mret, ST_ret in H. simplify_eq. split; [done|constructor].
  - st_inv. apply encode_cbor_Ok in Hrun as [He ->]. apply IH in Hrun0 as [-> HF].
    split; [done|]. constructor; done.
Qed.

Lemma encode_entries_Err es db e db' : encode_entries es db = (Err e, db') → db' = db.
Proof.
  revert e. induction es as [|x es IH]; intros e; cbn [encode_entries]; [done|].
  unfold mbind, ST_bind, encode_cbor, st_lift. destruct (map_err _ _); [|by intros [= _ <-]].
  destruct (encode_entries es db) as [[] ?]; [done|]. intros [= -> ->]. by eapply IH.
Qed.

Lemma for_each_put_log l db u db' :
  for_each l (λ '(index, bytes), put_log index bytes "append log") db = (Ok u, db') →
  db_tables db' = MkTables (foldl (λ m ib, <[ib.1 := ib.2]> m) (t_logs (db_tables db)) l)
    (t_meta (db_tables db)) (t_snapshot (db_tables db)).
Proof.
  revert db. induction l as [|[i b] l IH]; intros db H; cbn [for_each] in H.
  - unfold mret, ST_ret in H. simplify_eq. by destruct (db_tables db').
  - st_inv. apply put_log_Ok in Hrun. rewrite (IH _ H), Hrun. done.
Qed.

Lemma for_each_remove_log what l db u db' :
  for_each l (λ k, remove_log k what) db = (Ok u, db') →
  db_tables db' = MkTables (foldl (λ m k, delete k m) (t_logs (db_tables db)) l)
    (t_meta (db_tables db)) (t_snapshot (db_tables db)).
Proof.
  revert db. induction l as [|k l IH]; intros db H; cbn [for_each] in H.
  - unfold mret, ST_ret in H. simplify_eq. by destruct (db_tables db').
  - st_inv. apply remove_log_Ok in Hrun. rewrite (IH _ H), Hrun. done.
Qed.

Lemma collect_keys_Ok keys pred what db l db' : collect_keys keys pred what db = (Ok l, db') →
  db_tables db' = db_tables db ∧ l = filter (λ k, pred k = true) keys.
Proof.
  revert db l. induction keys as [|k keys IH]; intros db l H; cbn [collect_keys] in H.
  - unfold mret, ST_ret in H. by simplify_eq.
  - st_inv. apply db_call_Ok in Hrun. apply IH in Hrun0 as [Ht ->]. split; [congruence|].
    rewrite filter_cons. by destruct (pred k).
Qed.

Lemma lookup_foldl_delete {A} (m : gmap N A) l i :
  foldl (λ m k, delete k m) m l !! i = if decide (i ∈ l) then None else m !! i.
Proof.
  revert m. induction l as [|k l IH]; intros m; cbn [foldl].
  { by rewrite decide_False by set_solver. }
  rewrite IH. destruct (decide (i ∈ l)) as [Hl|Hl]; [by rewrite decide_True by set_solver|].
  destruct (decide (k = i)) as [->|Hne].
  - rewrite decide_True by set_solver. by rewrite lookup_delete_eq.
  - rewrite decide_False by set_solver. by rewrite lookup_delete_ne.
Qed.

(** Removing the keys that satisfy [pred] is filtering the others. *)
Lemma log_repr_remove t L pred (Q : N → Prop) `{!∀ n, Decision (Q n)} m s :
  log_repr t L → (∀ k, Q k ↔ pred k = false) →
  log_repr (MkTables (foldl (λ m k, delete k m) (t_logs t) (filter (λ k, pred k = true) (log_entries_sorted t).*1)) m s)
    (filter (λ ie : N * LogEntry, Q ie.1) L).
Proof.
  intros Hr HQ i. cbn [t_logs]. rewrite lookup_foldl_delete. specialize (Hr i).
  destruct (decide (Q i)) as [Hq|Hq].
  - rewrite decide_False.
    2:{ rewrite list_elem_of_filter. intros [Hp _]. apply HQ in Hq. congruence. }
    destruct (L !! i) as [e|] eqn:E.
    + rewrite (map_lookup_filter_Some_2 _ L i e E) by done. done.
    + rewrite map_lookup_filter_None_2 by auto. done.
  - rewrite map_lookup_filter_None_2 by (right; intros; done).
    case_decide as Hin; [done|]. destruct (L !! i) as [e|]; [|done]. destruct Hr as (b & Hb & _).
    destruct Hin. apply list_elem_of_filter. split; [destruct (pred i) eqn:Hp; [done|by apply HQ in Hp]|].
    unfold log_entries_sorted. rewrite (ord_entries_fst N.le). apply (elem_of_ord_keys N.le). eauto.
Qed.

Lemma log_repr_append es l t L : log_repr t L →
  Forall2 (λ e ib, ib.1 = li_index (le_log_id e) ∧ encode_to Cbor e = Ok ib.2) es l →
  log_repr (MkTables (foldl (λ m ib, <[ib.1 := ib.2]> m) (t_logs t) l) (t_meta t) (t_snapshot t))
    (foldl (λ L e, <[li_index (le_log_id e) := e]> L) L es).
Proof.
  intros Hr HF. revert t L Hr. induction HF as [|e [i b] es l [Hi He] HF IH]; intros t L Hr; simpl in *.
  - by destruct t.
  - refine (IH (MkTables (<[i := b]> (t_logs t)) (t_meta t) (t_snapshot t))
      (<[li_index (le_log_id e) := e]> L) _). intros k. cbn [t_logs].
    subst i. destruct (decide (li_index (le_log_id e) = k)) as [<-|Hk].
    + rewrite !lookup_insert_eq. eauto.
    + rewrite !lookup_insert_ne by done. apply Hr.
Qed.

(** What an operation does to each table. *)
Lemma log_op_effect op db :
  match run_log_op op db with
  | (Ok _, db') => (∀ L, log_repr (db_tables db) L → log_repr (db_tables db') (log_op_spec op L))
      ∧ log_op_meta op (t_meta (db_tables db)) (t_meta (db_tables db'))
      ∧ t_snapshot (db_tables db') = t_snapshot (db_tables db)
  | (Err _, db') => db_tables db' = db_tables db
  end.
Proof.
  assert (∀ b c (body : ST Db StorageError unit) v, (∀ db1 u db2, db_tables db1 = db_tables db →
      body db1 = (Ok u, db2) → (∀ L, log_repr (db_tables db) L → log_repr (db_tables db2) (log_op_spec op L))
        ∧ log_op_meta op (t_meta (db_tables db)) (t_meta (db_tables db2))
        ∧ t_snapshot (db_tables db2) = t_snapshot (db_tables db)) →
    write_txn b c body db = v → match v with
      | (Ok _, db') => (∀ L, log_repr (db_tables db) L → log_repr (db_tables db') (log_op_spec op L))
          ∧ log_op_meta op (t_meta (db_tables db)) (t_meta (db_tables db'))
          ∧ t_snapshot (db_tables db') = t_snapshot (db_tables db)
      | (Err _, db') => db_tables db' = db_tables db end) as Htxn.
  { intros b c body [[u|e] db'] Hb Hw; [|by eapply write_txn_Err].
    apply write_txn_Ok in Hw as (db1 & db2 & Ht1 & Hbody & ->). by eapply Hb. }
  destruct op as [es|l|l|v|c]; cbn [run_log_op].
  - unfold append. unfold mbind at 1, ST_bind at 1.
    destruct (encode_entries es db) as [[enc|e] db0] eqn:Henc.
    2:{ by apply encode_entries_Err in Henc as ->. }
    apply encode_entries_Ok in Henc as [-> HF]. eapply Htxn; [|reflexivity].
    intros db1 u db2 Ht1 H. st_inv. apply db_call_Ok in Hrun. apply for_each_put_log in H.
    rewrite H, Hrun, Ht1. split; [intros L Hr; exact (log_repr_append _ _ _ _ Hr HF)|done].
  - eapply Htxn; [|reflexivity]. intros db1 u db2 Ht1 H. unfold get_tables in H. st_inv.
    apply db_call_Ok in Hrun, Hrun0. simplify_eq. apply collect_keys_Ok in Hrun2 as [Ht ->].
    apply for_each_remove_log in H. rewrite H, Ht, Hrun0, Hrun, Ht1. split; [|done].
    intros L Hr. refine (log_repr_remove _ L _ (λ k, (k < li_index l)%N) _ _ Hr _). intros k. by rewrite N.leb_gt.
  - unfold purge. unfold mbind at 1, ST_bind at 1. destruct (encode_cbor l db) as [[m|e] db0] eqn:Henc.
    2:{ revert Henc. unfold encode_cbor, st_lift. by intros [= _ <-]. }
    apply encode_cbor_Ok in Henc as [He ->]. eapply Htxn; [|reflexivity].
    intros db1 u db2 Ht1 H. unfold get_tables in H. st_inv.
    apply db_call_Ok in Hrun, Hrun0. simplify_eq. apply collect_keys_Ok in Hrun2 as [Ht ->].
    apply for_each_remove_log in Hrun3. apply db_call_Ok in Hrun4. apply put_meta_Ok in H.
    rewrite H, Hrun4, Hrun3, Ht, Hrun0, Hrun, Ht1. split; [|split; [by exists m|done]].
    intros L Hr. refine (log_repr_remove _ L _ (λ k, (li_index l < k)%N) _ _ Hr _). intros k. by rewrite N.leb_gt.
  - unfold save_vote. unfold mbind at 1, ST_bind at 1. destruct (encode_cbor v db) as [[m|e] db0] eqn:Henc.
    2:{ revert Henc. unfold encode_cbor, st_lift. by intros [= _ <-]. }
    apply encode_cbor_Ok in Henc as [He ->]. eapply Htxn; [|reflexivity].
    intros db1 u db2 Ht1 H. st_inv. apply db_call_Ok in Hrun. apply put_meta_Ok in H.
    rewrite H, Hrun, Ht1. split; [done|split; [by exists m|done]].
  - unfold save_committed. unfold mbind at 1, ST_bind at 1. destruct (encode_cbor c db) as [[m|e] db0] eqn:Henc.
    2:{ revert Henc. unfold encode_cbor, st_lift. by intros [= _ <-]. }
    apply encode_cbor_Ok in Henc as [He ->]. eapply Htxn; [|reflexivity].
    intros db1 u db2 Ht1 H. st_inv. apply db_call_Ok in Hrun. apply put_meta_Ok in H.
    rewrite H, Hrun, Ht1. split; [done|split; [by exists m|done]].
Qed.

(** C26: the log store implements a map from indices to entries.  Whatever database
    calls fail: an operation that reports success has exactly the effect of its
    specification (append inserts every entry, truncate keeps the indices below,
    purge keeps those above and records the last purged id, votes and commits are
    stored), and one that reports an error leaves every table as it was. *)
Theorem log_store_refines op db L :
  log_repr (db_tables db) L →
  match run_log_op op db with
  | (Ok _, db') => log_repr (db_tables db') (log_op_spec op L)
      ∧ log_op_meta op (t_meta (db_tables db)) (t_meta (db_tables db'))
      ∧ t_snapshot (db_tables db') = t_snapshot (db_tables db)
  | (Err _, db') => db_tables db' = db_tables db
  end.
Proof.
  intros Hr. pose proof (log_op_effect op db) as He. destruct (run_log_op op db) as [[] db']; naive_solver.
Qed.

(** ** Reading the log back *)

Lemma read_entries_repr `{!CodecLaws Cbor LogEntry} t L items w1 w2 :
  log_repr t L → (∀ i b, (i, b) ∈ items → t_logs t !! i = Some b) →
  read_entries items w1 w2 (MkDb t []) = (Ok (omap (λ ib, L !! ib.1) items), MkDb t []).
Proof.
  intros Hr. induction items as [|[i b] items IH]; intros Hin; [done|]. cbn [read_entries].
  unfold mbind, ST_bind, db_call, decode_cbor, st_lift. simpl.
  pose proof (Hr i) as Hi. pose proof (Hin i b ltac:(set_solver)) as Hib.
  destruct (L !! i) as [e|] eqn:E; [|congruence]. destruct Hi as (b' & Hb' & He).
  assert (b' = b) as -> by congruence. rewrite (codec_round_trip _ _ He). simpl.
  rewrite IH by set_solver. done.
Qed.

(** Reading the log back.  With no call failing, [try_get_log_entries] returns
    exactly the entries of the map whose index is in the range, in index order,
    and [get_log_state] returns the last entry's id, or the last purged id when
    the log is empty. *)
Theorem log_read_back `{!CodecLaws Cbor LogEntry} t L range purged :
  log_repr t L →
  (match purged with
   | Some l => ∃ b, t_meta t !! KEY_LAST_PURGED = Some b ∧ encode_to Cbor l = Ok b
   | None => t_meta t !! KEY_LAST_PURGED = None
   end) →
  try_get_log_entries range (MkDb t [])
    = (Ok (omap (λ i, L !! i) (filter (λ i, range i = true) (ord_keys N.le L))), MkDb t [])
  ∧ get_log_state (MkDb t [])
    = (Ok (purged, match last (omap (λ i, L !! i) (ord_keys N.le L)) with
                   | Some e => Some (le_log_id e)
                   | None => purged
                   end), MkDb t []).
Proof.
  intros Hr Hp. assert (dom (t_logs t) = dom L) as Hdom.
  { apply set_eq. intros i. rewrite !elem_of_dom. specialize (Hr i).
    destruct (L !! i); [destruct Hr as (b & -> & _); split; eauto|by rewrite Hr]. }
  assert (∀ i b, (i, b) ∈ log_entries_sorted t → t_logs t !! i = Some b) as Hin.
  { intros i b. apply (elem_of_ord_entries N.le). }
  assert (∀ A (f : N → option A) (l : list (N * string)), omap (λ ib, f ib.1) l = omap f l.*1) as Homap.
  { intros A f l. induction l as [|[i b] l IH]; [done|]. simpl.
    destruct (f i); [f_equal|]; apply IH. }
  assert ((log_entries_sorted t).*1 = ord_keys N.le L) as Hkeys.
  { unfold log_entries_sorted. rewrite (ord_entries_fst N.le). unfold ord_keys. by rewrite Hdom. }
  split.
  - unfold try_get_log_entries. unfold mbind, ST_bind, db_call, get_tables. simpl.
    rewrite (read_entries_repr t L) by (done || (intros i b [_ Hi]%list_elem_of_filter; by apply Hin)).
    rewrite (Homap _ (λ i, L !! i)), <-Hkeys. do 3 f_equal. generalize (log_entries_sorted t). clear.
    intros l. induction l as [|[i b] l IH]; [done|]. rewrite fmap_cons, !filter_cons. simpl.
    destruct (decide (range i = true)); [rewrite fmap_cons; f_equal|]; exact IH.
  - unfold get_log_state, meta_get, decode_opt, decode_cbor, mbind, ST_bind, db_call, get_tables, st_lift, mret, ST_ret.
    simpl. destruct purged as [l|].
    + destruct Hp as (b & -> & He). rewrite (codec_round_trip _ _ He). simpl.
      rewrite (read_entries_repr t L) by done. rewrite (Homap _ (λ i, L !! i)), Hkeys.
      by destruct (last (omap (λ i, L !! i) (ord_keys N.le L))).
    + rewrite Hp. simpl. rewrite (read_entries_repr t L) by done. rewrite (Homap _ (λ i, L !! i)), Hkeys.
      by destruct (last (omap (λ i, L !! i) (ord_keys N.le L))).
Qed.

(** ** Applying a batch *)

Definition normal_commands (es : list LogEntry) : list (N * PolicyCommand) :=
  omap (λ e, match le_payload e with Normal c => Some (li_index (le_log_id e), c) | _ => None end) es.

Lemma foldl_apply_entry es inner rs :
  let r := foldl apply_entry_step (inner, rs) es in
  in_state r.1 = run_log (normal_commands es) (in_state inner)
  ∧ in_applied r.1 = match last es with Some e => Some (le_log_id e) | None => in_applied inner end
  ∧ length r.2 = length rs + length es.
Proof.
  unfold run_log. revert inner rs. induction es as [|e es IH]; intros inner rs; [simpl; split_and!; [done..|lia]|].
  cbn [foldl]. destruct (apply_entry_step (inner, rs) e) as [inner1 rs1] eqn:E.
  destruct (IH inner1 rs1) as (Hs & Ha & Hl). cbn zeta. rewrite Hs, Ha, Hl, last_cons.
  destruct inner as [st ap mb]. unfold apply_entry_step in E.
  destruct e as [lid [|c|m]]; simpl in *.
  - simplify_eq/=. rewrite length_app. simpl. split_and!; [done| |lia]. by destruct (last es).
  - destruct (apply_command_at c (li_index lid) st) as [r st'] eqn:Ec. simplify_eq/=.
    rewrite length_app. simpl. split_and!; [done| |lia]. by destruct (last es).
  - simplify_eq/=. rewrite length_app. simpl. split_and!; [done| |lia]. by destruct (last es).
Qed.

Lemma apply_cases es sm db :
  let inner := (foldl apply_entry_step (sm_inner sm, []) es).1 in
  match apply es (sm, db) with
  | (Ok rs, (sm', db')) => sm' = MkSm inner (sm_snapshot_idx sm)
      ∧ rs = (foldl apply_entry_step (sm_inner sm, []) es).2
      ∧ ∃ db1 db2 u, persist_state (in_state inner) (in_applied inner) (in_membership inner) db1 = (Ok u, db2)
          ∧ db_tables db' = db_tables db2
  | (Err _, (sm', db')) => sm' = sm ∧ db_tables db' = db_tables db
  end.
Proof.
  cbn zeta. unfold apply, get_sm. unfold mbind at 1, ST_bind at 1.
  destruct (foldl apply_entry_step (sm_inner sm, []) es) as [inner responses]. cbn [fst snd].
  unfold mbind, ST_bind, on_db, set_inner. 
  destruct (write_txn "begin apply" "commit apply" _ db) as [[u|e] db'] eqn:Hw.
  - apply write_txn_Ok in Hw as (db1 & db2 & _ & Hb & Ht). split_and!; [done..|]. eauto 6.
  - apply write_txn_Err in Hw. done.
Qed.

(** Applying a batch is all or nothing.  Whichever database call fails, memory
    and tables are as before and the error is reported; otherwise the state is the
    one the policy state machine reaches on the batch's commands in order, with
    one response per entry, and the last entry is the applied id. *)
Theorem apply_batch_atomic es sm db r sm' db' :
  apply es (sm, db) = (r, (sm', db')) →
  match r with
  | Err _ => sm' = sm ∧ db_tables db' = db_tables db
  | Ok rs => policy_state sm' = run_log (normal_commands es) (policy_state sm)
      ∧ length rs = length es
      ∧ in_applied (sm_inner sm') = match last es with
                                    | Some e => Some (le_log_id e)
                                    | None => in_applied (sm_inner sm)
                                    end
  end.
Proof.
  intros E. pose proof (apply_cases es sm db) as Hc. cbn zeta in Hc. rewrite E in Hc.
  destruct r as [rs|e]; [|done]. destruct Hc as (-> & -> & _).
  destruct (foldl_apply_entry es (sm_inner sm) []) as (Hs & Ha & Hl).
  unfold policy_state. cbn [sm_inner]. done.
Qed.

(** ** Every operation keeps memory and disk in agreement *)

Inductive StorageOp :=
  | StApply (es : list LogEntry)
  | StInstall (meta : SnapshotMeta) (data : string)
  | StBuild
  | StLog (op : LogOp).

Definition run_storage_op (op : StorageOp) (w : Sm * Db) : Sm * Db :=
  match op with
  | StApply es => (apply es w).2
  | StInstall meta data => (install_snapshot meta data w).2
  | StBuild => (build_snapshot leader_text w).2
  | StLog op => (w.1, (run_log_op op w.2).2)
  end.

(** After the operation there is an applied log id: a batch has entries or comes
    after one, and a snapshot has a last log id. *)
Definition storage_op_ok (sm : Sm) (op : StorageOp) : Prop :=
  match op with
  | StApply es => es ≠ [] ∨ is_Some (in_applied (sm_inner sm))
  | StInstall meta _ => is_Some (me_last_log_id meta)
  | _ => True
  end.

Lemma log_op_recovered network op db :
  recovered network (t_meta (db_tables (run_log_op op db).2)) = recovered network (t_meta (db_tables db)).
Proof.
  pose proof (log_op_effect op db) as He. destruct (run_log_op op db) as [[u|e] db']; simpl; [|by rewrite He].
  destruct He as (_ & Hm & _). destruct op; simpl in Hm; [by rewrite Hm..| | |];
    destruct Hm as (b & _ & ->); by apply recovered_other.
Qed.

Lemma put_snapshot_meta k v what db u db' : put_snapshot k v what db = (Ok u, db') →
  t_meta (db_tables db') = t_meta (db_tables db).
Proof. by intros ->%put_snapshot_Ok. Qed.

Lemma build_snapshot_meta sm db :
  sm_inner (build_snapshot leader_text (sm, db)).2.1 = sm_inner sm
  ∧ t_meta (db_tables (build_snapshot leader_text (sm, db)).2.2) = t_meta (db_tables db).
Proof.
  unfold build_snapshot, get_sm, mbind, ST_bind, on_db, encode_cbor, st_lift, mret, ST_ret. cbn zeta beta iota.
  destruct (encode_to Cbor (in_state (sm_inner sm))); simpl; [|done].
  destruct (encode_to Cbor (MkSnapshotMeta _ _ _)); simpl; [|done].
  destruct (write_txn "begin snapshot" "commit snapshot" _ db) as [[u|e] db'] eqn:Hw; simpl.
  - split; [done|]. apply write_txn_Ok in Hw as (db1 & db2 & <- & Hb & ->).
    apply st_bind_Ok in Hb as (x1 & d1 & H1 & Hb). apply st_bind_Ok in Hb as (x2 & d2 & H2 & Hb).
    apply put_snapshot_meta in Hb, H2. apply db_call_Ok in H1. congruence.
  - apply write_txn_Err in Hw. by rewrite Hw.
Qed.

(** C25: memory and disk never disagree.  Take a state machine store whose memory is
    what a restart would read from the database.  After any operation, successful
    or failing at any database call, that still holds: applying a batch,
    installing or building a snapshot, and every operation of the log store.  (The
    applied log id must exist afterwards: see [none_is_not_read_back].) *)
Theorem storage_recovers network op sm db :
  synced network sm db → storage_op_ok sm op →
  let '(sm', db') := run_storage_op op (sm, db) in synced network sm' db'.
Proof.
  rewrite synced_iff. intros Hsync Hok. destruct op as [es|meta data| |op]; cbn [run_storage_op].
  - pose proof (apply_cases es sm db) as Hc. cbn zeta in Hc.
    destruct (foldl_apply_entry es (sm_inner sm) []) as (_ & Ha & _).
    destruct (apply es (sm, db)) as [[rs|e] [sm' db']]; cbn [snd]; rewrite synced_iff.
    + destruct Hc as (-> & _ & db1 & db2 & u & Hp & ->). cbn [sm_inner].
      assert (is_Some (in_applied (foldl apply_entry_step (sm_inner sm, []) es).1)) as [l Hl].
      { rewrite Ha. destruct (last es) as [e|] eqn:E; [eauto|]. apply last_None in E. by destruct Hok. }
      rewrite Hl in Hp. rewrite (persist_state_recovered network _ _ _ _ _ _ Hp).
      rewrite <-Hl. by destruct (foldl apply_entry_step (sm_inner sm, []) es) as [[] ?].
    + destruct Hc as [-> ->]. done.
  - destruct Hok as [l Hl].
    unfold install_snapshot, mbind, ST_bind, on_db, encode_cbor, decode_cbor, st_lift, set_inner. cbn zeta beta iota.
    destruct (decode_from Cbor data) as [state|]; simpl; [|by rewrite synced_iff].
    destruct (encode_to Cbor meta) as [mb|]; simpl; [|by rewrite synced_iff].
    destruct (write_txn "begin install snapshot" "commit install snapshot" _ db) as [[u|e] db'] eqn:Hw;
      simpl; rewrite synced_iff.
    + apply write_txn_Ok in Hw as (db1 & db2 & _ & Hb & ->).
      apply st_bind_Ok in Hb as (x1 & d1 & H1 & Hb). apply st_bind_Ok in Hb as (x2 & d2 & H2 & Hb).
      apply st_bind_Ok in Hb as (x3 & d3 & H3 & Hb).
      apply put_snapshot_meta in Hb, H3. apply db_call_Ok in H2. rewrite Hb, H3, H2.
      rewrite Hl in *. by eapply persist_state_recovered.
    + apply write_txn_Err in Hw. by rewrite Hw.
  - destruct (build_snapshot_meta sm db) as [Hi Hm].
    destruct (build_snapshot leader_text (sm, db)) as [r [sm' db']]. simpl in *.
    rewrite synced_iff, Hi, Hm. done.
  - simpl. rewrite synced_iff, log_op_recovered. done.
Qed.

(** A [None] that was stored is not read back.  When [save_committed(None)]
    succeeds, reading it back fails to decode; and a state machine that persisted
    an empty batch on a fresh store (no applied id) does not open again. *)
Theorem none_is_not_read_back network db u db' :
  save_committed None db = (Ok u, db') →
  (∃ e, (read_committed (MkDb (db_tables db') [])).1 = Err e)
  ∧ ∀ st mb db1 v db2, persist_state st None mb db1 = (Ok v, db2) →
      ∃ e, (sm_open network (MkDb (db_tables db2) [])).1 = Err e.
Proof.
  intros Hs. split.
  - pose proof (log_op_effect (LCommitted None) db) as He. cbn [run_log_op] in He. rewrite Hs in He.
    destruct He as (_ & (b & Hb & Hm) & _). destruct (decode_none _ Hb) as [err Hd].
    unfold read_committed, meta_get, mbind, ST_bind, db_call, get_tables, mret, ST_ret, decode_opt, decode_cbor, st_lift.
    simpl. rewrite Hm, lookup_insert_eq, Hd. simpl. eauto.
  - intros st mb db1 v db2 (b1 & b2 & b3 & E1 & E2 & E3 & ->)%persist_state_Ok.
    destruct (decode_none _ E2) as [err Hd]. rewrite sm_open_recovers. cbn [fst t_meta].
    unfold recovered, read_key, read_key_opt. set (m := <[_ := b3]> _).
    assert (m !! KEY_POLICY_STATE = Some b1) as ->
      by (unfold m; rewrite lookup_insert_ne, lookup_insert_ne, lookup_insert_eq by done; done).
    assert (m !! KEY_APPLIED = Some b2) as ->
      by (unfold m; rewrite lookup_insert_ne, lookup_insert_eq by done; done).
    rewrite (codec_round_trip _ _ E1), Hd. simpl. eauto.
Qed.

(** ** Snapshots *)

Lemma snapshot_stored `{!CodecLaws Cbor SnapshotMeta} (meta : SnapshotMeta) mb data w1 w2 db db1 db2 u1 u2 :
  encode_to Cbor meta = Ok mb →
  put_snapshot KEY_SNAPSHOT_META mb w1 db = (Ok u1, db1) →
  put_snapshot KEY_SNAPSHOT_DATA data w2 db1 = (Ok u2, db2) →
  ∀ t, t_snapshot t = t_snapshot (db_tables db2) →
  get_current_snapshot (MkDb t []) = (Ok (Some (meta, data)), MkDb t []).
Proof.
  intros He H1%put_snapshot_Ok H2%put_snapshot_Ok t Ht. rewrite H2, H1 in Ht. cbn in Ht.
  unfold get_current_snapshot, snapshot_get, mbind, ST_bind, db_call, get_tables, mret, ST_ret, decode_cbor, st_lift.
  assert (t_snapshot t !! KEY_SNAPSHOT_META = Some mb) as Hm
    by (rewrite Ht, lookup_insert_ne, lookup_insert_eq by done; done).
  assert (t_snapshot t !! KEY_SNAPSHOT_DATA = Some data) as Hd by (by rewrite Ht, lookup_insert_eq).
  simpl. rewrite Hm. simpl. rewrite Hd. by rewrite (codec_round_trip _ _ He).
Qed.

(** Snapshots transfer the state.  A snapshot built by one node and installed by
    another (both calls succeeding) gives the second node exactly the first's
    policy state, applied id and membership, and either node serves that same
    snapshot from its database afterwards. *)
Theorem snapshot_transfer `{!CodecLaws Cbor SnapshotMeta} smA dbA meta data smA' dbA' smB dbB u smB' dbB' :
  build_snapshot leader_text (smA, dbA) = (Ok (meta, data), (smA', dbA')) →
  install_snapshot meta data (smB, dbB) = (Ok u, (smB', dbB')) →
  sm_inner smB' = sm_inner smA
  ∧ get_current_snapshot (MkDb (db_tables dbA') []) = (Ok (Some (meta, data)), MkDb (db_tables dbA') [])
  ∧ get_current_snapshot (MkDb (db_tables dbB') []) = (Ok (Some (meta, data)), MkDb (db_tables dbB') []).
Proof.
  intros HA HB.
  assert (encode_to Cbor (in_state (sm_inner smA)) = Ok data ∧ me_last_log_id meta = in_applied (sm_inner smA)
    ∧ me_last_membership meta = in_membership (sm_inner smA)
    ∧ get_current_snapshot (MkDb (db_tables dbA') []) = (Ok (Some (meta, data)), MkDb (db_tables dbA') []))
    as (Hdata & Hap & Hmb & HgA).
  { revert HA. unfold build_snapshot, get_sm, mbind at 1, ST_bind at 1, on_db, encode_cbor, st_lift.
    unfold mbind, ST_bind. cbn zeta beta iota.
    destruct (encode_to Cbor (in_state (sm_inner smA))) as [d|]; simpl; [|done].
    destruct (encode_to Cbor (MkSnapshotMeta _ _ _)) as [mb|] eqn:Hmeta; simpl; [|done].
    destruct (write_txn "begin snapshot" "commit snapshot" _ dbA) as [[x|e] db'] eqn:Hw; simpl; [|done].
    unfold mret, ST_ret. intros [= <- <- <- <-]. split_and!; [done..|].
    apply write_txn_Ok in Hw as (db1 & db2 & _ & Hb & Ht).
    apply st_bind_Ok in Hb as (x1 & d1 & _ & Hb). apply st_bind_Ok in Hb as (x2 & d2 & H2 & Hb).
    eapply snapshot_stored; [exact Hmeta|exact H2|exact Hb|by rewrite Ht]. }
  revert HB. unfold install_snapshot, mbind, ST_bind, on_db, encode_cbor, decode_cbor, st_lift, set_inner.
  cbn zeta beta iota. rewrite (codec_round_trip _ _ Hdata). simpl.
  destruct (encode_to Cbor meta) as [mb|] eqn:Hmeta; simpl; [|done].
  destruct (write_txn "begin install snapshot" "commit install snapshot" _ dbB) as [[x|e] db'] eqn:Hw; simpl; [|done].
  intros [= <- <- <-]. split_and!; [|done|].
  - cbn. rewrite Hap, Hmb. by destruct (sm_inner smA).
  - apply write_txn_Ok in Hw as (db1 & db2 & _ & Hb & Ht).
    apply st_bind_Ok in Hb as (x1 & d1 & _ & Hb). apply st_bind_Ok in Hb as (x2 & d2 & _ & Hb).
    apply st_bind_Ok in Hb as (x3 & d3 & H3 & Hb).
    eapply snapshot_stored; [exact Hmeta|exact H3|exact Hb|by rewrite Ht].
Qed.
End laws.
End storage_props.

(** ** Examples *)

Section storage_examples.
Import Toy.
#[local] Instance ex_option_codec : Codec Cbor (option LogId) := option_codec Cbor LogId.
#[local] Instance ex_option_laws : OptionLaws Cbor LogId := countable_option_laws Cbor LogId.

Definition ex_leader_text (l : LeaderId) : string := pretty (ld_term l) +:+ "-" +:+ pretty (ld_node l).
Definition ex_lid (i : N) : LogId := MkLogId (MkLeaderId 1 1) i.
Definition ex_batch : list LogEntry :=
  [MkLogEntry (ex_lid 1) Blank; MkLogEntry (ex_lid 2) (Normal (CreateService "web" ["alice"]))].
Definition ex_sm : Sm := MkSm (MkSmInner (PolicyState_new "net") None StoredMembership_default) 0.
Definition ex_db : Db := MkDb Tables_empty [].
(** The third call of the transaction fails. *)
Definition ex_bad_db : Db := MkDb Tables_empty [None; None; Some "disk full"].

Lemma ex_log_repr : log_repr Tables_empty ∅.
Proof. intros i. by rewrite lookup_empty. Defined.

Lemma log_store_refines_witness :
  log_repr (db_tables (run_log_op (LAppend ex_batch) ex_db).2) (log_op_spec (LAppend ex_batch) ∅).
Proof.
  pose proof (log_store_refines (LAppend ex_batch) ex_db ∅ ex_log_repr) as H.
  destruct (run_log_op (LAppend ex_batch) ex_db) as [[u|e] db'] eqn:E; [|vm_compute in E; discriminate].
  apply H.
Defined.

Lemma log_read_back_witness :
  try_get_log_entries (λ _, true) ex_db = (Ok [], ex_db) ∧ get_log_state ex_db = (Ok (None, None), ex_db).
Proof.
  exact (log_read_back Tables_empty ∅ (λ _, true) None ex_log_repr eq_refl).
Defined.

Lemma apply_batch_atomic_witness :
  let '(r, (sm', db')) := apply ex_batch (ex_sm, ex_bad_db) in
  sm' = ex_sm ∧ db_tables db' = Tables_empty.
Proof.
  destruct (apply ex_batch (ex_sm, ex_bad_db)) as [r [sm' db']] eqn:E.
  pose proof (apply_batch_atomic ex_batch ex_sm ex_bad_db r sm' db' E) as H.
  destruct r as [rs|e]; [vm_compute in E; discriminate|exact H].
Defined.

Lemma storage_recovers_witness :
  let '(sm', db') := run_storage_op ex_leader_text (StApply ex_batch) (ex_sm, ex_db) in synced "net" sm' db'.
Proof.
  apply (storage_recovers ex_leader_text "net" (StApply ex_batch) ex_sm ex_db); [reflexivity|].
  left. discriminate.
Defined.

Lemma none_is_not_read_back_witness :
  ∃ e, (read_committed (MkDb (db_tables (save_committed None ex_db).2) [])).1 = Err e.
Proof.
  destruct (save_committed None ex_db) as [[u|e] db'] eqn:E; [|vm_compute in E; discriminate].
  apply (none_is_not_read_back "net" ex_db u db' E).
Defined.

Lemma snapshot_transfer_witness :
  match build_snapshot ex_leader_text (ex_sm, ex_db) with
  | (Ok (meta, data), _) =>
      sm_inner (install_snapshot meta data (MkSm (MkSmInner (PolicyState_new "other") None
        StoredMembership_default) 4, ex_db)).2.1 = sm_inner ex_sm
  | _ => False
  end.
Proof.
  destruct (build_snapshot ex_leader_text (ex_sm, ex_db)) as [[[meta data]|e] [smA' dbA']] eqn:EA;
    [|vm_compute in EA; discriminate].
  destruct (install_snapshot meta data (MkSm (MkSmInner (PolicyState_new "other") None
        StoredMembership_default) 4, ex_db)) as [[u|e] [smB' dbB']] eqn:EB.
  - eapply (snapshot_transfer ex_leader_text ex_sm ex_db meta data smA' dbA' _ ex_db u smB' dbB' EA EB).
  - exfalso. vm_compute in EA. injection EA as <- <- <- <-. vm_compute in EB. discriminate.
Defined.
End storage_examples.
