(* ===== verification/Transport.v ===== *)
(** * Authenticated Raft RPC: [src/src/raft/transport.rs]

    Every request and reply between sidecars is signed with the sender's Ed25519
    identity key over a domain-separated input, and checked against the keys of the
    cluster members. *)
From S2P Require Import Prelude Fsutil Crypto Authority Types.

Definition RAFT_RPC_OP : string := "raft_rpc".
Definition IDENTITY_SEED_LEN : nat := 32.
Definition REQ_DOMAIN : string := "nexusauth/raft/rpc".
Definition RESP_DOMAIN : string := "nexusauth/raft/resp".

Inductive TransportError :=
  | TrIo (e : IoError)
  | TrInvalidSeed
  | TrInvalidKey
  | TrBadBase64
  | TrBadSignature
  | TrWrongCluster
  | TrWrongTarget
  | TrWrongSender
  | TrUnknownNode (id : NodeId)
  | TrDecode (e : string).

Definition transport_error_text (e : TransportError) : string :=
  match e with
  | TrIo e => "io error: " +:+ io_text e
  | TrInvalidSeed => "invalid sidecar identity seed"
  | TrInvalidKey => "invalid sidecar identity key"
  | TrBadBase64 => "invalid base64 in raft rpc"
  | TrBadSignature => "invalid raft rpc signature"
  | TrWrongCluster => "raft rpc cluster mismatch"
  | TrWrongTarget => "raft rpc target mismatch"
  | TrWrongSender => "raft rpc sender mismatch"
  | TrUnknownNode id => "raft rpc from unknown node " +:+ pretty id
  | TrDecode e => "raft rpc decode error: " +:+ e
  end.

Record IdentityKey := MkIdentityKey { ik_signing_key : string; ik_public_key_b64 : string }.

(** The member keys; behind an [RwLock] in the code. *)
Record RpcVerifier := MkRpcVerifier {
  rv_cluster_id : string; rv_local_id : NodeId; rv_keys : gmap NodeId string
}.

Section transport.
Context `{Crypto, Codec Json RaftRpcEnvelope, Codec Json RaftRpcReply}.
Context {Body : Type} `{Codec Cbor Body}.

Definition identity_from_seed (seed : string) : IdentityKey :=
  MkIdentityKey seed (b64_encode (ed_public seed)).
Definition identity_generate (rng : string) : IdentityKey := identity_from_seed rng.

Definition identity_load_or_create (rng : string) (p : path) : ST Fs TransportError IdentityKey := λ fs,
  match fs_read p fs with
  | (Ok bytes, fs) =>
      if bool_decide (String.length bytes ≠ IDENTITY_SEED_LEN) then (Err TrInvalidSeed, fs)
      else (Ok (identity_from_seed bytes), fs)
  | (Err e, fs) =>
      if bool_decide (io_kind e = NotFound) then
        let identity := identity_generate rng in
        (st_map_err TrIo (atomic_write p (ik_signing_key identity) (Some 384%N)) ;; mret identity) fs
      else (Err (TrIo e), fs)
  end.

Definition sign_b64 (k : IdentityKey) (msg : string) : string := b64url_encode (ed_sign (ik_signing_key k) msg).

Definition request_input (cluster_id : string) (from to : NodeId) (body : string) : string :=
  REQ_DOMAIN +:+ nul +:+ cluster_id +:+ nul +:+ to_be_bytes 8 from +:+ nul +:+ to_be_bytes 8 to +:+ nul +:+ body.

Definition ok_byte (ok : bool) : string := String (if ok then "001" else "000")%char "".

Definition response_input (cluster_id : string) (from to : NodeId) (ok : bool) (body error : string) : string :=
  RESP_DOMAIN +:+ nul +:+ cluster_id +:+ nul +:+ to_be_bytes 8 from +:+ nul +:+ to_be_bytes 8 to +:+ nul
  +:+ ok_byte ok +:+ nul +:+ body +:+ nul +:+ error.

(** [RaftRpcBody::encode] and [decode]. *)
Definition body_encode (b : Body) : result string string := encode_to Cbor b.
Definition body_decode (s : string) : result string Body := decode_from Cbor s.

Definition encode_request (identity : IdentityKey) (cluster_id : string) (from to : NodeId) (body : Body)
    : result TransportError string :=
  body_bytes ← map_err TrDecode (body_encode body);
  let signature := sign_b64 identity (request_input cluster_id from to body_bytes) in
  map_err TrDecode (encode_to Json
    (MkRaftRpcEnvelope RAFT_RPC_OP cluster_id from to (b64url_encode body_bytes) signature)).

Definition encode_reply (identity : IdentityKey) (cluster_id : string) (from to : NodeId) (ok : bool)
    (body error : string) : result TransportError string :=
  let signature := sign_b64 identity (response_input cluster_id from to ok body error) in
  map_err TrDecode (encode_to Json
    (MkRaftRpcReply RAFT_RPC_OP cluster_id from to ok (b64url_encode body) error signature)).

(** [Signature::from_slice] and [key.verify(message, &sig)]. *)
Definition check_signature {E} (key message sig : string) (e : E) : result E unit :=
  if bool_decide (String.length sig ≠ 64) then Err e
  else if negb (ed_verify key message sig) then Err e else Ok ().

Definition parse_verifying_key (identity_key_b64 : string) : result TransportError string :=
  match b64_decode identity_key_b64 with
  | None => Err TrInvalidKey
  | Some raw =>
      if bool_decide (String.length raw ≠ 32) then Err TrInvalidKey
      else if ed_key_ok raw then Ok raw else Err TrInvalidKey
  end.

Definition verifier_new (cluster_id : string) (local_id : NodeId) : RpcVerifier :=
  MkRpcVerifier cluster_id local_id ∅.

Definition set_keys (v : RpcVerifier) (keys : gmap NodeId string) : RpcVerifier :=
  MkRpcVerifier (rv_cluster_id v) (rv_local_id v) keys.

Definition add_node (node_id : NodeId) (identity_key_b64 : string) : ST RpcVerifier TransportError unit := λ v,
  match parse_verifying_key identity_key_b64 with
  | Err e => (Err e, v)
  | Ok key => (Ok (), set_keys v (<[node_id := key]> (rv_keys v)))
  end.

Definition remove_node (node_id : NodeId) (v : RpcVerifier) : RpcVerifier :=
  set_keys v (delete node_id (rv_keys v)).

Fixpoint parse_nodes (nodes : list (NodeId * string)) (parsed : gmap NodeId string)
    : result TransportError (gmap NodeId string) :=
  match nodes with
  | [] => Ok parsed
  | (node_id, key_b64) :: nodes =>
      key ← parse_verifying_key key_b64;
      parse_nodes nodes (<[node_id := key]> parsed)
  end.

Definition replace_nodes (nodes : list (NodeId * string)) : ST RpcVerifier TransportError unit := λ v,
  match parse_nodes nodes ∅ with
  | Err e => (Err e, v)
  | Ok parsed => (Ok (), set_keys v parsed)
  end.

Definition has_node (v : RpcVerifier) (node_id : NodeId) : bool := bool_decide (is_Some (rv_keys v !! node_id)).
Definition node_ids (v : RpcVerifier) : list NodeId := ord_keys N.le (rv_keys v).

Definition verify_node_signature (v : RpcVerifier) (node_id : NodeId) (message signature_b64 : string)
    : result TransportError unit :=
  key ← ok_or (rv_keys v !! node_id) (TrUnknownNode node_id);
  sig_bytes ← ok_or (b64url_decode signature_b64) TrBadSignature;
  check_signature key message sig_bytes TrBadSignature.

Definition verify_request (v : RpcVerifier) (e : RaftRpcEnvelope) : result TransportError (NodeId * Body) :=
  if bool_decide (re_op e ≠ RAFT_RPC_OP) then Err (TrDecode "unexpected op")
  else if bool_decide (re_cluster_id e ≠ rv_cluster_id v) then Err TrWrongCluster
  else if bool_decide (re_to e ≠ rv_local_id v) then Err TrWrongTarget
  else
    key ← ok_or (rv_keys v !! re_from e) (TrUnknownNode (re_from e));
    body ← ok_or (b64url_decode (re_body e)) TrBadBase64;
    sig ← ok_or (b64url_decode (re_signature e)) TrBadBase64;
    check_signature key (request_input (re_cluster_id e) (re_from e) (re_to e) body) sig TrBadSignature ;;
    b ← map_err TrDecode (body_decode body);
    Ok (re_from e, b).

Definition verify_reply (v : RpcVerifier) (expected_from : NodeId) (r : RaftRpcReply)
    : result TransportError string :=
  if bool_decide (rr_op r ≠ RAFT_RPC_OP) then Err (TrDecode "unexpected op")
  else if bool_decide (rr_cluster_id r ≠ rv_cluster_id v) then Err TrWrongCluster
  else if bool_decide (rr_from r ≠ expected_from) then Err TrWrongSender
  else if bool_decide (rr_to r ≠ rv_local_id v) then Err TrWrongTarget
  else
    key ← ok_or (rv_keys v !! expected_from) (TrUnknownNode expected_from);
    body ← ok_or (b64url_decode (rr_body r)) TrBadBase64;
    sig ← ok_or (b64url_decode (rr_signature r)) TrBadBase64;
    check_signature key
      (response_input (rr_cluster_id r) (rr_from r) (rr_to r) (rr_ok r) body (rr_error r)) sig TrBadSignature ;;
    if negb (rr_ok r) then Err (TrDecode (rr_error r)) else Ok body.

Fixpoint add_nodes (nodes : list (NodeId * string)) (v : RpcVerifier) : result TransportError RpcVerifier :=
  match nodes with
  | [] => Ok v
  | (id, key) :: nodes =>
      match add_node id key v with
      | (Ok _, v) => add_nodes nodes v
      | (Err e, _) => Err e
      end
  end.
Definition verifier_with_nodes (cluster_id : string) (local_id : NodeId) (nodes : list (NodeId * string))
    : result TransportError RpcVerifier := add_nodes nodes (verifier_new cluster_id local_id).

Definition node_id_from_peer_id (peer_id : string) : NodeId :=
  let id := from_be_bytes (String.substring 0 8 (sha256 peer_id)) in
  if (id =? 0)%N then 1%N else id.
End transport.

(** ** Properties *)

Section transport_props.
Context `{CL : CryptoLaws, JE : Codec Json RaftRpcEnvelope, JR : Codec Json RaftRpcReply}.
Context {Body : Type} `{CB : Codec Cbor Body}.

Lemma check_signature_Ok {E} key message sig (e : E) u :
  check_signature key message sig e = Ok u ↔ String.length sig = 64 ∧ ed_verify key message sig = true.
Proof.
  unfold check_signature. case_bool_decide as Hl; simpl.
  - split; [done|]. by intros [? _].
  - assert (String.length sig = 64) by (by destruct (decide (String.length sig = 64))).
    destruct u, (ed_verify key message sig); simpl; naive_solver.
Qed.

(** What [sign_b64] produced is accepted under the signer's public key. *)
Lemma sign_b64_checks {E} k message (e : E) : String.length (ik_signing_key k) = 32 →
  ∃ sig, b64url_decode (sign_b64 k message) = Some sig
    ∧ check_signature (ed_public (ik_signing_key k)) message sig e = Ok ().
Proof.
  intros Hl. exists (ed_sign (ik_signing_key k) message). unfold sign_b64. rewrite b64url_round_trip.
  split; [done|]. apply check_signature_Ok. by rewrite ed_sign_length, ed_verify_sign.
Qed.

Lemma parse_verifying_key_public seed : String.length seed = 32 →
  parse_verifying_key (ik_public_key_b64 (identity_from_seed seed)) = Ok (ed_public seed).
Proof.
  intros Hl. unfold parse_verifying_key. simpl. rewrite b64_round_trip.
  rewrite bool_decide_eq_false_2 by (rewrite ed_public_length; auto). by rewrite ed_public_ok.
Qed.

(** The signed input of a request determines sender, receiver and body, and the
    cluster when it has no NUL. *)
Lemma request_input_inj c f t b c' f' t' b' :
  (f ≤ u64_max)%N → (t ≤ u64_max)%N → (f' ≤ u64_max)%N → (t' ≤ u64_max)%N →
  c = c' ∨ (str_has "000" c = false ∧ str_has "000" c' = false) →
  request_input c f t b = request_input c' f' t' b' → c = c' ∧ f = f' ∧ t = t' ∧ b = b'.
Proof.
  intros Hf Ht Hf' Ht' Hc Heq. unfold request_input in Heq.
  apply string_app_inj_len in Heq as [_ Heq]; [|done]. apply string_app_inj_len in Heq as [_ Heq]; [|done].
  assert (c = c' ∧ to_be_bytes 8 f +:+ nul +:+ to_be_bytes 8 t +:+ nul +:+ b
    = to_be_bytes 8 f' +:+ nul +:+ to_be_bytes 8 t' +:+ nul +:+ b') as [-> Heq'].
  { destruct Hc as [->|[H1 H2]].
    - split; [done|]. apply string_app_inj_len in Heq as [_ Heq]; [|done].
      by apply string_app_inj_len in Heq as [_ ?].
    - unfold nul at 1 4 in Heq. rewrite !string_app_cons in Heq.
      apply (string_app_sep_inj "000") in Heq as [-> Heq]; [|done..]. by rewrite !string_app_nil_l in Heq. }
  apply string_app_inj_len in Heq' as [Hff Heq']; [|by rewrite !to_be_bytes_length].
  apply to_be_bytes8_inj in Hff; [|done..]. apply string_app_inj_len in Heq' as [_ Heq']; [|done].
  apply string_app_inj_len in Heq' as [Htt Heq']; [|by rewrite !to_be_bytes_length].
  apply to_be_bytes8_inj in Htt; [|done..]. apply string_app_inj_len in Heq' as [_ Heq']; [|done].
  done.
Qed.

(** A request sent by a cluster member is accepted by the member it is addressed
    to, and yields its sender and body: encoding with the sender's identity key,
    transporting the JSON and verifying against the table of member keys is the
    identity. *)
Theorem request_round_trip `{!CodecLaws Json RaftRpcEnvelope, !CodecLaws Cbor Body}
    seed v from (body : Body) bytes :
  String.length seed = 32 → rv_keys v !! from = Some (ed_public seed) →
  encode_request (identity_from_seed seed) (rv_cluster_id v) from (rv_local_id v) body = Ok bytes →
  ∃ envelope, decode_from Json bytes = Ok envelope ∧ verify_request v envelope = Ok (from, body).
Proof.
  intros Hl Hkey (bb & Hb%map_err_Ok & He%map_err_Ok)%bind_Ok.
  eexists. split; [by apply codec_round_trip|]. unfold verify_request. cbn [re_op re_cluster_id re_from re_to re_body re_signature].
  rewrite !bool_decide_eq_false_2 by auto. rewrite Hkey, b64url_round_trip. simpl.
  destruct (sign_b64_checks (identity_from_seed seed)
    (request_input (rv_cluster_id v) from (rv_local_id v) bb) TrBadSignature Hl) as (sig & -> & Hs).
  simpl in *. rewrite Hs. simpl. unfold body_decode. by rewrite (codec_round_trip _ _ Hb).
Qed.

(** An accepted request is authentic.  When [verify_request] returns a sender and
    a body, the envelope names this cluster and this node, the sender is a member,
    and that member's key verifies the signature over an input that determines the
    cluster, the sender, the receiver and the body bytes (no other request has the
    same signed input). *)
Theorem accepted_request_authentic v e from (body : Body) :
  (re_from e ≤ u64_max)%N → (re_to e ≤ u64_max)%N →
  verify_request v e = Ok (from, body) →
  re_cluster_id e = rv_cluster_id v ∧ re_to e = rv_local_id v ∧ re_from e = from
  ∧ ∃ key bb sig, rv_keys v !! from = Some key
      ∧ ed_verify key (request_input (rv_cluster_id v) from (rv_local_id v) bb) sig = true
      ∧ body_decode bb = Ok body
      ∧ ∀ f' t' b', (f' ≤ u64_max)%N → (t' ≤ u64_max)%N →
          request_input (rv_cluster_id v) f' t' b'
            = request_input (rv_cluster_id v) from (rv_local_id v) bb →
          f' = from ∧ t' = rv_local_id v ∧ b' = bb.
Proof.
  intros Hf Ht. unfold verify_request. case_bool_decide; [done|]. case_bool_decide as Hc; [done|].
  case_bool_decide as Hto; [done|].
  assert (re_cluster_id e = rv_cluster_id v) as Hc' by (by destruct (decide (re_cluster_id e = rv_cluster_id v))).
  assert (re_to e = rv_local_id v) as Hto' by (by destruct (decide (re_to e = rv_local_id v))).
  intros (key & Hk%ok_or_Ok & (bb & Hbb%ok_or_Ok & (sig & Hsig%ok_or_Ok & (u & Hchk & (b & Hb%map_err_Ok & Hres)%bind_Ok)%bind_Ok)%bind_Ok)%bind_Ok)%bind_Ok.
  simplify_eq/=. apply check_signature_Ok in Hchk as [_ Hv]. split_and!; [done..|].
  rewrite Hc', Hto' in Hv. exists key, bb, sig. split_and!; [done..|].
  intros f' t' b' Hf' Ht' Heq. rewrite Hto' in Ht.
  apply request_input_inj in Heq as (_ & ? & ? & ?); auto.
Qed.

(** A signed reply does not fix where its body ends.  The signed input joins
    body and error with a NUL, and bodies are arbitrary bytes: whenever a member's
    signature verifies a successful reply with body [x NUL y] and no error, the
    reply with the shorter body [x] and the error text [y NUL] verifies under the
    same signature, and is accepted with the truncated body. *)
Theorem reply_body_can_be_truncated v from (r : RaftRpcReply) x y :
  rr_body r = b64url_encode (x +:+ nul +:+ y) → rr_error r = "" →
  verify_reply v from r = Ok (x +:+ nul +:+ y) →
  verify_reply v from
    (MkRaftRpcReply (rr_op r) (rr_cluster_id r) (rr_from r) (rr_to r) (rr_ok r)
       (b64url_encode x) (y +:+ nul) (rr_signature r)) = Ok x.
Proof.
  intros Hbody Herr. unfold verify_reply. rewrite Hbody, Herr.
  cbn [rr_op rr_cluster_id rr_from rr_to rr_ok rr_body rr_error rr_signature].
  do 4 (case_bool_decide; [done|]). rewrite !b64url_round_trip.
  destruct (rv_keys v !! from) as [key|]; simpl; [|done].
  destruct (b64url_decode (rr_signature r)) as [sig|]; simpl; [|done].
  assert (response_input (rr_cluster_id r) (rr_from r) (rr_to r) (rr_ok r) x (y +:+ nul)
    = response_input (rr_cluster_id r) (rr_from r) (rr_to r) (rr_ok r) (x +:+ nul +:+ y) "") as ->.
  { unfold response_input. by rewrite !string_app_assoc, string_app_nil_r. }
  destruct (check_signature key _ sig TrBadSignature); simpl; [|done]. by destruct (rr_ok r).
Qed.

(** A reply from the addressed member is accepted and yields exactly its body
    when it reports success, and its error text when it reports failure. *)
Theorem reply_round_trip `{!CodecLaws Json RaftRpcReply} seed v from ok body error bytes :
  String.length seed = 32 → rv_keys v !! from = Some (ed_public seed) →
  encode_reply (identity_from_seed seed) (rv_cluster_id v) from (rv_local_id v) ok body error = Ok bytes →
  ∃ reply, decode_from Json bytes = Ok reply
    ∧ verify_reply v from reply = if ok then Ok body else Err (TrDecode error).
Proof.
  intros Hl Hkey He%map_err_Ok. eexists. split; [by apply codec_round_trip|].
  unfold verify_reply. cbn [rr_op rr_cluster_id rr_from rr_to rr_ok rr_body rr_error rr_signature].
  rewrite !bool_decide_eq_false_2 by auto. rewrite Hkey, b64url_round_trip. simpl.
  destruct (sign_b64_checks (identity_from_seed seed)
    (response_input (rv_cluster_id v) from (rv_local_id v) ok body error) TrBadSignature Hl) as (sig & -> & Hs).
  simpl in *. rewrite Hs. by destruct ok.
Qed.
End transport_props.

(** ** Examples *)

Section transport_examples.
Import Toy.

Definition ex_id : IdentityKey := identity_from_seed (pad 32 "node1").
Definition ex_verifier : RpcVerifier := MkRpcVerifier "c" 2 {[1%N := ed_public (pad 32 "node1")]}.

Lemma request_round_trip_witness :
  ∃ bytes envelope, encode_request ex_id "c" 1 2 "vote" = Ok bytes
    ∧ decode_from Json bytes = Ok envelope ∧ verify_request ex_verifier envelope = Ok (1%N, "vote").
Proof.
  destruct (encode_request ex_id "c" 1 2 "vote") as [bytes|] eqn:E; [|vm_compute in E; discriminate].
  destruct (request_round_trip (pad 32 "node1") ex_verifier 1 "vote" bytes) as (envelope & Hd & Hv);
    [reflexivity|reflexivity|exact E|].
  exists bytes, envelope. split_and!; [reflexivity|exact Hd|exact Hv].
Defined.

Definition ex_envelope : RaftRpcEnvelope :=
  MkRaftRpcEnvelope RAFT_RPC_OP "c" 1 2 (b64url_encode "0")
    (sign_b64 ex_id (request_input "c" 1 2 "0")).

Lemma accepted_request_authentic_witness :
  ∃ body : positive, verify_request ex_verifier ex_envelope = Ok (1%N, body)
    ∧ ∃ key, rv_keys ex_verifier !! 1%N = Some key.
Proof.
  destruct (verify_request (Body := positive) ex_verifier ex_envelope) as [[from body]|] eqn:E;
    [|vm_compute in E; discriminate].
  destruct (accepted_request_authentic ex_verifier ex_envelope from body) as (_ & _ & Hf & key & bb & sig & Hk & _);
    [vm_compute; discriminate|vm_compute; discriminate|exact E|].
  simpl in Hf. subst from. exists body. split; [reflexivity|]. exists key. exact Hk.
Defined.

Definition ex_reply : RaftRpcReply :=
  MkRaftRpcReply RAFT_RPC_OP "c" 1 2 true (b64url_encode ("ab" +:+ nul +:+ "c")) ""
    (sign_b64 ex_id (response_input "c" 1 2 true ("ab" +:+ nul +:+ "c") "")).

Lemma reply_body_can_be_truncated_witness :
  verify_reply ex_verifier 1
    (MkRaftRpcReply RAFT_RPC_OP "c" 1 2 true (b64url_encode "ab") ("c" +:+ nul) (rr_signature ex_reply)) = Ok "ab".
Proof.
  apply (reply_body_can_be_truncated ex_verifier 1 ex_reply "ab" "c"); [reflexivity|reflexivity|].
  vm_compute. reflexivity.
Defined.

Lemma reply_round_trip_witness :
  ∃ bytes reply, encode_reply ex_id "c" 1 2 true "body" "" = Ok bytes
    ∧ decode_from Json bytes = Ok reply ∧ verify_reply ex_verifier 1 reply = Ok "body".
Proof.
  destruct (encode_reply ex_id "c" 1 2 true "body" "") as [bytes|] eqn:E; [|vm_compute in E; discriminate].
  destruct (reply_round_trip (pad 32 "node1") ex_verifier 1 true "body" "" bytes) as (reply & Hd & Hv);
    [reflexivity|reflexivity|exact E|].
  exists bytes, reply. split_and!; [reflexivity|exact Hd|exact Hv].
Defined.
End transport_examples.
