(* ===== verification/AdminV2.v ===== *)
(** * Signed administrator requests: [src/src/admin_v2.rs]

    Requests are signed with an administrator's Ed25519 key over the CBOR of their
    fields, checked for freshness and replay, and identified by a hash of what they
    ask for (not of the nonce and the time). *)
From S2P Require Import Prelude Fsutil Crypto Authority Replay Types StateMachine Transport.

Definition ADMIN_REQUEST_VERSION : N := 2.
Definition ADMIN_MAX_TS_SKEW_SECS : N := 300.
Definition ADMIN_MAX_NONCE_LEN : N := 64.
Definition ADMIN_MAX_REQUEST_ID_LEN : N := 128.
Definition FORWARDED_ADMIN_VERSION : N := 1.
Definition FORWARDED_ADMIN_OP : string := "forwarded_admin".

Inductive AdminRole := Viewer | Root.
Global Instance AdminRole_eq_dec : EqDecision AdminRole.
Proof. solve_decision. Defined.

Definition AdminRole_parse (value : string) : option AdminRole :=
  if bool_decide (value = "viewer") then Some Viewer
  else if bool_decide (value = "root") then Some Root else None.

Record AdminMemberSpec := MkAdminMemberSpec {
  ms_node_id : N; ms_peer_id : string; ms_identity_key : string; ms_x25519_key : string
}.
Record AdminJoinTokenSpec := MkAdminJoinTokenSpec {
  js_jti : string; js_audience : string; js_expires_at : N; js_max_uses : N; js_bind_peer_id : string;
  js_sig : string
}.
Record AdminRequestV2 := MkAdminRequestV2 {
  aq_v : N; aq_op : string; aq_service : string; aq_peers : list string; aq_kid : string;
  aq_request_id : string; aq_nonce : string; aq_ts : N; aq_sig : string;
  aq_member : option AdminMemberSpec; aq_join_token : option AdminJoinTokenSpec;
}.

Global Instance AdminMemberSpec_eq_dec : EqDecision AdminMemberSpec.
Proof. solve_decision. Defined.
Global Instance AdminMemberSpec_countable : Countable AdminMemberSpec.
Proof.
  refine (inj_countable' (λ m, (ms_node_id m, ms_peer_id m, ms_identity_key m, ms_x25519_key m))
    (λ '(a, b, c, d), MkAdminMemberSpec a b c d) _). by intros [].
Defined.
Global Instance AdminJoinTokenSpec_eq_dec : EqDecision AdminJoinTokenSpec.
Proof. solve_decision. Defined.
Global Instance AdminJoinTokenSpec_countable : Countable AdminJoinTokenSpec.
Proof.
  refine (inj_countable' (λ m, (js_jti m, js_audience m, js_expires_at m, js_max_uses m, js_bind_peer_id m, js_sig m))
    (λ '(a, b, c, d, e, f), MkAdminJoinTokenSpec a b c d e f) _). by intros [].
Defined.
Global Instance AdminRequestV2_eq_dec : EqDecision AdminRequestV2.
Proof. solve_decision. Defined.

(** What is hashed for idempotence: the identity of a request.  The two shapes are
    the structs with and without the member and token fields. *)
Inductive AdminIdentity :=
  | Identity (v : N) (op service : string) (peers : list string) (kid request_id : string)
  | IdentityExtended (v : N) (op service : string) (peers : list string) (kid request_id : string)
      (member : option AdminMemberSpec) (join_token : option AdminJoinTokenSpec).
Global Instance AdminIdentity_eq_dec : EqDecision AdminIdentity.
Proof. solve_decision. Defined.
Global Instance AdminIdentity_countable : Countable AdminIdentity.
Proof.
  refine (inj_countable' (λ i, match i with
      | Identity a b c d e f => inl (a, b, c, d, e, f)
      | IdentityExtended a b c d e f g h => inr (a, b, c, d, e, f, (g, h)) end)
    (λ x, match x with
      | inl (a, b, c, d, e, f) => Identity a b c d e f
      | inr (a, b, c, d, e, f, (g, h)) => IdentityExtended a b c d e f g h end) _).
  by intros [].
Defined.

(** What is signed: the identity with the nonce and the time. *)
Inductive AdminSigned :=
  | Signed (v : N) (op service : string) (peers : list string) (kid request_id nonce : string) (ts : N)
  | SignedExtended (v : N) (op service : string) (peers : list string) (kid request_id nonce : string) (ts : N)
      (member : option AdminMemberSpec) (join_token : option AdminJoinTokenSpec).
Global Instance AdminSigned_eq_dec : EqDecision AdminSigned.
Proof. solve_decision. Defined.
Global Instance AdminSigned_countable : Countable AdminSigned.
Proof.
  refine (inj_countable' (λ i, match i with
      | Signed a b c d e f n t => inl (a, b, c, d, e, f, (n, t))
      | SignedExtended a b c d e f n t g h => inr (a, b, c, d, e, f, (n, t, g, h)) end)
    (λ x, match x with
      | inl (a, b, c, d, e, f, (n, t)) => Signed a b c d e f n t
      | inr (a, b, c, d, e, f, (n, t, g, h)) => SignedExtended a b c d e f n t g h end) _).
  by intros [].
Defined.

Inductive AdminV2Error :=
  | AvBadRequest (m : string)
  | AvUnknownKey
  | AvBadSignature
  | AvExpiredTimestamp
  | AvReplay
  | AvConfig (m : string).
Global Instance AdminV2Error_eq_dec : EqDecision AdminV2Error.
Proof. solve_decision. Defined.

Definition admin_v2_code (e : AdminV2Error) : string :=
  match e with
  | AvBadRequest _ => "bad_request"
  | AvUnknownKey => "unknown_admin_key"
  | AvBadSignature => "bad_signature"
  | AvExpiredTimestamp => "expired_timestamp"
  | AvReplay => "replay"
  | AvConfig _ => "admin_config_invalid"
  end.

Definition admin_v2_text (e : AdminV2Error) : string :=
  match e with
  | AvBadRequest m => "bad admin request: " +:+ m
  | AvUnknownKey => "unknown admin key"
  | AvBadSignature => "invalid admin signature"
  | AvExpiredTimestamp => "admin timestamp out of range"
  | AvReplay => "admin nonce replayed"
  | AvConfig m => "invalid admin key config: " +:+ m
  end.

Record VerifiedAdmin := MkVerifiedAdmin {
  va_kid : string; va_role : AdminRole; va_request_hash : string; va_signed_bytes : string
}.

(** [[admin.keys]] of the configuration. *)
Record AdminKeyConfig := MkAdminKeyConfig { ak_kid : string; ak_public_key : string; ak_role : string }.

(** The keys; the replay guard is behind a mutex in the code. *)
Record AdminVerifier := MkAdminVerifier {
  av_keys : gmap string (string * AdminRole); av_guard : ReplayGuard
}.
Definition AdminVerifier_default : AdminVerifier := MkAdminVerifier ∅ ReplayGuard_default.

Record ForwardedAdminEnvelope := MkForwardedAdminEnvelope {
  fw_op : string; fw_v : N; fw_request_b64 : string; fw_edge_peer : string; fw_edge_sig : string
}.

Record RaftStatusMember := MkRaftStatusMember { sb_node_id : N; sb_peer_id : string; sb_voter : bool }.
Record RaftStatusSnapshot := MkRaftStatusSnapshot {
  ss_cluster_id : string; ss_node_id : N; ss_leader : option string; ss_term : N; ss_state : string;
  ss_applied_index : option N; ss_last_log_index : option N;
  ss_voters : list RaftStatusMember; ss_learners : list RaftStatusMember; ss_stale : bool;
}.
Definition health (s : RaftStatusSnapshot) : string :=
  match ss_leader s with
  | None => "no_leader"
  | Some _ => if ss_stale s then "stale" else "ok"
  end.

(** De-duplicates and sorts. *)
Definition canonical_peers (peers : list string) : list string := btree_set (list_to_set peers : gset string).

Section admin_v2.
Context `{Crypto, Codec Cbor AdminSigned, Codec Cbor AdminIdentity}.

Definition cbor_failed (e : string) : AdminV2Error := AvBadRequest ("CBOR encode failed: " +:+ e).

Definition signed_of (req : AdminRequestV2) : AdminSigned :=
  let peers := canonical_peers (aq_peers req) in
  match aq_member req, aq_join_token req with
  | None, None =>
      Signed (aq_v req) (aq_op req) (aq_service req) peers (aq_kid req) (aq_request_id req)
        (aq_nonce req) (aq_ts req)
  | m, j =>
      SignedExtended (aq_v req) (aq_op req) (aq_service req) peers (aq_kid req) (aq_request_id req)
        (aq_nonce req) (aq_ts req) m j
  end.
Definition identity_of (req : AdminRequestV2) : AdminIdentity :=
  let peers := canonical_peers (aq_peers req) in
  match aq_member req, aq_join_token req with
  | None, None => Identity (aq_v req) (aq_op req) (aq_service req) peers (aq_kid req) (aq_request_id req)
  | m, j =>
      IdentityExtended (aq_v req) (aq_op req) (aq_service req) peers (aq_kid req) (aq_request_id req) m j
  end.

Definition signing_bytes (req : AdminRequestV2) : result AdminV2Error string :=
  map_err cbor_failed (encode_to Cbor (signed_of req)).

Definition request_hash (req : AdminRequestV2) : result AdminV2Error string :=
  buf ← map_err cbor_failed (encode_to Cbor (identity_of req));
  Ok (b64url_encode (sha256 buf)).

Definition sign_request (signing_key : string) (req : AdminRequestV2) : result AdminV2Error AdminRequestV2 :=
  bytes ← signing_bytes req;
  Ok (MkAdminRequestV2 (aq_v req) (aq_op req) (aq_service req) (aq_peers req) (aq_kid req) (aq_request_id req)
        (aq_nonce req) (aq_ts req) (b64url_encode (ed_sign signing_key bytes)) (aq_member req) (aq_join_token req)).

Fixpoint load_keys (keys : list AdminKeyConfig) (map : gmap string (string * AdminRole)) (has_root : bool)
    : result AdminV2Error (gmap string (string * AdminRole) * bool) :=
  match keys with
  | [] => Ok (map, has_root)
  | entry :: keys =>
      let kid := ak_kid entry in
      if trim_is_empty kid then Err (AvConfig "kid must not be empty")
      else if bool_decide (is_Some (map !! kid)) then Err (AvConfig ("duplicate kid: " +:+ kid))
      else
        role ← ok_or (AdminRole_parse (ak_role entry))
          (AvConfig ("kid " +:+ kid +:+ " has invalid role: " +:+ ak_role entry));
        raw ← ok_or (b64_decode (ak_public_key entry))
          (AvConfig ("kid " +:+ kid +:+ " has invalid base64 public_key"));
        if bool_decide (String.length raw ≠ 32) then
          Err (AvConfig ("kid " +:+ kid +:+ " public_key must be 32 bytes"))
        else if negb (ed_key_ok raw) then
          Err (AvConfig ("kid " +:+ kid +:+ " has invalid Ed25519 public_key"))
        else load_keys keys (<[kid := (raw, role)]> map) (has_root || bool_decide (role = Root))
  end.

Definition from_config (keys : list AdminKeyConfig) (require_root : bool) : result AdminV2Error AdminVerifier :=
  mr ← load_keys keys ∅ false;
  if require_root && negb mr.2 then Err (AvConfig "cluster mode requires at least one root key")
  else Ok (MkAdminVerifier mr.1 ReplayGuard_default).

(** The checks before the replay guard is touched: the key's role and the signed
    bytes. *)
Definition verify_static (keys : gmap string (string * AdminRole)) (req : AdminRequestV2) (now : N)
    : result AdminV2Error (AdminRole * string) :=
  if negb (aq_v req =? ADMIN_REQUEST_VERSION)%N then
    Err (AvBadRequest ("unsupported admin request version: " +:+ pretty (aq_v req)))
  else if trim_is_empty (aq_kid req) then Err (AvBadRequest "missing kid")
  else if trim_is_empty (aq_request_id req) then Err (AvBadRequest "missing request_id")
  else if (ADMIN_MAX_REQUEST_ID_LEN <? str_len (aq_request_id req))%N then Err (AvBadRequest "request_id too long")
  else if str_is_empty (aq_nonce req) then Err (AvBadRequest "missing nonce")
  else if (ADMIN_MAX_NONCE_LEN <? str_len (aq_nonce req))%N then Err (AvBadRequest "nonce too long")
  else
    kr ← ok_or (keys !! aq_kid req) AvUnknownKey;
    signed_bytes ← signing_bytes req;
    sig_bytes ← ok_or (b64url_decode (aq_sig req)) AvBadSignature;
    check_signature kr.1 signed_bytes sig_bytes AvBadSignature ;;
    if (ADMIN_MAX_TS_SKEW_SECS <? abs_diff now (aq_ts req))%N then Err AvExpiredTimestamp
    else Ok (kr.2, signed_bytes).

Definition admin_verify (req : AdminRequestV2) (now : N) : ST AdminVerifier AdminV2Error VerifiedAdmin := λ v,
  match verify_static (av_keys v) req now with
  | Err e => (Err e, v)
  | Ok (role, signed_bytes) =>
      let '(r, guard) := check_and_insert (aq_nonce req) (av_guard v) in
      let v := MkAdminVerifier (av_keys v) guard in
      match r with
      | Err ReplayEmpty => (Err (AvBadRequest "missing nonce"), v)
      | Err ReplaySeen => (Err AvReplay, v)
      | Ok _ =>
          match request_hash req with
          | Err e => (Err e, v)
          | Ok h => (Ok (MkVerifiedAdmin (aq_kid req) role h signed_bytes), v)
          end
      end
  end.

Definition verify_signature (v : AdminVerifier) (kid message signature_b64 : string)
    : result AdminV2Error AdminRole :=
  kr ← ok_or (av_keys v !! kid) AvUnknownKey;
  sig_bytes ← ok_or (b64url_decode signature_b64) AvBadSignature;
  check_signature kr.1 message sig_bytes AvBadSignature ;;
  Ok kr.2.
End admin_v2.

(** The Raft view of the administration, an interface the runtime implements. *)
Record AdminProposal := MkAdminProposal { ap_result : PolicyResult; ap_raft_index : N }.

(** ** Properties *)

Section admin_v2_props.
Context `{CR : Crypto, CS : Codec Cbor AdminSigned, CI : Codec Cbor AdminIdentity}.

Lemma verify_static_Ok keys req now role bytes : verify_static keys req now = Ok (role, bytes) →
  aq_v req = ADMIN_REQUEST_VERSION ∧ aq_nonce req ≠ ""
  ∧ (abs_diff now (aq_ts req) ≤ ADMIN_MAX_TS_SKEW_SECS)%N
  ∧ ∃ key sig, keys !! aq_kid req = Some (key, role) ∧ signing_bytes req = Ok bytes
      ∧ b64url_decode (aq_sig req) = Some sig ∧ ed_verify key bytes sig = true.
Proof.
  unfold verify_static. repeat (case_match; [done|]). bool_tests.
  intros ([key r] & Hk%ok_or_Ok & (sb & Hb & (sig & Hs%ok_or_Ok & (u & Hc & Hres)%bind_Ok)%bind_Ok)%bind_Ok)%bind_Ok.
  simpl in *. destruct (N.ltb_spec ADMIN_MAX_TS_SKEW_SECS (abs_diff now (aq_ts req))); [done|].
  injection Hres as -> ->. apply check_signature_Ok in Hc as [_ Hc].
  split_and!; [done..|]. exists key, sig. done.
Qed.


Lemma verify_static_complete keys req now role key bytes sig :
  keys !! aq_kid req = Some (key, role) →
  aq_v req = ADMIN_REQUEST_VERSION → trim_is_empty (aq_kid req) = false →
  trim_is_empty (aq_request_id req) = false → (str_len (aq_request_id req) ≤ ADMIN_MAX_REQUEST_ID_LEN)%N →
  aq_nonce req ≠ "" → (str_len (aq_nonce req) ≤ ADMIN_MAX_NONCE_LEN)%N →
  (now ≤ aq_ts req + ADMIN_MAX_TS_SKEW_SECS ∧ aq_ts req ≤ now + ADMIN_MAX_TS_SKEW_SECS)%N →
  signing_bytes req = Ok bytes → b64url_decode (aq_sig req) = Some sig →
  String.length sig = 64 → ed_verify key bytes sig = true →
  verify_static keys req now = Ok (role, bytes).
Proof.
  intros Hk Hv Hkid Hid Hidl Hn Hnl Hts Hb Hs Hlen Hver. unfold verify_static.
  rewrite Hv, N.eqb_refl, Hkid, Hid. cbn [negb].
  rewrite (proj2 (N.ltb_ge _ _)) by done. rewrite (proj2 (str_is_empty_false _)) by done.
  rewrite (proj2 (N.ltb_ge _ _)) by done. rewrite Hk. cbn [ok_or mbind result_bind]. rewrite Hb.
  cbn [ok_or mbind result_bind]. rewrite Hs. cbn [ok_or mbind result_bind fst snd].
  rewrite (proj2 (check_signature_Ok _ _ _ _ ())) by done.
  cbn [mbind result_bind]. by rewrite (proj2 (N.ltb_ge _ _)) by (by apply abs_diff_le).
Qed.

(** A request signed with a configured key is accepted with that key's role, if
    its fields are well formed, its time is within five minutes and its nonce is
    not in the replay window. *)
Theorem signed_admin_request_accepted `{!CryptoLaws} seed req req' role now v h :
  guard_ok (av_guard v) → String.length seed = 32 →
  sign_request seed req = Ok req' → av_keys v !! aq_kid req = Some (ed_public seed, role) →
  aq_v req = ADMIN_REQUEST_VERSION → trim_is_empty (aq_kid req) = false →
  trim_is_empty (aq_request_id req) = false → (str_len (aq_request_id req) ≤ 128)%N →
  aq_nonce req ≠ "" → (str_len (aq_nonce req) ≤ 64)%N →
  (now ≤ aq_ts req + 300 ∧ aq_ts req ≤ now + 300)%N → aq_nonce req ∉ rg_order (av_guard v) →
  request_hash req = Ok h →
  ∃ va v', admin_verify req' now v = (Ok va, v') ∧ va_role va = role ∧ va_request_hash va = h.
Proof.
  intros Hg Hl (bytes & Hb & [= <-])%bind_Ok Hk Hv Hkid Hid Hidl Hn Hnl Hts Hin Hh.
  unfold admin_verify. erewrite verify_static_complete;
    [|done..|exact Hb|apply b64url_round_trip|by rewrite ed_sign_length|by rewrite ed_verify_sign].
  cbn [aq_nonce]. rewrite check_and_insert_spec by done. rewrite (proj2 (str_is_empty_false _)) by done.
  rewrite bool_decide_eq_false_2 by done.
  change (request_hash (MkAdminRequestV2 _ _ _ _ _ _ _ _ _ _ _)) with (request_hash req). rewrite Hh.
  eexists _, _. done.
Qed.

Lemma canonical_peers_eq l k :
  canonical_peers l = canonical_peers k ↔ (list_to_set l : gset string) = list_to_set k.
Proof. unfold canonical_peers. split; [apply ord_elements_inj|by intros ->]. Qed.

(** The request hash identifies what is asked.  Two requests that ask for the
    same (whatever their nonce, time, signature, and the order and repetitions of
    the peers) have the same hash; and unless SHA-256 collides on the two encoded
    identities, requests with the same hash agree on the operation, the service,
    the set of peers, the key id, the request id, the member and the token. *)
Theorem request_hash_binds `{!CryptoLaws, !EncodeInj Cbor AdminIdentity} r1 r2 h1 h2 :
  request_hash r1 = Ok h1 → request_hash r2 = Ok h2 →
  (∀ b1 b2, encode_to Cbor (identity_of r1) = Ok b1 → encode_to Cbor (identity_of r2) = Ok b2 →
     sha256 b1 = sha256 b2 → b1 = b2) →
  h1 = h2 ↔ aq_v r1 = aq_v r2 ∧ aq_op r1 = aq_op r2 ∧ aq_service r1 = aq_service r2
    ∧ (list_to_set (aq_peers r1) : gset string) = list_to_set (aq_peers r2)
    ∧ aq_kid r1 = aq_kid r2 ∧ aq_request_id r1 = aq_request_id r2
    ∧ aq_member r1 = aq_member r2 ∧ aq_join_token r1 = aq_join_token r2.
Proof.
  intros (b1 & Hb1%map_err_Ok & [= <-])%bind_Ok (b2 & Hb2%map_err_Ok & [= <-])%bind_Ok Hnc.
  rewrite <-canonical_peers_eq. split.
  - intros Heq. apply (f_equal b64url_decode) in Heq. rewrite !b64url_round_trip in Heq. simplify_eq.
    rewrite (Hnc _ _ Hb1 Hb2 Heq) in Hb1. pose proof (encode_to_inj _ _ _ Hb1 Hb2) as Hid.
    unfold identity_of in Hid. destruct (aq_member r1), (aq_join_token r1), (aq_member r2), (aq_join_token r2);
      try discriminate Hid; injection Hid; intros; split_and!; congruence.
  - intros (Hv & Ho & Hs & Hp & Hk & Hi & Hm & Hj).
    assert (identity_of r1 = identity_of r2) as Hid
      by (unfold identity_of; by rewrite Hv, Ho, Hs, Hp, Hk, Hi, Hm, Hj).
    rewrite Hid in Hb1. congruence.
Qed.

Definition key_of (e : AdminKeyConfig) (kid : string) (kr : string * AdminRole) : Prop :=
  ak_kid e = kid ∧ AdminRole_parse (ak_role e) = Some kr.2
  ∧ b64_decode (ak_public_key e) = Some kr.1 ∧ ed_key_ok kr.1 = true.

Lemma key_of_func e kid kid' kr kr' : key_of e kid kr → key_of e kid' kr' → kid = kid' ∧ kr = kr'.
Proof. destruct kr, kr'. intros (<- & Hr & Hk & _) (<- & Hr' & Hk' & _). simpl in *. split; congruence. Qed.

Lemma load_keys_spec keys map root map' root' : load_keys keys map root = Ok (map', root') →
  (∀ kid kr, map' !! kid = Some kr ↔ map !! kid = Some kr ∨ ∃ e, e ∈ keys ∧ key_of e kid kr)
  ∧ (∀ e, e ∈ keys → map !! ak_kid e = None)
  ∧ NoDup (ak_kid <$> keys)
  ∧ (root' = true ↔ root = true ∨ ∃ e kid key, e ∈ keys ∧ key_of e kid (key, Root)).
Proof.
  revert map root. induction keys as [|e keys IH]; intros map root; cbn [load_keys].
  { intros [= <- <-]. split_and!; [set_solver|set_solver|apply NoDup_nil_2|set_solver]. }
  case_match; [done|]. case_bool_decide as Hdup; [done|]. rewrite <-eq_None_not_Some in Hdup.
  intros (role & Hrole%ok_or_Ok & (raw & Hraw%ok_or_Ok & H')%bind_Ok)%bind_Ok.
  case_bool_decide; [done|]. destruct (ed_key_ok raw) eqn:Hok; simpl in H'; [|done].
  apply IH in H' as (Hmap & Hnone & Hnd & Hroot).
  assert (∀ e', e' ∈ keys → ak_kid e' ≠ ak_kid e ∧ map !! ak_kid e' = None) as Hnew
    by (intros e' [Hl Hne]%Hnone%lookup_insert_None; done).
  assert (key_of e (ak_kid e) (raw, role)) as Hke by done.
  split_and!.
  - intros kid kr. rewrite Hmap, lookup_insert_Some. split.
    + intros [[[<- <-]|[_ ?]]|(e' & ? & ?)]; [right; exists e; set_solver|by left|right; exists e'; set_solver].
    + intros [Hin|(e' & [->|Hin]%elem_of_cons & Hk)].
      * left. right. split; [intros <-; congruence|done].
      * left. left. by apply (key_of_func e).
      * right. eauto.
  - intros e' [->|Hin]%elem_of_cons; [done|by apply Hnew].
  - rewrite fmap_cons. apply NoDup_cons. split; [|done].
    intros (e' & Heq & Hin)%list_elem_of_fmap. by apply (proj1 (Hnew _ Hin)).
  - rewrite Hroot, orb_true_iff, bool_decide_eq_true. split.
    + intros [[?| ->]|(e' & kid & key & ? & ?)]; [by left|right; exists e, (ak_kid e), raw; set_solver|].
      right. exists e', kid, key. set_solver.
    + intros [?|(e' & kid & key & [->|Hin]%elem_of_cons & Hr)]; [by left; left| |right; eauto].
      left. right. by destruct (key_of_func _ _ _ _ _ Hke Hr) as [_ [= _ ->]].
Qed.

(** The administrator keys are exactly the configured ones.  When the table is
    built, a key id has a key and a role iff some entry of the configuration has
    that id, a base64 key that is a valid Ed25519 key and that role; ids are
    distinct; the replay window is empty; and in cluster mode some entry is a
    root key. *)
Theorem from_config_exact keys require_root v :
  from_config keys require_root = Ok v →
  (∀ kid kr, av_keys v !! kid = Some kr ↔ ∃ e, e ∈ keys ∧ key_of e kid kr)
  ∧ NoDup (ak_kid <$> keys) ∧ av_guard v = ReplayGuard_default
  ∧ (require_root = true → ∃ kid key, av_keys v !! kid = Some (key, Root)).
Proof.
  intros ([map root] & Hl & Hv)%bind_Ok. simpl in Hv.
  destruct (require_root && negb root) eqn:Hr; [done|]. injection Hv as <-.
  apply load_keys_spec in Hl as (Hmap & Hnone & Hnd & Hroot).
  assert (∀ kid kr, map !! kid = Some kr ↔ ∃ e, e ∈ keys ∧ key_of e kid kr) as Hm.
  { intros kid kr. rewrite Hmap, lookup_empty. naive_solver. }
  cbn [av_keys av_guard]. split_and!; [done..|]. intros ->. destruct root; [|done].
  destruct (proj1 Hroot eq_refl) as [?|(e & kid & key & He & Hrole)]; [done|].
  exists kid, key. apply Hm. eauto.
Qed.
End admin_v2_props.

(** ** Examples *)

Section admin_v2_examples.
Import Toy.

Definition ex_admin_seed : string := pad 32 "root-key".
Definition ex_admin_keys : list AdminKeyConfig :=
  [MkAdminKeyConfig "alice" (b64_encode (ed_public ex_admin_seed)) "root";
   MkAdminKeyConfig "bob" (b64_encode (ed_public (pad 32 "viewer-key"))) "viewer"].
Definition ex_unsigned : AdminRequestV2 :=
  MkAdminRequestV2 2 "create" "svc" ["b"; "a"; "b"] "alice" "r1" "n1" 1000 "" None None.
Definition ex_admin_verifier : AdminVerifier :=
  match from_config ex_admin_keys true with Ok v => v | Err _ => AdminVerifier_default end.
Definition ex_request : AdminRequestV2 :=
  match sign_request ex_admin_seed ex_unsigned with Ok r => r | Err _ => ex_unsigned end.

Lemma from_config_exact_witness :
  from_config ex_admin_keys true = Ok ex_admin_verifier
  ∧ ∃ kid key, av_keys ex_admin_verifier !! kid = Some (key, Root).
Proof.
  assert (from_config ex_admin_keys true = Ok ex_admin_verifier) as Hv by (vm_compute; reflexivity).
  split; [exact Hv|].
  destruct (from_config_exact ex_admin_keys true ex_admin_verifier Hv) as (_ & _ & _ & Hr).
  exact (Hr eq_refl).
Defined.


Lemma signed_admin_request_accepted_witness :
  ∃ va v', admin_verify ex_request 1100 ex_admin_verifier = (Ok va, v') ∧ va_role va = Root.
Proof.
  destruct (request_hash ex_unsigned) as [h|] eqn:E; [|vm_compute in E; discriminate].
  destruct (signed_admin_request_accepted ex_admin_seed ex_unsigned ex_request Root 1100 ex_admin_verifier h)
    as (va & v' & Hv & Hr & _);
    [exact guard_ok_default|reflexivity|vm_compute; reflexivity|vm_compute; reflexivity|reflexivity|reflexivity
    |reflexivity|vm_compute; discriminate|discriminate|vm_compute; discriminate|split; vm_compute; discriminate
    |vm_compute; intros Hin; inversion Hin|exact E|].
  exists va, v'. split; [exact Hv|exact Hr].
Defined.

Lemma request_hash_binds_witness :
  let r2 := MkAdminRequestV2 2 "create" "svc" ["a"; "b"] "alice" "r1" "n2" 1001 "" None None in
  ∃ h1 h2, request_hash ex_unsigned = Ok h1 ∧ request_hash r2 = Ok h2 ∧ h1 = h2.
Proof.
  intros r2. destruct (request_hash ex_unsigned) as [h1|] eqn:E1; [|vm_compute in E1; discriminate].
  destruct (request_hash r2) as [h2|] eqn:E2; [|vm_compute in E2; discriminate].
  exists h1, h2. split_and!; [reflexivity|reflexivity|].
  apply (request_hash_binds ex_unsigned r2 h1 h2 E1 E2).
  - intros b1 b2 H1 H2 _. vm_compute in H1, H2. congruence.
  - split_and!; reflexivity.
Defined.
End admin_v2_examples.
