(* ===== verification/Config.v ===== *)
(** * Configuration: [src/src/config.rs], [src/src/paths.rs], [src/src/security.rs]

    Where the files are, what the configuration holds and how it is loaded, and the
    audit of permissions at the start.  A [PathBuf] is kept as its text, and turned
    into components where the file system is used. *)
From S2P Require Import Prelude Fsutil Crypto Authority Types AdminV2.

(** ** Paths as text *)

(** [Path::components]: an absolute path starts with the root; empty components and
    [.] are dropped, but for a leading [.]. *)
Fixpoint split_slash (s : string) : list string :=
  match s with
  | EmptyString => [""]
  | String c s =>
      let rest := split_slash s in
      if bool_decide (c = "/"%char) then "" :: rest
      else match rest with
           | [] => [String c ""]
           | w :: rest => String c w :: rest
           end
  end.
Definition path_of (s : string) : path :=
  let parts := split_slash s in
  let body := filter (λ c, c ≠ "" ∧ c ≠ ".") parts in
  match parts with
  | "" :: _ :: _ => "/" :: body
  | "." :: _ => "." :: body
  | _ => body
  end.
Definition ends_with_slash (s : string) : bool := bool_decide (last (split_slash s) = Some "").
(** [PathBuf::join] with a relative file name. *)
Definition path_join (base name : string) : string :=
  if ends_with_slash base then base +:+ name else base +:+ "/" +:+ name.

(** ** [paths.rs] *)

(** The environment: [env::var_os]. *)
Abbreviation Env := (string → option string).
Definition env_path (env : Env) (key : string) : option string :=
  match env key with
  | Some v => if str_is_empty v then None else Some v
  | None => None
  end.
(** The shape all the lookups share: an own variable, a name in the home directory,
    a default. *)
Definition resolve (env : Env) (key name fallback : string) : string :=
  match env_path env key with
  | Some p => p
  | None => match env_path env "NEXUSAUTH_HOME" with Some home => path_join home name | None => fallback end
  end.

Definition config_path (env : Env) : string := resolve env "NEXUSAUTH_CONFIG" "config.toml" "./config.toml".
Definition log_path (env : Env) : string :=
  match env_path env "NEXUSAUTH_LOG_PATH" with
  | Some p => p
  | None => match env_path env "NEXUSAUTH_HOME" with Some home => home | None => "./" end
  end.
Definition authority_key_path (env : Env) : string :=
  resolve env "NEXUSAUTH_AUTHORITY_KEY" "authority.key" "./authority.key".
Definition state_path (env : Env) : string := resolve env "NEXUSAUTH_STATE" "auth_state.toml" "./auth_state.toml".
Definition raft_identity_key_path (env : Env) : string :=
  resolve env "NEXUSAUTH_RAFT_IDENTITY" "raft_identity.key" "./raft_identity.key".
Definition raft_seed_exchange_key_path (env : Env) : string :=
  resolve env "NEXUSAUTH_RAFT_SEED_KEY" "raft_seed_exchange.key" "./raft_seed_exchange.key".
Definition raft_data_path (env : Env) : string := resolve env "NEXUSAUTH_RAFT_DATA" "raft.redb" "./raft.redb".

(** ** The configuration *)

Record ClusterMemberConfig := MkClusterMemberConfig { cm_peer_id : string; cm_identity_key : string }.
Record ClusterConfig := MkClusterConfig {
  cl_enabled : bool; cl_cluster_id : string; cl_bootstrap : bool; cl_identity_key_path : string;
  cl_data_path : string; cl_seed_exchange_key_path : string; cl_join_token : string; cl_join_token_path : string;
  cl_heartbeat_interval_ms : N; cl_election_timeout_min_ms : N; cl_election_timeout_max_ms : N;
  cl_voters : list ClusterMemberConfig; cl_learners : list ClusterMemberConfig;
}.
Record ServiceConfig := MkServiceConfig {
  cf_service : string; cf_port : N; cf_network : string; cf_authority_key_path : string; cf_state_path : string;
  cf_expires_secs : N; cf_renew_secs : N; cf_management_password : string; cf_services : gmap string (list string);
  cf_join_mode : string; cf_join_timeout_secs : N; cf_join_retry_secs : N; cf_allow_join : bool;
  cf_cluster : ClusterConfig; cf_admin_keys : list AdminKeyConfig;
}.

Definition default_port : N := 5100.
Definition default_expires_secs : N := 3600.
Definition default_renew_secs : N := 1200.
Definition default_service : string := "auth".
Definition default_join_mode : string := "require".
Definition default_join_timeout_secs : N := 30.
Definition default_join_retry_secs : N := 5.
Definition default_allow_join : bool := false.
Definition default_cluster_id : string := "nexusauth".
Definition default_heartbeat_interval_ms : N := 500.
Definition default_election_timeout_min_ms : N := 1500.
Definition default_election_timeout_max_ms : N := 3000.

Definition ClusterConfig_default (env : Env) : ClusterConfig :=
  MkClusterConfig false default_cluster_id false (raft_identity_key_path env) (raft_data_path env)
    (raft_seed_exchange_key_path env) "" "" default_heartbeat_interval_ms default_election_timeout_min_ms
    default_election_timeout_max_ms [] [].
Definition ServiceConfig_default (env : Env) : ServiceConfig :=
  MkServiceConfig default_service default_port "" (authority_key_path env) (state_path env) default_expires_secs
    default_renew_secs "" ∅ default_join_mode default_join_timeout_secs default_join_retry_secs default_allow_join
    (ClusterConfig_default env) [].

(** ** Removed fields *)

(** [toml::Value]. *)
Inductive toml :=
  | TString (s : string) | TInteger (n : Z) | TFloat (text : string) | TBoolean (b : bool) | TDatetime (text : string)
  | TArray (l : list toml) | TTable (fields : list (string * toml)).
Definition toml_get (key : string) (v : toml) : option toml :=
  match v with
  | TTable fields => (λ x, x.2.2) <$> list_find (λ f, f.1 = key) fields
  | _ => None
  end.
Definition as_array (v : toml) : option (list toml) := match v with TArray l => Some l | _ => None end.
Definition has_field (key : string) (v : toml) : bool := bool_decide (is_Some (toml_get key v)).

Definition legacy_field_error (field : string) : string :=
  "旧配置字段 " +:+ field +:+ " 已删除；请迁移到顶层 service / 删除 node_id".
Definition legacy_member_error (table : string) (index : nat) : string :=
  "配置字段 [[cluster." +:+ table +:+ "]].node_id 已删除；请迁移到顶层 service / 删除 node_id（第 "
  +:+ pretty (S index) +:+ " 项）".
Fixpoint check_members (table : string) (index : nat) (members : list toml) : result string unit :=
  match members with
  | [] => Ok ()
  | m :: members =>
      if has_field "node_id" m then Err (legacy_member_error table index) else check_members table (S index) members
  end.
Fixpoint check_tables (cluster : toml) (tables : list string) : result string unit :=
  match tables with
  | [] => Ok ()
  | table :: tables =>
      match toml_get table cluster ≫= as_array with
      | None => check_tables cluster tables
      | Some members => check_members table 0 members ;; check_tables cluster tables
      end
  end.

Section config.
Context `{CV : Codec Toml toml, CF : Codec Toml ServiceConfig}.

(** A text that is no TOML is left to the parser of the configuration. *)
Definition validate_legacy_fields (content : string) : result string unit :=
  match decode_from Toml (A := toml) content with
  | Err _ => Ok ()
  | Ok value =>
      if has_field "join_service" value then Err (legacy_field_error "join_service")
      else if has_field "join_peers" value then Err (legacy_field_error "join_peers")
      else match toml_get "cluster" value with
      | None => Ok ()
      | Some cluster =>
          if has_field "service" cluster then Err (legacy_field_error "[cluster].service")
          else if has_field "node_id" cluster then Err (legacy_field_error "[cluster].node_id")
          else check_tables cluster ["voters"; "learners"]
      end
  end.

Definition config_validate (c : ServiceConfig) : result string unit :=
  if trim_is_empty (cf_service c) then Err "service 不能为空" else Ok ().

(** ** Loading *)

(** [Path::exists]: an error counts as absent. *)
Definition path_exists (p : path) (fs : Fs) : bool * Fs :=
  let '(f, fs) := next_fault fs in
  match f with
  | Some _ => (false, fs)
  | None => (bool_decide (is_Some (fs_files fs !! p) ∨ p ∈ fs_dirs fs), fs)
  end.

(** The names tried for a backup: [.bak], then [.bak.1], [.bak.2] and so on. *)
Definition backup_name (p : path) (counter : N) : path :=
  with_extension p (if (counter =? 0)%N then "bak" else "bak." +:+ pretty counter).
(** The [while] loop; [None] means out of fuel. *)
Fixpoint find_backup (fuel : nat) (p : path) (counter : N) (fs : Fs) : option path * Fs :=
  match fuel with
  | O => (None, fs)
  | S fuel =>
      let '(taken, fs) := path_exists (backup_name p counter) fs in
      if taken : bool then find_backup fuel p (counter + 1)%N fs else (Some (backup_name p counter), fs)
  end.
(** As many names as there are files and directories, and one more. *)
Definition backup_fuel (fs : Fs) : nat := S (size (fs_files fs) + size (fs_dirs fs)).
Definition rename_bad_config (p : path) : ST Fs IoError unit := λ fs,
  match find_backup (backup_fuel fs) p 0 fs with
  | (Some backup, fs) => fs_rename p backup fs
  | (None, fs) => (Err (fs_error OtherKind), fs)
  end.

Definition ensure_private (p : path) (fs : Fs) : Fs := (set_permissions p 384 fs).2.

(** [std::process::exit(1)], with the title of the last log line. *)
Record Exit := MkExit { exit_title : string }.

Definition write_default (env : Env) (p : path) : ST Fs Exit ServiceConfig :=
  let default_config := ServiceConfig_default env in
  text ← st_lift (map_err (λ _, MkExit "序列化默认配置失败") (encode_to Toml default_config));
  st_map_err (λ _, MkExit "写入默认配置文件失败") (atomic_write p text (Some 384%N)) ;;
  mret default_config.

Definition from_toml_file (env : Env) (p : path) (create_if_missing : bool) : ST Fs Exit ServiceConfig := λ fs,
  let '(present, fs) := if create_if_missing then (true, fs) else path_exists p fs in
  if negb present then (Ok (ServiceConfig_default env), fs)
  else match fs_read_to_string p fs with
  | (Ok content, fs) =>
      match validate_legacy_fields content with
      | Err _ => (Err (MkExit "配置文件包含已删除字段"), fs)
      | Ok _ =>
          match decode_from Toml (A := ServiceConfig) content with
          | Ok config =>
              match config_validate config with
              | Err _ => (Err (MkExit "配置校验失败"), fs)
              | Ok _ => (Ok config, ensure_private p fs)
              end
          | Err _ =>
              match rename_bad_config p fs with
              | (Err _, fs) => (Err (MkExit "重命名损坏的配置文件失败"), fs)
              | (Ok _, fs) => write_default env p fs
              end
          end
      end
  | (Err e, fs) =>
      if bool_decide (io_kind e = NotFound) then write_default env p fs
      else (Err (MkExit "无法读取配置文件"), fs)
  end.

Definition load_or_create_default (env : Env) : ST Fs Exit ServiceConfig :=
  from_toml_file env (path_of (config_path env)) true.

Definition save_to_file (c : ServiceConfig) (p : path) : ST Fs Exit unit :=
  text ← st_lift (map_err (λ _, MkExit "序列化配置失败") (encode_to Toml c));
  st_map_err (λ _, MkExit "写入配置文件失败") (atomic_write p text (Some 384%N)).
End config.

(** ** The audit of permissions *)

(** What [symlink_metadata] and [metadata] say of a path. *)
Record Metadata := MkMetadata { md_symlink : bool; md_dir : bool; md_mode : N }.
Record Stat := MkStat { lstat : string → option Metadata; stat : string → option Metadata }.

Record PermissionIssue := MkPermissionIssue {
  is_label : string; is_path : string; is_mode : N; is_expected : string
}.

Definition check_private_path (st : Stat) (p label : string) (directory : bool) : option PermissionIssue :=
  md ← lstat st p;
  if md_symlink md then None
  else
    let mode := N.land (md_mode md) 511 in
    if (N.land mode 63 =? 0)%N then None
    else Some (MkPermissionIssue label p mode (if directory then "0700" else "0600")).

Definition sensitive_paths (st : Stat) (env : Env) (c : ServiceConfig) : list (string * string * bool) :=
  [(config_path env, "config", false); (cf_authority_key_path c, "authority_key", false);
   (cf_state_path c, "state", false)]
  ++ if cl_enabled (cf_cluster c) then
       [(cl_identity_key_path (cf_cluster c), "raft_identity_key", false);
        (cl_seed_exchange_key_path (cf_cluster c), "raft_seed_exchange_key", false);
        (cl_data_path (cf_cluster c), "raft_data",
         from_option md_dir false (stat st (cl_data_path (cf_cluster c))))]
     else [].
Definition audit_config (st : Stat) (env : Env) (c : ServiceConfig) : list PermissionIssue :=
  omap (λ '(p, label, directory), check_private_path st p label directory) (sensitive_paths st env c).

(** ** Properties *)

Section config_props.
Context `{CV : Codec Toml toml, CF : Codec Toml ServiceConfig}.

Lemma with_extension_inj p a b : is_Some (path_file_name p) → a ≠ "" → b ≠ "" →
  with_extension p a = with_extension p b → a = b.
Proof.
  intros [name Hn] Ha Hb. unfold with_extension. rewrite Hn, !(proj2 (str_is_empty_false _)) by done.
  intros [_ Heq]%app_inj_2; [|done]. injection Heq as Heq. apply string_app_inj_len in Heq as [_ Heq]; [|done].
  by apply string_app_inj_len in Heq as [_ ?].
Qed.
Definition backup_ext (counter : N) : string := if (counter =? 0)%N then "bak" else "bak." +:+ pretty counter.
Lemma backup_ext_ne c : backup_ext c ≠ "" ∧ backup_ext c ≠ "tmp".
Proof. unfold backup_ext. by destruct (c =? 0)%N. Qed.
Lemma backup_name_inj p c d : is_Some (path_file_name p) → backup_name p c = backup_name p d → c = d.
Proof.
  intros Hp. intros Heq%with_extension_inj; [|done|apply backup_ext_ne..].
  destruct (N.eqb_spec c 0) as [->|], (N.eqb_spec d 0) as [->|]; [done|by simplify_eq..|].
  apply string_app_inj_len in Heq as [_ Heq]; [|done]. by apply (inj pretty) in Heq.
Qed.
Lemma backup_not_tmp p c : is_Some (path_file_name p) → backup_name p c ≠ with_extension p "tmp".
Proof. intros Hp Heq. apply with_extension_inj in Heq; [|done|apply backup_ext_ne|done]. by eapply (backup_ext_ne c). Qed.

Lemma path_exists_fs p fs b fs' : path_exists p fs = (b, fs') →
  fs_files fs' = fs_files fs ∧ fs_dirs fs' = fs_dirs fs
  ∧ (b = true → p ∈ dom (fs_files fs) ∪ fs_dirs fs)
  ∧ (fs_faults fs = [] → fs' = fs ∧ (b = false → p ∉ dom (fs_files fs) ∪ fs_dirs fs)).
Proof.
  unfold path_exists. destruct (next_fault fs) as [f fs1] eqn:Hf.
  pose proof (next_fault_files _ _ _ Hf) as H1. pose proof (next_fault_dirs _ _ _ Hf) as H2.
  unfold next_fault in Hf. destruct f as [f|]; intros [= <- <-].
  - split_and!; [done..|]. intros Hn. by rewrite Hn in Hf.
  - split_and!; [done..| |].
    + rewrite bool_decide_eq_true, elem_of_union, elem_of_dom, H1, H2. done.
    + intros Hn. rewrite Hn in Hf. injection Hf as <-. split; [done|].
      rewrite bool_decide_eq_false, elem_of_union, elem_of_dom. tauto.
Qed.

(** A search that stops has found a name of the series; one that does not has seen
    all the names it tried taken. *)
Lemma find_backup_spec fuel p c fs r fs' : find_backup fuel p c fs = (r, fs') →
  fs_files fs' = fs_files fs ∧ fs_dirs fs' = fs_dirs fs
  ∧ match r with
    | Some b => ∃ k, k < fuel ∧ b = backup_name p (c + N.of_nat k)
        ∧ (fs_faults fs = [] → b ∉ dom (fs_files fs) ∪ fs_dirs fs)
        ∧ ∀ fuel', fuel ≤ fuel' → find_backup fuel' p c fs = (Some b, fs')
    | None => ∀ k, k < fuel → backup_name p (c + N.of_nat k) ∈ dom (fs_files fs) ∪ fs_dirs fs
    end.
Proof.
  revert c fs. induction fuel as [|fuel IH]; intros c fs; cbn [find_backup].
  { intros [= <- <-]. split_and!; [done..|]. intros k. lia. }
  destruct (path_exists (backup_name p c) fs) as [taken fs1] eqn:He.
  pose proof (path_exists_fs _ _ _ _ He) as (Hf & Hd & Ht & Hn). destruct taken.
  - intros (Hf' & Hd' & Hr)%IH. rewrite Hf', Hd', Hf, Hd in *. split_and!; [done..|]. destruct r as [b|].
    + destruct Hr as (k & Hk & -> & Hfree & Hmore). exists (S k). split; [lia|].
      replace (c + N.of_nat (S k))%N with (c + 1 + N.of_nat k)%N by lia. split; [done|]. split.
      * intros Hnf. destruct (Hn Hnf) as [-> _]. auto.
      * intros [|fuel'] Hle; [lia|]. cbn [find_backup]. rewrite He. apply Hmore. lia.
    + intros [|k] Hk; [rewrite N.add_0_r; by apply Ht|].
      replace (c + N.of_nat (S k))%N with (c + 1 + N.of_nat k)%N by lia. apply Hr. lia.
  - intros [= <- <-]. split_and!; [done..|]. exists 0. rewrite N.add_0_r. split; [lia|]. split; [done|]. split.
    + intros Hnf. by apply Hn.
    + intros [|fuel'] Hle; [lia|]. cbn [find_backup]. by rewrite He.
Qed.

(** The search for a backup name ends.  For any file path and any file system
    the loop of [rename_bad_config] stops within one more turn than there are files
    and directories, more fuel changes nothing, and the name it stops at is one of
    the series and, when no query fails, not taken. *)
Theorem backup_search_terminates p fs :
  is_Some (path_file_name p) →
  ∃ b fs', (∀ fuel, backup_fuel fs ≤ fuel → find_backup fuel p 0 fs = (Some b, fs'))
    ∧ (∃ k, (k ≤ N.of_nat (size (fs_files fs) + size (fs_dirs fs)))%N ∧ b = backup_name p k)
    ∧ (fs_faults fs = [] → fs_files fs !! b = None ∧ b ∉ fs_dirs fs).
Proof.
  intros Hp. destruct (find_backup (backup_fuel fs) p 0 fs) as [[b|] fs'] eqn:Hfind;
    apply find_backup_spec in Hfind as (_ & _ & Hr).
  - destruct Hr as (k & Hk & Hb & Hfree & Hmore). exists b, fs'. split_and!; [done| |].
    + exists (N.of_nat k). unfold backup_fuel in Hk. split; [lia|]. by rewrite Hb, N.add_0_l.
    + intros Hnf. specialize (Hfree Hnf). apply not_elem_of_union in Hfree as [Hfree ?].
      split; [by apply not_elem_of_dom in Hfree|done].
  - exfalso. set (names := (λ k, backup_name p (0 + N.of_nat k)) <$> seq 0 (backup_fuel fs)).
    assert (NoDup names) as Hnd.
    { apply NoDup_fmap_2; [|apply NoDup_seq]. intros i j Heq%backup_name_inj; [|done]. lia. }
    assert (list_to_set names ⊆ dom (fs_files fs) ∪ fs_dirs fs) as Hsub.
    { intros q (k & -> & Hin%elem_of_seq)%elem_of_list_to_set%list_elem_of_fmap. apply Hr. lia. }
    apply subseteq_size in Hsub. rewrite size_list_to_set in Hsub by done.
    unfold names in Hsub. rewrite length_fmap, length_seq in Hsub.
    pose proof (size_union_alt (dom (fs_files fs)) (fs_dirs fs)) as Hu.
    pose proof (subseteq_size (fs_dirs fs ∖ dom (fs_files fs)) (fs_dirs fs) ltac:(set_solver)).
    rewrite size_dom in Hu. unfold backup_fuel in Hsub. lia.
Qed.

Lemma fs_read_to_string_present p fs file r fs' : fs_files fs !! p = Some file → honest_faults fs →
  fs_read_to_string p fs = (r, fs') →
  fs_files fs' = fs_files fs
  ∧ match r with Ok s => s = f_data file | Err e => io_kind e ≠ NotFound end.
Proof.
  intros Hp Hh. unfold fs_read_to_string, mbind, ST_bind, fs_read.
  pose proof (honest_fault fs Hh) as Hf.
  destruct (next_fault fs) as [[f|] fs1] eqn:Hn; pose proof (next_fault_files _ _ _ Hn) as Hfiles.
  - intros [= <- <-]. split; [done|]. by eapply Hf.
  - rewrite Hfiles, Hp. cbn -[utf8_valid]. destruct (utf8_valid (f_data file)); by intros [= <- <-].
Qed.

Lemma ensure_private_data p fs : 
  (∀ q, q ≠ p → fs_files (ensure_private p fs) !! q = fs_files fs !! q)
  ∧ f_data <$> fs_files (ensure_private p fs) !! p = f_data <$> fs_files fs !! p.
Proof.
  unfold ensure_private. pose proof (set_permissions_files p 384 fs) as Hs.
  destruct (set_permissions p 384 fs) as [[[]|e] fs']; cbn [snd].
  - destruct Hs as (file & Hp & ->). split.
    + intros q Hq. by rewrite lookup_insert_ne.
    + by rewrite lookup_insert_eq, Hp.
  - by rewrite Hs.
Qed.

Lemma rename_bad_config_spec p fs file r fs' :
  is_Some (path_file_name p) → fs_files fs !! p = Some file → rename_bad_config p fs = (r, fs') →
  match r with
  | Ok _ => ∃ n, fs_files fs' = <[backup_name p n := file]> (delete p (fs_files fs))
  | Err _ => fs_files fs' = fs_files fs
  end.
Proof.
  intros Hname Hp. unfold rename_bad_config.
  destruct (find_backup _ p 0 fs) as [[b|] fs1] eqn:Hfind; apply find_backup_spec in Hfind as (Hf & _ & Hb).
  - destruct Hb as (k & _ & -> & _). pose proof (fs_rename_files p (backup_name p (0 + N.of_nat k)) fs1) as Hr.
    intros Heq. rewrite Heq, Hf, Hp in Hr. destruct r; [|done]. destruct Hr as (file' & [= <-] & ->). eauto.
  - by intros [= <- <-].
Qed.

Lemma write_default_spec env p fs r fs' : with_extension p "tmp" ≠ p → write_default env p fs = (r, fs') →
  (∀ q, q ≠ p → q ≠ with_extension p "tmp" → fs_files fs' !! q = fs_files fs !! q)
  ∧ match r with
    | Ok c => c = ServiceConfig_default env ∧ ∃ text, encode_to Toml c = Ok text ∧ fs_files fs' !! p = Some (MkFile text 384)
    | Err _ => fs_files fs' !! p = fs_files fs !! p
    end.
Proof.
  intros Hne. unfold write_default, mbind, ST_bind, st_lift, st_map_err.
  destruct (encode_to Toml (ServiceConfig_default env)) as [text|e] eqn:Henc; cbn [map_err]; [|by intros [= <- <-]].
  pose proof (atomic_write_spec p text (Some 384%N) fs Hne) as Ha.
  destruct (atomic_write p text (Some 384%N) fs) as [[[]|e] fs1]; destruct Ha as [Hrest Hat].
  - intros [= <- <-]. split; [done|]. destruct Hat as (m & Hm & Hmode & _). cbn in Hmode. subst m. eauto.
  - by intros [= <- <-].
Qed.

(** C28: loading never loses a configuration.  Whichever calls fail (short of a file
    reported missing that is there), after [from_toml_file] on a path that held a
    file the bytes are still at that path, or, when they were no configuration, at a
    backup name beside it; a configuration that is returned is the one the file
    decodes to, with no removed field and valid, or the default, written to the path
    with mode 0600 after the unreadable file was moved away. *)
Theorem config_never_lost env p fs file r fs' :
  with_extension p "tmp" ≠ p → (∀ n, backup_name p n ≠ p) → honest_faults fs → fs_files fs !! p = Some file →
  from_toml_file env p true fs = (r, fs') →
  let kept := f_data <$> fs_files fs' !! p = Some (f_data file) in
  let moved := ∃ n, fs_files fs' !! backup_name p n = Some file in
  let read c := validate_legacy_fields (f_data file) = Ok () ∧ decode_from Toml (f_data file) = Ok c
                ∧ config_validate c = Ok () in
  let unreadable := ∃ e, decode_from Toml (A := ServiceConfig) (f_data file) = Err e in
  match r with
  | Ok c => kept ∧ read c
            ∨ moved ∧ unreadable ∧ c = ServiceConfig_default env
              ∧ ∃ text, encode_to Toml c = Ok text ∧ fs_files fs' !! p = Some (MkFile text 384)
  | Err _ => kept ∨ moved ∧ unreadable ∧ fs_files fs' !! p = None
  end.
Proof.
  intros Hne Hbak Hh Hp. assert (is_Some (path_file_name p)) as Hname.
  { unfold with_extension in Hne. by destruct (path_file_name p). }
  unfold from_toml_file. cbn [negb]. destruct (fs_read_to_string p fs) as [[content|e] fs1] eqn:Hread;
    pose proof (fs_read_to_string_present _ _ _ _ _ Hp Hh Hread) as [Hf1 Hc].
  2:{ rewrite bool_decide_eq_false_2 by done. intros [= <- <-]. left. by rewrite Hf1, Hp. }
  subst content. destruct (validate_legacy_fields (f_data file)) as [[]|e] eqn:Hleg.
  2:{ intros [= <- <-]. left. by rewrite Hf1, Hp. }
  destruct (decode_from Toml (f_data file)) as [c|e] eqn:Hdec.
  - destruct (config_validate c) as [[]|e] eqn:Hval; intros [= <- <-]; left; [|by rewrite Hf1, Hp].
    split; [|done]. destruct (ensure_private_data p fs1) as [_ ->]. by rewrite Hf1, Hp.
  - destruct (rename_bad_config p fs1) as [r2 fs2] eqn:Hren. rewrite <-Hf1 in Hp.
    pose proof (rename_bad_config_spec _ _ _ _ _ Hname Hp Hren) as H2. destruct r2 as [[]|e2].
    2:{ intros [= <- <-]. left. by rewrite H2, Hp. }
    destruct H2 as [n H2]. intros [Hrest Hres]%write_default_spec; [|done].
    assert (fs_files fs' !! backup_name p n = Some file) as Hmoved.
    { rewrite Hrest, H2 by auto using backup_not_tmp. by rewrite lookup_insert_eq. }
    destruct r as [c|?]; right; [naive_solver|]. split_and!; [eauto..|].
    by rewrite Hres, H2, lookup_insert_ne, lookup_delete_eq by done.
Qed.
End config_props.

(** The audit of permissions reports exactly the exposed secrets.  An issue is
    in the answer of [audit_config] if and only if its path is one of the sensitive
    paths, the path is there and no symbolic link, and some bit of its mode for the
    group or for others is set. *)
Theorem audit_exact st env c issue :
  issue ∈ audit_config st env c ↔
  ∃ p label directory md,
    (p, label, directory) ∈ sensitive_paths st env c ∧ lstat st p = Some md ∧ md_symlink md = false
    ∧ (∃ bit, (bit < 6)%N ∧ N.testbit (md_mode md) bit = true)
    ∧ issue = MkPermissionIssue label p (md_mode md `mod` 512) (if directory : bool then "0700" else "0600").
Proof.
  unfold audit_config. rewrite list_elem_of_omap.
  assert (∀ m, N.land (N.land m 511) 63 ≠ 0%N ↔ ∃ bit, (bit < 6)%N ∧ N.testbit m bit = true) as Hbits.
  { intros m. rewrite <-N.land_assoc. change (N.land 511 63) with (N.ones 6). split.
    - intros Hne. exists (N.log2 (N.land m (N.ones 6))).
      pose proof (N.bit_log2 _ Hne) as Hb. rewrite N.land_spec in Hb. apply andb_true_iff in Hb as [? Hb].
      split; [|done]. destruct (N.ltb_spec (N.log2 (N.land m (N.ones 6))) 6) as [|Hge]; [done|].
      by rewrite N.ones_spec_high in Hb.
    - intros (bit & Hlt & Hb) H0. apply (f_equal (λ x, N.testbit x bit)) in H0.
      rewrite N.land_spec, Hb, N.ones_spec_low, N.bits_0 in H0 by done. done. }
  split.
  - intros ([[p label] directory] & Hin & Hc). unfold check_private_path in Hc.
    destruct (lstat st p) as [md|] eqn:Hmd; [|done]. cbn in Hc. destruct (md_symlink md) eqn:Hs; [done|].
    destruct (N.eqb_spec (N.land (N.land (md_mode md) 511) 63) 0) as [|Hne]; [done|]. injection Hc as <-.
    exists p, label, directory, md. split_and!; [done..|by apply Hbits|].
    by change 511%N with (N.ones 9); rewrite N.land_ones.
  - intros (p & label & directory & md & Hin & Hmd & Hs & Hbit & ->). exists (p, label, directory).
    split; [done|]. unfold check_private_path. rewrite Hmd. cbn. rewrite Hs.
    destruct (N.eqb_spec (N.land (N.land (md_mode md) 511) 63) 0) as [H0|_]; [by apply Hbits in Hbit|].
    by change 511%N with (N.ones 9); rewrite N.land_ones.
Qed.


(** ** Examples *)

#[local] Instance example_toml : Codec Toml toml :=
  {| encode_to _ := Ok "service = 'auth'"; decode_from s := if bool_decide (s = "old") then Ok (TTable [("join_peers", TArray [])]) else Err "no table" |}.
#[local] Instance example_config : Codec Toml ServiceConfig :=
  {| encode_to c := Ok ("service = '" +:+ cf_service c +:+ "'");
     decode_from s := if bool_decide (s = "service = 'auth'") then Ok (ServiceConfig_default (λ _, None)) else Err "expected a table" |}.

Definition example_path : path := ["etc"; "config.toml"].
(** A broken configuration, with one backup of an earlier one. *)
Definition example_broken : Fs :=
  MkFs {[example_path := MkFile "service = " 420; ["etc"; "config.bak"] := MkFile "older" 384]} {[["etc"]]} 18 [].

Lemma example_tmp : with_extension example_path "tmp" ≠ example_path.
Proof. by vm_compute. Qed.
Lemma example_backups n : backup_name example_path n ≠ example_path.
Proof. intros Heq. unfold backup_name in Heq. destruct (n =? 0)%N; vm_compute in Heq; discriminate. Qed.

Lemma backup_search_terminates_witness :
  find_backup (backup_fuel example_broken) example_path 0 example_broken = (Some ["etc"; "config.bak.1"], example_broken)
  ∧ ∃ b fs', ∀ fuel, backup_fuel example_broken ≤ fuel → find_backup fuel example_path 0 example_broken = (Some b, fs').
Proof.
  split; [by vm_compute|]. destruct (backup_search_terminates example_path example_broken) as (b & fs' & H & _).
  - by eexists.
  - by exists b, fs'.
Defined.

Lemma config_never_lost_witness :
  let '(r, fs) := from_toml_file (λ _, None) example_path true example_broken in
  r = Ok (ServiceConfig_default (λ _, None))
  ∧ fs_files fs !! example_path = Some (MkFile "service = 'auth'" 384)
  ∧ fs_files fs !! ["etc"; "config.bak"] = Some (MkFile "older" 384)
  ∧ fs_files fs !! ["etc"; "config.bak.1"] = Some (MkFile "service = " 420)
  ∧ ∃ n, fs_files fs !! backup_name example_path n = Some (MkFile "service = " 420).
Proof.
  pose proof (config_never_lost (λ _, None) example_path example_broken (MkFile "service = " 420)
    _ _ example_tmp example_backups ltac:(by constructor) ltac:(by vm_compute) eq_refl) as Hkept.
  destruct (from_toml_file (λ _, None) example_path true example_broken) as [r fs] eqn:Hrun.
  vm_compute in Hrun. injection Hrun as <- <-. split_and!; [by vm_compute..|].
  destruct Hkept as [[Hkept _]|[Hmoved _]]; [by vm_compute in Hkept|exact Hmoved].
Defined.
