(* ===== verification/PathProps.v ===== *)
(** * Paths that are put together as texts

    A plain name that is joined to a directory's text is the last component of the
    path; the components before it are the directory's. *)
From S2P Require Import Prelude Fsutil Crypto Authority Replay AdminV2 Config.

Lemma split_slash_ne s : split_slash s ≠ [].
Proof. destruct s as [|c s]; [done|]. simpl. case_bool_decide; [done|]. by destruct (split_slash s). Qed.
Lemma split_slash_app a b : split_slash (a +:+ String "/" b) = split_slash a ++ split_slash b.
Proof.
  induction a as [|c a IH]; [done|]. rewrite string_app_cons. cbn [split_slash]. rewrite IH.
  case_bool_decide; [done|]. pose proof (split_slash_ne a). by destruct (split_slash a).
Qed.
Lemma split_slash_plain s : str_has "/" s = false → split_slash s = [s].
Proof.
  induction s as [|c s IH]; [done|]. simpl. intros [Hc Hs]%orb_false_iff. apply bool_decide_eq_false in Hc.
  rewrite bool_decide_eq_false_2 by congruence. by rewrite IH.
Qed.
Lemma ends_with_slash_true s : ends_with_slash s = true → s = "" ∨ ∃ t, s = t +:+ "/".
Proof.
  unfold ends_with_slash. rewrite bool_decide_eq_true. induction s as [|c s IH]; [by left|]. simpl.
  case_bool_decide as Hc; [subst c|].
  - intros Hl. right. destruct (decide (s = "")) as [->|Hs]; [by exists ""|].
    destruct IH as [?|[t ->]]; [|done|by exists (String "/" t)].
    pose proof (split_slash_ne s). by destruct (split_slash s).
  - destruct (split_slash s) as [|w rest] eqn:E; [by apply split_slash_ne in E|]. intros Hl.
    destruct rest as [|v rest]; [by injection Hl|]. destruct IH as [->|[t ->]]; [done|done|]. right. by exists (String c t).
Qed.

(** A name that is a component of its own. *)
Definition plain_name (n : string) : Prop := str_has "/" n = false ∧ n ≠ "" ∧ n ≠ "." ∧ n ≠ "..".
Lemma plain_not_root n : plain_name n → n ≠ "/".
Proof. by intros [Hn _] ->. Qed.

(** The path of its parts. *)
Definition path_of_parts (parts : list string) : path :=
  let body := filter (λ c, c ≠ "" ∧ c ≠ ".") parts in
  match parts with "" :: _ :: _ => "/" :: body | "." :: _ => "." :: body | _ => body end.
Lemma path_of_unfold s : path_of s = path_of_parts (split_slash s).
Proof. done. Qed.
Lemma path_of_parts_snoc l x : l ≠ [] → plain_name x →
  path_of_parts (l ++ [x]) = path_of_parts (l ++ [""]) ++ [x].
Proof.
  intros Hl (_ & H1 & H2 & _). unfold path_of_parts. rewrite !filter_app.
  rewrite (filter_cons_True _ x) by done. rewrite (filter_cons_False _ "") by naive_solver. rewrite !filter_nil, !app_nil_r.
  destruct l as [|a [|b l]]; [done|..]; simpl; repeat case_match; simplify_eq; done.
Qed.
Lemma path_of_parts_last l : l ≠ [] → l ≠ [""] → path_of_parts (l ++ [""]) = path_of_parts l.
Proof.
  intros H1 H2. unfold path_of_parts. rewrite !filter_app. rewrite (filter_cons_False _ "") by naive_solver.
  rewrite filter_nil, app_nil_r. destruct l as [|a [|b l]]; [done|..]; simpl; repeat case_match; simplify_eq; done.
Qed.
Lemma path_of_join base name : plain_name name → path_of (path_join base name) = path_of base ++ [name].
Proof.
  intros Hn. unfold path_join. destruct (ends_with_slash base) eqn:He.
  - apply ends_with_slash_true in He as [->|[t ->]].
    + rewrite string_app_nil_l, path_of_unfold, split_slash_plain by apply Hn. unfold path_of_parts.
      destruct Hn as (_ & H1 & H2 & _). rewrite filter_cons_True, filter_nil by done. repeat case_match; simplify_eq; done.
    + rewrite string_app_assoc, string_app_cons, string_app_nil_l, !path_of_unfold, split_slash_app.
      change (t +:+ "/") with (t +:+ String "/" ""). rewrite split_slash_app, (split_slash_plain name) by apply Hn.
      simpl. by apply path_of_parts_snoc; [apply split_slash_ne|].
  - rewrite string_app_cons, string_app_nil_l, !path_of_unfold, split_slash_app, (split_slash_plain name) by apply Hn.
    rewrite path_of_parts_snoc, path_of_parts_last; [done|apply split_slash_ne| |apply split_slash_ne|done].
    intros Heq. unfold ends_with_slash in He. rewrite Heq in He. done.
Qed.
Lemma path_of_slash base name : base ≠ "" → plain_name name → path_of (base +:+ "/" +:+ name) = path_of base ++ [name].
Proof.
  intros Hb Hn. rewrite string_app_cons, string_app_nil_l, !path_of_unfold, split_slash_app, (split_slash_plain name) by apply Hn.
  rewrite path_of_parts_snoc, path_of_parts_last; [done|apply split_slash_ne| |apply split_slash_ne|done].
  intros Heq. apply Hb. destruct base as [|c base]; [done|]. simpl in Heq. case_bool_decide.
  - pose proof (split_slash_ne base). by destruct (split_slash base).
  - by destruct (split_slash base).
Qed.
