(* ===== verification/Log.v ===== *)
(** * The log: [src/src/log.rs]

    An entry goes to the console, or to the journal, and to a file that is put away
    compressed when it has grown too long.  The tasks that log and the thread that
    puts the file away run side by side: a run is a sequence of events, each one turn
    of a task, up to a lock, an atomic exchange or a call of the file system.  Every
    call consults the schedule of faults of the file system, and the process may stop
    between any two turns. *)
From S2P Require Import Prelude Text Fsutil Crypto Authority Replay AdminV2 Config.

Definition MAX_SIZE_BYTES : N := 10 * 1024 * 1024.
(** Milliseconds. *)
Definition ROLL_CHECK_INTERVAL : N := 5000.

Inductive LogMode := ModeJournald | ModeFile.
Inductive LogLevel := Important | Debug | Preset | Warning | Error | Critical.
Global Instance LogMode_eq_dec : EqDecision LogMode.
Proof. solve_decision. Defined.
Global Instance LogLevel_eq_dec : EqDecision LogLevel.
Proof. solve_decision. Defined.

Definition level_str (l : LogLevel) : string :=
  match l with
  | Important => "[IMPORTANT]" | Debug => "[+]" | Preset => "[-]" | Warning => "[*]" | Error => "[!]"
  | Critical => "[CRITICAL]"
  end.
Definition syslog_priority (l : LogLevel) : N :=
  match l with Critical => 2 | Error => 3 | Warning => 4 | Important => 5 | Preset => 6 | Debug => 7 end.

Record LogStruct := MkLogStruct { ls_level : LogLevel; ls_topic : string; ls_content : string }.

(** What a task finds when it looks: the clock (the text of the time, the time in an
    archive's name, the nanoseconds if they fit), whether the output is a terminal,
    the time a file was made. *)
Record Moment := MkMoment {
  mo_time : string; mo_minute : string; mo_nanos : option Z; mo_terminal : bool; mo_created : option string
}.

(** What is printed. *)
Inductive Printed := ToStdout (line : string) | ToStderr (line : string).

(** ** Texts *)

Definition eol : string := String "010" "".
Definition indent : string := eol +:+ "    ".

Definition format_entry (prefix : string) (time : option string) (topic content : string) : string :=
  match time, str_is_empty content with
  | Some t, true => prefix +:+ " " +:+ t +:+ indent +:+ topic
  | Some t, false => prefix +:+ " " +:+ t +:+ indent +:+ topic +:+ indent +:+ content
  | None, true => prefix +:+ " " +:+ topic
  | None, false => prefix +:+ " " +:+ topic +:+ indent +:+ content
  end.

(** One line with the priority in front; the words of the content, one space apart. *)
Definition render_journald (info : LogStruct) : string :=
  let content := String.concat " " (split_whitespace (ls_content info)) in
  let body :=
    if str_is_empty content then level_str (ls_level info) +:+ " " +:+ ls_topic info
    else level_str (ls_level info) +:+ " " +:+ ls_topic info +:+ ": " +:+ content in
  "<" +:+ pretty (syslog_priority (ls_level info)) +:+ ">" +:+ body.

Definition write_stream (l : LogLevel) (text : string) : Printed :=
  match l with
  | Error | Critical | Warning => ToStderr text
  | _ => ToStdout text
  end.

Section log.
(** The marks of the levels in colour (crate [colored]); what [flate2] makes of a
    text, and what is in the file after an encoder that failed. *)
Context (color : LogLevel → string) (gzip : string → string) (gzip_broken : string → nat → string).
Context (env : Env).

Definition use_color (now : Moment) : bool :=
  match env_var env "NO_COLOR" with Some _ => false | None => mo_terminal now end.
Definition log_mode : LogMode :=
  match env "JOURNAL_STREAM" with Some v => if str_is_empty v then ModeFile else ModeJournald | None => ModeFile end.

Definition gz_path : string := to_string_lossy (log_path env).
Definition log_filepath : string := gz_path +:+ "/log".
Definition logtmp_filepath : string := log_filepath +:+ ".tmp".
Definition log_file : path := path_of log_filepath.
Definition tmp_file : path := path_of logtmp_filepath.

Definition render_stream (info : LogStruct) (now : Moment) (time : option string) : string :=
  format_entry (if use_color now then color (ls_level info) else level_str (ls_level info)) time (ls_topic info) (ls_content info).
Definition render (info : LogStruct) (now : Moment) : string :=
  match log_mode with
  | ModeJournald => render_journald info
  | ModeFile => render_stream info now (Some (mo_time now))
  end.
Definition log_onlycli (now : Moment) (l : LogLevel) (topic content : string) : Printed :=
  write_stream l (render (MkLogStruct l topic content) now).
Definition error_entry (now : Moment) : string → string → Printed := log_onlycli now Error.

(** The name of an archive. *)
Definition archive_path (created : string) (now : Moment) : string :=
  gz_path +:+ "/" +:+ created +:+ "-" +:+ mo_minute now +:+ "-" +:+ pretty (default 0%Z (mo_nanos now)) +:+ ".gz".
Definition repair_path (now : Moment) : string :=
  gz_path +:+ "/REPAIR-" +:+ default "XXXX_XXXX" (mo_created now) +:+ "-" +:+ pretty (default 0%Z (mo_nanos now)) +:+ ".gz".

(** ** Calls of the file system *)

(** [fs::metadata], of which the length is used; that of a directory is taken as 0. *)
Definition fs_metadata (p : path) : ST Fs IoError N := λ fs,
  let '(f, fs) := next_fault fs in
  match f with
  | Some f => (Err (fault_error f), fs)
  | None =>
      (match fs_files fs !! p with
       | Some file => Ok (N.of_nat (String.length (f_data file)))
       | None => if bool_decide (p ∈ fs_dirs fs) then Ok 0%N else Err (fs_error NotFound)
       end, fs)
  end.
(** A file is opened to append, and made if it is not there. *)
Definition fs_open_append (p : path) : ST Fs IoError unit := λ fs,
  let '(f, fs) := next_fault fs in
  match f with
  | Some f => (Err (fault_error f), fs)
  | None =>
      if negb (dir_exists fs p) then (Err (fs_error NotFound), fs)
      else if bool_decide (p ∈ fs_dirs fs) then (Err (fs_error OtherKind), fs)
      else (Ok (), match fs_files fs !! p with
                   | Some _ => fs
                   | None => set_files fs (<[p := MkFile "" (N.ldiff 438 (fs_umask fs))]> (fs_files fs))
                   end)
  end.
(** [write_all] on a file that is open: a fault leaves a part behind. *)
Definition fs_append (p : path) (data : string) : ST Fs IoError unit := λ fs,
  let '(f, fs) := next_fault fs in
  let put s := partial_alter (fmap (λ file, MkFile (f_data file +:+ s) (f_mode file))) p (fs_files fs) in
  match f with
  | Some f => (Err (fault_error f), set_files fs (put (String.substring 0 (fault_done f) data)))
  | None => (Ok (), set_files fs (put data))
  end.
(** The bytes of an encoder so far: those of the whole text once it has finished;
    what has left it before that is not said. *)
Definition fs_compress (p : path) (data : string) (finished : bool) : ST Fs IoError unit := λ fs,
  let '(f, fs) := next_fault fs in
  let put s := set_files fs (partial_alter (fmap (λ file, MkFile s (f_mode file))) p (fs_files fs)) in
  match f with
  | Some f => (Err (fault_error f), put (gzip_broken data (fault_done f)))
  | None => (Ok (), put (if finished then gzip data else gzip_broken data (String.length data)))
  end.

(** ** The state *)

(** A call of [emit]: before the check of the time, before the exchange of the flag,
    before the check of the size with the flag taken, before the entry is written. *)
Inductive Emitting := EmChecking | EmSwapping | EmSizing | EmLogging | EmDone.
Global Instance Emitting_eq_dec : EqDecision Emitting.
Proof. solve_decision. Defined.
(** [archive_and_cleanup]: what is read goes into the archive. *)
Inductive Archiving := ArRead | ArCreate (buffer : string) | ArCompress (buffer : string) | ArFinish (buffer : string) | ArRemove.
(** The spawned thread: [perform_roll]; the time the log was made is in the name of
    the archive, and a repair comes before a second attempt. *)
Inductive Roller :=
  | RoStat | RoRename (created : string) | RoRepair (created : string)
  | RoArchive (repairing : option string) (out : string) (a : Archiving) | RoRetry (created : string) | RoDone.
Global Instance Archiving_eq_dec : EqDecision Archiving.
Proof. solve_decision. Defined.
Global Instance Roller_eq_dec : EqDecision Roller.
Proof. solve_decision. Defined.

Record Logger := MkLogger {
  lo_fs : Fs;
  lo_rolling : bool;           (** [ROLLING] *)
  lo_last : option N;          (** [LAST_ROLL_CHECK] *)
  lo_emits : list (LogStruct * Emitting);
  lo_rollers : list Roller;
  lo_out : list Printed;
}.

(** What a run is seen to do: the line an entry became in the file, the name that
    was chosen for an archive, an archive that was finished. *)
Inductive Obs := OLine (i : nat) (line : string) | ONamed (out : string) | OArchived (out data : string).

Definition set_fs (fs : Fs) (s : Logger) : Logger :=
  MkLogger fs (lo_rolling s) (lo_last s) (lo_emits s) (lo_rollers s) (lo_out s).
Definition set_rolling (b : bool) (s : Logger) : Logger :=
  MkLogger (lo_fs s) b (lo_last s) (lo_emits s) (lo_rollers s) (lo_out s).
Definition set_last (t : N) (s : Logger) : Logger :=
  MkLogger (lo_fs s) (lo_rolling s) (Some t) (lo_emits s) (lo_rollers s) (lo_out s).
Definition set_emit (i : nat) (info : LogStruct) (e : Emitting) (s : Logger) : Logger :=
  MkLogger (lo_fs s) (lo_rolling s) (lo_last s) (<[i := (info, e)]> (lo_emits s)) (lo_rollers s) (lo_out s).
Definition spawn_roller (s : Logger) : Logger :=
  MkLogger (lo_fs s) (lo_rolling s) (lo_last s) (lo_emits s) (lo_rollers s ++ [RoStat]) (lo_out s).
Definition set_roller (j : nat) (r : Roller) (s : Logger) : Logger :=
  MkLogger (lo_fs s) (lo_rolling s) (lo_last s) (lo_emits s) (<[j := r]> (lo_rollers s)) (lo_out s).
Definition print (p : Printed) (s : Logger) : Logger :=
  MkLogger (lo_fs s) (lo_rolling s) (lo_last s) (lo_emits s) (lo_rollers s) (lo_out s ++ [p]).
(** The end of the thread, with [defer!]. *)
Definition finish_roller (j : nat) (s : Logger) : Logger := set_rolling false (set_roller j RoDone s).

(** ** [emit] *)

Definition new_emit (info : LogStruct) (s : Logger) : Logger :=
  MkLogger (lo_fs s) (lo_rolling s) (lo_last s)
    (lo_emits s ++ [(info, if bool_decide (log_mode = ModeFile) then EmChecking else EmLogging)]) (lo_rollers s) (lo_out s).

(** [maybe_check_and_roll]: the time of the last check, under its lock. *)
Definition throttle (i : nat) (info : LogStruct) (t : N) (s : Logger) : Logger :=
  if from_option (λ prev, bool_decide (t - prev < ROLL_CHECK_INTERVAL)%N) false (lo_last s)
  then set_emit i info EmLogging s
  else set_emit i info EmSwapping (set_last t s).
Definition swap_rolling (i : nat) (info : LogStruct) (s : Logger) : Logger :=
  set_rolling true (set_emit i info (if lo_rolling s then EmLogging else EmSizing) s).
(** [check_and_roll]. *)
Definition check_and_roll (i : nat) (info : LogStruct) (s : Logger) : Logger :=
  let '(r, fs) := fs_metadata log_file (lo_fs s) in
  let s := set_emit i info EmLogging (set_fs fs s) in
  match r with
  | Err _ => set_rolling false s
  | Ok len => if (len <=? MAX_SIZE_BYTES)%N then set_rolling false s else spawn_roller s
  end.

(** [append_file], under the lock of the file. *)
Definition append_file (now : Moment) (i : nat) (text : string) (s : Logger) : Logger * list Obs :=
  let '(r, fs) := (fs_open_append log_file ;; fs_append log_file text ;; fs_append log_file eol) (lo_fs s) in
  match r with
  | Ok _ => (set_fs fs s, [OLine i text])
  | Err _ => (print (log_onlycli now Error "无法录入日志" "log文件无法被追加写入") (set_fs fs s), [])
  end.
Definition log (now : Moment) (i : nat) (info : LogStruct) (s : Logger) : Logger * list Obs :=
  let s := print (write_stream (ls_level info) (render info now)) s in
  match log_mode with
  | ModeJournald => (s, [])
  | ModeFile =>
      append_file now i (format_entry (level_str (ls_level info)) (Some (mo_time now)) (ls_topic info) (ls_content info)) s
  end.

(** ** The roll *)

(** A turn of [archive_and_cleanup]: the next one, or its end. *)
Definition archive_turn (now : Moment) (out : string) (a : Archiving) (s : Logger) : option Archiving * Logger * list Obs :=
  let fails {A} (topic : string) (e : IoError) (fs : Fs) : option Archiving * Logger * list A :=
    (None, print (error_entry now topic (io_text e)) (set_fs fs s), []) in
  match a with
  | ArRead =>
      match fs_read tmp_file (lo_fs s) with
      | (Ok buffer, fs) => (Some (ArCreate buffer), set_fs fs s, [])
      | (Err e, fs) => fails "无法读取log.tmp文件" e fs
      end
  | ArCreate buffer =>
      match fs_write (path_of out) "" (lo_fs s) with
      | (Ok _, fs) => (Some (ArCompress buffer), set_fs fs s, [])
      | (Err e, fs) => fails "无法创建日志轮转文件" e fs
      end
  | ArCompress buffer =>
      match fs_compress (path_of out) buffer false (lo_fs s) with
      | (Ok _, fs) => (Some (ArFinish buffer), set_fs fs s, [])
      | (Err e, fs) => fails "无法压缩log.tmp数据" e fs
      end
  | ArFinish buffer =>
      match fs_compress (path_of out) buffer true (lo_fs s) with
      | (Ok _, fs) => (Some ArRemove, set_fs fs s, [OArchived out buffer])
      | (Err e, fs) => fails "无法压缩log.tmp数据" e fs
      end
  | ArRemove =>
      match fs_remove tmp_file (lo_fs s) with
      | (Ok _, fs) => (None, set_fs fs s, [])
      | (Err e, fs) => fails "无法删除log.tmp文件" e fs
      end
  end.

(** After the rename the archive is named and made. *)
Definition start_archive (now : Moment) (j : nat) (created : string) (s : Logger) : Logger * list Obs :=
  let out := archive_path created now in (set_roller j (RoArchive None out ArRead) s, [ONamed out]).
Definition rename_failed (now : Moment) (j : nat) (e : IoError) (s : Logger) : Logger * list Obs :=
  (finish_roller j (print (log_onlycli now Critical "无法重命名log文件" (io_text e)) s), []).

Definition roll_turn (now : Moment) (j : nat) (r : Roller) (s : Logger) : Logger * list Obs :=
  match r with
  | RoStat =>
      match fs_metadata log_file (lo_fs s) with
      | (Ok _, fs) => (set_roller j (RoRename (default "XXXX_XXXX" (mo_created now))) (set_fs fs s), [])
      | (Err _, fs) => (finish_roller j (set_fs fs s), [])
      end
  | RoRename created =>
      match fs_rename log_file tmp_file (lo_fs s) with
      | (Ok _, fs) => start_archive now j created (set_fs fs s)
      | (Err e, fs) =>
          if bool_decide (io_kind e = AlreadyExists)
          then (set_roller j (RoRepair created) (print (log_onlycli now Warning "修复错误tmp文件" "") (set_fs fs s)), [])
          else if bool_decide (io_kind e = NotFound) then (finish_roller j (set_fs fs s), [])
          else rename_failed now j e (set_fs fs s)
      end
  | RoRepair created =>
      match fs_metadata tmp_file (lo_fs s) with
      | (Ok _, fs) => (set_roller j (RoArchive (Some created) (repair_path now) ArRead) (set_fs fs s), [ONamed (repair_path now)])
      | (Err _, fs) => (set_roller j (RoRetry created) (set_fs fs s), [])
      end
  | RoArchive repairing out a =>
      let '(next, s, obs) := archive_turn now out a s in
      (match next, repairing with
       | Some a, _ => set_roller j (RoArchive repairing out a) s
       | None, Some created => set_roller j (RoRetry created) s
       | None, None => finish_roller j s
       end, obs)
  | RoRetry created =>
      match fs_rename log_file tmp_file (lo_fs s) with
      | (Ok _, fs) => start_archive now j created (set_fs fs s)
      | (Err e, fs) => rename_failed now j e (set_fs fs s)
      end
  | RoDone => (s, [])
  end.

(** ** Runs *)

Inductive Event :=
  | EvEmit (info : LogStruct)                  (** a task calls [emit] *)
  | EvTurn (i : nat) (t : N) (now : Moment)    (** a turn of the [i]-th call, at the instant [t] *)
  | EvRoll (j : nat) (now : Moment)            (** a turn of the [j]-th thread *)
  | EvRestart.                                 (** the process stops and is started again *)

Definition emit_turn (i : nat) (t : N) (now : Moment) (s : Logger) : Logger * list Obs :=
  match lo_emits s !! i with
  | None | Some (_, EmDone) => (s, [])
  | Some (info, EmChecking) => (throttle i info t s, [])
  | Some (info, EmSwapping) => (swap_rolling i info s, [])
  | Some (info, EmSizing) => (check_and_roll i info s, [])
  | Some (info, EmLogging) => log now i info (set_emit i info EmDone s)
  end.
Definition log_started (fs : Fs) : Logger := MkLogger fs false None [] [] [].
Definition log_step (e : Event) (s : Logger) : Logger * list Obs :=
  match e with
  | EvEmit info => (new_emit info s, [])
  | EvTurn i t now => emit_turn i t now s
  | EvRoll j now => match lo_rollers s !! j with Some r => roll_turn now j r s | None => (s, []) end
  | EvRestart => (log_started (lo_fs s), [])
  end.
Fixpoint log_run (es : list Event) (s : Logger) : Logger * list Obs :=
  match es with
  | [] => (s, [])
  | e :: es => let '(s, o) := log_step e s in let '(s, tr) := log_run es s in (s, o ++ tr)
  end.
End log.
