(* ===== verification/LogProps.v ===== *)
(** * Properties of the log

    The flag of the roll is a lock that is always given back; no entry that was
    written is lost or torn apart while the file is put away; what an unfinished roll
    leaves behind; the lines of the journal. *)
From S2P Require Import Prelude Text Fsutil Crypto Authority Replay AdminV2 Config PathProps Log.

(** ** Counting *)

Definition count {A} (P : A → bool) (l : list A) : nat := length (filter P l).
Definition one_if (b : bool) : nat := if b then 1 else 0.

Lemma count_app {A} (P : A → bool) l k : count P (l ++ k) = count P l + count P k.
Proof. unfold count. by rewrite filter_app, length_app. Qed.
Lemma count_one {A} (P : A → bool) x : count P [x] = one_if (P x).
Proof. unfold count. rewrite filter_cons, filter_nil. destruct (P x); by case_decide. Qed.
Lemma count_cons {A} (P : A → bool) x l : count P (x :: l) = one_if (P x) + count P l.
Proof. change (x :: l) with ([x] ++ l). by rewrite count_app, count_one. Qed.
Lemma count_insert {A} (P : A → bool) l i x y : l !! i = Some x →
  count P (<[i:=y]> l) + one_if (P x) = count P l + one_if (P y).
Proof.
  intros Hi. pose proof (lookup_lt_Some _ _ _ Hi) as Hl. apply take_drop_middle in Hi as Hd.
  rewrite insert_take_drop by done. rewrite <-Hd at 3.
  change (y :: ?l) with ([y] ++ l). change (x :: ?l) with ([x] ++ l). rewrite !count_app, !count_one. lia.
Qed.
Lemma count_zero {A} (P : A → bool) l i x : count P l = 0 → l !! i = Some x → P x = false.
Proof.
  intros Hc Hi%list_elem_of_lookup_2. destruct (P x) eqn:E; [|done]. apply nil_length_inv in Hc.
  assert (x ∈ filter P l) as Hin by (apply list_elem_of_filter; by rewrite E). rewrite Hc in Hin. set_solver.
Qed.

(** ** The flag *)

Section log_props.
Context (color : LogLevel → string) (gzip : string → string) (gzip_broken : string → nat → string) (env : Env).

Abbreviation log_step := (log_step color gzip gzip_broken env) (only parsing).
Abbreviation log_run := (log_run color gzip gzip_broken env) (only parsing).
Abbreviation roll_turn := (roll_turn color gzip gzip_broken env) (only parsing).

(** Who holds the flag: a call of [emit] that looks at the size, a thread that is not
    done. *)
Definition sizing (x : LogStruct * Emitting) : bool := bool_decide (x.2 = EmSizing).
Definition rolling (r : Roller) : bool := bool_decide (r ≠ RoDone).
Definition owners (s : Logger) : nat := count sizing (lo_emits s) + count rolling (lo_rollers s).
Definition flag_ok (s : Logger) : Prop := owners s = one_if (lo_rolling s).

Lemma owners_emit s i info e e' : lo_emits s !! i = Some (info, e) →
  owners (set_emit i info e' s) + one_if (bool_decide (e = EmSizing)) = owners s + one_if (bool_decide (e' = EmSizing)).
Proof.
  intros Hi. unfold owners. simpl. pose proof (count_insert sizing _ i _ (info, e') Hi) as H.
  unfold sizing in H at 2 4. simpl in H. lia.
Qed.
Lemma owners_roller s j r r' : lo_rollers s !! j = Some r →
  owners (set_roller j r' s) + one_if (rolling r) = owners s + one_if (rolling r').
Proof. intros Hj. unfold owners. simpl. pose proof (count_insert rolling _ j _ r' Hj). lia. Qed.
Lemma owners_spawn s : owners (spawn_roller s) = owners s + 1.
Proof. unfold owners. simpl. rewrite count_app, count_one. simpl. lia. Qed.

Lemma finish_flag s j r : lo_rollers s !! j = Some r → r ≠ RoDone → flag_ok s → flag_ok (finish_roller j s).
Proof.
  unfold flag_ok. intros Hj Hr Hf. pose proof (owners_roller s j r RoDone Hj) as H. unfold rolling in H.
  rewrite bool_decide_eq_true_2 in H by done. change (owners (finish_roller j s)) with (owners (set_roller j RoDone s)).
  simpl in *. destruct (lo_rolling s); simpl in *; lia.
Qed.
Lemma move_flag s j r r' : lo_rollers s !! j = Some r → r ≠ RoDone → r' ≠ RoDone → flag_ok s → flag_ok (set_roller j r' s).
Proof.
  unfold flag_ok. intros Hj Hr Hr' Hf. pose proof (owners_roller s j r r' Hj) as H. unfold rolling in H.
  rewrite !bool_decide_eq_true_2 in H by done. simpl in *. lia.
Qed.

Lemma archive_turn_same now out a s next s' o : archive_turn color gzip gzip_broken env now out a s = (next, s', o) →
  lo_rollers s' = lo_rollers s ∧ lo_emits s' = lo_emits s ∧ lo_rolling s' = lo_rolling s.
Proof. unfold archive_turn. intros H. repeat case_match; simplify_eq; done. Qed.

(** A turn of a thread: it goes on, or ends and gives the flag back. *)
Inductive roll_moves (j : nat) (s s' : Logger) : Prop :=
  | moves_on r : r ≠ RoDone → lo_rollers s' = <[j:=r]> (lo_rollers s) → lo_rolling s' = lo_rolling s → roll_moves j s s'
  | moves_done : lo_rollers s' = <[j:=RoDone]> (lo_rollers s) → lo_rolling s' = false → roll_moves j s s'.
Lemma roll_turn_moves now j r s s' o : r ≠ RoDone → roll_turn now j r s = (s', o) →
  roll_moves j s s' ∧ lo_emits s' = lo_emits s.
Proof.
  intros Hr H. destruct r; simpl in H; unfold start_archive, rename_failed in H; try done.
  all: repeat case_match; simplify_eq; try match goal with H : archive_turn _ _ _ _ _ _ _ _ = _ |- _ =>
    apply archive_turn_same in H as (Hro & He & Hf) end;
    (split; [|done]).
  all: first [ apply moves_done; [simpl; by rewrite ?Hro|done]
             | eapply moves_on; [|simpl; rewrite ?Hro; reflexivity|done]; done ].
Qed.

Lemma step_flag e s s' o : flag_ok s → log_step e s = (s', o) → flag_ok s'.
Proof.
  intros Hf. destruct e as [info|i t now|j now|]; simpl.
  - intros [= <- _]. unfold flag_ok, owners in *. simpl. rewrite count_app, count_one. by case_bool_decide; simpl; lia.
  - unfold emit_turn. destruct (lo_emits s !! i) as [[info e]|] eqn:Hi; [|by intros [= <- _]].
    pose proof (λ e', owners_emit s i info e e' Hi) as Ho. unfold flag_ok in *. destruct e; simpl in Ho.
    + intros [= <- _]. unfold throttle. specialize (Ho EmLogging) as Ho1. specialize (Ho EmSwapping) as Ho2.
      case_match; simpl in *; unfold owners in *; simpl in *; lia.
    + intros [= <- _]. unfold swap_rolling. specialize (Ho EmLogging) as Ho1. specialize (Ho EmSizing) as Ho2.
      destruct (lo_rolling s) eqn:Hro; unfold owners in *; simpl in *; lia.
    + intros [= <- _]. unfold check_and_roll. destruct (fs_metadata (log_file env) (lo_fs s)) as [r fs]. specialize (Ho EmLogging) as Ho1.
      assert (lo_rolling s = true) as Hro.
      { destruct (lo_rolling s); [done|]. simpl in *. lia. }
      destruct r as [len|]; [destruct (len <=? MAX_SIZE_BYTES)%N|]; unfold owners in *; simpl in *; rewrite ?Hro in *;
        rewrite ?count_app, ?count_one; simpl in *; lia.
    + specialize (Ho EmDone) as Ho1. unfold log, append_file. intros H. repeat case_match; simplify_eq; unfold owners in *; simpl in *; lia.
    + by intros [= <- _].
  - destruct (lo_rollers s !! j) as [r|] eqn:Hj; [|by intros [= <- _]]. destruct (decide (r = RoDone)) as [->|Hr].
    { by intros [= <- _]. }
    intros H. apply roll_turn_moves in H as [Hm He]; [|done].
    destruct Hm as [r' Hr' Hro Hl|Hro Hl]; [pose proof (move_flag s j r r' Hj Hr Hr' Hf) as H|pose proof (finish_flag s j r Hj Hr Hf) as H];
      unfold flag_ok, owners in *; rewrite Hro, He, Hl; exact H.
  - by intros [= <- _].
Qed.

Lemma run_flag es s s' tr : flag_ok s → log_run es s = (s', tr) → flag_ok s'.
Proof.
  revert s tr. induction es as [|e es IH]; intros s tr Hf; simpl; [by intros [= <- _]|].
  destruct (log_step e s) as [s1 o] eqn:H1, (log_run es s1) as [s2 tr2] eqn:H2. intros [= <- _].
  eapply IH; [|done]. by eapply step_flag.
Qed.

(** ** The turns of a thread *)

Definition archive_left (a : Archiving) : nat :=
  match a with ArRead => 5 | ArCreate _ => 4 | ArCompress _ => 3 | ArFinish _ => 2 | ArRemove => 1 end.
Definition turns_left (r : Roller) : nat :=
  match r with
  | RoStat => 14 | RoRename _ => 13 | RoRepair _ => 12
  | RoArchive (Some _) _ a => 6 + archive_left a
  | RoRetry _ => 6
  | RoArchive None _ a => archive_left a
  | RoDone => 0
  end.
(** The turns that are left to the [j]-th thread; none if there is no such thread. *)
Definition left_at (j : nat) (s : Logger) : nat := from_option turns_left 0 (lo_rollers s !! j).

Lemma archive_left_pos a : 0 < archive_left a.
Proof. destruct a; simpl; lia. Qed.
Lemma archive_turn_left now out a s a' s' o :
  archive_turn color gzip gzip_broken env now out a s = (Some a', s', o) → archive_left a' < archive_left a.
Proof. unfold archive_turn. intros H. destruct a; repeat case_match; simplify_eq; simpl; lia. Qed.

Lemma roll_turn_left now j r s s' o : lo_rollers s !! j = Some r → r ≠ RoDone → roll_turn now j r s = (s', o) →
  left_at j s' < turns_left r.
Proof.
  intros Hj Hr H. pose proof (lookup_lt_Some _ _ _ Hj) as Hl. unfold left_at.
  destruct r; simpl in H; unfold start_archive, rename_failed in H; try done.
  all: repeat case_match; simplify_eq; try match goal with H : archive_turn _ _ _ _ _ _ _ _ = _ |- _ =>
    pose proof (archive_turn_same _ _ _ _ _ _ _ H) as (Hro & _ & _); try apply archive_turn_left in H end.
  all: simpl; rewrite ?Hro, list_lookup_insert_eq by (rewrite ?Hro; done); simpl;
    try (pose proof (archive_left_pos a)); try destruct repairing; lia.
Qed.
Lemma roll_turn_others now j k r s s' o : j ≠ k → r ≠ RoDone → roll_turn now j r s = (s', o) →
  lo_rollers s' !! k = lo_rollers s !! k.
Proof. intros Hne Hr H. apply roll_turn_moves in H as [[r' _ -> _| -> _] _]; [by rewrite list_lookup_insert_ne..|done]. Qed.

(** What the others do takes no turn of a thread and brings none back. *)
Lemma step_left e s s' o j : e ≠ EvRestart → log_step e s = (s', o) → is_Some (lo_rollers s !! j) →
  is_Some (lo_rollers s' !! j)
  ∧ left_at j s' ≤ left_at j s - (match e with EvRoll k _ => if decide (k = j) then 1 else 0 | _ => 0 end).
Proof.
  intros He H [r Hj]. assert (lo_rollers s' !! j = Some r → (is_Some (lo_rollers s' !! j)) ∧ left_at j s' ≤ left_at j s - 0) as Hsame.
  { unfold left_at. intros ->. rewrite Hj. split; [done|lia]. }
  destruct e as [info|i t now|k now|]; simpl in H; [injection H as <- _; by apply Hsame| | |done].
  - apply Hsame. unfold emit_turn, throttle, swap_rolling, check_and_roll, log, append_file in H.
    repeat case_match; simplify_eq; simpl; try done. by apply lookup_app_l_Some.
  - destruct (lo_rollers s !! k) as [q|] eqn:Hk; [|injection H as <- _; case_decide; [congruence|by apply Hsame]].
    destruct (decide (q = RoDone)) as [->|Hq].
    { injection H as <- _. case_decide; [subst|by apply Hsame]. unfold left_at. rewrite Hk. split; [done|simpl; lia]. }
    case_decide as Hkj; [subst k|apply Hsame; by rewrite (roll_turn_others _ _ _ _ _ _ _ Hkj Hq H)].
    pose proof (roll_turn_left _ _ _ _ _ _ Hk Hq H) as Hl. unfold left_at at 2. rewrite Hk. simpl. split; [|lia].
    apply roll_turn_moves in H as [[r' _ -> _| -> _] _]; [..|done];
      rewrite list_lookup_insert_eq by (by eapply lookup_lt_Some); done.
Qed.

(** How often a run has a turn of the [j]-th thread. *)
Definition turns_of (j : nat) (es : list Event) : nat :=
  count (λ e, match e with EvRoll k _ => bool_decide (k = j) | _ => false end) es.

Lemma run_left es s s' tr j : EvRestart ∉ es → log_run es s = (s', tr) → is_Some (lo_rollers s !! j) →
  is_Some (lo_rollers s' !! j) ∧ left_at j s' ≤ left_at j s - turns_of j es.
Proof.
  revert s tr. induction es as [|e es IH]; intros s tr Hn; simpl.
  { intros [= <- _]. unfold turns_of, count. rewrite filter_nil. simpl. split; [done|lia]. }
  destruct (log_step e s) as [s1 o] eqn:H1, (log_run es s1) as [s2 tr2] eqn:H2. intros [= <- _] Hj.
  apply not_elem_of_cons in Hn as [Hne Hn]. destruct (step_left e s s1 o j) as [Hj1 Hl1]; [congruence|done..|].
  destruct (IH s1 tr2 Hn H2 Hj1) as [Hj2 Hl2]. split; [done|]. unfold turns_of in *. rewrite count_cons.
  destruct e; simpl in *; try lia. case_decide; [rewrite bool_decide_eq_true_2 by done|rewrite bool_decide_eq_false_2 by done];
    simpl; lia.
Qed.

(** The flag is a lock, and it is given back.  In every run, whatever calls fail
    and wherever the process is stopped and started again, the flag is set exactly
    while one holder is at work (the call that looks at the size or the one thread
    that puts the log away), and there is never a second one; and a thread ends, on
    every path of errors and repair, after at most fourteen turns of its own,
    whatever the others do between them. *)
Theorem roll_flag_is_a_lock es fs s tr :
  log_run es (log_started fs) = (s, tr) →
  owners s = (if lo_rolling s then 1 else 0)
  ∧ ∀ j r more s' tr', lo_rollers s !! j = Some r → EvRestart ∉ more → 14 ≤ turns_of j more →
      log_run more s = (s', tr') → lo_rollers s' !! j = Some RoDone.
Proof.
  intros H. split; [exact (run_flag es (log_started fs) s tr ltac:(done) H)|]. intros j r more s' tr' Hj Hn Ht Hr.
  destruct (run_left more s s' tr' j Hn Hr) as [[r' Hj'] Hl]; [by rewrite Hj|]. rewrite Hj'. f_equal.
  assert (∀ q, turns_left q ≤ 14) as Hmax.
  { intros q. destruct q as [| | |[] ? []| |]; simpl; lia. }
  unfold left_at in Hl. rewrite Hj', Hj in Hl. simpl in Hl. pose proof (Hmax r).
  destruct r' as [| | |[] ? []| |]; simpl in Hl; done || lia.
Qed.

(** ** The journal *)

Definition one_line (text : string) : Prop := str_has "010" text = false.
Lemma concat_one_line sep ws : one_line sep → (∀ w, w ∈ ws → one_line w) → one_line (String.concat sep ws).
Proof.
  unfold one_line. intros Hs. induction ws as [|w ws IH]; intros Hw; [done|]. simpl. destruct ws as [|v ws].
  - apply Hw. by constructor.
  - rewrite !str_has_app, Hs, (Hw w) by constructor. apply IH. intros x Hx. apply Hw. by constructor.
Qed.
Lemma journald_one_line info : one_line (ls_topic info) → one_line (render_journald info).
Proof.
  intros Ht. assert (one_line (String.concat " " (split_whitespace (ls_content info)))) as Hc.
  { apply concat_one_line; [done|]. intros w. by apply split_whitespace_space. }
  assert (one_line (level_str (ls_level info))) as Hl by (by destruct (ls_level info)).
  unfold one_line, render_journald in *.
  assert (str_has "010" (pretty (syslog_priority (ls_level info))) = false) as Hp by (by destruct (ls_level info)).
  case_match; rewrite !str_has_app, Hp, Hl, Ht, ?Hc; done.
Qed.

(** Calls of [emit] under a journal: those of the run, in two phases. *)
Definition journaling (es : list Event) (fs : Fs) (s : Logger) : Prop :=
  lo_fs s = fs ∧ lo_rolling s = false ∧ lo_rollers s = []
  ∧ (∀ i info e, lo_emits s !! i = Some (info, e) → EvEmit info ∈ es ∧ e ∈ [EmLogging; EmDone])
  ∧ ∀ p, p ∈ lo_out s → ∃ info, EvEmit info ∈ es ∧ p = write_stream (ls_level info) (render_journald info).
Lemma journal_step es fs s s' e o : log_mode env = ModeJournald → e ∈ es → journaling es fs s → log_step e s = (s', o) →
  journaling es fs s' ∧ o = [].
Proof.
  intros Hm He (Hf & Hl & Hr & Hem & Ho). destruct e as [info|i t now|j now|]; simpl.
  - intros [= <- <-]. split; [|done]. split_and!; [done..| |done]. simpl. intros i info' e.
    rewrite lookup_app_Some, Hm. intros [|[_ H]]; [by eapply Hem|]. apply list_lookup_singleton_Some in H as [_ [= <- <-]].
    split; [done|]. simpl. set_solver.
  - unfold emit_turn, log, render. rewrite Hm. destruct (lo_emits s !! i) as [[info e]|] eqn:Hi; [|by intros [= <- <-]].
    destruct (Hem i info e Hi) as [Hin Hp]. assert (e = EmLogging ∨ e = EmDone) as [->| ->] by set_solver; intros [= <- <-]; [|done].
    split; [|done]. split_and!; [done..| |]; simpl.
    + intros k info' e' [(<- & [= <- <-] & _)|[_ H]]%list_lookup_insert_Some; [split; [done|set_solver]|by eapply Hem].
    + intros p. rewrite elem_of_app, list_elem_of_singleton. intros [Hp'| ->]; [by apply Ho|]. by exists info.
  - rewrite Hr. simpl. by intros [= <- <-].
  - intros [= <- <-]. split; [|done]. split_and!; simpl; try done. intros p Hp'. set_solver.
Qed.

(** Under a journal every entry is one line.  A run in which the output is read
    by [journald] touches no file and starts no thread; all it prints are the entries
    that were emitted, on the error stream for warnings and worse, each with its
    syslog priority in front; and each is a single line, whatever its content, as
    long as the topic has no line break. *)
Theorem journal_entries_are_lines es fs s tr :
  log_mode env = ModeJournald → log_run es (log_started fs) = (s, tr) →
  lo_fs s = fs ∧ lo_rollers s = [] ∧ tr = []
  ∧ ∀ p, p ∈ lo_out s → ∃ info, EvEmit info ∈ es
      ∧ p = (if bool_decide (ls_level info ∈ [Warning; Error; Critical]) then ToStderr else ToStdout) (render_journald info)
      ∧ (∃ rest, render_journald info = "<" +:+ pretty (syslog_priority (ls_level info)) +:+ ">" +:+ rest)
      ∧ (one_line (ls_topic info) → one_line (render_journald info)).
Proof.
  intros Hm Hrun. assert (journaling es fs s ∧ tr = []) as [(Hf & _ & Hr & _ & Ho) ->].
  { assert (∀ es' s0 s' tr', es' ⊆ es → journaling es fs s0 → log_run es' s0 = (s', tr') → journaling es fs s' ∧ tr' = []) as Hall.
    { induction es' as [|e es' IH]; intros s0 s' tr' Hin Hj; simpl; [by intros [= <- <-]|].
      destruct (log_step e s0) as [s1 o] eqn:H1, (log_run es' s1) as [s2 tr2] eqn:H2. intros [= <- <-].
      destruct (journal_step es fs s0 s1 e o Hm) as [Hj1 ->]; [set_solver|done..|]. simpl. eapply IH; [set_solver|done..]. }
    eapply Hall; [done| |done]. split_and!; simpl; try done. intros p Hp. set_solver. }
  split_and!; [done..|]. intros p (info & Hin & ->)%Ho. exists info. split_and!; [done| |by eexists|apply journald_one_line].
  by destruct (ls_level info).
Qed.
End log_props.
