(* ===== verification/LogFile.v ===== *)
(** * What happens to the lines of the log

    The file, the temporary file and the archives while tasks append and a thread
    puts the file away: when no call fails nothing is lost; what a roll that did not
    end has left is overwritten by the next. *)
From S2P Require Import Prelude Text Fsutil Crypto Authority Replay AdminV2 Config PathProps Log LogProps.

(** ** What a run has written, named and put away *)

Definition written (tr : list Obs) : string :=
  foldr (λ o acc, match o with OLine _ line => line +:+ eol +:+ acc | _ => acc end) "" tr.
Definition archived (tr : list Obs) : string :=
  foldr (λ o acc, match o with OArchived _ data => data +:+ acc | _ => acc end) "" tr.
Definition names (tr : list Obs) : list string := omap (λ o, match o with ONamed out => Some out | _ => None end) tr.

Lemma written_app tr tr' : written (tr ++ tr') = written tr +:+ written tr'.
Proof. induction tr as [|[] tr IH]; simpl; rewrite ?IH, ?string_app_assoc; done. Qed.
Lemma archived_app tr tr' : archived (tr ++ tr') = archived tr +:+ archived tr'.
Proof. induction tr as [|[] tr IH]; simpl; rewrite ?IH, ?string_app_assoc; done. Qed.
Lemma names_app tr tr' : names (tr ++ tr') = names tr ++ names tr'.
Proof. apply omap_app. Qed.
Lemma named_in out tr : ONamed out ∈ tr → out ∈ names tr.
Proof. intros H. apply list_elem_of_omap. by exists (ONamed out). Qed.

(** The times in a name are no paths. *)
Definition moment_ok (now : Moment) : Prop :=
  str_has "/" (mo_minute now) = false ∧ str_has "/" (default "" (mo_created now)) = false.
Definition event_ok (e : Event) : Prop :=
  match e with EvEmit _ => True | EvTurn _ _ now | EvRoll _ now => moment_ok now | EvRestart => False end.

Section log_file.
Context (color : LogLevel → string) (gzip : string → string) (gzip_broken : string → nat → string) (env : Env).
Context (filed : log_mode env = ModeFile).

Abbreviation log_step := (log_step color gzip gzip_broken env) (only parsing).
Abbreviation log_run := (log_run color gzip gzip_broken env) (only parsing).
Abbreviation roll_turn := (roll_turn color gzip gzip_broken env) (only parsing).

Definition log_dir : path := path_of (gz_path env).

(** ** Paths *)

Lemma gz_path_not_empty : gz_path env ≠ "".
Proof.
  apply lossy_not_empty. unfold log_path, env_path. repeat case_match; simplify_eq; try done;
    by match goal with H : str_is_empty _ = false |- _ => apply str_is_empty_false in H end.
Qed.
Lemma in_log_dir name : plain_name name → path_of (gz_path env +:+ "/" +:+ name) = log_dir ++ [name].
Proof. apply path_of_slash, gz_path_not_empty. Qed.
Lemma log_file_path : log_file env = log_dir ++ ["log"].
Proof. by apply (in_log_dir "log"). Qed.
Lemma tmp_file_path : tmp_file env = log_dir ++ ["log.tmp"].
Proof. unfold tmp_file, logtmp_filepath, log_filepath. rewrite !string_app_assoc. by apply (in_log_dir "log.tmp"). Qed.

(** An archive is a file of the directory whose name ends in [.gz]. *)
Definition names_archive (out : string) : Prop :=
  ∃ stem, out = gz_path env +:+ "/" +:+ stem +:+ ".gz" ∧ path_of out = log_dir ++ [stem +:+ ".gz"].
Lemma archive_named created now : str_has "/" created = false → moment_ok now → names_archive (archive_path env created now).
Proof.
  intros Hc [Hm _]. exists (created +:+ "-" +:+ mo_minute now +:+ "-" +:+ pretty (default 0%Z (mo_nanos now))).
  unfold archive_path. rewrite !string_app_assoc. split; [done|]. apply in_log_dir. split_and!.
  - rewrite !str_has_app, Hc, Hm, pretty_Z_has; [done| |done]. intros n Hn. pose proof (pretty_char_digit n) as Hd.
    rewrite Hn in Hd. set_solver.
  - destruct created; done.
  - intros Heq. apply (f_equal String.length) in Heq. rewrite !string_length_app in Heq. simpl in Heq. lia.
  - intros Heq. apply (f_equal String.length) in Heq. rewrite !string_length_app in Heq. simpl in Heq. lia.
Qed.
Lemma archive_apart out : names_archive out → path_of out ≠ log_file env ∧ path_of out ≠ tmp_file env.
Proof.
  intros (stem & _ & ->). rewrite log_file_path, tmp_file_path. split; intros [=Heq]%app_inv_head.
  - by apply (suffix_ne stem "" ".gz" "log") in Heq.
  - by apply (suffix_ne stem "log." ".gz" "tmp") in Heq.
Qed.
Lemma archive_paths out out' : names_archive out → names_archive out' → path_of out = path_of out' → out = out'.
Proof. intros (s & -> & ->) (s' & -> & ->) [=Heq]%app_inv_head. by rewrite Heq. Qed.
Lemma log_not_tmp : log_file env ≠ tmp_file env.
Proof. rewrite log_file_path, tmp_file_path. by intros [=]%app_inv_head. Qed.

(** ** The calls, when nothing fails *)

(** The directory is there, and no other directory has the name of a file of the log. *)
Record log_ready (fs : Fs) : Prop := {
  lr_faults : fs_faults fs = [];
  lr_dir : log_dir = [] ∨ log_dir ∈ fs_dirs fs;
  lr_plain : log_file env ∉ fs_dirs fs ∧ tmp_file env ∉ fs_dirs fs
    ∧ ∀ out, names_archive out → path_of out ∉ fs_dirs fs;
}.
Lemma ready_files fs files : log_ready fs → log_ready (set_files fs files).
Proof. intros [? ? ?]. by split. Qed.
Lemma ready_dir fs name : log_ready fs → name ≠ "/" → dir_exists fs (log_dir ++ [name]) = true.
Proof.
  intros [_ Hd _] Hn. unfold dir_exists. rewrite path_parent_snoc by done. apply orb_true_iff.
  destruct Hd as [->|Hd]; [left|right]; by apply bool_decide_eq_true_2.
Qed.
Lemma no_fault fs : log_ready fs → next_fault fs = (None, fs).
Proof. intros [Hf _ _]. unfold next_fault. by rewrite Hf. Qed.

Definition text_at (p : path) (fs : Fs) : string := from_option f_data "" (fs_files fs !! p).

Lemma stat_ready p fs r fs' : log_ready fs → fs_metadata p fs = (r, fs') →
  fs' = fs ∧ (p ∉ fs_dirs fs → r = ok_or ((λ f, N.of_nat (String.length (f_data f))) <$> fs_files fs !! p) (fs_error NotFound)).
Proof.
  intros Hr. unfold fs_metadata. rewrite no_fault by done. intros [= <- <-]. split; [done|]. intros Hp.
  destruct (fs_files fs !! p); [done|]. by rewrite bool_decide_eq_false_2.
Qed.
Lemma append_ready text fs : log_ready fs →
  ∃ mode, (fs_open_append (log_file env) ;; fs_append (log_file env) text ;; fs_append (log_file env) eol) fs
    = (Ok (), set_files fs (<[log_file env := MkFile (text_at (log_file env) fs +:+ text +:+ eol) mode]> (fs_files fs))).
Proof.
  intros Hr. assert (dir_exists fs (log_file env) = true) as Hd by (rewrite log_file_path; by apply ready_dir).
  destruct (lr_plain fs Hr) as [Hp _]. set (p := log_file env) in *.
  assert (∃ mode, fs_open_append p fs = (Ok (), set_files fs (<[p := MkFile (text_at p fs) mode]> (fs_files fs)))) as [mode Ho].
  { unfold fs_open_append, text_at. rewrite no_fault, Hd, bool_decide_eq_false_2 by done. simpl.
    destruct (fs_files fs !! p) as [[data mode]|] eqn:E; [|by eexists]. exists mode. simpl.
    rewrite insert_id by done. by destruct fs. }
  exists mode. unfold mbind, ST_bind. rewrite Ho. unfold fs_append.
  rewrite !no_fault by (by repeat apply ready_files). simpl. f_equal. unfold set_files. simpl. f_equal.
  apply map_eq. intros q. destruct (decide (q = p)) as [->|Hq].
  - rewrite !lookup_partial_alter_eq, lookup_insert_eq. simpl. by rewrite lookup_insert_eq, string_app_assoc.
  - by rewrite !lookup_partial_alter_ne, !lookup_insert_ne by done.
Qed.
Lemma rename_ready fs file : log_ready fs → fs_files fs !! log_file env = Some file →
  fs_rename (log_file env) (tmp_file env) fs
    = (Ok (), set_files fs (<[tmp_file env := file]> (delete (log_file env) (fs_files fs)))).
Proof.
  intros Hr Hf. unfold fs_rename. rewrite no_fault, Hf by done. rewrite bool_decide_eq_false_2; [done|].
  by destruct (lr_plain fs Hr) as (_ & ? & _).
Qed.
Lemma read_ready fs file : log_ready fs → fs_files fs !! tmp_file env = Some file → fs_read (tmp_file env) fs = (Ok (f_data file), fs).
Proof. intros Hr Hf. unfold fs_read. by rewrite no_fault, Hf. Qed.
Lemma create_ready out fs : log_ready fs → names_archive out →
  ∃ mode, fs_write (path_of out) "" fs = (Ok (), set_files fs (<[path_of out := MkFile "" mode]> (fs_files fs))).
Proof.
  intros Hr Ho. assert (dir_exists fs (path_of out) = true) as Hd.
  { destruct Ho as (stem & _ & ->). apply ready_dir; [done|]. intros Heq. apply (f_equal String.length) in Heq.
    rewrite string_length_app in Heq. simpl in Heq. lia. }
  destruct (lr_plain fs Hr) as (_ & _ & Hp). unfold fs_write.
  rewrite no_fault, Hd, bool_decide_eq_false_2 by auto. simpl. eauto.
Qed.
Lemma compress_ready out data finished fs file : log_ready fs → fs_files fs !! path_of out = Some file →
  ∃ file', fs_compress gzip gzip_broken (path_of out) data finished fs = (Ok (), set_files fs (<[path_of out := file']> (fs_files fs)))
    ∧ (finished = true → f_data file' = gzip data).
Proof.
  intros Hr Hf. eexists (MkFile _ (f_mode file)). unfold fs_compress. rewrite no_fault by done. split.
  - do 2 f_equal. apply map_eq. intros q. destruct (decide (q = path_of out)) as [->|Hq].
    + by rewrite lookup_partial_alter_eq, lookup_insert_eq, Hf.
    + by rewrite lookup_partial_alter_ne, lookup_insert_ne.
  - intros ->. done.
Qed.
Lemma remove_ready fs file : log_ready fs → fs_files fs !! tmp_file env = Some file →
  fs_remove (tmp_file env) fs = (Ok (), set_files fs (delete (tmp_file env) (fs_files fs))).
Proof. intros Hr Hf. unfold fs_remove. by rewrite no_fault, Hf. Qed.

(** ** The invariant *)

Definition long (text : string) : Prop := (MAX_SIZE_BYTES < N.of_nat (String.length text))%N.
(** The line that an entry becomes. *)
Definition entry_line (info : LogStruct) (now : Moment) : string :=
  format_entry (level_str (ls_level info)) (Some (mo_time now)) (ls_topic info) (ls_content info).

(** What is still to be put away, while an archive is made: [data]. *)
Definition archiving_ok (files : gmap path File) (tr : list Obs) (out data : string) (a : Archiving) : Prop :=
  (from_option f_data "" (files !! tmp_file env) = data ∧ long data ∧ ∀ d, OArchived out d ∉ tr)
  ∧ match a with
    | ArCreate b => b = data
    | ArCompress b | ArFinish b => b = data ∧ is_Some (files !! path_of out)
    | _ => True
    end.
(** The turn a thread is at, with what is neither in the log nor in an archive. *)
Definition phase_ok (files : gmap path File) (tr : list Obs) (pending : string) (r : Roller) : Prop :=
  match r with
  | RoStat => pending = "" ∧ files !! tmp_file env = None ∧ long (from_option f_data "" (files !! log_file env))
  | RoRename created =>
      pending = "" ∧ files !! tmp_file env = None ∧ long (from_option f_data "" (files !! log_file env))
      ∧ str_has "/" created = false
  | RoArchive None out a =>
      names_archive out ∧ out ∈ names tr ∧ is_Some (files !! tmp_file env)
      ∧ match a with ArRemove => pending = "" | _ => archiving_ok files tr out pending a end
  | _ => False
  end.
Definition archives_ok (files : gmap path File) (tr : list Obs) : Prop :=
  ∀ out data, OArchived out data ∈ tr →
    out ∈ names tr ∧ names_archive out ∧ long data
    ∧ ∃ file, files !! path_of out = Some file ∧ f_data file = gzip data.

Record kept (init : string) (s : Logger) (tr : list Obs) : Prop := {
  k_ready : log_ready (lo_fs s);
  k_flag : flag_ok s;
  k_lines : ∃ pending, archived tr +:+ pending +:+ text_at (log_file env) (lo_fs s) = init +:+ written tr
    ∧ ((∃ j r, lo_rollers s !! j = Some r ∧ r ≠ RoDone ∧ phase_ok (fs_files (lo_fs s)) tr pending r)
       ∨ (count rolling (lo_rollers s) = 0 ∧ pending = "" ∧ fs_files (lo_fs s) !! tmp_file env = None));
  k_archives : archives_ok (fs_files (lo_fs s)) tr;
  k_entries : ∀ i info, lo_emits s !! i = Some (info, EmDone) → ∃ now, OLine i (entry_line info now) ∈ tr;
}.

(** A turn that leaves files and threads alone. *)
Lemma kept_same init s s' tr : kept init s tr → flag_ok s' → lo_fs s' = lo_fs s → lo_rollers s' = lo_rollers s →
  (∀ i info, lo_emits s' !! i = Some (info, EmDone) → lo_emits s !! i = Some (info, EmDone)) → kept init s' tr.
Proof. intros [? ? ? ? ?] Hflag Hfs Hro He. split; rewrite ?Hfs, ?Hro; auto. Qed.
Lemma entries_kept i info e (l : list (LogStruct * Emitting)) : e ≠ EmDone → ∀ k info', <[i := (info, e)]> l !! k = Some (info', EmDone) → l !! k = Some (info', EmDone).
Proof. intros He k info' [(-> & [= ? ?] & _)|[_ H]]%list_lookup_insert_Some; [congruence|done]. Qed.

(** The holder of the flag is alone. *)
Lemma alone s i info : flag_ok s → lo_emits s !! i = Some (info, EmSizing) → count rolling (lo_rollers s) = 0.
Proof.
  unfold flag_ok, owners. intros Hf Hi. pose proof (count_insert sizing _ i _ (info, EmDone) Hi) as Hc.
  change (sizing (info, EmSizing)) with true in Hc. change (sizing (info, EmDone)) with false in Hc. simpl in Hc. destruct (lo_rolling s); simpl in Hf; lia.
Qed.
Lemma one_roller s j r k q : flag_ok s → lo_rollers s !! j = Some r → lo_rollers s !! k = Some q → r ≠ RoDone → q ≠ RoDone →
  j = k.
Proof.
  unfold flag_ok, owners. intros Hf Hj Hk Hr Hq. destruct (decide (j = k)) as [|Hne]; [done|exfalso].
  pose proof (count_insert rolling _ j r RoDone Hj) as Hc. assert (<[j:=RoDone]> (lo_rollers s) !! k = Some q) as Hk'
    by (by rewrite list_lookup_insert_ne).
  pose proof (count_insert rolling _ k q RoDone Hk') as Hc'.
  assert (∀ x, x ≠ RoDone → rolling x = true) as Hroll by (intros; by apply bool_decide_eq_true_2).
  rewrite (Hroll r) in Hc by done. rewrite (Hroll q) in Hc' by done. simpl in *. destruct (lo_rolling s); simpl in Hf; lia.
Qed.

Lemma step_emit init s tr info : kept init s tr → kept init (new_emit env info s) tr.
Proof.
  intros Hk. apply (kept_same init s); [done| |done..|].
  - by apply (step_flag color gzip gzip_broken env (EvEmit info) s _ [] (k_flag _ _ _ Hk)).
  - simpl. intros i info'. rewrite lookup_app_Some. intros [|[_ H]]; [done|].
    apply list_lookup_singleton_Some in H as [_ [= _ H]]. by case_bool_decide.
Qed.

(** The line of an entry goes to the end of the log. *)
Lemma append_phase files mode tr line obs pending r : obs = [OLine line.1 line.2] →
  phase_ok files tr pending r →
  phase_ok (<[log_file env := MkFile (from_option f_data "" (files !! log_file env) +:+ line.2 +:+ eol) mode]> files) (tr ++ obs) pending r.
Proof.
  intros ->. pose proof (log_not_tmp) as Hne.
  assert (∀ t, long t → long (t +:+ line.2 +:+ eol)) as Hlong
    by (unfold long; intros t Ht; rewrite string_length_app; lia).
  unfold phase_ok, archiving_ok. rewrite names_app. simpl. rewrite app_nil_r, !lookup_insert_ne, lookup_insert_eq by done. simpl.
  destruct r as [|created|created|[repairing|] out a|created|]; try done.
  - intros (? & ? & ?). auto.
  - intros (? & ? & ? & ?). auto.
  - intros (Hn & Hin & Hs & Ha). split_and!; [done..|].
    destruct (archive_apart out Hn) as [Hol _]. rewrite lookup_insert_ne by done.
    destruct a; try done; destruct Ha as [(? & ? & Hno) ?]; (split; [|done]); split_and!; try done;
      intros d; rewrite elem_of_app, list_elem_of_singleton; intros [Hd|[=]]; by apply (Hno d).
Qed.

Lemma step_log init s tr now i info t s' o : kept init s tr → lo_emits s !! i = Some (info, EmLogging) →
  emit_turn color env i t now s = (s', o) → kept init s' (tr ++ o).
Proof.
  intros Hk Hi Ht. assert (flag_ok s') as Hflag by (by apply (step_flag color gzip gzip_broken env (EvTurn i t now) s s' o (k_flag _ _ _ Hk))).
  unfold emit_turn in Ht. rewrite Hi in Ht. unfold log in Ht. rewrite filed in Ht. unfold append_file in Ht. cbn [lo_fs print set_emit] in Ht.
  destruct (append_ready (entry_line info now) (lo_fs s) (k_ready _ _ _ Hk)) as [mode Ha].
  unfold entry_line in Ha. rewrite Ha in Ht. injection Ht as <- <-. destruct Hk as [Hr _ (pending & Heq & Hph) Har Hen].
  pose proof (log_not_tmp) as Hne. split; [by apply ready_files|done|..].
  - exists pending. rewrite archived_app, written_app. simpl. unfold text_at at 1. simpl. rewrite lookup_insert_eq. simpl.
    rewrite !string_app_nil_r. split.
    { rewrite <-(string_app_assoc pending), <-(string_app_assoc (archived tr)), Heq. by rewrite string_app_assoc. }
    destruct Hph as [(j & r & Hj & Hnd & Hp)|(Hc & Hp & Ht)]; [left|right].
    + exists j, r. split_and!; [done..|]. by apply (append_phase _ mode tr (i, entry_line info now)).
    + by rewrite lookup_insert_ne.
  - intros out data. rewrite elem_of_app, list_elem_of_singleton. intros [Hin|[=]]. destruct (Har out data Hin) as (H1 & H2 & H3 & H4).
    rewrite names_app. simpl. rewrite app_nil_r. destruct (archive_apart out H2). by rewrite lookup_insert_ne.
  - simpl. intros k info' [(<- & [= <-] & _)|[_ Hk]]%list_lookup_insert_Some.
    + exists now. rewrite elem_of_app, list_elem_of_singleton. by right.
    + destruct (Hen k info' Hk) as [now' ?]. exists now'. rewrite elem_of_app. by left.
Qed.

Lemma step_size init s tr i info s' : kept init s tr → lo_emits s !! i = Some (info, EmSizing) →
  check_and_roll env i info s = s' → flag_ok s' → kept init s' tr.
Proof.
  intros Hk Hi <- Hflag. pose proof (alone s i info (k_flag _ _ _ Hk) Hi) as Halone. revert Hflag. unfold check_and_roll.
  destruct (fs_metadata (log_file env) (lo_fs s)) as [r fs] eqn:Hs. apply stat_ready in Hs as [-> Hlen]; [|by eapply k_ready].
  assert (∀ f, f = false → flag_ok (set_rolling f (set_emit i info EmLogging (set_fs (lo_fs s) s))) →
    kept init (set_rolling f (set_emit i info EmLogging (set_fs (lo_fs s) s))) tr) as Hstay.
  { intros f _ Hf. apply (kept_same init s); [done..|]. simpl. by apply entries_kept. }
  destruct r as [len|]; [|by apply Hstay]. destruct (len <=? MAX_SIZE_BYTES)%N eqn:Hl; [by apply Hstay|].
  apply N.leb_gt in Hl. intros Hflag. pose proof Hk as [Hr _ (pending & Heq & Hph) Har Hen].
  specialize (Hlen (proj1 (lr_plain _ Hr))). symmetry in Hlen. apply ok_or_Ok in Hlen.
  split; [done|done|..|done|].
  2:{ intros k info' Hk'. apply Hen. exact (entries_kept i info EmLogging (lo_emits s) ltac:(done) k info' Hk'). }
  exists pending. split; [done|left]. exists (length (lo_rollers s)), RoStat. simpl.
  destruct Hph as [(j & q & Hj & Hnd & _)|(_ & -> & Ht)].
  { apply (count_zero rolling _ _ _ Halone) in Hj. by apply bool_decide_eq_false in Hj as []. }
  rewrite lookup_app_r, Nat.sub_diag by lia. split_and!; [done..|]. unfold long. destruct (fs_files (lo_fs s) !! log_file env); [|done]. injection Hlen as <-. exact Hl.
Qed.

Lemma step_turn init s tr now i t s' o : kept init s tr → emit_turn color env i t now s = (s', o) → kept init s' (tr ++ o).
Proof.
  intros Hk Ht. assert (flag_ok s') as Hflag by (by apply (step_flag color gzip gzip_broken env (EvTurn i t now) s s' o (k_flag _ _ _ Hk))).
  pose proof Ht as Ht0. unfold emit_turn in Ht. destruct (lo_emits s !! i) as [[info []]|] eqn:Hi; try (injection Ht as <- <-; rewrite app_nil_r).
  - apply (kept_same init s); [done|done|unfold throttle; by case_match..|].
    unfold throttle. case_match; simpl; by apply entries_kept.
  - apply (kept_same init s); [done|done|done..|]. simpl. case_match; by apply entries_kept.
  - by eapply step_size.
  - by eapply step_log.
  - done.
  - done.
Qed.

(** ** The turns of the thread *)

(** A turn of the thread at work: its next turn, or its end. *)
Lemma kept_next init s tr j r r' s' o pending' : kept init s tr → lo_rollers s !! j = Some r → r ≠ RoDone →
  flag_ok s' → log_ready (lo_fs s') → lo_emits s' = lo_emits s → lo_rollers s' = <[j := r']> (lo_rollers s) → written o = "" →
  archived (tr ++ o) +:+ pending' +:+ text_at (log_file env) (lo_fs s') = init +:+ written tr →
  (if decide (r' = RoDone) then pending' = "" ∧ fs_files (lo_fs s') !! tmp_file env = None
   else phase_ok (fs_files (lo_fs s')) (tr ++ o) pending' r') →
  archives_ok (fs_files (lo_fs s')) (tr ++ o) → kept init s' (tr ++ o).
Proof.
  intros Hk Hj Hr Hflag Hready He Hro Hw Heq Hph Har. split; [done..| |done|].
  - exists pending'. rewrite written_app, Hw, string_app_nil_r. split; [done|]. case_decide as Hd; [right|left].
    + subst r'. split; [|done]. rewrite Hro. pose proof (count_insert rolling _ j r RoDone Hj) as Hc.
      pose proof (k_flag _ _ _ Hk) as Hf. unfold flag_ok, owners in Hf.
      assert (rolling r = true) as Hroll by (by apply bool_decide_eq_true_2). rewrite Hroll in Hc.
      destruct (lo_rolling s); simpl in *; lia.
    + exists j, r'. rewrite Hro. split; [|done]. apply list_lookup_insert_eq. by eapply lookup_lt_Some.
  - intros i info Hi. rewrite He in Hi. destruct (k_entries _ _ _ Hk i info Hi) as [now ?]. exists now. rewrite elem_of_app. by left.
Qed.

Lemma archives_more files tr o : (∀ out d, OArchived out d ∉ o) → archives_ok files tr → archives_ok files (tr ++ o).
Proof.
  intros Ho Har out d. rewrite elem_of_app. intros [Hin|Hin]; [|by destruct (Ho out d)].
  destruct (Har out d Hin) as (? & ? & ? & ?). split_and!; [|done..]. rewrite names_app, elem_of_app. by left.
Qed.
Lemma archives_other files tr p file : (∀ out d, OArchived out d ∈ tr → path_of out ≠ p) → archives_ok files tr →
  archives_ok (<[p := file]> files) tr.
Proof.
  intros Hp Har out d Hin. destruct (Har out d Hin) as (? & ? & ? & ?). split_and!; [done..|].
  rewrite lookup_insert_ne; [done|]. intros Heq. by apply (Hp out d Hin).
Qed.
Lemma archives_delete files tr p : (∀ out d, OArchived out d ∈ tr → path_of out ≠ p) → archives_ok files tr →
  archives_ok (delete p files) tr.
Proof.
  intros Hp Har out d Hin. destruct (Har out d Hin) as (? & ? & ? & ?). split_and!; [done..|].
  rewrite lookup_delete_ne; [done|]. intros Heq. by apply (Hp out d Hin).
Qed.
(** The paths of archives are apart from the others'. *)
Lemma archives_paths files tr : archives_ok files tr →
  ∀ out d, OArchived out d ∈ tr → path_of out ≠ log_file env ∧ path_of out ≠ tmp_file env
    ∧ ∀ out', names_archive out' → (∀ d', OArchived out' d' ∉ tr) → path_of out ≠ path_of out'.
Proof.
  intros Har out d Hin. destruct (Har out d Hin) as (_ & Hn & _). destruct (archive_apart out Hn) as [? ?]. split_and!; [done..|].
  intros out' Hn' Hno Heq. apply archive_paths in Heq as ->; [|done..]. by apply (Hno d).
Qed.

Lemma step_rename init s tr j created now s' o : kept init s tr → lo_rollers s !! j = Some (RoRename created) → moment_ok now →
  phase_ok (fs_files (lo_fs s)) tr "" (RoRename created) → archived tr +:+ text_at (log_file env) (lo_fs s) = init +:+ written tr →
  roll_turn now j (RoRename created) s = (s', o) → flag_ok s' → NoDup (names (tr ++ o)) → kept init s' (tr ++ o).
Proof.
  intros Hk Hj Hm (_ & Htmp & Hlong & Hc) Heq Ht Hflag Hnd. pose proof (k_ready _ _ _ Hk) as Hr.
  destruct (fs_files (lo_fs s) !! log_file env) as [file|] eqn:Hf; [|done]. simpl in Ht. rewrite (rename_ready _ file Hr Hf) in Ht.
  unfold start_archive in Ht. injection Ht as <- <-. pose proof (archive_named created now Hc Hm) as Hname.
  pose proof (k_archives _ _ _ Hk) as Har. pose proof (archives_paths _ _ Har) as Hap. pose proof log_not_tmp as Hne.
  eapply (kept_next init s tr j _ _ _ _ (f_data file) Hk Hj); [done|done|by apply ready_files|done|done|done|..].
  - rewrite archived_app. simpl. unfold text_at in *. simpl. rewrite lookup_insert_ne, lookup_delete_eq, !string_app_nil_r by done.
    rewrite Hf in Heq. done.
  - rewrite decide_False by done. simpl. rewrite lookup_insert_eq. unfold archiving_ok. rewrite lookup_insert_eq. simpl.
    split_and!; [done|apply named_in, elem_of_app; right; by constructor|done|done|done| |done].
    intros d. rewrite elem_of_app, list_elem_of_singleton. intros [Hin|[=]]. apply Har in Hin as [Hin _].
    rewrite names_app in Hnd. apply NoDup_app in Hnd as (_ & Hnd & _). by apply (Hnd _ Hin), list_elem_of_singleton.
  - simpl. apply archives_more; [intros ? ?; by rewrite list_elem_of_singleton|].
    apply archives_other; [by intros out d (_ & ? & _)%Hap|]. apply archives_delete; [by intros out d (? & _)%Hap|done].
Qed.

Lemma step_archive init s tr j out a pending now s' o : kept init s tr → lo_rollers s !! j = Some (RoArchive None out a) →
  phase_ok (fs_files (lo_fs s)) tr pending (RoArchive None out a) →
  archived tr +:+ pending +:+ text_at (log_file env) (lo_fs s) = init +:+ written tr →
  roll_turn now j (RoArchive None out a) s = (s', o) → flag_ok s' → kept init s' (tr ++ o).
Proof.
  intros Hk Hj (Hname & Hin & [file Hf] & Hph) Heq Ht Hflag. pose proof (k_ready _ _ _ Hk) as Hr.
  pose proof (k_archives _ _ _ Hk) as Har. pose proof (archives_paths _ _ Har) as Hap. pose proof log_not_tmp as Hne.
  destruct (archive_apart out Hname) as [Hol Hot].
  assert (∀ x, text_at (log_file env) (set_files (lo_fs s) (<[path_of out := x]> (fs_files (lo_fs s)))) = text_at (log_file env) (lo_fs s)) as Htext
    by (intros x; unfold text_at; simpl; by rewrite lookup_insert_ne).
  destruct a as [|b|b|b|]; simpl in Ht; unfold archive_turn in Ht.
  - rewrite (read_ready _ file Hr Hf) in Ht. injection Ht as <- <-.
    eapply (kept_next init s tr j _ _ _ [] pending Hk Hj) ; rewrite ?app_nil_r; try done.
    destruct Hph as [(Hd & Hl & Hno) _]. rewrite Hf in Hd. rewrite decide_False by done. simpl. unfold archiving_ok. rewrite Hf. simpl in *. auto 10.
  - destruct (create_ready out (lo_fs s) Hr Hname) as [mode Hc]. rewrite Hc in Ht. injection Ht as <- <-.
    destruct Hph as [(Hd & Hl & Hno) Hb].
    eapply (kept_next init s tr j _ _ _ [] pending Hk Hj); rewrite ?app_nil_r; try done.
    + by apply ready_files.
    + simpl. by rewrite Htext.
    + rewrite decide_False by done. simpl. unfold archiving_ok. rewrite lookup_insert_ne, lookup_insert_eq by done. auto 10.
    + apply archives_other; [|done]. intros out' d' (_ & _ & Ho)%Hap. auto.
  - destruct Hph as [(Hd & Hl & Hno) [Hb [f0 Hf0]]].
    destruct (compress_ready out b false (lo_fs s) f0 Hr Hf0) as (f1 & Hc & _). rewrite Hc in Ht. injection Ht as <- <-.
    eapply (kept_next init s tr j _ _ _ [] pending Hk Hj); rewrite ?app_nil_r; try done.
    + by apply ready_files.
    + simpl. by rewrite Htext.
    + rewrite decide_False by done. simpl. unfold archiving_ok. rewrite lookup_insert_ne, lookup_insert_eq by done. eauto 10.
    + apply archives_other; [|done]. intros out' d' (_ & _ & Ho)%Hap. auto.
  - destruct Hph as [(Hd & Hl & Hno) [Hb [f0 Hf0]]].
    destruct (compress_ready out b true (lo_fs s) f0 Hr Hf0) as (f1 & Hc & Hgz). rewrite Hc in Ht. injection Ht as <- <-.
    eapply (kept_next init s tr j _ _ _ [OArchived out b] "" Hk Hj); try done.
    + by apply ready_files.
    + simpl. rewrite Htext, archived_app, Hb. simpl. by rewrite string_app_nil_l, string_app_nil_r, string_app_assoc.
    + rewrite decide_False by done. simpl. rewrite names_app, lookup_insert_ne by done. simpl. rewrite app_nil_r. eauto.
    + simpl. intros out' d. rewrite elem_of_app, list_elem_of_singleton. intros [Hin'|[= -> ->]].
      * destruct (Hap _ _ Hin') as (_ & _ & Ho). destruct (Har _ _ Hin') as (H1 & H2 & H3 & H4).
        rewrite names_app, lookup_insert_ne, elem_of_app by (apply not_eq_sym; auto). auto.
      * rewrite names_app, lookup_insert_eq, elem_of_app, Hb in *. split_and!; [by left|done|done|]. exists f1. auto.
  - rewrite (remove_ready _ file Hr Hf) in Ht. injection Ht as <- <-. subst pending.
    eapply (kept_next init s tr j _ RoDone _ [] "" Hk Hj); rewrite ?app_nil_r; try done.
    + by apply ready_files.
    + unfold text_at in *. simpl. by rewrite lookup_delete_ne.
    + rewrite decide_True by done. simpl. by rewrite lookup_delete_eq.
    + simpl. apply archives_delete; [by intros out' d (_ & ? & _)%Hap|done].
Qed.

Lemma step_roll init s tr j now s' o : kept init s tr → log_step (EvRoll j now) s = (s', o) → moment_ok now →
  NoDup (names (tr ++ o)) → kept init s' (tr ++ o).
Proof.
  intros Hk Ht Hm Hnd. pose proof (step_flag _ _ _ _ _ _ _ _ (k_flag _ _ _ Hk) Ht) as Hflag. simpl in Ht.
  destruct (lo_rollers s !! j) as [r|] eqn:Hj; [|injection Ht as <- <-; by rewrite app_nil_r].
  destruct (decide (r = RoDone)) as [->|Hr]; [injection Ht as <- <-; by rewrite app_nil_r|].
  pose proof Hk as [Hready Hf (pending & Heq & Hph) Har Hen].
  assert (phase_ok (fs_files (lo_fs s)) tr pending r) as Hp.
  { destruct Hph as [(k & q & Hq & Hqd & Hp)|(Hc & _)].
    - assert (j = k) as <- by (by eapply one_roller). congruence.
    - apply (count_zero rolling _ _ _ Hc) in Hj. by apply bool_decide_eq_false in Hj as []. }
  destruct r as [|created|created|[repairing|] out a|created|]; try done.
  - simpl in Ht. destruct Hp as (-> & Htmp & Hlong).
    destruct (fs_metadata (log_file env) (lo_fs s)) as [res fs] eqn:Hs. apply stat_ready in Hs as [-> Hlen]; [|done].
    specialize (Hlen (proj1 (lr_plain _ Hready))). destruct (fs_files (lo_fs s) !! log_file env) eqn:E; [|done].
    subst res. injection Ht as <- <-.
    eapply (kept_next init s tr j _ _ _ [] "" Hk Hj); rewrite ?app_nil_r; try done.
    rewrite decide_False by done. simpl. rewrite E. split_and!; [done..|].
    destruct (mo_created now) eqn:Em; [|done]. destruct Hm as [_ Hm]. by rewrite Em in Hm.
  - destruct Hp as (-> & Hp). rewrite string_app_nil_l in Heq. by eapply step_rename.
  - by eapply step_archive.
Qed.

Lemma run_kept init es s tr s' o : kept init s tr → Forall event_ok es → log_run es s = (s', o) → NoDup (names (tr ++ o)) →
  kept init s' (tr ++ o).
Proof.
  revert s tr o. induction es as [|e es IH]; intros s tr o Hk Hok; simpl; [intros [= <- <-]; by rewrite app_nil_r|].
  destruct (log_step e s) as [s1 o1] eqn:H1, (log_run es s1) as [s2 o2] eqn:H2. intros [= <- <-] Hnd.
  apply Forall_cons in Hok as [He Hok]. rewrite app_assoc in Hnd |- *. apply (IH s1); [|done..].
  assert (NoDup (names (tr ++ o1))) as Hnd1 by (rewrite names_app in Hnd; by apply NoDup_app in Hnd as [? _]).
  destruct e as [info|i t now|j now|]; try done.
  - injection H1 as <- <-. rewrite app_nil_r. by apply step_emit.
  - by eapply step_turn.
  - by eapply step_roll.
Qed.

Lemma started_kept fs : log_ready fs → fs_files fs !! tmp_file env = None → kept (text_at (log_file env) fs) (log_started fs) [].
Proof.
  intros Hr Ht. split; [done|done| |by intros ? ? ?%not_elem_of_nil|done].
  exists "". split; [by rewrite string_app_nil_r|right]. done.
Qed.

(** C18: no line is lost or broken while the log is put away.  When no call fails and
    the process is not stopped, whatever tasks log while a thread works, every call of
    [emit] that has ended has its line in the file or an archive; the archives in
    their order, what the thread has in hand and the log are exactly the old log and
    the lines in the order in which they were written; an archive holds more than
    [MAX_SIZE_BYTES] and is the compressed text; and between two rolls nothing is in
    hand and the temporary file is gone. *)
Theorem no_line_is_lost es fs s tr :
  log_ready fs → fs_files fs !! tmp_file env = None → Forall event_ok es →
  log_run es (log_started fs) = (s, tr) → NoDup (names tr) →
  (∃ in_hand, archived tr +:+ in_hand +:+ text_at (log_file env) (lo_fs s) = text_at (log_file env) fs +:+ written tr
     ∧ (in_hand = "" ∨ text_at (tmp_file env) (lo_fs s) = in_hand)
     ∧ (lo_rolling s = false → in_hand = "" ∧ fs_files (lo_fs s) !! tmp_file env = None))
  ∧ (∀ out data, OArchived out data ∈ tr → long data ∧ text_at (path_of out) (lo_fs s) = gzip data)
  ∧ ∀ i info, lo_emits s !! i = Some (info, EmDone) → ∃ now, OLine i (entry_line info now) ∈ tr.
Proof.
  intros Hr Ht Hok Hrun Hnd. pose proof (run_kept _ es _ [] s tr (started_kept fs Hr Ht) Hok Hrun Hnd) as [_ Hf Hl Har Hen].
  split_and!; [| |done].
  - destruct Hl as (pending & Heq & Hph). exists pending. split; [done|].
    destruct Hph as [(j & r & Hj & Hrd & Hp)|(_ & -> & Htmp)]; [|auto]. split.
    + destruct r as [|created|created|[repairing|] out a|created|]; try done; simpl in Hp.
      * left. apply Hp.
      * left. apply Hp.
      * destruct Hp as (_ & _ & _ & Ha). destruct a; [right; apply Ha..|by left].
    + intros Hro. exfalso. unfold flag_ok, owners in Hf. rewrite Hro in Hf. simpl in Hf.
      assert (count rolling (lo_rollers s) = 0) as Hc by lia. apply (count_zero rolling _ _ _ Hc) in Hj.
      by apply bool_decide_eq_false in Hj as [].
  - intros out data Hin. destruct (Har out data Hin) as (_ & _ & Hlong & file & Hfile & Hz). split; [done|].
    unfold text_at. by rewrite Hfile.
Qed.

(** ** What an unfinished roll has left *)

(** The faults that are still to come. *)
Definition uses_faults {A} (m : ST Fs IoError A) : Prop := ∀ fs, fs_faults (m fs).2 `suffix_of` fs_faults fs.
Lemma next_fault_suffix fs f fs' : next_fault fs = (f, fs') → fs_faults fs' `suffix_of` fs_faults fs ∧ from_option (λ f, Some f ∈ fs_faults fs) True f.
Proof.
  unfold next_fault. destruct (fs_faults fs) as [|g l] eqn:E; intros [= <- <-]; [by rewrite E|]. simpl.
  split; [by exists [g]|]. destruct g; [|done]. by constructor.
Qed.
Lemma uses_bind {A B} (m : ST Fs IoError A) (f : A → ST Fs IoError B) : uses_faults m → (∀ a, uses_faults (f a)) → uses_faults (m ≫= f).
Proof.
  intros Hm Hf fs. unfold mbind, ST_bind. pose proof (Hm fs). destruct (m fs) as [[a|e] fs1]; [|done].
  etrans; [apply Hf|done].
Qed.
Lemma calls_use_faults : (∀ p, uses_faults (fs_metadata p)) ∧ (∀ p, uses_faults (fs_open_append p))
  ∧ (∀ p t, uses_faults (fs_append p t)) ∧ (∀ p, uses_faults (fs_read p)) ∧ (∀ p t, uses_faults (fs_write p t))
  ∧ (∀ p t b, uses_faults (fs_compress gzip gzip_broken p t b)) ∧ (∀ p q, uses_faults (fs_rename p q)) ∧ ∀ p, uses_faults (fs_remove p).
Proof.
  split_and!; intros *; unfold uses_faults, fs_metadata, fs_open_append, fs_append, fs_read, fs_write, fs_compress, fs_rename, fs_remove; intros fs;
    destruct (next_fault fs) as [f fs1] eqn:E; apply next_fault_suffix in E as [E _]; repeat case_match; done.
Qed.

(** No fault says that a file is there when it is not. *)
Definition plain_faults (fs : Fs) : Prop := ∀ f, Some f ∈ fs_faults fs → io_kind (fault_error f) ≠ AlreadyExists.
Lemma plain_after {A} (m : ST Fs IoError A) fs r fs' : uses_faults m → plain_faults fs → m fs = (r, fs') → plain_faults fs'.
Proof. intros Hm Hp Hr f Hf. apply Hp. destruct (Hm fs) as [l Hl]. rewrite Hr in Hl. simpl in Hl. rewrite Hl, elem_of_app. by right. Qed.
Lemma rename_plain p q fs e fs' : plain_faults fs → fs_rename p q fs = (Err e, fs') → io_kind e ≠ AlreadyExists.
Proof.
  intros Hp. unfold fs_rename. destruct (next_fault fs) as [[f|] fs1] eqn:E; apply next_fault_suffix in E as [_ E].
  - intros [= <- <-]. by apply Hp.
  - repeat case_match; by intros [= <- <-].
Qed.

Definition repairing (r : Roller) : bool :=
  match r with RoRepair _ | RoRetry _ | RoArchive (Some _) _ _ => true | _ => false end.
Definition no_repair (s : Logger) : Prop := plain_faults (lo_fs s) ∧ Forall (λ r, repairing r = false) (lo_rollers s).

Lemma emit_no_repair i t now s s' o : no_repair s → emit_turn color env i t now s = (s', o) → no_repair s'.
Proof.
  intros [Hp Hr]. destruct calls_use_faults as (Hmd & Hop & Hap & _). unfold emit_turn.
  destruct (lo_emits s !! i) as [[info []]|]; try (intros [= <- <-]).
  - unfold throttle. by case_match.
  - done.
  - unfold check_and_roll. destruct (fs_metadata (log_file env) (lo_fs s)) as [r fs] eqn:E. apply (plain_after _ _ _ _ (Hmd _) Hp) in E.
    destruct r as [len|]; [case_match|]; split; try done. simpl. apply Forall_app. by split; [|apply Forall_singleton].
  - unfold log, append_file. destruct (log_mode env); [by intros [= <- <-]|]. cbn [lo_fs print set_emit].
    match goal with |- context [?m (lo_fs s)] => destruct (m (lo_fs s)) as [r fs] eqn:E end.
    apply (plain_after _ _ _ _) in E; [|repeat (apply uses_bind; [auto|intros _]); auto|done]. by destruct r; intros [= <- <-].
  - done.
  - done.
Qed.
Lemma archive_no_repair now out a s next s' o : plain_faults (lo_fs s) →
  archive_turn color gzip gzip_broken env now out a s = (next, s', o) → plain_faults (lo_fs s').
Proof.
  intros Hp. destruct calls_use_faults as (_ & _ & _ & Hrd & Hwr & Hcm & _ & Hrm). unfold archive_turn.
  destruct a; match goal with |- context [match ?m (lo_fs s) with _ => _ end] => destruct (m (lo_fs s)) as [r fs] eqn:E end;
    apply plain_after in E; auto; destruct r; by intros [= <- <- <-].
Qed.
Lemma roll_no_repair now j r s s' o : no_repair s → lo_rollers s !! j = Some r → roll_turn now j r s = (s', o) → no_repair s'.
Proof.
  intros [Hp Hr] Hj. pose proof (Forall_lookup_1 _ _ _ _ Hr Hj) as Hq. destruct calls_use_faults as (Hmd & _ & _ & _ & _ & _ & Hrn & _).
  assert (∀ q, repairing q = false → Forall (λ r, repairing r = false) (<[j:=q]> (lo_rollers s))) as Hins by (intros; by apply Forall_insert).
  destruct r as [|created|created|[|] out a|created|]; try done; simpl.
  - destruct (fs_metadata (log_file env) (lo_fs s)) as [res fs] eqn:E. apply (plain_after _ _ _ _ (Hmd _) Hp) in E.
    destruct res; intros [= <- <-]; (split; [done|by apply Hins]).
  - destruct (fs_rename _ _ (lo_fs s)) as [[]  fs] eqn:E; unfold start_archive, rename_failed.
    + apply (plain_after _ _ _ _ (Hrn _ _) Hp) in E. intros [= <- <-]. split; [done|by apply Hins].
    + pose proof (rename_plain _ _ _ _ _ Hp E) as Hne. apply (plain_after _ _ _ _ (Hrn _ _) Hp) in E.
      rewrite bool_decide_eq_false_2 by done. case_match; intros [= <- <-]; (split; [done|by apply Hins]).
  - destruct (archive_turn _ _ _ _ now out a s) as [[next s1] o1] eqn:E. pose proof (archive_no_repair _ _ _ _ _ _ _ Hp E) as Hp1.
    apply archive_turn_same in E as (Hro & _). destruct next; intros [= <- <-]; (split; [done|simpl; rewrite Hro; by apply Hins]).
  - by intros [= <- <-].
Qed.
Lemma run_no_repair es s s' tr : no_repair s → log_run es s = (s', tr) → no_repair s'.
Proof.
  revert s tr. induction es as [|e es IH]; intros s tr Hs; simpl; [by intros [= <- _]|].
  destruct (log_step e s) as [s1 o] eqn:H1, (log_run es s1) as [s2 o2] eqn:H2. intros [= <- _]. apply (IH s1 o2); [|done].
  destruct e as [info|i t now|j now|]; simpl in H1.
  - by injection H1 as <- _.
  - by eapply emit_no_repair.
  - destruct (lo_rollers s !! j) eqn:Hj; [|by injection H1 as <- _]. by eapply roll_no_repair.
  - injection H1 as <- _. by destruct Hs.
Qed.

(** The turns of a thread in a row. *)
Lemma roll_chain s j r now s1 o n s' tr : lo_rollers s !! j = Some r → roll_turn now j r s = (s1, o) →
  log_run (replicate n (EvRoll j now)) s1 = (s', tr) → log_run (replicate (S n) (EvRoll j now)) s = (s', o ++ tr).
Proof. intros Hj H1 H2. cbn [replicate Log.log_run Log.log_step]. by rewrite Hj, H1, H2. Qed.
Lemma archive_ends s j out file now : log_ready (lo_fs s) → names_archive out →
  lo_rollers s !! j = Some (RoArchive None out ArRead) → fs_files (lo_fs s) !! tmp_file env = Some file →
  ∃ s' mode, log_run (replicate 5 (EvRoll j now)) s = (s', [OArchived out (f_data file)])
    ∧ lo_rollers s' !! j = Some RoDone
    ∧ fs_files (lo_fs s') = <[path_of out := MkFile (gzip (f_data file)) mode]> (delete (tmp_file env) (fs_files (lo_fs s))).
Proof.
  intros Hr Hname Hj Hf. destruct (archive_apart _ Hname) as [_ Hot]. pose proof (lookup_lt_Some _ _ _ Hj) as Hlt.
  destruct s as [fs rolling last emits rollers print]. cbn [lo_rollers lo_fs] in *.
  assert (∀ r (l : list Roller), j < length l → <[j:=r]> l !! j = Some r) as Hat by (intros; by apply list_lookup_insert_eq).
  destruct (create_ready out fs Hr Hname) as [mode Hc].
  set (fs1 := set_files fs (<[path_of out:=MkFile "" mode]> (fs_files fs))) in *.
  destruct (compress_ready out (f_data file) false fs1 (MkFile "" mode)) as (f1 & Hc1 & _); [by apply ready_files|apply lookup_insert_eq|].
  set (fs2 := set_files fs1 (<[path_of out:=f1]> (fs_files fs1))) in *.
  destruct (compress_ready out (f_data file) true fs2 f1) as (f2 & Hc2 & Hgz); [by repeat apply ready_files|apply lookup_insert_eq|].
  set (fs3 := set_files fs2 (<[path_of out:=f2]> (fs_files fs2))) in *.
  assert (fs_files fs3 = <[path_of out := f2]> (fs_files fs)) as Hfiles by (simpl; by rewrite !insert_insert_eq).
  pose proof (remove_ready fs3 file) as Hrm. rewrite Hfiles, lookup_insert_ne in Hrm by done.
  specialize (Hrm ltac:(by repeat apply ready_files) Hf). destruct f2 as [data mode2]. specialize (Hgz eq_refl). simpl in Hgz. subst data.
  eexists _, mode2. split; [|split].
  - eapply (roll_chain _ _ _ _ _ []); [exact Hj|simpl; by rewrite (read_ready _ file)|].
    eapply (roll_chain _ _ _ _ _ []); [simpl; by apply Hat|simpl; by rewrite Hc|].
    eapply (roll_chain _ _ _ _ _ []); [simpl; apply Hat; by rewrite length_insert|simpl; by rewrite Hc1|].
    eapply (roll_chain _ _ _ _ _ [_]); [simpl; apply Hat; by rewrite !length_insert|simpl; by rewrite Hc2|].
    eapply (roll_chain _ _ _ _ _ []); [simpl; apply Hat; by rewrite !length_insert|simpl; by rewrite Hrm|reflexivity].
  - simpl. apply Hat. by rewrite !length_insert.
  - simpl. by rewrite delete_insert_ne.
Qed.

(** What an unfinished roll has left is lost.  A rename replaces the file that is
    there, so a thread comes to the repair of the temporary file only if the file
    system reports, wrongly, that the file exists; and when a thread renames the log
    over a temporary file that an earlier roll could not put away, or did not live
    to, that file's lines are gone: at the end the only archive is that of the log. *)
Theorem stale_tmp_is_overwritten :
  (∀ es fs s tr j r, plain_faults fs → log_run es (log_started fs) = (s, tr) → lo_rollers s !! j = Some r → repairing r = false)
  ∧ ∀ s j created stale current now, log_ready (lo_fs s) → lo_rollers s !! j = Some (RoRename created) →
      str_has "/" created = false → moment_ok now →
      fs_files (lo_fs s) !! tmp_file env = Some stale → fs_files (lo_fs s) !! log_file env = Some current →
      let out := archive_path env created now in
      ∃ s' mode, log_run (replicate 6 (EvRoll j now)) s = (s', [ONamed out; OArchived out (f_data current)])
        ∧ lo_rollers s' !! j = Some RoDone
        ∧ fs_files (lo_fs s') = <[path_of out := MkFile (gzip (f_data current)) mode]>
            (delete (tmp_file env) (delete (log_file env) (fs_files (lo_fs s)))).
Proof.
  split.
  - intros es fs s tr j r Hp Hrun Hj. destruct (run_no_repair es (log_started fs) s tr) as [_ Hf]; [by split|done|].
    exact (Forall_lookup_1 _ _ _ _ Hf Hj).
  - intros s j created stale current now Hr Hj Hc Hm Hstale Hcur out. pose proof (archive_named created now Hc Hm) as Hname.
    pose proof (lookup_lt_Some _ _ _ Hj) as Hlt. set (files := <[tmp_file env := current]> (delete (log_file env) (fs_files (lo_fs s)))).
    destruct (archive_ends (set_roller j (RoArchive None out ArRead) (set_fs (set_files (lo_fs s) files) s)) j out current now)
      as (s' & mode & Hrun & Hdone & Hfiles); [by apply ready_files|done|by apply list_lookup_insert_eq|apply lookup_insert_eq|].
    exists s', mode. split_and!; [|done|].
    + apply (roll_chain _ _ _ _ _ [_] 5 _ _ Hj) with (2 := Hrun). simpl. by rewrite (rename_ready _ current).
    + rewrite Hfiles. simpl. subst files. by rewrite delete_insert_eq.
Qed.
End log_file.
