(* ===== verification/LogExamples.v ===== *)
(** * Runs of the log to look at

    A log directory in which entries are written and a stale temporary file is met;
    it shows that the hypotheses of the theorems about the log can be met. *)
From S2P Require Import Prelude Text Fsutil Crypto Authority Replay AdminV2 Config PathProps Log LogProps LogFile.

Definition shelf_color (l : LogLevel) : string := "colour".
Definition shelf_gzip (s : string) : string := "gz:" +:+ s.
Definition shelf_broken (s : string) (n : nat) : string := String.substring 0 n ("gz:" +:+ s).
Definition shelf_env : Env := λ _, None.
Definition shelf_now : Moment := MkMoment "2024-01-02 03:04:05" "0102_0304" (Some 17%Z) false (Some "0101_0000").
Definition shelf_fs (files : gmap path File) : Fs := MkFs files {[ ["."] ]} 18 [].
Definition shelf_entry : LogStruct := MkLogStruct Error "topic" "line1
line2".

Lemma shelf_ready files : log_ready shelf_env (shelf_fs files).
Proof.
  assert (∀ p : path, p ∈ fs_dirs (shelf_fs files) ↔ p = ["."]) as Hdirs.
  { intros p. unfold shelf_fs. simpl. apply elem_of_singleton. }
  split; [done|right; by apply Hdirs|]. split_and!.
  - intros H%Hdirs. vm_compute in H. discriminate.
  - intros H%Hdirs. vm_compute in H. discriminate.
  - intros out (stem & _ & ->) H%Hdirs. vm_compute in H. discriminate.
Qed.

(** A call of [emit] from its start to its end: the fourth turn writes the line. *)
Definition shelf_call : list Event := EvEmit shelf_entry :: replicate 4 (EvTurn 0 7000 shelf_now).

Lemma roll_flag_is_a_lock_witness :
  ∃ s tr, log_run shelf_color shelf_gzip shelf_broken shelf_env (take 3 shelf_call) (log_started (shelf_fs ∅)) = (s, tr)
    ∧ lo_rolling s = true ∧ owners s = 1.
Proof.
  destruct (log_run shelf_color shelf_gzip shelf_broken shelf_env (take 3 shelf_call) (log_started (shelf_fs ∅))) as [s tr] eqn:Hrun.
  exists s, tr. split; [reflexivity|].
  destruct (roll_flag_is_a_lock shelf_color shelf_gzip shelf_broken shelf_env _ _ s tr Hrun) as [Ho _].
  vm_compute in Hrun. injection Hrun as <- <-. split; [reflexivity|exact Ho].
Defined.

Lemma no_line_is_lost_witness :
  ∃ s tr, log_run shelf_color shelf_gzip shelf_broken shelf_env shelf_call (log_started (shelf_fs ∅)) = (s, tr)
    ∧ written tr = entry_line shelf_entry shelf_now +:+ eol
    ∧ ∃ in_hand, archived tr +:+ in_hand +:+ text_at (log_file shelf_env) (lo_fs s)
        = text_at (log_file shelf_env) (shelf_fs ∅) +:+ written tr.
Proof.
  destruct (log_run shelf_color shelf_gzip shelf_broken shelf_env shelf_call (log_started (shelf_fs ∅))) as [s tr] eqn:Hrun.
  exists s, tr. split; [reflexivity|].
  destruct (no_line_is_lost shelf_color shelf_gzip shelf_broken shelf_env eq_refl shelf_call (shelf_fs ∅) s tr)
    as ((in_hand & Heq & _) & _ & _).
  - apply shelf_ready.
  - reflexivity.
  - repeat constructor.
  - exact Hrun.
  - vm_compute in Hrun. injection Hrun as <- <-. constructor.
  - split; [vm_compute in Hrun; injection Hrun as <- <-; reflexivity|]. exists in_hand. exact Heq.
Defined.

(** An earlier roll has left its file; the log is renamed over it. *)
Definition shelf_stale : Fs :=
  shelf_fs {[ log_file shelf_env := MkFile "new" 420; tmp_file shelf_env := MkFile "old" 420 ]}.
Lemma stale_tmp_is_overwritten_witness :
  ∃ s' mode, log_run shelf_color shelf_gzip shelf_broken shelf_env (replicate 6 (EvRoll 0 shelf_now))
      (MkLogger shelf_stale true None [] [RoRename "0101_0000"] []) =
      (s', [ONamed (archive_path shelf_env "0101_0000" shelf_now); OArchived (archive_path shelf_env "0101_0000" shelf_now) "new"])
    ∧ fs_files (lo_fs s') = {[ path_of (archive_path shelf_env "0101_0000" shelf_now) := MkFile "gz:new" mode ]}.
Proof.
  destruct (proj2 (stale_tmp_is_overwritten shelf_color shelf_gzip shelf_broken shelf_env eq_refl)
    (MkLogger shelf_stale true None [] [RoRename "0101_0000"] []) 0 "0101_0000" (MkFile "old" 420) (MkFile "new" 420) shelf_now)
    as (s' & mode & Hrun & _ & Hfiles).
  - apply shelf_ready.
  - reflexivity.
  - reflexivity.
  - split; reflexivity.
  - vm_compute. reflexivity.
  - vm_compute. reflexivity.
  - exists s', mode. split; [exact Hrun|]. rewrite Hfiles. vm_compute. reflexivity.
Defined.

Definition shelf_journal : Env := λ key, if bool_decide (key = "JOURNAL_STREAM") then Some "8:15" else None.
Lemma journal_entries_are_lines_witness :
  ∃ s tr, log_run shelf_color shelf_gzip shelf_broken shelf_journal [EvEmit shelf_entry; EvTurn 0 7000 shelf_now] (log_started (shelf_fs ∅))
      = (s, tr)
    ∧ lo_fs s = shelf_fs ∅ ∧ lo_out s = [ToStderr "<3>[!] topic: line1 line2"].
Proof.
  destruct (log_run shelf_color shelf_gzip shelf_broken shelf_journal [EvEmit shelf_entry; EvTurn 0 7000 shelf_now]
    (log_started (shelf_fs ∅))) as [s tr] eqn:Hrun.
  exists s, tr. split; [reflexivity|].
  destruct (journal_entries_are_lines shelf_color shelf_gzip shelf_broken shelf_journal
    [EvEmit shelf_entry; EvTurn 0 7000 shelf_now] (shelf_fs ∅) s tr eq_refl Hrun) as (Hf & _ & _ & _).
  split; [exact Hf|]. vm_compute in Hrun. injection Hrun as <- <-. reflexivity.
Defined.

(** The examples of the source. *)
Example journald_single_line_with_prefix_and_collapsed_newlines :
  render_journald shelf_entry = "<3>[!] topic: line1 line2".
Proof. reflexivity. Qed.
Example journald_empty_content : render_journald (MkLogStruct Debug "topic" "") = "<7>[+] topic".
Proof. reflexivity. Qed.
