(* ===== verification/Backup.v ===== *)
(** * Backups: [src/src/backup.rs]

    The files of a sidecar are copied into a directory, with a manifest that lists
    them.  Paths are strings where they are shown and [path_of] of them where they
    are used.  Permission bits of directories are not recorded, and there are no
    links; the order in which a directory is listed is an argument. *)
From S2P Require Import Prelude Fsutil Crypto Authority Config.

Definition BACKUP_SCHEMA : N := 1.
Definition MANIFEST_NAME : string := "manifest.json".

Inductive BackupError := BkIo (e : string) | BkConfig (e : string) | BkOutputExists (p : string).
Definition backup_error_text (e : BackupError) : string :=
  match e with
  | BkIo e => "backup io error: " +:+ e
  | BkConfig e => "backup config error: " +:+ e
  | BkOutputExists p => "backup output is not empty: " +:+ p
  end.

Record BackupFile := MkBackupFile {
  bf_name : string; bf_source : string; bf_bytes : N; bf_sha256 : string; bf_mode : string
}.
Record BackupReport := MkBackupReport {
  br_schema : N; br_created_at : N; br_output_dir : string; br_manifest : string; br_network : string;
  br_cluster_id : option string; br_authority_public_key : option string; br_files : list BackupFile;
  br_skipped : list string; br_admin_private_keys_included : bool;
}.

(** ** Hashes *)

Definition hex_digit (n : N) : ascii := ascii_of_N (if (n <? 10)%N then 48 + n else 87 + n).
Fixpoint hex (bytes : string) : string :=
  match bytes with
  | EmptyString => EmptyString
  | String c bytes => String (hex_digit (N_of_ascii c / 16)) (String (hex_digit (N_of_ascii c mod 16)) (hex bytes))
  end.

(** ** Directories *)

(** The name of a path in a directory. *)
Definition child_of (d p : path) : option string :=
  if bool_decide (take (length d) p = d) then match drop (length d) p with [n] => Some n | _ => None end else None.
Definition children (fs : Fs) (d : path) : list string :=
  remove_dups (omap (child_of d) ((map_to_list (fs_files fs)).*1 ++ elements (fs_dirs fs))).

Section backup.
Context `{CR : Crypto, JB : Codec Json BackupReport}.
Context (order : path → list string → list string).

Definition bk_io {A} (m : ST Fs IoError A) : ST Fs (option BackupError) A := st_map_err (λ e, Some (BkIo (io_text e))) m.

(** [Path::is_file] and [is_dir]: an error counts as no. *)
Definition is_file (p : path) (fs : Fs) : bool * Fs :=
  let '(f, fs) := next_fault fs in
  (match f with Some _ => false | None => bool_decide (is_Some (fs_files fs !! p)) end, fs).
Definition is_dir (p : path) (fs : Fs) : bool * Fs :=
  let '(f, fs) := next_fault fs in (match f with Some _ => false | None => bool_decide (p ∈ fs_dirs fs) end, fs).
Definition fs_query {E} (q : Fs → bool * Fs) : ST Fs E bool := λ fs, let '(b, fs) := q fs in (Ok b, fs).

(** [fs::read_dir]: the names, and which of them are directories. *)
Definition read_dir (d : path) : ST Fs IoError (list (string * bool)) := λ fs,
  let '(f, fs) := next_fault fs in
  match f with
  | Some f => (Err (fault_error f), fs)
  | None =>
      if bool_decide (d ∈ fs_dirs fs)
      then (Ok ((λ n, (n, bool_decide (d ++ [n] ∈ fs_dirs fs))) <$> order d (children fs d)), fs)
      else (Err (fs_error NotFound), fs)
  end.
Definition set_dir_mode (d : path) : ST Fs IoError unit := λ fs,
  let '(f, fs) := next_fault fs in
  match f with
  | Some f => (Err (fault_error f), fs)
  | None => (if bool_decide (d ∈ fs_dirs fs) then Ok () else Err (fs_error NotFound), fs)
  end.

(** ** Copying *)

Abbreviation Acc := (list BackupFile * list string)%type (only parsing).

Definition copy_file (source : string) (output_dir : path) (dest_name : string) (acc : Acc)
    : ST Fs (option BackupError) Acc :=
  data ← bk_io (fs_read (path_of source));
  bk_io (atomic_write (output_dir ++ [dest_name]) data (Some 384%N)) ;;
  mret (acc.1 ++ [MkBackupFile dest_name source (str_len data) (hex (sha256 data)) "0600"], acc.2).

Definition copy_required (source : string) (output_dir : path) (dest_name : string) (acc : Acc)
    : ST Fs (option BackupError) Acc :=
  there ← fs_query (is_file (path_of source));
  if there : bool then copy_file source output_dir dest_name acc
  else st_err (Some (BkConfig ("缺少必需文件: " +:+ source))).

Definition copy_optional (source : string) (output_dir : path) (dest_name : string) (acc : Acc)
    : ST Fs (option BackupError) Acc :=
  there ← fs_query (is_file (path_of source));
  if there : bool then copy_file source output_dir dest_name acc else mret (acc.1, acc.2 ++ [dest_name]).

(** The error [None] stands for a run that has used up its fuel. *)
Fixpoint copy_entries (sub : path → path → ST Fs (option BackupError) unit) (source dest : path)
    (entries : list (string * bool)) : ST Fs (option BackupError) unit :=
  match entries with
  | [] => mret ()
  | (name, directory) :: entries =>
      (if directory : bool then sub (source ++ [name]) (dest ++ [name])
       else data ← bk_io (fs_read (source ++ [name])); bk_io (atomic_write (dest ++ [name]) data (Some 384%N))) ;;
      copy_entries sub source dest entries
  end.
Fixpoint copy_dir_all (fuel : nat) (source dest : path) : ST Fs (option BackupError) unit :=
  match fuel with
  | O => st_err None
  | S fuel =>
      bk_io (create_dir_all dest) ;;
      bk_io (set_dir_mode dest) ;;
      entries ← bk_io (read_dir source);
      copy_entries (copy_dir_all fuel) source dest entries
  end.

(** The files below a directory, with their paths relative to the root. *)
Fixpoint collect_entries (sub : path → ST Fs (option BackupError) (list path)) (current : path)
    (entries : list (string * bool)) : ST Fs (option BackupError) (list path) :=
  match entries with
  | [] => mret []
  | (name, directory) :: entries =>
      found ← (if directory : bool then sub (current ++ [name]) else mret [current ++ [name]]);
      rest ← collect_entries sub current entries;
      mret (found ++ rest)
  end.
Fixpoint collect_files (fuel : nat) (current : path) : ST Fs (option BackupError) (list path) :=
  match fuel with
  | O => st_err None
  | S fuel => entries ← bk_io (read_dir current); collect_entries (collect_files fuel) current entries
  end.

Definition relative (root p : path) : string := String.concat "/" (drop (length root) p).
Fixpoint hash_files (root : path) (files : list path) (total : N) (input : string)
    : ST Fs (option BackupError) (N * string) :=
  match files with
  | [] => mret (total, input)
  | p :: files =>
      data ← bk_io (fs_read p);
      hash_files root files (total + str_len data) (input +:+ relative root p +:+ nul +:+ sha256 data)
  end.
(** Sorted by the relative name. *)
Definition hash_tree (fuel : nat) (root : path) : ST Fs (option BackupError) (N * string) :=
  files ← collect_files fuel root;
  '(total, input) ← hash_files root (merge_sort (λ p q, String.le (relative root p) (relative root q)) files) 0 "";
  mret (total, hex (sha256 input)).

(** A tree is no deeper than the longest path there is. *)
Definition tree_fuel (fs : Fs) : nat := S (max_list (length <$> elements (fs_dirs fs))).
Definition with_tree_fuel {A} (m : nat → ST Fs (option BackupError) A) : ST Fs (option BackupError) A :=
  λ fs, m (tree_fuel fs) fs.

(** ** The backup *)

Definition prepare_output (output_dir : string) (force : bool) : ST Fs (option BackupError) unit :=
  let out := path_of output_dir in
  existed ← fs_query (path_exists out);
  if existed : bool then
    entries ← bk_io (read_dir out);
    if bool_decide (entries ≠ []) && negb force then st_err (Some (BkOutputExists output_dir)) else mret ()
  else bk_io (create_dir_all out) ;; bk_io (set_dir_mode out).

Definition copy_authority (config : ServiceConfig) (out : path) (acc : Acc) : ST Fs (option BackupError) Acc :=
  let source := cf_authority_key_path config in
  there ← fs_query (is_file (path_of source));
  if there : bool then copy_file source out "authority.key" acc
  else if cl_enabled (cf_cluster config)
  then st_err (Some (BkConfig ("cluster 模式缺少 authority key: " +:+ source)))
  else mret (acc.1, acc.2 ++ ["authority.key"]).

(** The data of the consensus library: a file, or a directory. *)
Definition copy_raft_data (data : string) (out : path) (acc : Acc) : ST Fs (option BackupError) Acc :=
  directory ← fs_query (is_dir (path_of data));
  if directory : bool then
    let dest := out ++ ["raft_data"] in
    with_tree_fuel (λ fuel, copy_dir_all fuel (path_of data) dest) ;;
    bk_io (set_dir_mode dest) ;;
    '(bytes, sum) ← with_tree_fuel (λ fuel, hash_tree fuel dest);
    mret (acc.1 ++ [MkBackupFile "raft_data" data bytes sum "0700"], acc.2)
  else
    there ← fs_query (is_file (path_of data));
    if there : bool then copy_file data out "raft.redb" acc else mret (acc.1, acc.2 ++ ["raft_data"]).

Definition copy_cluster (cluster : ClusterConfig) (out : path) (acc : Acc) : ST Fs (option BackupError) Acc :=
  acc ← copy_optional (cl_identity_key_path cluster) out "raft_identity.key" acc;
  acc ← copy_optional (cl_seed_exchange_key_path cluster) out "raft_seed_exchange.key" acc;
  copy_raft_data (cl_data_path cluster) out acc.

(** The public key, where the key file can be read. *)
Definition backed_up_key (config : ServiceConfig) : ST Fs (option BackupError) (option string) := λ fs,
  let source := path_of (cf_authority_key_path config) in
  let '(there, fs) := is_file source fs in
  if negb there || str_is_empty (cf_network config) then (Ok None, fs)
  else let '(r, fs) := load source (cf_network config) fs in (Ok (public_key_b64 <$> result_ok r), fs).

Definition create_backup (config : ServiceConfig) (config_path output_dir : string) (force : bool) (now : N)
    : ST Fs (option BackupError) BackupReport :=
  let out := path_of output_dir in
  let cluster := cf_cluster config in
  prepare_output output_dir force ;;
  acc ← copy_required config_path out "config.toml" ([], []);
  acc ← copy_authority config out acc;
  acc ← copy_optional (cf_state_path config) out "auth_state.toml" acc;
  acc ← (if cl_enabled cluster then copy_cluster cluster out acc else mret acc);
  key ← backed_up_key config;
  let report := MkBackupReport BACKUP_SCHEMA now output_dir (path_join output_dir MANIFEST_NAME) (cf_network config)
    (if cl_enabled cluster then Some (cl_cluster_id cluster) else None) key acc.1 acc.2 false in
  manifest ← st_lift (map_err (λ e, Some (BkConfig ("manifest 序列化失败: " +:+ e))) (encode_to Json report));
  bk_io (atomic_write (out ++ [MANIFEST_NAME]) manifest (Some 384%N)) ;;
  mret report.

(** For the comparison after a restore; a later entry of the same name wins. *)
Definition manifest_summary (report : BackupReport) : gmap string string :=
  foldl (λ m f, <[bf_name f := bf_sha256 f]> m) ∅ (br_files report).
End backup.
