(* ===== verification/BackupProps.v ===== *)
(** * Properties of backups

    What a backup writes and records, that it ends when source and target lie apart,
    and what happens when the target lies in the source. *)
From S2P Require Import Prelude Fsutil Crypto Authority Config Backup.

(** ** What the file operations leave alone *)

Lemma with_extension_prefix (d : path) n ext : d `prefix_of` with_extension (d ++ [n]) ext.
Proof.
  unfold with_extension, path_file_name. rewrite last_snoc. case_bool_decide; [by eexists|].
  rewrite length_app, take_app_le by (simpl; lia). simpl. rewrite take_ge by lia. by eexists.
Qed.

Section frames.
Context `{CR : Crypto, JB : Codec Json BackupReport}.
Context (order : path → list string → list string).

(** A computation that leaves the files with [P] alone. *)
Definition keeps {E A} (P : path → Prop) (m : ST Fs E A) : Prop :=
  ∀ fs p, P p → fs_files (m fs).2 !! p = fs_files fs !! p.

Lemma kept_bind {E A B} P (m : ST Fs E A) (f : A → ST Fs E B) :
  keeps P m → (∀ a, keeps P (f a)) → keeps P (m ≫= f).
Proof.
  intros Hm Hf fs p Hp. unfold mbind, ST_bind. specialize (Hm fs p Hp). destruct (m fs) as [[a|e] fs1]; [|done].
  rewrite (Hf a fs1 p Hp). done.
Qed.
Lemma keeps_ret {E A} P (a : A) : keeps P (mret a : ST Fs E A).
Proof. done. Qed.
Lemma keeps_err {E A} P (e : E) : keeps P (st_err e : ST Fs E A).
Proof. done. Qed.
Lemma keeps_lift {E A} P (r : result E A) : keeps P (st_lift r : ST Fs E A).
Proof. done. Qed.
Lemma keeps_map_err {E F A} P (g : E → F) (m : ST Fs E A) : keeps P m → keeps P (st_map_err g m).
Proof. intros Hm fs p Hp. unfold st_map_err. specialize (Hm fs p Hp). by destruct (m fs). Qed.
Lemma keeps_weaken {E A} (P Q : path → Prop) (m : ST Fs E A) : (∀ p, Q p → P p) → keeps P m → keeps Q m.
Proof. intros HPQ Hm fs p Hp. auto. Qed.
Lemma next_fault_keeps fs : fs_files (next_fault fs).2 = fs_files fs.
Proof. unfold next_fault. by destruct (fs_faults fs). Qed.
Lemma keeps_query {E} P (q : Fs → bool * Fs) : (∀ fs, fs_files (q fs).2 = fs_files fs) → keeps P (fs_query (E := E) q).
Proof. intros Hq fs p _. unfold fs_query. specialize (Hq fs). destruct (q fs). simpl in *. by rewrite Hq. Qed.

Ltac fault fs := pose proof (next_fault_keeps fs) as Hn; destruct (next_fault fs) as [[f|] fs1]; simpl in Hn.
Lemma is_file_keeps p fs : fs_files (is_file p fs).2 = fs_files fs.
Proof. unfold is_file. by fault fs. Qed.
Lemma is_dir_keeps p fs : fs_files (is_dir p fs).2 = fs_files fs.
Proof. unfold is_dir. by fault fs. Qed.
Lemma path_exists_keeps p fs : fs_files (path_exists p fs).2 = fs_files fs.
Proof. unfold path_exists. by fault fs. Qed.

Lemma keeps_read P p : keeps P (fs_read p).
Proof. intros fs q _. by rewrite fs_read_files. Qed.
Lemma keeps_read_dir P d : keeps P (read_dir order d).
Proof. intros fs q _. unfold read_dir. fault fs; simpl; [by rewrite Hn|]. case_bool_decide; simpl; by rewrite Hn. Qed.
Lemma keeps_dir_mode P d : keeps P (set_dir_mode d).
Proof. intros fs q _. unfold set_dir_mode. fault fs; simpl; by rewrite Hn. Qed.
Lemma keeps_create_dir_all P d : keeps P (create_dir_all d).
Proof. intros fs q _. unfold create_dir_all. fault fs; simpl; [by rewrite Hn|]. case_match; simpl; by rewrite Hn. Qed.

(** [atomic_write] touches its target and the temporary file beside it. *)
Lemma keeps_atomic_write (P : path → Prop) p data mode :
  ¬ P p → ¬ P (with_extension p "tmp") → keeps P (atomic_write p data mode).
Proof.
  intros Hp Ht. unfold atomic_write. apply kept_bind.
  { case_match; [case_bool_decide|]; [apply keeps_create_dir_all|done..]. }
  intros _. apply kept_bind; [|intros _; apply kept_bind; [|intros _]].
  - intros fs q Hq. pose proof (fs_write_files (with_extension p "tmp") data fs) as Hw.
    assert (with_extension p "tmp" ≠ q) by congruence. destruct (fs_write _ data fs) as [[[]|e] fs1]; simpl.
    + destruct Hw as [m ->]. by rewrite lookup_insert_ne.
    + destruct Hw as [->|[f ->]]; [done|by rewrite lookup_insert_ne].
  - destruct mode as [mode|]; [|done]. intros fs q Hq. pose proof (set_permissions_files (with_extension p "tmp") mode fs) as Hw.
    assert (with_extension p "tmp" ≠ q) by congruence. destruct (set_permissions _ mode fs) as [[[]|e] fs1]; simpl; [|by rewrite Hw].
    destruct Hw as (f & _ & ->). by rewrite lookup_insert_ne.
  - intros fs q Hq. pose proof (fs_rename_files (with_extension p "tmp") p fs) as Hw.
    assert (with_extension p "tmp" ≠ q ∧ p ≠ q) as [? ?] by (split; congruence).
    destruct (fs_rename _ p fs) as [[[]|e] fs1]; simpl; [|by rewrite Hw].
    destruct Hw as (f & _ & ->). by rewrite lookup_insert_ne, lookup_delete_ne.
Qed.
Lemma keeps_write_in d n data mode :
  keeps (λ p, ¬ d `prefix_of` p) (bk_io (atomic_write (d ++ [n]) data mode)).
Proof.
  apply keeps_map_err, keeps_atomic_write; intros Hn; apply Hn; [by eexists|apply with_extension_prefix].
Qed.

(** A copied tree changes files of the target only, and nothing else does. *)
Lemma keeps_copy_entries sub source dest entries :
  (∀ s d, dest `prefix_of` d → keeps (λ p, ¬ d `prefix_of` p) (sub s d)) →
  keeps (λ p, ¬ dest `prefix_of` p) (copy_entries sub source dest entries).
Proof.
  intros Hsub. induction entries as [|[n []] entries IH]; cbn [copy_entries]; [done|apply kept_bind; [|done]..].
  - eapply keeps_weaken; [|apply Hsub; by eexists]. intros p Hp Hd. apply Hp. etrans; [by eexists|exact Hd].
  - apply kept_bind; [apply keeps_map_err, keeps_read|intros; apply keeps_write_in].
Qed.
Lemma keeps_copy_dir_all fuel source dest : keeps (λ p, ¬ dest `prefix_of` p) (copy_dir_all order fuel source dest).
Proof.
  revert source dest. induction fuel as [|fuel IH]; intros source dest; cbn [copy_dir_all]; [done|].
  apply kept_bind; [apply keeps_map_err, keeps_create_dir_all|intros _].
  apply kept_bind; [apply keeps_map_err, keeps_dir_mode|intros _].
  apply kept_bind; [apply keeps_map_err, keeps_read_dir|intros entries]. apply keeps_copy_entries. auto.
Qed.
Lemma keeps_collect_files P fuel d : keeps P (collect_files order fuel d).
Proof.
  revert d. induction fuel as [|fuel IH]; intros d; cbn [collect_files]; [done|].
  apply kept_bind; [apply keeps_map_err, keeps_read_dir|intros entries].
  induction entries as [|[n b] entries IHe]; cbn [collect_entries]; [done|].
  apply kept_bind; [destruct b; [apply IH|done]|intros found]. by apply kept_bind.
Qed.
Lemma keeps_hash_files P root files total input : keeps P (hash_files root files total input).
Proof.
  revert total input. induction files as [|f files IH]; intros total input; cbn [hash_files]; [done|].
  apply kept_bind; [apply keeps_map_err, keeps_read|intros data]. apply IH.
Qed.
Lemma keeps_hash_tree P fuel root : keeps P (hash_tree order fuel root).
Proof.
  apply kept_bind; [apply keeps_collect_files|intros files]. apply kept_bind; [apply keeps_hash_files|].
  by intros [total input].
Qed.

(** ** What is recorded *)

(** The names of the files in a backup, in the order in which they are written; the
    temporary files of none of them is one of them. *)
Definition backup_names : list string :=
  ["config.toml"; "authority.key"; "auth_state.toml"; "raft_identity.key"; "raft_seed_exchange.key"; "raft.redb";
   MANIFEST_NAME].

(** A file in the backup is the source it names, byte for byte. *)
Definition file_copied (out : path) (before after : Fs) (f : BackupFile) : Prop :=
  ∃ file, fs_files before !! path_of (bf_source f) = Some file
    ∧ fs_files after !! (out ++ [bf_name f]) = Some (MkFile (f_data file) 384)
    ∧ bf_bytes f = str_len (f_data file) ∧ bf_sha256 f = hex (sha256 (f_data file)).

(** The state of a backup under way, with the first [k] names done. *)
Record copied (out : path) (before after : Fs) (k : nat) (files : list BackupFile) : Prop := {
  cp_outside : ∀ p, ¬ out `prefix_of` p → fs_files after !! p = fs_files before !! p;
  cp_files : ∀ f, f ∈ files → bf_name f = "raft_data" ∨ bf_name f ∈ take k backup_names ∧ file_copied out before after f;
}.

Lemma copied_step out before fs fs' k k' files :
  copied out before fs k files → k ≤ k' →
  (∀ p, ¬ out `prefix_of` p → fs_files fs' !! p = fs_files fs !! p) →
  (∀ n, n ∈ take k backup_names → fs_files fs' !! (out ++ [n]) = fs_files fs !! (out ++ [n])) →
  copied out before fs' k' files.
Proof.
  intros [Ho Hf] Hk H1 H2. split; [intros p Hp; by rewrite H1, Ho|].
  intros f [?|[Hn (file & Hs & Hd & Hx)]]%Hf; [by left|right]. split.
  - replace (take k backup_names) with (take k (take k' backup_names)) in Hn by (rewrite take_take; f_equal; lia).
    rewrite <-(take_drop k (take k' backup_names)). by apply elem_of_app; left.
  - exists file. by rewrite H2.
Qed.

Lemma backup_names_plain : Forall (λ n, n ≠ "/" ∧ n ≠ ".." ∧ n ≠ "raft_data" ∧ temp_name n ∉ backup_names) backup_names.
Proof. apply (bool_decide_unpack _). vm_compute. exact I. Qed.
Lemma backup_names_nodup : NoDup backup_names.
Proof. apply (bool_decide_unpack _). vm_compute. exact I. Qed.

Lemma take_names k n : n ∈ take k backup_names → n ∈ backup_names.
Proof. intros Hn. rewrite <-(take_drop k backup_names). by apply elem_of_app; left. Qed.
Lemma named k n : backup_names !! k = Some n →
  n ≠ "raft_data" ∧ n ∉ take k backup_names ∧ n ∈ take (S k) backup_names
  ∧ (∀ out : path, with_extension (out ++ [n]) "tmp" = out ++ [temp_name n])
  ∧ temp_name n ≠ n ∧ temp_name n ∉ take k backup_names.
Proof.
  intros Hk. pose proof (list_elem_of_lookup_2 _ _ _ Hk) as Hin.
  destruct (proj1 (Forall_forall _ _) backup_names_plain n Hin) as (H1 & H2 & H3 & H4). split_and!; [done|..].
  - intros (j & Hj)%list_elem_of_lookup. apply lookup_take_Some in Hj as [Hj Hlt].
    pose proof (NoDup_lookup _ _ _ _ backup_names_nodup Hj Hk). lia.
  - apply list_elem_of_lookup. exists k. apply lookup_take_Some. split; [done|lia].
  - intros out. by apply temp_path_snoc.
  - intros Heq. by rewrite Heq in H4.
  - intros ?%take_names. done.
Qed.

(** Writing the file with the [k]-th name keeps what was recorded. *)
Lemma write_named out before fs k n files data fs' :
  copied out before fs k files → backup_names !! k = Some n →
  bk_io (atomic_write (out ++ [n]) data (Some 384%N)) fs = (Ok (), fs') →
  copied out before fs' (S k) files ∧ fs_files fs' !! (out ++ [n]) = Some (MkFile data 384).
Proof.
  intros Hc (_ & Hn & _ & Ht & Htn & Htk)%named Hw. split.
  - pose proof (keeps_atomic_write (λ p, p ≠ out ++ [n] ∧ p ≠ out ++ [temp_name n]) (out ++ [n]) data (Some 384%N)) as Hk.
    rewrite Ht in Hk. specialize (Hk ltac:(naive_solver) ltac:(naive_solver) fs).
    unfold bk_io, st_map_err in Hw. destruct (atomic_write _ _ _ fs) as [r fs1]. simpl in Hk. simplify_eq/=.
    apply (copied_step _ _ _ _ _ _ _ Hc); [lia| |].
    + intros p Hp. apply Hk. split; intros ->; apply Hp; by eexists.
    + intros n' Hn'. apply Hk. split; intros [_ ->]%app_inj_tail; done.
  - assert (with_extension (out ++ [n]) "tmp" ≠ out ++ [n]) as Hne.
    { rewrite Ht. by intros [_ ?]%app_inj_tail. }
    pose proof (atomic_write_spec (out ++ [n]) data (Some 384%N) fs Hne) as Ho.
    unfold bk_io, st_map_err in Hw. destruct (atomic_write _ _ _ fs) as [[[]|] fs1]; simplify_eq/=.
    destruct Ho as (_ & m & Hm & <- & _). done.
Qed.

Lemma copied_same out before fs fs' k k' files :
  copied out before fs k files → k ≤ k' → fs_files fs' = fs_files fs → copied out before fs' k' files.
Proof. intros Hc Hk Hf. by apply (copied_step _ _ _ _ _ _ _ Hc Hk); intros; rewrite Hf. Qed.

Lemma fs_query_Ok {E} (q : Fs → bool * Fs) fs b fs' :
  (∀ fs, fs_files (q fs).2 = fs_files fs) → fs_query (E := E) q fs = (Ok b, fs') → fs_files fs' = fs_files fs.
Proof. intros Hq. unfold fs_query. specialize (Hq fs). destruct (q fs). by intros [= <- <-]. Qed.
Lemma bk_io_Ok {A} (m : ST Fs IoError A) fs a fs' : bk_io m fs = (Ok a, fs') → m fs = (Ok a, fs').
Proof. unfold bk_io, st_map_err. destruct (m fs) as [[b|e] fs1]; by intros [= -> ->]. Qed.
Lemma fs_read_Ok p fs data fs' :
  fs_read p fs = (Ok data, fs') → f_data <$> fs_files fs !! p = Some data ∧ fs_files fs' = fs_files fs.
Proof.
  intros Hr. pose proof (fs_read_files p fs) as Hf. rewrite Hr in Hf. split; [|done]. revert Hr. unfold fs_read.
  pose proof (next_fault_files fs) as Hn. destruct (next_fault fs) as [[f|] fs1]; [done|].
  rewrite (Hn _ _ eq_refl). by intros [= ?%ok_or_Ok _].
Qed.

(** The step [copy_file] for the [k]-th name. *)
Lemma copy_file_copied out before fs k n source acc acc' fs' :
  copied out before fs k acc.1 → backup_names !! k = Some n → ¬ out `prefix_of` path_of source →
  copy_file source out n acc fs = (Ok acc', fs') →
  copied out before fs' (S k) acc'.1 ∧ ∃ f, acc'.1 = acc.1 ++ [f] ∧ bf_name f = n.
Proof.
  intros Hc Hk Hout (data & fs1 & [Hd Hf1]%bk_io_Ok%fs_read_Ok & Hrest)%st_bind_Ok.
  apply st_bind_Ok in Hrest as ([] & fs2 & Hw & [= <- <-]).
  apply (write_named out before fs1 k n acc.1) in Hw as [Hc2 Hfile]; [|by apply (copied_same _ _ _ _ _ _ _ Hc)|done].
  split; [|by eexists]. destruct Hc2 as [Ho Hf]. split; [done|]. intros f [?|Hin%list_elem_of_singleton]%elem_of_app; [auto|].
  subst f. right. simpl. split; [by apply named|].
  apply fmap_Some in Hd as (file & Hfile1 & ->). exists file. simpl. split_and!; try done.
  rewrite <-(cp_outside _ _ _ _ _ Hc) by done. done.
Qed.

(** The step that copies a file that is there and notes one that is not. *)
Lemma copy_or_skip_copied skipped out before fs k n source acc acc' fs' :
  copied out before fs k acc.1 → backup_names !! k = Some n → ¬ out `prefix_of` path_of source →
  (there ← fs_query (is_file (path_of source));
   if there : bool then copy_file source out n acc else mret (acc.1, acc.2 ++ [skipped])) fs = (Ok acc', fs') →
  copied out before fs' (S k) acc'.1 ∧ ∃ new, acc'.1 = acc.1 ++ new.
Proof.
  intros Hc Hk Hout (b & fs1 & Hf%fs_query_Ok & Hrest)%st_bind_Ok; [|apply is_file_keeps].
  destruct b; [|injection Hrest as <- <-; split; [by apply (copied_same _ _ _ _ _ _ _ Hc); [lia|]|by exists []; rewrite app_nil_r]].
  apply (copy_file_copied out before fs1 k) in Hrest as [? (f & ? & _)]; [by eauto| |done|done].
  by apply (copied_same _ _ _ _ _ _ _ Hc).
Qed.

Lemma copy_raft_data_copied out before fs data acc acc' fs' :
  copied out before fs 5 acc.1 → ¬ out `prefix_of` path_of data →
  copy_raft_data order data out acc fs = (Ok acc', fs') →
  copied out before fs' 6 acc'.1 ∧ ∃ new, acc'.1 = acc.1 ++ new.
Proof.
  intros Hc Hout (b & fs1 & Hf%fs_query_Ok & Hrest)%st_bind_Ok; [|apply is_dir_keeps].
  assert (Hc1 : copied out before fs1 5 acc.1) by (by apply (copied_same _ _ _ _ _ _ _ Hc)).
  destruct b; [|by apply (copy_or_skip_copied "raft_data" out before fs1 5 "raft.redb" data) in Hrest].
  apply st_bind_Ok in Hrest as ([] & fs2 & Hcopy & Hrest). unfold with_tree_fuel in Hcopy.
  pose proof (keeps_copy_dir_all (tree_fuel fs1) (path_of data) (out ++ ["raft_data"]) fs1) as Hk2. rewrite Hcopy in Hk2. simpl in Hk2.
  apply st_bind_Ok in Hrest as ([] & fs3 & Hmode & Hrest).
  pose proof (keeps_map_err (λ _, True) (λ e, Some (BkIo (io_text e))) _ (keeps_dir_mode (λ _, True) (out ++ ["raft_data"])) fs2) as Hk3.
  unfold bk_io in Hmode. rewrite Hmode in Hk3. simpl in Hk3.
  apply st_bind_Ok in Hrest as ([total sum] & fs4 & Hhash & [= <- <-]). unfold with_tree_fuel in Hhash.
  pose proof (keeps_hash_tree (λ _, True) (tree_fuel fs3) (out ++ ["raft_data"]) fs3) as Hk4. rewrite Hhash in Hk4. simpl in Hk4.
  split; [|by eexists].
  assert (Hc4 : copied out before fs4 6 acc.1).
  { apply (copied_step _ _ _ _ _ _ _ Hc1); [lia| |].
    - intros p Hp. rewrite Hk4, Hk3, Hk2 by done || (intros Hpre; apply Hp; etrans; [by eexists|exact Hpre]). done.
    - intros n Hn. rewrite Hk4, Hk3, Hk2; [done| |done|done]. intros [l Hl]. rewrite <-app_assoc in Hl. apply app_inv_head in Hl.
      injection Hl as -> _. apply take_names in Hn. destruct (proj1 (Forall_forall _ _) backup_names_plain _ Hn) as (_ & _ & ? & _). done. }
  destruct Hc4 as [Ho Hfs]. split; [done|]. intros f [?|Hin%list_elem_of_singleton]%elem_of_app; [auto|].
  subst f. by left.
Qed.

(** The sources of a backup. *)
Definition backup_sources (config : ServiceConfig) (config_path : string) : list string :=
  [config_path; cf_authority_key_path config; cf_state_path config; cl_identity_key_path (cf_cluster config);
   cl_seed_exchange_key_path (cf_cluster config); cl_data_path (cf_cluster config)].

Lemma prepare_output_files output_dir force fs r fs' :
  prepare_output order output_dir force fs = (r, fs') → fs_files fs' = fs_files fs.
Proof.
  intros Hp. apply map_eq. intros p.
  assert (Hk : keeps (λ _, True) (prepare_output order output_dir force)).
  { apply kept_bind; [apply keeps_query, path_exists_keeps|]. intros [].
    - apply kept_bind; [apply keeps_map_err, keeps_read_dir|]. intros entries. by case_match.
    - apply kept_bind; [apply keeps_map_err, keeps_create_dir_all|]. intros _. apply keeps_map_err, keeps_dir_mode. }
  specialize (Hk fs p I). by rewrite Hp in Hk.
Qed.
Lemma backed_up_key_files config fs r fs' : backed_up_key config fs = (r, fs') → fs_files fs' = fs_files fs.
Proof.
  unfold backed_up_key. pose proof (is_file_keeps (path_of (cf_authority_key_path config)) fs) as Hf.
  destruct (is_file _ fs) as [there fs1]; simpl in Hf. case_match; [by intros [= _ <-]|].
  pose proof (fs_read_files (path_of (cf_authority_key_path config)) fs1) as Hr.
  unfold load, mbind, ST_bind, st_map_err, st_lift. destruct (fs_read _ fs1) as [[b|e] fs2]; simpl in Hr.
  - simpl. destruct (seed_of_bytes b); intros [= _ <-]; congruence.
  - intros [= _ <-]. congruence.
Qed.

Lemma copy_required_copied out before fs source acc acc' fs' :
  copied out before fs 0 acc.1 → ¬ out `prefix_of` path_of source →
  copy_required source out "config.toml" acc fs = (Ok acc', fs') →
  copied out before fs' 1 acc'.1 ∧ "config.toml" ∈ bf_name <$> acc'.1.
Proof.
  intros Hc Hout (b & fs1 & Hq%fs_query_Ok & H1)%st_bind_Ok; [|apply is_file_keeps]. destruct b; [|done].
  apply (copy_file_copied out before fs1 0) in H1 as [Hc1 (f & Hf & Hn)];
    [|by apply (copied_same _ _ _ _ _ _ _ Hc)|done|done].
  split; [done|]. rewrite Hf, fmap_app, elem_of_app. right. simpl. rewrite Hn. set_solver.
Qed.

Lemma copy_authority_copied config out before fs acc acc' fs' :
  copied out before fs 1 acc.1 → ¬ out `prefix_of` path_of (cf_authority_key_path config) →
  copy_authority config out acc fs = (Ok acc', fs') →
  copied out before fs' 2 acc'.1 ∧ (∃ new, acc'.1 = acc.1 ++ new)
  ∧ (cl_enabled (cf_cluster config) = true → "authority.key" ∈ bf_name <$> acc'.1).
Proof.
  intros Hc Hout (b & fs1 & Hq%fs_query_Ok & H1)%st_bind_Ok; [|apply is_file_keeps]. destruct b.
  - apply (copy_file_copied out before fs1 1) in H1 as [Hc1 (f & Hf & Hn)];
      [|by apply (copied_same _ _ _ _ _ _ _ Hc)|done|done].
    split_and!; [done|by eauto|]. intros _. rewrite Hf, fmap_app, elem_of_app. right. simpl. rewrite Hn. set_solver.
  - destruct (cl_enabled _); [done|]. injection H1 as <- <-.
    split_and!; [by apply (copied_same _ _ _ _ _ _ _ Hc); [lia|]|by exists []; rewrite app_nil_r|done].
Qed.

Lemma copy_cluster_copied config_path config out before fs acc acc' fs' :
  (∀ s, s ∈ backup_sources config config_path → ¬ out `prefix_of` path_of s) →
  copied out before fs 3 acc.1 → copy_cluster order (cf_cluster config) out acc fs = (Ok acc', fs') →
  copied out before fs' 6 acc'.1 ∧ ∃ new, acc'.1 = acc.1 ++ new.
Proof.
  intros Hsrc Hc (b1 & g1 & G1 & (b2 & g2 & G2 & G3)%st_bind_Ok)%st_bind_Ok.
  apply (copy_or_skip_copied "raft_identity.key" out before fs 3) in G1 as [D1 (m1 & E1)]; [|done|done|apply Hsrc; set_solver].
  apply (copy_or_skip_copied "raft_seed_exchange.key" out before g1 4) in G2 as [D2 (m2 & E2)];
    [|done|done|apply Hsrc; set_solver].
  apply (copy_raft_data_copied out before g2) in G3 as [D3 (m3 & E3)]; [|done|apply Hsrc; set_solver].
  split; [done|]. exists (m1 ++ m2 ++ m3). by rewrite E3, E2, E1, !app_assoc.
Qed.


(** ** That a backup ends *)

(** A computation that makes directories only on the way to [top] and below it. *)
Definition grows {E A} (top : path) (m : ST Fs E A) : Prop :=
  ∀ fs d, d ∈ fs_dirs (m fs).2 → d ∈ fs_dirs fs ∨ top `prefix_of` d ∨ d `prefix_of` top.

Lemma grows_bind {E A B} top (m : ST Fs E A) (f : A → ST Fs E B) :
  grows top m → (∀ a, grows top (f a)) → grows top (m ≫= f).
Proof.
  intros Hm Hf fs d. unfold mbind, ST_bind. specialize (Hm fs d). destruct (m fs) as [[a|e] fs1]; [|done].
  intros [Hd|?]%(Hf a fs1 d); auto.
Qed.
Lemma grows_map_err {E F A} top (g : E → F) (m : ST Fs E A) : grows top m → grows top (st_map_err g m).
Proof. intros Hm fs d. unfold st_map_err. specialize (Hm fs d). by destruct (m fs). Qed.
Lemma grows_same {E A} top (m : ST Fs E A) : (∀ fs, fs_dirs (m fs).2 = fs_dirs fs) → grows top m.
Proof. intros Hm fs d. rewrite Hm. auto. Qed.

Lemma prefixes_comparable top x d : top `prefix_of` x → d ∈ path_prefixes x → top `prefix_of` d ∨ d `prefix_of` top.
Proof.
  intros Ht (n & -> & _)%list_elem_of_fmap. destruct (prefix_weak_total top (take n x) x); [done|apply prefix_take|auto..].
Qed.
Lemma grows_create_dir_all top x : top `prefix_of` x → grows top (create_dir_all x).
Proof.
  intros Ht fs d. unfold create_dir_all. pose proof (next_fault_dirs fs) as Hn.
  destruct (next_fault fs) as [[f|] fs1]; rewrite <-(Hn _ _ eq_refl); simpl.
  - intros [?|Hd%elem_of_list_to_set]%elem_of_union; [auto|right]. apply (prefixes_comparable top x); [done|].
    rewrite <-(take_drop (fault_done f) (path_prefixes x)). by apply elem_of_app; left.
  - case_match; simpl; [auto|]. intros [?|Hd%elem_of_list_to_set]%elem_of_union; [auto|right].
    by apply (prefixes_comparable top x).
Qed.
Ltac dirs_same fs := unfold fs_write, set_permissions, fs_rename, set_dir_mode, read_dir, fs_read;
  pose proof (next_fault_dirs fs) as Hn; destruct (next_fault fs) as [[f|] fs1]; rewrite <-(Hn _ _ eq_refl);
  simpl; repeat case_match; done.
Lemma fs_write_dirs p data fs : fs_dirs (fs_write p data fs).2 = fs_dirs fs. Proof. dirs_same fs. Qed.
Lemma set_permissions_dirs p mode fs : fs_dirs (set_permissions p mode fs).2 = fs_dirs fs. Proof. dirs_same fs. Qed.
Lemma fs_rename_dirs p q fs : fs_dirs (fs_rename p q fs).2 = fs_dirs fs. Proof. dirs_same fs. Qed.
Lemma set_dir_mode_dirs d fs : fs_dirs (set_dir_mode d fs).2 = fs_dirs fs. Proof. dirs_same fs. Qed.
Lemma read_dir_dirs d fs : fs_dirs (read_dir order d fs).2 = fs_dirs fs. Proof. dirs_same fs. Qed.
Lemma fs_read_dirs p fs : fs_dirs (fs_read p fs).2 = fs_dirs fs. Proof. dirs_same fs. Qed.

Lemma grows_atomic_write top d n data mode : top `prefix_of` d → grows top (atomic_write (d ++ [n]) data mode).
Proof.
  intros Ht. unfold atomic_write. apply grows_bind.
  - unfold path_parent. rewrite reverse_snoc.
    case_bool_decide; [by apply grows_same|]. case_bool_decide; [|by apply grows_same].
    rewrite reverse_involutive. by apply grows_create_dir_all.
  - intros _. apply grows_bind; [apply grows_same, fs_write_dirs|]. intros _. apply grows_bind.
    + destruct mode; [apply grows_same, set_permissions_dirs|by apply grows_same].
    + intros _. apply grows_same, fs_rename_dirs.
Qed.

Lemma grows_copy_entries top sub source dest entries :
  top `prefix_of` dest → (∀ s d, top `prefix_of` d → grows top (sub s d)) → grows top (copy_entries sub source dest entries).
Proof.
  intros Ht Hsub. induction entries as [|[n []] entries IH]; cbn [copy_entries]; [by apply grows_same|apply grows_bind; [|done]..].
  - apply Hsub. by apply prefix_app_r.
  - apply grows_bind; [apply grows_map_err, grows_same, fs_read_dirs|]. intros data. by apply grows_map_err, grows_atomic_write.
Qed.
Lemma grows_copy_dir_all top fuel source dest : top `prefix_of` dest → grows top (copy_dir_all order fuel source dest).
Proof.
  revert source dest. induction fuel as [|fuel IH]; intros source dest Ht; cbn [copy_dir_all]; [by apply grows_same|].
  apply grows_bind; [by apply grows_map_err, grows_create_dir_all|intros _].
  apply grows_bind; [apply grows_map_err, grows_same, set_dir_mode_dirs|intros _].
  apply grows_bind; [apply grows_map_err, grows_same, read_dir_dirs|intros entries].
  apply grows_copy_entries; auto.
Qed.

(** A computation that does not run out of fuel. *)
Definition ends {A} (m : ST Fs (option BackupError) A) : Prop := ∀ fs, (m fs).1 ≠ Err None.
Lemma ends_bind {A B} (m : ST Fs (option BackupError) A) (f : A → ST Fs (option BackupError) B) :
  ends m → (∀ a, ends (f a)) → ends (m ≫= f).
Proof. intros Hm Hf fs. unfold mbind, ST_bind. specialize (Hm fs). destruct (m fs) as [[a|e] fs1]; [apply Hf|]. simpl in *. congruence. Qed.
Lemma ends_ret {A} (a : A) : ends (mret a). Proof. done. Qed.
Lemma ends_err {A} e : ends (A := A) (st_err (Some e)). Proof. done. Qed.
Lemma ends_query q : ends (fs_query q). Proof. intros fs. unfold fs_query. by destruct (q fs). Qed.
Lemma ends_io {A} (m : ST Fs IoError A) : ends (bk_io m).
Proof. intros fs. unfold bk_io, st_map_err. by destruct (m fs) as [[a|e] fs1]. Qed.

(** The directories below [root] have at most [depth] components. *)
Definition shallow (root : path) (depth : nat) (fs : Fs) : Prop :=
  ∀ d, d ∈ fs_dirs fs → root `prefix_of` d → length d ≤ depth.
Definition apart (p q : path) : Prop := ¬ p `prefix_of` q ∧ ¬ q `prefix_of` p.

Lemma shallow_grows {E A} root top depth (m : ST Fs E A) fs :
  apart root top → grows top m → shallow root depth fs → shallow root depth (m fs).2.
Proof.
  intros [H1 H2] Hg Hs d Hd Hr. destruct (Hg fs d Hd) as [?|[Ht|Ht]]; [by apply Hs|exfalso..].
  - destruct (prefix_weak_total root top d); auto.
  - apply H1. by etrans.
Qed.

Lemma read_dir_Ok d fs entries fs' n :
  read_dir order d fs = (Ok entries, fs') → (n, true) ∈ entries → d ++ [n] ∈ fs_dirs fs.
Proof.
  unfold read_dir. pose proof (next_fault_dirs fs) as Hn. destruct (next_fault fs) as [[f|] fs1]; [done|].
  rewrite (Hn _ _ eq_refl). case_bool_decide; [|done]. intros [= <- _] (m & [= <- Hb] & _)%list_elem_of_fmap.
  by symmetry in Hb; apply bool_decide_eq_true in Hb.
Qed.

Lemma copy_entries_ends root top depth sub source dest entries fs :
  apart root top → top `prefix_of` dest →
  (∀ s d, top `prefix_of` d → grows top (sub s d)) →
  (∀ n fs, (n, true) ∈ entries → shallow root depth fs → (sub (source ++ [n]) (dest ++ [n]) fs).1 ≠ Err None) →
  shallow root depth fs → (copy_entries sub source dest entries fs).1 ≠ Err None.
Proof.
  intros Ha Ht Hg. revert fs. induction entries as [|[n b] entries IH]; intros fs Hsub Hs; cbn [copy_entries]; [done|].
  unfold mbind at 1, ST_bind at 1.
  match goal with |- context [(if b then ?x else ?y) fs] => set (m := if b then x else y) end.
  assert ((m fs).1 ≠ Err None ∧ shallow root depth (m fs).2) as [Hm1 Hm2].
  { split; [|apply (shallow_grows root top depth m); [done| |done]]; unfold m; destruct b.
    - apply Hsub; [by apply list_elem_of_here|done].
    - apply ends_bind; [apply ends_io|intros; apply ends_io].
    - apply Hg. by apply prefix_app_r.
    - apply grows_bind; [apply grows_map_err, grows_same, fs_read_dirs|]. intros data. by apply grows_map_err, grows_atomic_write. }
  destruct (m fs) as [[u|e] fs1]; [|simpl in *; congruence]. apply IH; [|done].
  intros n' fs' Hin. apply Hsub. by apply list_elem_of_further.
Qed.

Lemma copy_dir_all_ends root top depth fuel source dest fs :
  apart root top → root `prefix_of` source → top `prefix_of` dest → shallow root depth fs →
  1 ≤ fuel → depth < fuel + length source → (copy_dir_all order fuel source dest fs).1 ≠ Err None.
Proof.
  intros Ha. revert source dest fs. induction fuel as [|fuel IH]; intros source dest fs Hr Ht Hs H1 Hf; [lia|].
  cbn [copy_dir_all]. unfold mbind at 1, ST_bind at 1.
  pose proof (shallow_grows root top depth _ fs Ha (grows_map_err top (λ e, Some (BkIo (io_text e))) _ (grows_create_dir_all top dest Ht)) Hs) as Hs1.
  pose proof (ends_io (create_dir_all dest) fs) as He1. fold (bk_io (create_dir_all dest)) in Hs1.
  destruct (bk_io (create_dir_all dest) fs) as [[u|e] fs1]; [|simpl in *; congruence].
  unfold mbind at 1, ST_bind at 1. pose proof (ends_io (set_dir_mode dest) fs1) as He2. unfold bk_io, st_map_err in He2 |- *.
  pose proof (set_dir_mode_dirs dest fs1) as Hd2. destruct (set_dir_mode dest fs1) as [[u2|e] fs2]; [|done].
  unfold mbind at 1, ST_bind at 1. pose proof (read_dir_dirs source fs2) as Hd3.
  destruct (read_dir order source fs2) as [[entries|e] fs3] eqn:Hread; [|done]. simpl in *.
  assert (Hs2 : shallow root depth fs2) by (unfold shallow; by rewrite Hd2).
  apply (copy_entries_ends root top depth); try done.
  - intros s d. apply grows_copy_dir_all.
  - intros n fs' Hin Hs'. pose proof (read_dir_Ok _ _ _ _ _ Hread Hin) as Hsub.
    assert (Hp : root `prefix_of` source ++ [n]) by (by apply prefix_app_r).
    pose proof (Hs2 _ Hsub Hp) as Hlen. rewrite length_app in Hlen. simpl in Hlen.
    apply IH; [done|by apply prefix_app_r|done|lia|rewrite length_app; simpl; lia].
  - unfold shallow. by rewrite Hd3.
Qed.

Lemma tree_fuel_shallow root fs : shallow root (max_list (length <$> elements (fs_dirs fs))) fs.
Proof. intros d Hd _. apply max_list_elem_of_le. apply list_elem_of_fmap. exists d. split; [done|]. by apply elem_of_elements. Qed.

(** Collecting changes no directory. *)
Lemma collect_files_dirs fuel d fs : fs_dirs (collect_files order fuel d fs).2 = fs_dirs fs.
Proof.
  assert (Hbind : ∀ A B (m : ST Fs (option BackupError) A) (f : A → ST Fs (option BackupError) B),
    (∀ fs, fs_dirs (m fs).2 = fs_dirs fs) → (∀ a fs, fs_dirs (f a fs).2 = fs_dirs fs) → ∀ fs, fs_dirs ((m ≫= f) fs).2 = fs_dirs fs).
  { intros A B m f Hm Hf fs0. unfold mbind, ST_bind. specialize (Hm fs0). destruct (m fs0) as [[a|e] fs1]; [|done]. by rewrite Hf. }
  revert d fs. induction fuel as [|fuel IH]; intros d; cbn [collect_files]; [done|].
  apply Hbind.
  - intros fs0. unfold bk_io, st_map_err. pose proof (read_dir_dirs d fs0) as Hd. by destruct (read_dir order d fs0).
  - intros entries. induction entries as [|[n b] entries IHe]; cbn [collect_entries]; [done|].
    apply Hbind; [destruct b; [apply IH|done]|intros found]. by apply Hbind.
Qed.

Lemma collect_files_ends depth fuel d fs :
  shallow [] depth fs → 1 ≤ fuel → depth < fuel + length d → (collect_files order fuel d fs).1 ≠ Err None.
Proof.
  revert d fs. induction fuel as [|fuel IH]; intros d fs Hs H1 Hf; [lia|]. cbn [collect_files].
  unfold mbind at 1, ST_bind at 1, bk_io, st_map_err. pose proof (read_dir_dirs d fs) as Hd.
  destruct (read_dir order d fs) as [[entries|e] fs1] eqn:Hread; [|done]. simpl in Hd.
  assert (Hentry : ∀ n, (n, true) ∈ entries → length d + 1 ≤ depth).
  { intros n Hin. pose proof (Hs _ (read_dir_Ok _ _ _ _ _ Hread Hin) (prefix_nil _)) as Hl. by rewrite length_app in Hl. }
  assert (Hs1 : shallow [] depth fs1) by (unfold shallow; by rewrite Hd). clear Hread Hd Hs fs. rename fs1 into fs.
  cbn [map_err]. revert fs Hs1. induction entries as [|[n b] entries IHe]; intros fs Hs; cbn [collect_entries]; [done|].
  unfold mbind at 1, ST_bind at 1.
  match goal with |- context [(if b then ?x else ?y) fs] => set (m := if b then x else y) end.
  assert ((m fs).1 ≠ Err None ∧ shallow [] depth (m fs).2) as [Hm1 Hm2].
  { unfold m. destruct b; [|done]. split; [|unfold shallow; by rewrite collect_files_dirs].
    assert (length d + 1 ≤ depth) by (apply (Hentry n), list_elem_of_here).
    apply IH; [done|lia|rewrite length_app; simpl; lia]. }
  destruct (m fs) as [[found|e] fs1]; [|simpl in *; congruence]. simpl in Hm2. unfold mbind, ST_bind.
  specialize (IHe (λ n' Hin, Hentry n' (list_elem_of_further _ _ _ Hin)) fs1 Hm2).
  by destruct (collect_entries _ _ entries fs1) as [[rest|e] fs2].
Qed.

Lemma hash_tree_ends root : ends (with_tree_fuel (λ fuel, hash_tree order fuel root)).
Proof.
  intros fs. unfold with_tree_fuel, hash_tree. unfold mbind at 1, ST_bind at 1.
  pose proof (collect_files_ends _ (tree_fuel fs) root fs (tree_fuel_shallow [] fs)) as Hc.
  destruct (collect_files order (tree_fuel fs) root fs) as [[files|e] fs1];
    [|simpl in *; intros ?; apply Hc; [unfold tree_fuel; lia..|congruence]].
  assert (Hfiles : ∀ fs' total input, (hash_files root (merge_sort (λ p q, String.le (relative root p) (relative root q)) files) total input fs').1 ≠ Err None).
  { induction (merge_sort _ files) as [|f l IH]; intros fs' total input; cbn [hash_files]; [done|].
    revert fs'. apply ends_bind; [apply ends_io|]. intros data fs'. apply IH. }
  specialize (Hfiles fs1 0%N ""). unfold mbind, ST_bind. destruct (hash_files _ _ _ _ fs1) as [[[total input]|e] fs2]; [done|].
  simpl in *. congruence.
Qed.

Lemma copy_file_ends source out n acc : ends (copy_file source out n acc).
Proof. apply ends_bind; [apply ends_io|intros data]. apply ends_bind; [apply ends_io|done]. Qed.
Lemma copy_optional_ends source out n acc : ends (copy_optional source out n acc).
Proof. apply ends_bind; [apply ends_query|intros []; [apply copy_file_ends|done]]. Qed.
Lemma copy_raft_data_ends data out acc :
  apart (path_of data) (out ++ ["raft_data"]) → ends (copy_raft_data order data out acc).
Proof.
  intros Ha. apply ends_bind; [apply ends_query|]. intros [].
  - apply ends_bind.
    + intros fs. unfold with_tree_fuel.
      apply (copy_dir_all_ends (path_of data) (out ++ ["raft_data"]) (max_list (length <$> elements (fs_dirs fs))));
        [done|done|done|apply tree_fuel_shallow|unfold tree_fuel; lia..].
    + intros _. apply ends_bind; [apply ends_io|intros _]. apply ends_bind; [apply hash_tree_ends|]. by intros [total sum].
  - apply ends_bind; [apply ends_query|intros []; [apply copy_file_ends|done]].
Qed.

(** The other way round: a directory that is copied into itself. *)
Lemma copy_into_itself fuel source rest fs :
  (∀ d l, order d l ≡ₚ l) → rest ≠ [] → (copy_dir_all order fuel source (source ++ rest) fs).1 ≠ Ok ().
Proof.
  intros Ho. revert source rest fs. induction fuel as [|fuel IH]; intros source rest fs Hne; [done|].
  destruct rest as [|h rest]; [done|]. destruct (copy_dir_all _ _ _ _ fs) as [r fs'] eqn:Hrun. cbn [fst]. intros ->. revert Hrun.
  cbn [copy_dir_all].
  intros (u1 & fs1 & H1%bk_io_Ok & Hrun)%st_bind_Ok. apply st_bind_Ok in Hrun as (u2 & fs2 & H2%bk_io_Ok & Hrun).
  apply st_bind_Ok in Hrun as (entries & fs3 & H3%bk_io_Ok & Hrun).
  assert (Hd : source ++ [h] ∈ fs_dirs fs2).
  { pose proof (set_dir_mode_dirs (source ++ h :: rest) fs1) as Hd. rewrite H2 in Hd. simpl in Hd. rewrite Hd.
    revert H1. unfold create_dir_all. destruct (next_fault fs) as [[f|] fs0]; [done|]. case_match; [done|].
    intros [= <- <-]. simpl. apply elem_of_union. right. apply elem_of_list_to_set, list_elem_of_fmap.
    exists (S (length source)). split; [|apply elem_of_seq; rewrite length_app; simpl; lia].
    rewrite take_app_ge by lia. by replace (S (length source) - length source) with 1 by lia. }
  assert (Hin : (h, true) ∈ entries).
  { revert H3. unfold read_dir. pose proof (next_fault_dirs fs2) as Hn. destruct (next_fault fs2) as [[f|] fs0]; [done|].
    specialize (Hn _ _ eq_refl). case_bool_decide; [|done]. intros [= <- _]. apply list_elem_of_fmap. exists h.
    rewrite bool_decide_true by (by rewrite Hn). split; [done|]. rewrite Ho. unfold children.
    apply elem_of_remove_dups, list_elem_of_omap. exists (source ++ [h]). split.
    - apply elem_of_app. right. apply elem_of_elements. by rewrite Hn.
    - unfold child_of. rewrite take_app_length, bool_decide_true by done. by rewrite drop_app_length. }
  clear H1 H2 H3 Hd. revert fs3 Hrun. induction entries as [|[n b] entries IHe]; intros fs3; [by apply not_elem_of_nil in Hin|].
  cbn [copy_entries]. intros ([] & fs4 & Hsub & Hrest)%st_bind_Ok. apply elem_of_cons in Hin as [[= <- <-]|Hin]; [|by eapply IHe].
  refine (IH (source ++ [h]) (rest ++ [h]) fs3 _ _); [by destruct rest|].
  replace ((source ++ [h]) ++ rest ++ [h]) with ((source ++ h :: rest) ++ [h]) by (by rewrite <-!app_assoc). by rewrite Hsub.
Qed.

(** A backup ends, unless it is put into what it copies.  When the data of the
    consensus library and its copy lie apart, [create_backup] ends, whatever calls
    fail and in whatever order directories are listed: the copy and the hash of the
    tree need no more turns than the tree is deep.  When the copy lies inside the
    directory that is copied, the copy never succeeds, however long it runs. *)
Theorem backup_ends_unless_nested config config_path output_dir force now fs :
  let data := path_of (cl_data_path (cf_cluster config)) in
  let dest := path_of output_dir ++ ["raft_data"] in
  (apart data dest → (create_backup order config config_path output_dir force now fs).1 ≠ Err None)
  ∧ ((∀ d l, order d l ≡ₚ l) → data `prefix_of` dest → data ≠ dest →
     ∀ fuel fs, (copy_dir_all order fuel data dest fs).1 ≠ Ok ()).
Proof.
  intros data dest. split.
  - intros Ha. revert fs. unfold create_backup. apply ends_bind.
    { apply ends_bind; [apply ends_query|]. intros [].
      - apply ends_bind; [apply ends_io|]. intros entries. by case_match.
      - apply ends_bind; intros; apply ends_io. }
    intros _. apply ends_bind.
    { apply ends_bind; [apply ends_query|]. intros []; [apply copy_file_ends|done]. }
    intros a1. apply ends_bind.
    { apply ends_bind; [apply ends_query|]. intros []; [apply copy_file_ends|by case_match]. }
    intros a2. apply ends_bind; [apply copy_optional_ends|]. intros a3. apply ends_bind.
    { case_match; [|done]. apply ends_bind; [apply copy_optional_ends|]. intros b1.
      apply ends_bind; [apply copy_optional_ends|]. intros b2. by apply copy_raft_data_ends. }
    intros a4. apply ends_bind.
    { intros fs. unfold backed_up_key. destruct (is_file _ fs). case_match; [done|]. by destruct (load _ _ _). }
    intros key. apply ends_bind; [intros fs; unfold st_lift; by destruct (encode_to Json _)|]. intros text.
    apply ends_bind; [apply ends_io|done].
  - intros Ho [rest ->] Hne fuel fs'. apply copy_into_itself; [done|]. intros ->. by rewrite app_nil_r in Hne.
Qed.
End frames.

(** ** Examples *)

Section backup_examples.
Import Toy.
(** A manifest that is only the names of the files. *)
#[local] Instance names_codec : Codec Json BackupReport := {|
  encode_to r := Ok (String.concat "," (bf_name <$> br_files r)); decode_from _ := Err "not read back" |}.

Definition ex_listing (d : path) (l : list string) : list string := reverse (merge_sort String.le l).
Lemma ex_listing_perm d l : ex_listing d l ≡ₚ l.
Proof. unfold ex_listing. by rewrite reverse_Permutation, merge_sort_Permutation. Qed.

Definition ex_backup_config : ServiceConfig :=
  MkServiceConfig "auth" 5100 "net" "/s/authority.key" "/s/state.toml" 3600 1200 "secret" ∅ "require" 30 5 false
    (MkClusterConfig true "c" false "/s/id.key" "/s/raft" "/s/seed.key" "" "" 500 1500 3000 [] []) [].
Definition ex_backup_fs : Fs :=
  MkFs {[ ["/"; "s"; "config.toml"] := MkFile "port = 1" 384; ["/"; "s"; "authority.key"] := MkFile (pad 32 "seed") 384;
          ["/"; "s"; "raft"; "a.db"] := MkFile "data" 384 ]}
    {[ ["/"]; ["/"; "s"]; ["/"; "s"; "raft"] ]} 18 [].


Lemma backup_ends_unless_nested_witness :
  (create_backup ex_listing ex_backup_config "/s/config.toml" "/out" false 7 ex_backup_fs).1 ≠ Err None
  ∧ ∀ fuel fs, (copy_dir_all ex_listing fuel ["/"; "s"; "raft"] ["/"; "s"; "raft"; "backup"; "raft_data"] fs).1 ≠ Ok ().
Proof.
  split.
  - apply backup_ends_unless_nested. split; intros [l Hl]; vm_compute in Hl; discriminate.
  - apply (backup_ends_unless_nested ex_listing ex_backup_config "/s/config.toml" "/s/raft/backup" false 7 ex_backup_fs).
    + exact ex_listing_perm.
    + exists ["backup"; "raft_data"]. reflexivity.
    + vm_compute. discriminate.
Defined.

(** A file of the directory whose name ends in [.tmp] is where [atomic_write] puts
    the temporary file of its neighbour: the copy reports success without it. *)
Lemma tmp_file_lost_in_copy :
  let fs := MkFs {[ ["d"; "a.tmp"] := MkFile "kept?" 384; ["d"; "a.db"] := MkFile "data" 384 ]} {[ ["d"] ]} 18 [] in
  let '(r, fs') := copy_dir_all ex_listing 2 ["d"] ["o"] fs in
  r = Ok () ∧ fs_files fs' !! ["o"; "a.db"] = Some (MkFile "data" 384) ∧ fs_files fs' !! ["o"; "a.tmp"] = None.
Proof. vm_compute. auto. Qed.
End backup_examples.
