(* ===== verification/Join.v ===== *)
(** * Join tokens and join requests: [src/src/raft/token.rs], [src/src/raft/join.rs]

    A root administrator signs a token; a new node presents it with its Raft
    identity and signs the request with its identity key. *)
From S2P Require Import Prelude Fsutil Crypto Authority Replay Types StateMachine Transport AdminV2.

Definition JOIN_TOKEN_VERSION : N := 1.

Inductive JoinTokenError :=
  | JtBadVersion | JtEmptyJti | JtUnknownKey | JtNotRoot | JtBadSignature | JtExpired | JtWrongCluster
  | JtWrongNetwork | JtWrongAudience | JtWrongPeer | JtExhausted | JtBadRequest (m : string).
Global Instance JoinTokenError_eq_dec : EqDecision JoinTokenError.
Proof. solve_decision. Defined.

Definition token_code (e : JoinTokenError) : string :=
  match e with
  | JtBadVersion => "join_token_bad_version"
  | JtEmptyJti => "join_token_bad_jti"
  | JtUnknownKey => "unknown_admin_key"
  | JtNotRoot => "forbidden_role"
  | JtBadSignature => "bad_signature"
  | JtExpired => "join_token_expired"
  | JtWrongCluster => "join_token_wrong_cluster"
  | JtWrongNetwork => "join_token_wrong_network"
  | JtWrongAudience => "join_token_wrong_audience"
  | JtWrongPeer => "join_token_wrong_peer"
  | JtExhausted => "join_token_replayed"
  | JtBadRequest _ => "bad_request"
  end.

Definition token_text (e : JoinTokenError) : string :=
  match e with
  | JtBadVersion => "unsupported join token version"
  | JtEmptyJti => "join token jti is empty"
  | JtUnknownKey => "unknown admin key"
  | JtNotRoot => "join token must be signed by a root key"
  | JtBadSignature => "invalid join token signature"
  | JtExpired => "join token expired"
  | JtWrongCluster => "join token cluster mismatch"
  | JtWrongNetwork => "join token network mismatch"
  | JtWrongAudience => "join token audience mismatch"
  | JtWrongPeer => "join token bound to a different peer"
  | JtExhausted => "join token already used"
  | JtBadRequest m => "bad join token: " +:+ m
  end.

(** All fields but the signature. *)
Record JoinTokenSigned := MkJoinTokenSigned {
  ts_v : N; ts_jti : string; ts_cluster_id : string; ts_network : string; ts_audience : string;
  ts_expires_at : N; ts_max_uses : N; ts_bind_peer_id : string; ts_kid : string;
}.
Global Instance JoinTokenSigned_eq_dec : EqDecision JoinTokenSigned.
Proof. solve_decision. Defined.
Global Instance JoinTokenSigned_countable : Countable JoinTokenSigned.
Proof.
  refine (inj_countable' (λ t, (ts_v t, ts_jti t, ts_cluster_id t, ts_network t, ts_audience t,
      (ts_expires_at t, ts_max_uses t, ts_bind_peer_id t, ts_kid t)))
    (λ '(a, b, c, d, e, (f, g, h, i)), MkJoinTokenSigned a b c d e f g h i) _). by intros [].
Defined.

Definition RAFT_JOIN_OP : string := "raft_join".
Definition RAFT_JOIN_VERSION : N := 1.
Definition RAFT_JOIN_MAX_TS_SKEW_SECS : N := 300.

Inductive JoinError :=
  | JeBadRequest (m : string) | JeAuth | JeToken (e : JoinTokenError) | JeExpiredTimestamp.
Global Instance JoinError_eq_dec : EqDecision JoinError.
Proof. solve_decision. Defined.

Definition join_code (e : JoinError) : string :=
  match e with
  | JeBadRequest _ => "bad_request"
  | JeAuth => "join_auth_failed"
  | JeToken e => token_code e
  | JeExpiredTimestamp => "expired_timestamp"
  end.
Definition join_text (e : JoinError) : string :=
  match e with
  | JeBadRequest m => "bad join request: " +:+ m
  | JeAuth => "join request signature invalid"
  | JeToken e => token_text e
  | JeExpiredTimestamp => "join timestamp out of range"
  end.

Record RaftJoinRequest := MkRaftJoinRequest {
  rj_op : string; rj_v : N; rj_cluster_id : string; rj_network : string; rj_token : JoinToken;
  rj_node_id : N; rj_peer_id : string; rj_identity_key : string; rj_x25519_key : string;
  rj_nonce : string; rj_ts : N; rj_edge_peer : string; rj_sig : string;
}.
Global Instance RaftJoinRequest_eq_dec : EqDecision RaftJoinRequest.
Proof. solve_decision. Defined.

(** The signed part: neither [op] nor the edge that relays the request. *)
Record JoinSigned := MkJoinSigned {
  jg_v : N; jg_cluster_id : string; jg_network : string; jg_token : JoinToken; jg_node_id : N;
  jg_peer_id : string; jg_identity_key : string; jg_x25519_key : string; jg_nonce : string; jg_ts : N;
}.
Global Instance JoinSigned_eq_dec : EqDecision JoinSigned.
Proof. solve_decision. Defined.
Global Instance JoinSigned_countable : Countable JoinSigned.
Proof.
  refine (inj_countable' (λ t, (jg_v t, jg_cluster_id t, jg_network t, jg_token t, jg_node_id t,
      (jg_peer_id t, jg_identity_key t, jg_x25519_key t, jg_nonce t, jg_ts t)))
    (λ '(a, b, c, d, e, (f, g, h, i, j)), MkJoinSigned a b c d e f g h i j) _). by intros [].
Defined.

Record MemberInfo := MkMemberInfo {
  mi_node_id : N; mi_peer_id : string; mi_identity_key : string; mi_x25519_key : string; mi_voter : bool;
}.
Record RaftJoinResponse := MkRaftJoinResponse {
  jr_v : N; jr_ok : bool; jr_error : string; jr_cluster_id : string; jr_network : string; jr_node_id : N;
  jr_peer_id : string; jr_role : string; jr_term : N; jr_leader : option N; jr_policy_epoch : N;
  jr_members : list MemberInfo;
}.

(** [token_from_spec] raises [max_uses] to at least one. *)
Definition token_from_spec (cluster_id network kid : string) (spec : AdminJoinTokenSpec) : JoinToken :=
  MkJoinToken JOIN_TOKEN_VERSION (js_jti spec) cluster_id network (js_audience spec) (js_expires_at spec)
    (N.max (js_max_uses spec) 1) (js_bind_peer_id spec) kid (js_sig spec).

Definition token_spec (jti audience : string) (expires_at : N) (bind_peer_id : string) : AdminJoinTokenSpec :=
  MkAdminJoinTokenSpec jti audience expires_at 1 bind_peer_id "".

Definition map_admin_error (e : AdminV2Error) : JoinTokenError :=
  match e with
  | AvUnknownKey => JtUnknownKey
  | AvBadSignature => JtBadSignature
  | other => JtBadRequest (admin_v2_text other)
  end.

Section join.
Context `{Crypto, Codec Cbor JoinTokenSigned, Codec Cbor JoinSigned}.

Definition token_signed_of (t : JoinToken) : JoinTokenSigned :=
  MkJoinTokenSigned (jt_v t) (jt_jti t) (jt_cluster_id t) (jt_network t) (jt_audience t) (jt_expires_at t)
    (jt_max_uses t) (jt_bind_peer_id t) (jt_kid t).

Definition token_signing_bytes (t : JoinToken) : result JoinTokenError string :=
  map_err JtBadRequest (encode_to Cbor (token_signed_of t)).

Definition sign_join_token (signing_key : string) (t : JoinToken) : result JoinTokenError JoinToken :=
  bytes ← token_signing_bytes t;
  Ok (MkJoinToken (jt_v t) (jt_jti t) (jt_cluster_id t) (jt_network t) (jt_audience t) (jt_expires_at t)
        (jt_max_uses t) (jt_bind_peer_id t) (jt_kid t) (b64url_encode (ed_sign signing_key bytes))).

Definition audience_allowed (t : JoinToken) (allowed_audiences : list string) : bool :=
  bool_decide (jt_audience t = "auth")
  || existsb (λ candidate, negb (str_is_empty candidate) && bool_decide (candidate = jt_audience t))
       allowed_audiences.

Definition verify_join_token (verifier : AdminVerifier) (t : JoinToken) (now : N) (cluster_id network : string)
    (allowed_audiences : list string) : result JoinTokenError unit :=
  if negb (jt_v t =? JOIN_TOKEN_VERSION)%N then Err JtBadVersion
  else if trim_is_empty (jt_jti t) then Err JtEmptyJti
  else if bool_decide (jt_cluster_id t ≠ cluster_id) then Err JtWrongCluster
  else if bool_decide (jt_network t ≠ network) then Err JtWrongNetwork
  else if (jt_expires_at t =? 0)%N || (jt_expires_at t <? now)%N then Err JtExpired
  else if (jt_max_uses t =? 0)%N then Err JtExhausted
  else if negb (audience_allowed t allowed_audiences) then Err JtWrongAudience
  else
    bytes ← token_signing_bytes t;
    role ← map_err map_admin_error (verify_signature verifier (jt_kid t) bytes (jt_sig t));
    if bool_decide (role ≠ Root) then Err JtNotRoot else Ok ().

Definition join_signed_of (req : RaftJoinRequest) : JoinSigned :=
  MkJoinSigned (rj_v req) (rj_cluster_id req) (rj_network req) (rj_token req) (rj_node_id req) (rj_peer_id req)
    (rj_identity_key req) (rj_x25519_key req) (rj_nonce req) (rj_ts req).

Definition join_signing_bytes (req : RaftJoinRequest) : result JoinError string :=
  map_err JeBadRequest (encode_to Cbor (join_signed_of req)).

Definition parse_identity (key_b64 : string) : result JoinError string :=
  raw ← ok_or (b64_decode key_b64) JeAuth;
  if bool_decide (String.length raw ≠ 32) then Err JeAuth
  else if ed_key_ok raw then Ok raw else Err JeAuth.

Definition parse_x25519 (key_b64 : string) : result JoinError string :=
  raw ← ok_or (b64_decode key_b64) (JeBadRequest "x25519_key is not base64");
  if bool_decide (String.length raw ≠ 32) then Err (JeBadRequest "x25519_key must be 32 bytes") else Ok raw.

Definition sign_join_request (identity : IdentityKey) (req : RaftJoinRequest) : result JoinError RaftJoinRequest :=
  bytes ← join_signing_bytes req;
  Ok (MkRaftJoinRequest (rj_op req) (rj_v req) (rj_cluster_id req) (rj_network req) (rj_token req)
        (rj_node_id req) (rj_peer_id req) (rj_identity_key req) (rj_x25519_key req) (rj_nonce req) (rj_ts req)
        (rj_edge_peer req) (sign_b64 identity bytes)).

(** [join::verify_request]. *)
Definition verify_join_request (req : RaftJoinRequest) (verifier : AdminVerifier) (cluster_id network : string)
    (now : N) (allowed_audiences : list string) : result JoinError unit :=
  if bool_decide (rj_op req ≠ RAFT_JOIN_OP) || negb (rj_v req =? RAFT_JOIN_VERSION)%N then
    Err (JeBadRequest "unsupported join request")
  else if bool_decide (rj_cluster_id req ≠ cluster_id) || bool_decide (rj_network req ≠ network) then
    Err (JeBadRequest "cluster/network mismatch")
  else if (rj_node_id req =? 0)%N then Err (JeBadRequest "node_id must be non-zero")
  else if negb (is_valid_peer_id (rj_peer_id req)) then Err (JeBadRequest "invalid peer_id")
  else if negb (rj_node_id req =? node_id_from_peer_id (rj_peer_id req))%N then
    Err (JeBadRequest "node_id does not match peer_id")
  else if str_is_empty (rj_nonce req) || (128 <? str_len (rj_nonce req))%N then
    Err (JeBadRequest "invalid nonce")
  else if (RAFT_JOIN_MAX_TS_SKEW_SECS <? abs_diff now (rj_ts req))%N then Err JeExpiredTimestamp
  else
    parse_x25519 (rj_x25519_key req) ;;
    identity ← parse_identity (rj_identity_key req);
    if negb (str_is_empty (jt_bind_peer_id (rj_token req)))
       && bool_decide (jt_bind_peer_id (rj_token req) ≠ rj_peer_id req)
    then Err (JeToken JtWrongPeer)
    else
      map_err JeToken (verify_join_token verifier (rj_token req) now cluster_id network allowed_audiences) ;;
      sig_raw ← ok_or (b64url_decode (rj_sig req)) JeAuth;
      if bool_decide (String.length sig_raw ≠ 64) then Err JeAuth
      else
        bytes ← join_signing_bytes req;
        check_signature identity bytes sig_raw JeAuth.
End join.

(** ** Properties *)

Section join_props.
Context `{CR : Crypto, CT : Codec Cbor JoinTokenSigned, CJ : Codec Cbor JoinSigned}.

Definition audience_ok (t : JoinToken) (allowed : list string) : Prop :=
  jt_audience t = "auth" ∨ (jt_audience t ≠ "" ∧ jt_audience t ∈ allowed).

Lemma audience_allowed_true t allowed : audience_allowed t allowed = true ↔ audience_ok t allowed.
Proof.
  unfold audience_allowed, audience_ok. rewrite orb_true_iff, bool_decide_eq_true, existsb_exists.
  split; (intros [?|Hex]; [by left|right]).
  - destruct Hex as (c & Hin & [Hne Heq%bool_decide_eq_true]%andb_true_iff). subst c.
    rewrite negb_true_iff, str_is_empty_false in Hne. by rewrite list_elem_of_In.
  - destruct Hex as [Hne Hin]. exists (jt_audience t). rewrite <-list_elem_of_In.
    rewrite andb_true_iff, negb_true_iff, str_is_empty_false, bool_decide_eq_true. done.
Qed.

(** A token this cluster accepts at [now], signed by a root key. *)
Record token_valid (v : AdminVerifier) (t : JoinToken) (now : N) (cluster_id network : string)
    (allowed : list string) : Prop := {
  tv_version : jt_v t = JOIN_TOKEN_VERSION;
  tv_jti : trim_is_empty (jt_jti t) = false;
  tv_cluster : jt_cluster_id t = cluster_id;
  tv_network : jt_network t = network;
  tv_expiry : jt_expires_at t ≠ 0%N ∧ (now ≤ jt_expires_at t)%N;
  tv_uses : jt_max_uses t ≠ 0%N;
  tv_audience : audience_ok t allowed;
  tv_signed : ∃ key bytes sig, av_keys v !! jt_kid t = Some (key, Root) ∧ token_signing_bytes t = Ok bytes
    ∧ b64url_decode (jt_sig t) = Some sig ∧ String.length sig = 64 ∧ ed_verify key bytes sig = true;
}.

Lemma verify_signature_Ok v kid msg sig64 role : verify_signature v kid msg sig64 = Ok role ↔
  ∃ key sig, av_keys v !! kid = Some (key, role) ∧ b64url_decode sig64 = Some sig
    ∧ String.length sig = 64 ∧ ed_verify key msg sig = true.
Proof.
  unfold verify_signature. rewrite bind_Ok. setoid_rewrite ok_or_Ok. split.
  - intros ([key r] & Hk & (sig & Hs%ok_or_Ok & (u & Hc%check_signature_Ok & [= <-])%bind_Ok)%bind_Ok).
    simpl in *. exists key, sig. naive_solver.
  - intros (key & sig & Hk & Hs & Hl & Hv). exists (key, role). split; [done|]. rewrite Hs. simpl.
    by rewrite (proj2 (check_signature_Ok _ _ _ _ ())).
Qed.

Lemma verify_join_token_Ok v t now c n allowed :
  verify_join_token v t now c n allowed = Ok () ↔ token_valid v t now c n allowed.
Proof.
  unfold verify_join_token. split.
  - repeat (case_match; [done|]). bool_tests. intros (bytes & Hb & (role & Hr%map_err_Ok & Hres)%bind_Ok)%bind_Ok.
    case_bool_decide as Hroot; [done|]. subst role.
    apply verify_signature_Ok in Hr as (key & sig & Hr). split; [done..|lia|done| |].
    + by apply audience_allowed_true.
    + exists key, bytes, sig. naive_solver.
  - intros [-> Hj -> -> [He1 He2] Hu Ha%audience_allowed_true (key & bytes & sig & Hk & Hb & Hs & Hl & Hv)].
    rewrite N.eqb_refl, Hj, Ha, Hb. cbn [negb]. rewrite !bool_decide_eq_false_2 by (by intros []).
    rewrite !(proj2 (N.eqb_neq _ _)), (proj2 (N.ltb_ge _ _)) by done. cbn.
    rewrite (proj2 (verify_signature_Ok _ _ _ _ Root)) by (by exists key, sig). done.
Qed.

Lemma verify_join_request_token req v cluster_id network now allowed :
  verify_join_request req v cluster_id network now allowed = Ok () →
  token_valid v (rj_token req) now cluster_id network allowed
  ∧ rj_node_id req = node_id_from_peer_id (rj_peer_id req).
Proof.
  unfold verify_join_request. repeat (case_match; [done|]). bool_tests.
  intros (x & Hx & (key & Hkey & Hres)%bind_Ok)%bind_Ok.
  destruct (negb (str_is_empty (jt_bind_peer_id (rj_token req))) && _); [done|].
  by apply bind_Ok in Hres as ([] & Htok%map_err_Ok%verify_join_token_Ok & _).
Qed.

(** An accepted join request is authentic.  If a node admits a request, then
    the token in it was signed by a configured root key, over exactly the fields it
    has (any token with the same signed bytes is the same but for its signature),
    it is for this cluster and network, not expired, with a use to give, and bound
    to no peer or to the peer of the request; the node id is the one derived from
    the peer id, so a peer joins under one id only; and the request's own identity
    key signed the request, token included. *)
Theorem join_request_authentic `{!EncodeInj Cbor JoinTokenSigned, !EncodeInj Cbor JoinSigned}
    req v cluster_id network now allowed :
  verify_join_request req v cluster_id network now allowed = Ok () →
  token_valid v (rj_token req) now cluster_id network allowed
  ∧ (jt_bind_peer_id (rj_token req) = "" ∨ jt_bind_peer_id (rj_token req) = rj_peer_id req)
  ∧ rj_node_id req = node_id_from_peer_id (rj_peer_id req) ∧ is_valid_peer_id (rj_peer_id req) = true
  ∧ (now ≤ rj_ts req + 300 ∧ rj_ts req ≤ now + 300)%N
  ∧ (∀ t', token_signing_bytes t' = token_signing_bytes (rj_token req) →
       token_signed_of t' = token_signed_of (rj_token req))
  ∧ ∃ key bytes sig, b64_decode (rj_identity_key req) = Some key ∧ join_signing_bytes req = Ok bytes
      ∧ ed_verify key bytes sig = true
      ∧ ∀ req', join_signing_bytes req' = Ok bytes → join_signed_of req' = join_signed_of req.
Proof.
  unfold verify_join_request. repeat (case_match; [done|]). bool_tests.
  intros (x & Hx & (key & Hkey & Hres)%bind_Ok)%bind_Ok.
  destruct (negb (str_is_empty (jt_bind_peer_id (rj_token req))) && _) eqn:Hbind; [done|].
  apply bind_Ok in Hres as ([] & Htok%map_err_Ok%verify_join_token_Ok & (sig & Hsig%ok_or_Ok & Hres)%bind_Ok).
  case_bool_decide; [done|]. apply bind_Ok in Hres as (bytes & Hb & [_ Hv]%check_signature_Ok).
  split; [done|]. split; [|split; [done|split; [done|split; [by apply abs_diff_le|split]]]].
  - apply andb_false_iff in Hbind as [Hbind|Hbind].
    + left. by apply negb_false_iff, str_is_empty_true in Hbind.
    + right. by bool_tests.
  - intros t' Heq. destruct (tv_signed _ _ _ _ _ _ Htok) as (_ & tb & _ & _ & Htb & _).
    rewrite Htb in Heq. apply map_err_Ok in Heq, Htb. by apply (encode_to_inj _ _ _ Heq).
  - exists key, bytes, sig. apply bind_Ok in Hkey as (raw & Hraw%ok_or_Ok & Hkey).
    destruct (bool_decide (String.length raw ≠ 32)), (ed_key_ok raw); try done. injection Hkey as ->.
    split_and!; [done..|]. intros req' Heq. apply map_err_Ok in Heq, Hb. by apply (encode_to_inj _ _ _ Heq).
Qed.

(** The request as an edge relays it: it only fills in [edge_peer]. *)
Definition relay (req : RaftJoinRequest) (edge : string) : RaftJoinRequest :=
  MkRaftJoinRequest (rj_op req) (rj_v req) (rj_cluster_id req) (rj_network req) (rj_token req)
    (rj_node_id req) (rj_peer_id req) (rj_identity_key req) (rj_x25519_key req) (rj_nonce req) (rj_ts req)
    edge (rj_sig req).

Lemma signed_token_valid `{!CryptoLaws} seed t t' v now c n allowed :
  String.length seed = 32 → sign_join_token seed t = Ok t' →
  av_keys v !! jt_kid t = Some (ed_public seed, Root) →
  jt_v t = JOIN_TOKEN_VERSION → trim_is_empty (jt_jti t) = false → jt_cluster_id t = c → jt_network t = n →
  jt_expires_at t ≠ 0%N → (now ≤ jt_expires_at t)%N → jt_max_uses t ≠ 0%N → audience_ok t allowed →
  token_valid v t' now c n allowed.
Proof.
  intros Hl (bytes & Hb & [= <-])%bind_Ok Hk Hv Hj Hc Hn He1 He2 Hu Ha. split; try done.
  exists (ed_public seed), bytes, (ed_sign seed bytes). simpl.
  rewrite b64url_round_trip, ed_sign_length, ed_verify_sign by done. done.
Qed.

(** A token issued by a root administrator admits a node.  If a root key signed
    the token and the new node signed the request with its own identity key, and
    the fields are well formed, current and for this cluster, the request is
    admitted, at the edge that received it and at the leader it is relayed to. *)
Theorem join_request_round_trip `{!CryptoLaws} root_seed node_seed t req req' v cluster_id network now allowed edge :
  String.length root_seed = 32 → String.length node_seed = 32 →
  sign_join_token root_seed t = Ok (rj_token req) →
  sign_join_request (identity_from_seed node_seed) req = Ok req' →
  av_keys v !! jt_kid t = Some (ed_public root_seed, Root) →
  jt_v t = JOIN_TOKEN_VERSION → trim_is_empty (jt_jti t) = false →
  jt_cluster_id t = cluster_id → jt_network t = network →
  jt_expires_at t ≠ 0%N → (now ≤ jt_expires_at t)%N → jt_max_uses t ≠ 0%N → audience_ok t allowed →
  jt_bind_peer_id t = "" ∨ jt_bind_peer_id t = rj_peer_id req →
  rj_op req = RAFT_JOIN_OP → rj_v req = RAFT_JOIN_VERSION →
  rj_cluster_id req = cluster_id → rj_network req = network →
  rj_node_id req = node_id_from_peer_id (rj_peer_id req) → is_valid_peer_id (rj_peer_id req) = true →
  rj_nonce req ≠ "" → (str_len (rj_nonce req) ≤ 128)%N →
  (now ≤ rj_ts req + 300 ∧ rj_ts req ≤ now + 300)%N →
  rj_identity_key req = ik_public_key_b64 (identity_from_seed node_seed) →
  is_ok (parse_x25519 (rj_x25519_key req)) = true →
  verify_join_request (relay req' edge) v cluster_id network now allowed = Ok ().
Proof.
  intros Hrl Hnl Ht (bytes & Hb & [= <-])%bind_Ok Hk Hv Hj Hc Hn He1 He2 Hu Ha Hbind Hop Hrv Hrc Hrn Hid Hpeer
    Hne Hlen Hts Hik Hx.
  pose proof (signed_token_valid _ _ _ _ now _ _ allowed Hrl Ht Hk Hv Hj Hc Hn He1 He2 Hu Ha) as Htok.
  assert (jt_bind_peer_id (rj_token req) = jt_bind_peer_id t) as Hb2
    by (by apply bind_Ok in Ht as (? & _ & [= <-])).
  unfold verify_join_request, relay.
  cbn [rj_op rj_v rj_cluster_id rj_network rj_node_id rj_peer_id rj_nonce rj_ts rj_x25519_key rj_identity_key
       rj_token rj_sig].
  rewrite (bool_decide_eq_false_2 (rj_op req ≠ _)), (bool_decide_eq_false_2 (rj_cluster_id req ≠ _)),
    (bool_decide_eq_false_2 (rj_network req ≠ _)) by auto.
  rewrite Hrv, N.eqb_refl, Hid, N.eqb_refl, Hpeer. cbn [orb negb].
  rewrite (proj2 (N.eqb_neq _ _)) by (unfold node_id_from_peer_id; case_match; by bool_tests).
  rewrite (proj2 (str_is_empty_false _)) by done. cbn [orb].
  rewrite (proj2 (N.ltb_ge _ _)) by done. rewrite (proj2 (N.ltb_ge _ _)) by (by apply abs_diff_le).
  destruct (parse_x25519 (rj_x25519_key req)) as [x|]; [|done]. cbn [mbind result_bind].
  assert (parse_identity (rj_identity_key req) = Ok (ed_public node_seed)) as ->.
  { rewrite Hik. unfold parse_identity. simpl. rewrite b64_round_trip. simpl.
    rewrite ed_public_length, ed_public_ok by done. done. }
  cbn [mbind result_bind]. rewrite Hb2.
  assert (negb (str_is_empty (jt_bind_peer_id t)) && bool_decide (jt_bind_peer_id t ≠ rj_peer_id req) = false) as ->.
  { destruct Hbind as [->| ->]; [done|]. by rewrite (bool_decide_eq_false_2 (_ ≠ _)), andb_false_r by auto. }
  rewrite (proj2 (verify_join_token_Ok _ _ _ _ _ _)) by done. cbn [mbind result_bind map_err].
  unfold sign_b64. rewrite b64url_round_trip. cbn [ok_or mbind result_bind].
  rewrite ed_sign_length. cbn [bool_decide]. rewrite bool_decide_eq_false_2 by auto.
  match goal with |- context [join_signing_bytes ?r] =>
    assert (join_signing_bytes r = Ok bytes) as -> end.
  { rewrite <-Hb. unfold join_signing_bytes, join_signed_of. cbn. by rewrite Hrv, Hid. }
  cbn [mbind result_bind]. apply check_signature_Ok. by rewrite ed_sign_length, ed_verify_sign.
Qed.
End join_props.

(** ** Examples *)

Section join_examples.
Import Toy.

Definition ex_root_seed : string := pad 32 "root-key".
Definition ex_node_seed : string := pad 32 "node-key".
Definition ex_unsigned_token : JoinToken :=
  token_from_spec "c" "net" "alice" (MkAdminJoinTokenSpec "t1" "auth" 5000 0 "peerA" "").
Definition ex_token : JoinToken :=
  match sign_join_token ex_root_seed ex_unsigned_token with Ok t => t | Err _ => ex_unsigned_token end.
Definition ex_unsigned_join : RaftJoinRequest :=
  MkRaftJoinRequest RAFT_JOIN_OP 1 "c" "net" ex_token (node_id_from_peer_id "peerA") "peerA"
    (ik_public_key_b64 (identity_from_seed ex_node_seed)) (b64_encode (pad 32 "x")) "n1" 4990 "" "".
Definition ex_join : RaftJoinRequest :=
  match sign_join_request (identity_from_seed ex_node_seed) ex_unsigned_join with
  | Ok r => r | Err _ => ex_unsigned_join end.

Lemma join_request_round_trip_witness :
  verify_join_request (relay ex_join "edge") ex_admin_verifier "c" "net" 5000 [] = Ok ().
Proof.
  apply (join_request_round_trip ex_root_seed ex_node_seed ex_unsigned_token ex_unsigned_join ex_join);
    try reflexivity; try (vm_compute; discriminate); try (vm_compute; reflexivity).
  - left. reflexivity.
  - right. reflexivity.
  - split; vm_compute; discriminate.
Defined.

Lemma join_request_authentic_witness :
  verify_join_request ex_join ex_admin_verifier "c" "net" 5000 [] = Ok ()
  ∧ rj_node_id ex_join = node_id_from_peer_id (rj_peer_id ex_join).
Proof.
  assert (verify_join_request ex_join ex_admin_verifier "c" "net" 5000 [] = Ok ()) as Hv
    by (vm_compute; reflexivity).
  split; [exact Hv|].
  destruct (join_request_authentic ex_join ex_admin_verifier "c" "net" 5000 [] Hv) as (_ & _ & Hid & _). exact Hid.
Defined.
End join_examples.
