(* ===== verification/Seed.v ===== *)
(** * Distribution of the authority seed: [src/src/raft/seed.rs]

    The leader encrypts the seed to the exchange key of a learner it is about to
    promote and signs the envelope; the target checks, decrypts and acknowledges.
    Demoted and removed nodes are told to drop the seed. *)
From S2P Require Import Prelude Fsutil Crypto Authority Types Transport.

Definition X25519_KEY_LEN : nat := 32.
Definition SEED_ENVELOPE_VERSION : N := 1.
Definition SEED_DELIVERY_OP : string := "raft_seed_delivery".
Definition SEED_DROP_OP : string := "raft_seed_drop".
Definition SEED_AAD_INFO : string := "nexusauth/seed/v1".

Inductive SeedError :=
  | SeIo (e : IoError) | SeInvalidKey | SeInvalidSeed | SeBadSignature | SeWrongCluster | SeWrongNode
  | SeEncrypt | SeDecrypt | SeEncode (m : string).
Global Instance SeedError_eq_dec : EqDecision SeedError.
Proof. solve_decision. Defined.

Definition seed_error_text (e : SeedError) : string :=
  match e with
  | SeIo e => "seed io error: " +:+ io_text e
  | SeInvalidKey => "invalid X25519 key"
  | SeInvalidSeed => "invalid authority seed"
  | SeBadSignature => "invalid seed delivery signature"
  | SeWrongCluster => "seed delivery cluster mismatch"
  | SeWrongNode => "seed delivery addressed to a different node"
  | SeEncrypt => "seed encryption failed"
  | SeDecrypt => "seed decryption failed"
  | SeEncode m => "seed encode error: " +:+ m
  end.

Record SeedExchangeKey := MkSeedExchangeKey { sk_secret : string; sk_public_b64 : string }.

Record SeedBinding := MkSeedBinding {
  sd_network : string; sd_cluster_id : string; sd_node_id : NodeId; sd_peer_id : string;
  sd_identity_key : string; sd_ephemeral_key : string;
}.
Global Instance SeedBinding_eq_dec : EqDecision SeedBinding.
Proof. solve_decision. Defined.
Global Instance SeedBinding_countable : Countable SeedBinding.
Proof.
  refine (inj_countable' (λ b, (sd_network b, sd_cluster_id b, sd_node_id b, sd_peer_id b, sd_identity_key b,
      sd_ephemeral_key b))
    (λ '(a, b, c, d, e, f), MkSeedBinding a b c d e f) _). by intros [].
Defined.

(** [SeedEnvelopeSigned]: the envelope without its signature. *)
Record SeedEnvelopeSigned := MkSeedEnvelopeSigned {
  sg_v : N; sg_from_node : NodeId; sg_cluster_id : string; sg_network : string; sg_node_id : NodeId;
  sg_peer_id : string; sg_identity_key : string; sg_ephemeral_key : string; sg_aead_nonce : string;
  sg_ciphertext : string;
}.
Global Instance SeedEnvelopeSigned_eq_dec : EqDecision SeedEnvelopeSigned.
Proof. solve_decision. Defined.
Global Instance SeedEnvelopeSigned_countable : Countable SeedEnvelopeSigned.
Proof.
  refine (inj_countable' (λ t, (sg_v t, sg_from_node t, sg_cluster_id t, sg_network t, sg_node_id t,
      (sg_peer_id t, sg_identity_key t, sg_ephemeral_key t, sg_aead_nonce t, sg_ciphertext t)))
    (λ '(a, b, c, d, e, (f, g, h, i, j)), MkSeedEnvelopeSigned a b c d e f g h i j) _). by intros [].
Defined.

(** An envelope is the fields that are signed and the signature. *)
Record SeedEnvelope := MkSeedEnvelope { env_body : SeedEnvelopeSigned; env_sig : string }.

Record SeedAckSigned := MkSeedAckSigned {
  sa_v : N; sa_from : NodeId; sa_to : NodeId; sa_ok : bool; sa_error : string
}.
Global Instance SeedAckSigned_eq_dec : EqDecision SeedAckSigned.
Proof. solve_decision. Defined.
Global Instance SeedAckSigned_countable : Countable SeedAckSigned.
Proof.
  refine (inj_countable' (λ t, (sa_v t, sa_from t, sa_to t, sa_ok t, sa_error t))
    (λ '(a, b, c, d, e), MkSeedAckSigned a b c d e) _). by intros [].
Defined.
Record SeedAck := MkSeedAck { ack_body : SeedAckSigned; ack_sig : string }.

Record DropSigned := MkDropSigned {
  dr_v : N; dr_cluster_id : string; dr_from_node : NodeId; dr_node_id : NodeId; dr_peer_id : string
}.
Global Instance DropSigned_eq_dec : EqDecision DropSigned.
Proof. solve_decision. Defined.
Global Instance DropSigned_countable : Countable DropSigned.
Proof.
  refine (inj_countable' (λ t, (dr_v t, dr_cluster_id t, dr_from_node t, dr_node_id t, dr_peer_id t))
    (λ '(a, b, c, d, e), MkDropSigned a b c d e) _). by intros [].
Defined.
Record SeedDropRequest := MkSeedDropRequest { drop_op : string; drop_body : DropSigned; drop_sig : string }.
Record SeedDeliveryRequest := MkSeedDeliveryRequest { sdel_op : string; sdel_envelope : SeedEnvelope }.

Section seed.
Context `{Crypto, Codec Cbor SeedBinding, Codec Cbor SeedEnvelopeSigned, Codec Cbor SeedAckSigned,
  Codec Cbor DropSigned}.

Definition exchange_from_bytes (bytes : string) : result SeedError SeedExchangeKey :=
  if bool_decide (String.length bytes ≠ X25519_KEY_LEN) then Err SeInvalidKey
  else Ok (MkSeedExchangeKey bytes (b64_encode (x_public bytes))).

Definition exchange_load_or_create (rng : string) (p : path) : ST Fs SeedError SeedExchangeKey := λ fs,
  match fs_read p fs with
  | (Ok bytes, fs) => (exchange_from_bytes bytes, fs)
  | (Err e, fs) =>
      if bool_decide (io_kind e = NotFound) then
        (key ← st_lift (exchange_from_bytes rng);
         st_map_err SeIo (atomic_write p rng (Some 384%N)) ;;
         mret key) fs
      else (Err (SeIo e), fs)
  end.

Definition binding_bytes (b : SeedBinding) : result SeedError string := map_err SeEncode (encode_to Cbor b).

(** HKDF salted with the cluster id, the binding in its info; the binding is the
    only place where the recipient enters the encryption. *)
Definition derive_key (shared cluster_id : string) (b : SeedBinding) : result SeedError string :=
  bb ← binding_bytes b;
  Ok (hkdf_sha256 cluster_id shared (SEED_AAD_INFO +:+ nul +:+ bb)).

Definition envelope_signing_bytes (e : SeedEnvelope) : result SeedError string :=
  map_err SeEncode (encode_to Cbor (env_body e)).

(** [rng_eph] and [rng_nonce] are the random bytes drawn. *)
Definition seal_seed (rng_eph rng_nonce : string) (leader_identity : IdentityKey) (leader_node : NodeId)
    (cluster_id network : string) (target_node : NodeId) (target : RaftNode) (seed : string)
    : result SeedError SeedEnvelope :=
  target_public ← ok_or (b64_decode (rn_x25519_key target)) SeInvalidKey;
  if bool_decide (String.length target_public ≠ X25519_KEY_LEN) then Err SeInvalidKey
  else
    let shared := x_dh rng_eph target_public in
    let ephemeral_key := b64_encode (x_public rng_eph) in
    let binding := MkSeedBinding network cluster_id target_node (rn_peer_id target) (rn_identity_key target)
                     ephemeral_key in
    key ← derive_key shared cluster_id binding;
    ciphertext ← ok_or (aead_encrypt key rng_nonce seed) SeEncrypt;
    let body := MkSeedEnvelopeSigned SEED_ENVELOPE_VERSION leader_node cluster_id network target_node
                  (rn_peer_id target) (rn_identity_key target) ephemeral_key (b64_encode rng_nonce)
                  (b64_encode ciphertext) in
    bytes ← envelope_signing_bytes (MkSeedEnvelope body "");
    Ok (MkSeedEnvelope body (sign_b64 leader_identity bytes)).

Definition open_seed (local_key : SeedExchangeKey) (verifier : RpcVerifier) (local_node_id : NodeId)
    (local_peer_id local_identity_key cluster_id network : string) (expected_leader : option NodeId)
    (envelope : SeedEnvelope) : result SeedError string :=
  let e := env_body envelope in
  if negb (sg_v e =? SEED_ENVELOPE_VERSION)%N then Err SeDecrypt
  else if bool_decide (sg_cluster_id e ≠ cluster_id) || bool_decide (sg_network e ≠ network) then Err SeWrongCluster
  else if bool_decide (sg_node_id e ≠ local_node_id) || bool_decide (sg_peer_id e ≠ local_peer_id)
          || bool_decide (sg_identity_key e ≠ local_identity_key) then Err SeWrongNode
  else if match expected_leader with Some leader => bool_decide (sg_from_node e ≠ leader) | None => false end
       then Err SeWrongNode
  else
    bytes ← envelope_signing_bytes envelope;
    map_err (λ _, SeBadSignature) (verify_node_signature verifier (sg_from_node e) bytes (env_sig envelope)) ;;
    eph_public ← ok_or (b64_decode (sg_ephemeral_key e)) SeInvalidKey;
    if bool_decide (String.length eph_public ≠ X25519_KEY_LEN) then Err SeInvalidKey
    else
      let shared := x_dh (sk_secret local_key) eph_public in
      let binding := MkSeedBinding (sg_network e) (sg_cluster_id e) (sg_node_id e) (sg_peer_id e)
                       (sg_identity_key e) (sg_ephemeral_key e) in
      key ← map_err (λ _, SeDecrypt) (derive_key shared (sg_cluster_id e) binding);
      nonce ← ok_or (b64_decode (sg_aead_nonce e)) SeDecrypt;
      if bool_decide (String.length nonce ≠ 12) then Err SeDecrypt
      else
        ciphertext ← ok_or (b64_decode (sg_ciphertext e)) SeDecrypt;
        plaintext ← ok_or (aead_decrypt key nonce ciphertext) SeDecrypt;
        if bool_decide (String.length plaintext ≠ SEED_LEN) then Err SeInvalidSeed else Ok plaintext.

Definition ack_signing_bytes (a : SeedAckSigned) : result SeedError string := map_err SeEncode (encode_to Cbor a).

Definition sign_ack (identity : IdentityKey) (from to : NodeId) (ok : bool) (error : string)
    : result SeedError SeedAck :=
  let body := MkSeedAckSigned SEED_ENVELOPE_VERSION from to ok error in
  bytes ← ack_signing_bytes body;
  Ok (MkSeedAck body (sign_b64 identity bytes)).

Definition verify_ack (verifier : RpcVerifier) (expected_from : NodeId) (ack : SeedAck) : result SeedError unit :=
  let a := ack_body ack in
  if negb (sa_v a =? SEED_ENVELOPE_VERSION)%N || negb (sa_from a =? expected_from)%N then Err SeBadSignature
  else
    bytes ← ack_signing_bytes a;
    map_err (λ _, SeBadSignature) (verify_node_signature verifier (sa_from a) bytes (ack_sig ack)) ;;
    if negb (sa_ok a) then Err SeDecrypt else Ok ().

Definition drop_signing_bytes (d : DropSigned) : result SeedError string := map_err SeEncode (encode_to Cbor d).

Definition sign_drop_request (identity : IdentityKey) (leader_node : NodeId) (cluster_id : string)
    (target_node : NodeId) (target : RaftNode) : result SeedError SeedDropRequest :=
  let body := MkDropSigned SEED_ENVELOPE_VERSION cluster_id leader_node target_node (rn_peer_id target) in
  bytes ← drop_signing_bytes body;
  Ok (MkSeedDropRequest SEED_DROP_OP body (sign_b64 identity bytes)).

Definition verify_drop_request (verifier : RpcVerifier) (expected_leader : option NodeId) (req : SeedDropRequest)
    (local_node_id : NodeId) (local_peer_id cluster_id : string) : result SeedError unit :=
  let d := drop_body req in
  if bool_decide (drop_op req ≠ SEED_DROP_OP) || negb (dr_v d =? SEED_ENVELOPE_VERSION)%N
     || bool_decide (dr_cluster_id d ≠ cluster_id) || bool_decide (dr_node_id d ≠ local_node_id)
     || bool_decide (dr_peer_id d ≠ local_peer_id)
  then Err SeWrongNode
  else if match expected_leader with Some leader => bool_decide (dr_from_node d ≠ leader) | None => false end
       then Err SeWrongNode
  else
    bytes ← drop_signing_bytes d;
    map_err (λ _, SeBadSignature) (verify_node_signature verifier (dr_from_node d) bytes (drop_sig req)).

Definition write_seed_file (p : path) (seed : string) : ST Fs SeedError unit :=
  st_map_err SeIo (atomic_write p seed (Some 384%N)).

Definition remove_seed_file (p : path) : ST Fs SeedError unit := λ fs,
  match fs_remove p fs with
  | (Ok _, fs) => (Ok (), fs)
  | (Err e, fs) => if bool_decide (io_kind e = NotFound) then (Ok (), fs) else (Err (SeIo e), fs)
  end.
End seed.

(** ** Properties *)

Section seed_props.
Context `{CR : Crypto, CB : Codec Cbor SeedBinding, CE : Codec Cbor SeedEnvelopeSigned,
  CA : Codec Cbor SeedAckSigned, CD : Codec Cbor DropSigned}.

Lemma verify_node_signature_Ok v node msg sig64 u : verify_node_signature v node msg sig64 = Ok u ↔
  ∃ key sig, rv_keys v !! node = Some key ∧ b64url_decode sig64 = Some sig
    ∧ String.length sig = 64 ∧ ed_verify key msg sig = true.
Proof.
  unfold verify_node_signature. rewrite bind_Ok. setoid_rewrite ok_or_Ok. setoid_rewrite bind_Ok.
  setoid_rewrite ok_or_Ok. setoid_rewrite check_signature_Ok. naive_solver.
Qed.

Lemma signed_by_member `{!CryptoLaws} v node seed msg :
  String.length seed = 32 → rv_keys v !! node = Some (ed_public seed) →
  verify_node_signature v node msg (sign_b64 (identity_from_seed seed) msg) = Ok ().
Proof.
  intros Hl Hk. apply verify_node_signature_Ok. exists (ed_public seed), (ed_sign seed msg).
  unfold sign_b64. rewrite b64url_round_trip, ed_sign_length, ed_verify_sign by done. done.
Qed.

(** The seed reaches the node it is sent to.  An envelope sealed by a member
    for the exchange key of a node is opened by that node, and yields exactly the
    seed, if the sender is who the node takes for the leader (or no leader is
    known). *)
Theorem seed_round_trip `{!CryptoLaws} eph nonce leader_seed leader c n id node local seed v expected env :
  String.length eph = 32 → String.length nonce = 12 → String.length leader_seed = 32 →
  String.length (sk_secret local) = 32 → String.length seed = SEED_LEN →
  rn_x25519_key node = b64_encode (x_public (sk_secret local)) →
  rv_keys v !! leader = Some (ed_public leader_seed) → expected = None ∨ expected = Some leader →
  seal_seed eph nonce (identity_from_seed leader_seed) leader c n id node seed = Ok env →
  open_seed local v id (rn_peer_id node) (rn_identity_key node) c n expected env = Ok seed.
Proof.
  intros Heph Hnonce Hls Hloc Hseed Hx Hk Hexp. unfold seal_seed. rewrite Hx, b64_round_trip.
  cbn [ok_or mbind result_bind]. rewrite x_public_length, bool_decide_eq_false_2 by auto.
  intros (key & Hkey & (ct & Hct%ok_or_Ok & (bytes & Hb & [= <-])%bind_Ok)%bind_Ok)%bind_Ok.
  unfold open_seed, envelope_signing_bytes in *.
  cbn [env_body env_sig sg_v sg_cluster_id sg_network sg_node_id sg_peer_id sg_identity_key sg_from_node
       sg_ephemeral_key sg_aead_nonce sg_ciphertext] in *.
  rewrite N.eqb_refl, !(bool_decide_eq_false_2 (_ ≠ _)) by auto. cbn [negb orb].
  assert ((match expected with Some leader0 => bool_decide (leader ≠ leader0) | None => false end) = false) as ->.
  { destruct Hexp as [->| ->]; [done|]. by apply bool_decide_eq_false_2; auto. }
  rewrite Hb. cbn [mbind result_bind].
  rewrite signed_by_member by done. cbn [map_err mbind result_bind]. rewrite !b64_round_trip.
  cbn [ok_or mbind result_bind]. rewrite x_public_length, bool_decide_eq_false_2 by auto.
  rewrite x_dh_comm, Hkey by done. cbn [map_err mbind result_bind].
  rewrite Hnonce, bool_decide_eq_false_2 by auto. rewrite (aead_round_trip _ _ _ _ Hct).
  cbn [ok_or mbind result_bind]. by rewrite Hseed, bool_decide_eq_false_2 by auto.
Qed.

(** A seed is only taken from an authentic envelope for this node.  When
    [open_seed] yields a seed: it has 32 bytes; the envelope names this cluster,
    network, node, peer and identity key; it comes from the expected leader, if one
    is known; and the key of that member verified a signature over exactly these
    fields, ciphertext and ephemeral key included. *)
Theorem opened_seed_authentic `{!EncodeInj Cbor SeedEnvelopeSigned} local v id peer ik c n expected env seed :
  open_seed local v id peer ik c n expected env = Ok seed →
  String.length seed = 32
  ∧ sg_cluster_id (env_body env) = c ∧ sg_network (env_body env) = n ∧ sg_node_id (env_body env) = id
  ∧ sg_peer_id (env_body env) = peer ∧ sg_identity_key (env_body env) = ik
  ∧ (∀ leader, expected = Some leader → sg_from_node (env_body env) = leader)
  ∧ ∃ key bytes sig, rv_keys v !! sg_from_node (env_body env) = Some key
      ∧ envelope_signing_bytes env = Ok bytes ∧ ed_verify key bytes sig = true
      ∧ ∀ env', envelope_signing_bytes env' = Ok bytes → env_body env' = env_body env.
Proof.
  unfold open_seed. case_match; [done|]. case_match; [done|]. case_match; [done|].
  destruct (match expected with Some _ => _ | None => _ end) eqn:Hexp; [done|]. bool_tests.
  intros (bytes & Hb & (u & Hv%map_err_Ok%verify_node_signature_Ok & (eph & _ & Hres)%bind_Ok)%bind_Ok)%bind_Ok.
  destruct (bool_decide (String.length eph ≠ _)); [done|].
  apply bind_Ok in Hres as (key & _ & (nonce & _ & Hres)%bind_Ok).
  destruct (bool_decide (String.length nonce ≠ _)); [done|].
  apply bind_Ok in Hres as (ct & _ & (pt & _ & Hres)%bind_Ok).
  case_bool_decide as Hl; [done|]. injection Hres as ->. destruct Hv as (k & sig & Hk & Hs & Hsl & Hv).
  split_and!; try done.
  - intros leader ->. by bool_tests.
  - exists k, bytes, sig. split_and!; try done.
    intros env' Heq. unfold envelope_signing_bytes in *. apply map_err_Ok in Heq, Hb.
    by apply (encode_to_inj _ _ _ Heq).
Qed.

(** An order to drop the seed that names this node and comes from the expected leader. *)
Definition drop_for (expected : option NodeId) (req : SeedDropRequest) (id : NodeId) (peer c : string) : Prop :=
  drop_op req = SEED_DROP_OP ∧ dr_v (drop_body req) = SEED_ENVELOPE_VERSION
  ∧ dr_cluster_id (drop_body req) = c ∧ dr_node_id (drop_body req) = id ∧ dr_peer_id (drop_body req) = peer
  ∧ (∀ leader, expected = Some leader → dr_from_node (drop_body req) = leader).

Lemma verify_drop_request_Ok v expected req id peer c :
  verify_drop_request v expected req id peer c = Ok () ↔
    drop_for expected req id peer c
    ∧ ∃ bytes, drop_signing_bytes (drop_body req) = Ok bytes
        ∧ verify_node_signature v (dr_from_node (drop_body req)) bytes (drop_sig req) = Ok ().
Proof.
  unfold verify_drop_request, drop_for. split.
  - case_match; [done|]. destruct (match expected with Some _ => _ | None => _ end) eqn:Hexp; [done|]. bool_tests.
    intros (bytes & Hb & Hv%map_err_Ok)%bind_Ok. split; [|by eauto]. split_and!; try done.
    intros leader ->. by bool_tests.
  - intros [(-> & -> & -> & -> & -> & Hexp) (bytes & Hb & Hv)]. rewrite Hb. simpl. rewrite Hv.
    rewrite !(bool_decide_eq_false_2 (_ ≠ _)) by auto. destruct expected as [l|]; [|done].
    rewrite (Hexp l), bool_decide_eq_false_2 by auto. done.
Qed.

(** An order to drop the seed is obeyed when the leader signed it for this
    node, and only then.  An order signed by the leader for a node is accepted by
    that node; and an accepted order names this cluster, node and peer, comes from
    the expected leader where one is known, and carries that member's signature. *)
Theorem drop_request_round_trip `{!CryptoLaws} v expected id node c leader_seed leader req :
  String.length leader_seed = 32 → rv_keys v !! leader = Some (ed_public leader_seed) →
  expected = None ∨ expected = Some leader →
  sign_drop_request (identity_from_seed leader_seed) leader c id node = Ok req →
  verify_drop_request v expected req id (rn_peer_id node) c = Ok ()
  ∧ ∀ id' peer' c' req', verify_drop_request v expected req' id' peer' c' = Ok () →
      drop_for expected req' id' peer' c'
      ∧ ∃ key bytes sig, rv_keys v !! dr_from_node (drop_body req') = Some key
          ∧ drop_signing_bytes (drop_body req') = Ok bytes ∧ ed_verify key bytes sig = true.
Proof.
  intros Hl Hk Hexp (bytes & Hb & [= <-])%bind_Ok. split.
  - apply verify_drop_request_Ok. split.
    + unfold drop_for. simpl. split_and!; try done. naive_solver.
    + exists bytes. split; [done|]. by apply signed_by_member.
  - intros id' peer' c' req' [Hd (bb & Hbb & Hv)]%verify_drop_request_Ok. split; [done|].
    apply verify_node_signature_Ok in Hv as (key & sig & ? & _ & _ & ?). by exists key, bb, sig.
Qed.

(** An acknowledgement is not tied to its recipient or to what it
    acknowledges.  One that a member signed for node [to] is accepted by every node
    that has the member's key, for a delivery as for a drop: [verify_ack] looks at
    neither [ack.to] nor an envelope. *)
Theorem ack_accepted_by_any_node `{!CryptoLaws} member_seed member to error ack v :
  String.length member_seed = 32 → rv_keys v !! member = Some (ed_public member_seed) →
  sign_ack (identity_from_seed member_seed) member to true error = Ok ack →
  verify_ack v member ack = Ok ().
Proof.
  intros Hl Hk (bytes & Hb & [= <-])%bind_Ok. unfold verify_ack. simpl.
  rewrite N.eqb_refl. cbn [negb orb]. rewrite Hb. cbn [mbind result_bind]. by rewrite signed_by_member.
Qed.
End seed_props.

(** ** Examples *)

Section seed_examples.
Import Toy.

Definition ex_leader_seed : string := pad 32 "leader".
Definition ex_exchange : SeedExchangeKey := MkSeedExchangeKey (pad 32 "xs") (b64_encode (x_public (pad 32 "xs"))).
Definition ex_target : RaftNode := MkRaftNode "peerB" "idkey" (sk_public_b64 ex_exchange).
Definition ex_seed_verifier : RpcVerifier := MkRpcVerifier "c" 2 {[1%N := ed_public ex_leader_seed]}.
Definition ex_sealed : result SeedError SeedEnvelope :=
  seal_seed (pad 32 "eph") (pad 12 "nonce") (identity_from_seed ex_leader_seed) 1 "c" "net" 2 ex_target
    (pad 32 "the seed").

Lemma seed_round_trip_witness :
  ∃ env, ex_sealed = Ok env
    ∧ open_seed ex_exchange ex_seed_verifier 2 "peerB" "idkey" "c" "net" (Some 1%N) env = Ok (pad 32 "the seed").
Proof.
  destruct ex_sealed as [env|] eqn:E; [|vm_compute in E; discriminate]. exists env. split; [reflexivity|].
  apply (seed_round_trip (pad 32 "eph") (pad 12 "nonce") ex_leader_seed 1 "c" "net" 2 ex_target ex_exchange);
    try reflexivity; [right; reflexivity|exact E].
Defined.

Lemma opened_seed_authentic_witness :
  ∃ env seed, open_seed ex_exchange ex_seed_verifier 2 "peerB" "idkey" "c" "net" (Some 1%N) env = Ok seed
    ∧ sg_from_node (env_body env) = 1%N.
Proof.
  destruct ex_sealed as [env|] eqn:E; [|vm_compute in E; discriminate].
  assert (open_seed ex_exchange ex_seed_verifier 2 "peerB" "idkey" "c" "net" (Some 1%N) env
    = Ok (pad 32 "the seed")) as Ho.
  { vm_compute in E. injection E as <-. vm_compute. reflexivity. }
  exists env, (pad 32 "the seed"). split; [exact Ho|].
  destruct (opened_seed_authentic _ _ _ _ _ _ _ _ _ _ Ho) as (_ & _ & _ & _ & _ & _ & Hl & _).
  exact (Hl 1%N eq_refl).
Defined.

Lemma drop_request_round_trip_witness :
  ∃ req, sign_drop_request (identity_from_seed ex_leader_seed) 1 "c" 2 ex_target = Ok req
    ∧ verify_drop_request ex_seed_verifier None req 2 "peerB" "c" = Ok ().
Proof.
  destruct (sign_drop_request (identity_from_seed ex_leader_seed) 1 "c" 2 ex_target) as [req|] eqn:E;
    [|vm_compute in E; discriminate].
  exists req. split; [reflexivity|].
  destruct (drop_request_round_trip ex_seed_verifier None 2 ex_target "c" ex_leader_seed 1 req) as [Hok _];
    [reflexivity|reflexivity|left; reflexivity|exact E|]. exact Hok.
Defined.

Lemma ack_accepted_by_any_node_witness :
  ∃ ack, sign_ack (identity_from_seed ex_leader_seed) 1 7 true "" = Ok ack
    ∧ rv_local_id ex_seed_verifier = 2%N ∧ verify_ack ex_seed_verifier 1 ack = Ok ().
Proof.
  destruct (sign_ack (identity_from_seed ex_leader_seed) 1 7 true "") as [ack|] eqn:E;
    [|vm_compute in E; discriminate].
  exists ack. split_and!; [reflexivity|reflexivity|].
  apply (ack_accepted_by_any_node ex_leader_seed 1 7 ""); [reflexivity|reflexivity|exact E].
Defined.
End seed_examples.
