(* ===== verification/Protocol.v ===== *)
(** * The protocol between node and sidecar: [src/src/protocol.rs]

    Messages are CBOR bodies framed by a four byte big-endian length.  The stream
    a frame is read from is the bytes that are still to come. *)
From S2P Require Import Prelude Fsutil.

Definition PROTOCOL_VERSION : N := 2.
Definition MAX_FRAME : N := N.shiftl 16 20.

Record SidecarError := MkSidecarError {
  se_code : string; se_message : string; se_publish_error : option string
}.
Global Instance SidecarError_eq_dec : EqDecision SidecarError.
Proof. solve_decision. Defined.
Global Instance SidecarError_countable : Countable SidecarError.
Proof.
  refine (inj_countable' (λ e, (se_code e, se_message e, se_publish_error e))
    (λ '(a, b, c), MkSidecarError a b c) _). by intros [].
Defined.

(** [SidecarError::new] and [with_publish_error]. *)
Definition sidecar_error (code message : string) : SidecarError := MkSidecarError code message None.
Definition with_publish_error (e : SidecarError) (error : string) : SidecarError :=
  MkSidecarError (se_code e) (se_message e) (Some error).

(** A UUID is its 16 bytes. *)
Abbreviation Uuid := string (only parsing).

Inductive Message :=
  | Hello (version : N)
  | Request (id : Uuid) (service payload : string)
  | Reply (id : Uuid) (ok : bool) (result : option string) (error : option SidecarError)
  | ListServices (id : Uuid)
  | DiscoverProviders (id : Uuid) (service : string)
  | QueryPublicIp (id : Uuid)
  | Whoami (id : Uuid)
  | ReconnectBootstrap (id : Uuid)
  | ReannounceServices (id : Uuid)
  | ReloadConfig (id : Uuid)
  | RelayStatus (id : Uuid)
  | PqStatus (id : Uuid)
  | AuthStatus (id : Uuid)
  | QueryKey (id : Uuid) (key : string)
  | AddKey (id : Uuid) (key : string) (value : option string) (providing : bool)
  | ServiceRequest (id : Uuid) (service payload : string)
  | ServiceRequestTo (id : Uuid) (service peer payload : string).
Global Instance Message_eq_dec : EqDecision Message.
Proof. solve_decision. Defined.

(** [Message::id] and [Message::kind]. *)
Definition message_id (m : Message) : option Uuid :=
  match m with
  | Hello _ => None
  | Request id _ _ | Reply id _ _ _ | ListServices id | DiscoverProviders id _ | QueryPublicIp id
  | Whoami id | ReconnectBootstrap id | ReannounceServices id | ReloadConfig id | RelayStatus id
  | PqStatus id | AuthStatus id | QueryKey id _ | AddKey id _ _ _ | ServiceRequest id _ _
  | ServiceRequestTo id _ _ _ => Some id
  end.

Definition kind (m : Message) : string :=
  match m with
  | Hello _ => "hello"
  | Request _ _ _ => "request"
  | Reply _ _ _ _ => "reply"
  | ListServices _ => "list_services"
  | DiscoverProviders _ _ => "discover_providers"
  | QueryPublicIp _ => "query_public_ip"
  | Whoami _ => "whoami"
  | ReconnectBootstrap _ => "reconnect_bootstrap"
  | ReannounceServices _ => "reannounce_services"
  | ReloadConfig _ => "reload_config"
  | RelayStatus _ => "relay_status"
  | PqStatus _ => "pq_status"
  | AuthStatus _ => "auth_status"
  | QueryKey _ _ => "query_key"
  | AddKey _ _ _ _ => "add_key"
  | ServiceRequest _ _ _ => "service_request"
  | ServiceRequestTo _ _ _ _ => "service_request_to"
  end.

(** A number for every message, for the codecs of the examples. *)
Definition message_tree (m : Message) : list string * N * (option string * option SidecarError) :=
  match m with
  | Hello v => ([], N.succ (N.double v), (None, None))
  | Request i a b => ([i; a; b], 2%N, (None, None))
  | Reply i o r e => ([i], if o then 4%N else 6%N, (r, e))
  | ListServices i => ([i], 8%N, (None, None))
  | DiscoverProviders i a => ([i; a], 10%N, (None, None))
  | QueryPublicIp i => ([i], 12%N, (None, None))
  | Whoami i => ([i], 14%N, (None, None))
  | ReconnectBootstrap i => ([i], 16%N, (None, None))
  | ReannounceServices i => ([i], 18%N, (None, None))
  | ReloadConfig i => ([i], 20%N, (None, None))
  | RelayStatus i => ([i], 22%N, (None, None))
  | PqStatus i => ([i], 24%N, (None, None))
  | AuthStatus i => ([i], 26%N, (None, None))
  | QueryKey i a => ([i; a], 28%N, (None, None))
  | AddKey i a v p => ([i; a], if p then 30%N else 32%N, (v, None))
  | ServiceRequest i a b => ([i; a; b], 34%N, (None, None))
  | ServiceRequestTo i a b c => ([i; a; b; c], 36%N, (None, None))
  end.
Definition message_of_tree (t : list string * N * (option string * option SidecarError)) : option Message :=
  match t with
  | ([], n, _) => Some (Hello (N.div2 n))
  | ([i; a; b], 2%N, _) => Some (Request i a b)
  | ([i], 4%N, (r, e)) => Some (Reply i true r e)
  | ([i], 6%N, (r, e)) => Some (Reply i false r e)
  | ([i], 8%N, _) => Some (ListServices i)
  | ([i; a], 10%N, _) => Some (DiscoverProviders i a)
  | ([i], 12%N, _) => Some (QueryPublicIp i)
  | ([i], 14%N, _) => Some (Whoami i)
  | ([i], 16%N, _) => Some (ReconnectBootstrap i)
  | ([i], 18%N, _) => Some (ReannounceServices i)
  | ([i], 20%N, _) => Some (ReloadConfig i)
  | ([i], 22%N, _) => Some (RelayStatus i)
  | ([i], 24%N, _) => Some (PqStatus i)
  | ([i], 26%N, _) => Some (AuthStatus i)
  | ([i; a], 28%N, _) => Some (QueryKey i a)
  | ([i; a], 30%N, (v, _)) => Some (AddKey i a v true)
  | ([i; a], 32%N, (v, _)) => Some (AddKey i a v false)
  | ([i; a; b], 34%N, _) => Some (ServiceRequest i a b)
  | ([i; a; b; c], 36%N, _) => Some (ServiceRequestTo i a b c)
  | _ => None
  end.
Lemma message_of_message_tree m : message_of_tree (message_tree m) = Some m.
Proof.
  destruct m as [v| |i [] r e| | | | | | | | | | | |i k v []| |]; try done.
  simpl. do 2 f_equal. by destruct v.
Qed.
Global Instance Message_countable : Countable Message.
Proof. apply (inj_countable message_tree message_of_tree), message_of_message_tree. Defined.

(** The results of the node's replies. *)
Record PublicIpInfo := MkPublicIpInfo { pi_ipv4 : option string; pi_ipv6 : option string }.
Record WhoamiResult := MkWhoamiResult { wr_peer_id : string }.
Record QueryKeyResult := MkQueryKeyResult {
  qk_key : string; qk_value : option string; qk_providers : list string
}.
Record RelayStatusResult := MkRelayStatusResult {
  rs_need_relay : bool; rs_target : N; rs_active : list string; rs_pending : list string
}.
Record PqStatusResult := MkPqStatusResult {
  pq_enabled : bool; pq_transport : bool; pq_identity : bool; pq_required : bool
}.
Record SuccessResult := MkSuccessResult { sr_success : bool; sr_error : option string }.
Record AddKeyResult := MkAddKeyResult { kr_success : bool; kr_key : string }.

Definition decode_result {T} `{Codec Cbor T} (bytes : string) : result SidecarError T :=
  map_err (sidecar_error "decode_error") (decode_from Cbor bytes).

Inductive FrameError :=
  | FrIo (e : IoError) | FrTooLarge (n : N) | FrEncode (m : string) | FrDecode (m : string).
Global Instance FrameError_eq_dec : EqDecision FrameError.
Proof. solve_decision. Defined.

Definition frame_error_text (e : FrameError) : string :=
  match e with
  | FrIo e => "io error: " +:+ io_text e
  | FrTooLarge n => "frame too large: " +:+ pretty n +:+ " bytes"
  | FrEncode m => "cbor encode error: " +:+ m
  | FrDecode m => "cbor decode error: " +:+ m
  end.

(** [AsyncReadExt::read_exact] on the bytes to come: a stream that ends early has
    been read to its end. *)
Definition unexpected_eof : IoError := MkIoError OtherKind "early eof".
Fixpoint read_exact (n : nat) (s : string) : option (string * string) :=
  match n, s with
  | O, _ => Some ("", s)
  | S n, String c s => '(a, rest) ← read_exact n s; Some (String c a, rest)
  | S _, EmptyString => None
  end.
Definition read_bytes (n : nat) : ST string FrameError string := λ s,
  match read_exact n s with
  | Some (bytes, rest) => (Ok bytes, rest)
  | None => (Err (FrIo unexpected_eof), "")
  end.

Section frames.
Context `{Codec Cbor Message}.

Definition encode_frame (m : Message) : result FrameError string :=
  body ← map_err FrEncode (encode_to Cbor m);
  if (MAX_FRAME <? str_len body)%N then Err (FrTooLarge (str_len body))
  else Ok (to_be_bytes 4 (str_len body) +:+ body).

Definition decode_frame (body : string) : result FrameError Message :=
  if (MAX_FRAME <? str_len body)%N then Err (FrTooLarge (str_len body))
  else map_err FrDecode (decode_from Cbor body).

Definition read_frame : ST string FrameError Message :=
  len_buf ← read_bytes 4;
  let len := from_be_bytes len_buf in
  if (MAX_FRAME <? len)%N then st_err (FrTooLarge len)
  else
    body ← read_bytes (N.to_nat len);
    st_lift (decode_frame body).

(** The bytes written so far; [write_all] may fail, with part of the frame
    written. *)
Definition write_frame (fault : option Fault) (m : Message) : ST string FrameError unit := λ out,
  match encode_frame m with
  | Err e => (Err e, out)
  | Ok frame =>
      match fault with
      | Some f => (Err (FrIo (fault_error f)), out +:+ String.substring 0 (fault_done f) frame)
      | None => (Ok (), out +:+ frame)
      end
  end.
End frames.

(** ** Properties *)

Section frame_props.
Context `{CM : Codec Cbor Message}.

(** A run of writes, and of reads, on one stream. *)
Fixpoint write_frames (ms : list Message) : ST string FrameError unit :=
  match ms with
  | [] => mret ()
  | m :: ms => write_frame None m ;; write_frames ms
  end.
Fixpoint read_frames (n : nat) : ST string FrameError (list Message) :=
  match n with
  | O => mret []
  | S n => m ← read_frame; ms ← read_frames n; mret (m :: ms)
  end.

Lemma read_exact_app a rest : read_exact (String.length a) (a +:+ rest) = Some (a, rest).
Proof. induction a as [|c a IH]; [done|]. rewrite string_app_cons. simpl. by rewrite IH. Qed.

Lemma read_bytes_app a rest : read_bytes (String.length a) (a +:+ rest) = (Ok a, rest).
Proof. unfold read_bytes. by rewrite read_exact_app. Qed.

Lemma encode_frame_Ok m frame : encode_frame m = Ok frame ↔
  ∃ body, encode_to Cbor m = Ok body ∧ (str_len body ≤ MAX_FRAME)%N
    ∧ frame = to_be_bytes 4 (str_len body) +:+ body.
Proof.
  unfold encode_frame. rewrite bind_Ok. setoid_rewrite map_err_Ok. split.
  - intros (body & Hb & Hf). exists body. destruct (N.ltb_spec MAX_FRAME (str_len body)); [done|]. naive_solver.
  - intros (body & Hb & Hl & ->). exists body. split; [done|]. by rewrite (proj2 (N.ltb_ge _ _)).
Qed.

Lemma read_encoded_frame `{!CodecLaws Cbor Message} m frame rest :
  encode_frame m = Ok frame → read_frame (frame +:+ rest) = (Ok m, rest).
Proof.
  intros (body & Hb & Hl & ->)%encode_frame_Ok. rewrite string_app_assoc.
  unfold read_frame, mbind, ST_bind.
  replace 4 with (String.length (to_be_bytes 4 (str_len body))) at 1 by apply to_be_bytes_length.
  rewrite read_bytes_app, from_to_be_bytes
    by (change MAX_FRAME with 16777216%N in Hl; change (256 ^ N.of_nat 4)%N with 4294967296%N; lia).
  rewrite (proj2 (N.ltb_ge _ _)) by done. unfold str_len at 1. rewrite Nat2N.id, read_bytes_app.
  unfold st_lift, decode_frame. rewrite (proj2 (N.ltb_ge _ _)) by done. by rewrite (codec_round_trip _ _ Hb).
Qed.

(** C36: what is written to the stream is what is read from it.  When a sequence of
    messages is written without an error, reading as many frames yields the same
    messages in order and consumes exactly the bytes written, whatever follows
    them.  A frame that announces more than 16 MiB is refused before its body is
    read. *)
Theorem frame_stream_round_trip `{!CodecLaws Cbor Message} ms out out' rest :
  write_frames ms out = (Ok (), out') →
  (∃ bytes, out' = out +:+ bytes ∧ read_frames (length ms) (bytes +:+ rest) = (Ok ms, rest))
  ∧ ∀ len, (MAX_FRAME < len)%N → (len ≤ u32_max)%N →
      read_frame (to_be_bytes 4 len +:+ rest) = (Err (FrTooLarge len), rest).
Proof.
  intros Hw. split.
  - revert out Hw. induction ms as [|m ms IH]; intros out; simpl.
    { intros [= ->]. exists "". by rewrite string_app_nil_r. }
    unfold mbind at 1, ST_bind at 1, write_frame at 1.
    destruct (encode_frame m) as [frame|e] eqn:Hf; [|done].
    intros (bytes & -> & Hr)%IH. exists (frame +:+ bytes). split; [by rewrite string_app_assoc|].
    unfold mbind, ST_bind. rewrite string_app_assoc, (read_encoded_frame _ _ _ Hf), Hr. done.
  - intros len Hgt Hle. unfold read_frame, mbind, ST_bind.
    replace 4 with (String.length (to_be_bytes 4 len)) at 1 by apply to_be_bytes_length.
    rewrite read_bytes_app, from_to_be_bytes
      by (change (256 ^ N.of_nat 4)%N with 4294967296%N; unfold u32_max in Hle; lia).
    by rewrite (proj2 (N.ltb_lt _ _)).
Qed.
End frame_props.

(** ** Examples *)

Section frame_examples.
#[local] Existing Instance countable_codec.
#[local] Existing Instance countable_codec_laws.

Definition ex_messages : list Message :=
  [Hello PROTOCOL_VERSION; ListServices "i"; Reply "i" true None None].

Lemma frame_stream_round_trip_witness :
  ∃ out, write_frames ex_messages "" = (Ok (), out) ∧ read_frames 3 (out +:+ "tail") = (Ok ex_messages, "tail").
Proof.
  destruct (write_frames ex_messages "") as [[[]|e] out] eqn:E; [|vm_compute in E; discriminate].
  destruct (frame_stream_round_trip ex_messages "" out "tail" E) as [(bytes & Ho & Hr) _].
  rewrite string_app_nil_l in Ho. subst bytes. exists out. split; [reflexivity|exact Hr].
Defined.
End frame_examples.
