(* ===== verification/Admin.v ===== *)
(** * Password-based management requests: [src/src/admin.rs]

    The mode without a cluster: a shared password is stretched to a key, requests
    carry a MAC over their fields, a time and a nonce. *)
From S2P Require Import Prelude Crypto Replay.

Definition MAX_TS_SKEW_SECS : N := 300.
Definition HKDF_SALT : string := "nexusauth/mgmt".
Definition MAC_LEN : nat := 32.

Inductive AdminError :=
  | AeEmptyPassword | AeKdf | AeBadMac | AeExpiredTimestamp | AeReplay | AeBadNonce.
Global Instance AdminError_eq_dec : EqDecision AdminError.
Proof. solve_decision. Defined.

Definition admin_error_text (e : AdminError) : string :=
  match e with
  | AeEmptyPassword => "management password is empty"
  | AeKdf => "key derivation failed"
  | AeBadMac => "invalid management mac"
  | AeExpiredTimestamp => "management timestamp out of range"
  | AeReplay => "management nonce replayed"
  | AeBadNonce => "management nonce is empty"
  end.

Record ManagementRequest := MkManagementRequest {
  mr_op : string; mr_service : string; mr_peers : list string; mr_nonce : string; mr_ts : N; mr_mac : string
}.

(** What the MAC covers; the peers are sorted. *)
Record MacInput := MkMacInput {
  mi_op : string; mi_service : string; mi_peers : list string; mi_nonce : string; mi_ts : N
}.
Global Instance MacInput_eq_dec : EqDecision MacInput.
Proof. solve_decision. Defined.
Global Instance MacInput_countable : Countable MacInput.
Proof.
  refine (inj_countable' (λ t, (mi_op t, mi_service t, mi_peers t, mi_nonce t, mi_ts t))
    (λ '(a, b, c, d, e), MkMacInput a b c d e) _). by intros [].
Defined.

Record AdminAuth := MkAdminAuth { aa_mac_key : string; aa_guard : ReplayGuard }.

(** [sort_unstable] on strings: equal strings cannot be told apart. *)
Definition sort_strings (l : list string) : list string := merge_sort String.le l.

Section admin.
Context `{Crypto, Codec Json MacInput}.

(** The expansion to 32 bytes cannot fail, so [AeKdf] does not arise here. *)
Definition admin_auth_new (password network : string) : result AdminError AdminAuth :=
  if str_is_empty password then Err AeEmptyPassword
  else Ok (MkAdminAuth (hkdf_sha256 HKDF_SALT password network) ReplayGuard_default).

(** The [Err] is the panic of [expect("mac input serialization")]. *)
Definition compute_mac (a : AdminAuth) (op service : string) (peers : list string) (nonce : string) (ts : N)
    : result string string :=
  bytes ← encode_to Json (MkMacInput op service (sort_strings peers) nonce ts);
  Ok (b64url_encode (hmac_sha256 (aa_mac_key a) bytes)).

(** The MAC and the time; the nonce is registered last. *)
Definition mgmt_check (a : AdminAuth) (req : ManagementRequest) (now : N) : result AdminError unit :=
  provided ← ok_or (b64url_decode (mr_mac req)) AeBadMac;
  if bool_decide (String.length provided ≠ MAC_LEN) then Err AeBadMac
  else
    bytes ← map_err (λ _, AeBadMac)
      (encode_to Json (MkMacInput (mr_op req) (mr_service req) (sort_strings (mr_peers req)) (mr_nonce req)
                         (mr_ts req)));
    if bool_decide (hmac_sha256 (aa_mac_key a) bytes ≠ provided) then Err AeBadMac
    else if (MAX_TS_SKEW_SECS <? abs_diff now (mr_ts req))%N then Err AeExpiredTimestamp
    else Ok ().

Definition map_replay (e : ReplayError) : AdminError :=
  match e with ReplayEmpty => AeBadNonce | ReplaySeen => AeReplay end.

Definition mgmt_verify (req : ManagementRequest) (now : N) : ST AdminAuth AdminError unit := λ a,
  match mgmt_check a req now with
  | Err e => (Err e, a)
  | Ok _ =>
      let '(r, guard) := check_and_insert (mr_nonce req) (aa_guard a) in
      (map_err map_replay r, MkAdminAuth (aa_mac_key a) guard)
  end.
End admin.

(** ** Properties *)

Section admin_props.
Context `{CR : Crypto, CM : Codec Json MacInput}.

Lemma sort_strings_perm l k : l ≡ₚ k → sort_strings l = sort_strings k.
Proof.
  intros Hp. apply (StronglySorted_unique String.le);
    [apply StronglySorted_merge_sort; apply _..|].
  unfold sort_strings. by rewrite !(merge_sort_Permutation String.le).
Qed.
Lemma sort_strings_inj l k : sort_strings l = sort_strings k → l ≡ₚ k.
Proof.
  unfold sort_strings. intros Heq.
  by rewrite <-(merge_sort_Permutation String.le l), <-(merge_sort_Permutation String.le k), Heq.
Qed.

Lemma mgmt_check_Ok a req now : mgmt_check a req now = Ok () ↔
  ∃ bytes, encode_to Json (MkMacInput (mr_op req) (mr_service req) (sort_strings (mr_peers req)) (mr_nonce req)
      (mr_ts req)) = Ok bytes
    ∧ b64url_decode (mr_mac req) = Some (hmac_sha256 (aa_mac_key a) bytes)
    ∧ String.length (hmac_sha256 (aa_mac_key a) bytes) = MAC_LEN
    ∧ (now ≤ mr_ts req + 300 ∧ mr_ts req ≤ now + 300)%N.
Proof.
  unfold mgmt_check. split.
  - intros (p & Hp%ok_or_Ok & Hres)%bind_Ok. case_bool_decide as Hl; [done|].
    apply bind_Ok in Hres as (bytes & Hb%map_err_Ok & Hres). case_bool_decide as Hm; [done|].
    destruct (N.ltb_spec MAX_TS_SKEW_SECS (abs_diff now (mr_ts req))) as [|Ht]; [done|].
    apply abs_diff_le in Ht. exists bytes. bool_tests. subst p. done.
  - intros (bytes & Hb & Hp & Hl & Ht). rewrite Hp. cbn [ok_or mbind result_bind].
    rewrite bool_decide_eq_false_2 by auto. rewrite Hb. cbn [map_err mbind result_bind].
    rewrite bool_decide_eq_false_2 by auto. by rewrite (proj2 (N.ltb_ge _ _)) by (by apply abs_diff_le).
Qed.

(** A management request is accepted exactly when its MAC is the one the holder
    of the password computes for it.  A request whose MAC was computed with the
    same password and network over the same operation, service, peers in any
    order, nonce and time is accepted if the time is within five minutes and the
    nonce is new; and when a request is accepted, its MAC is the HMAC under the
    password's key of exactly its own fields, so that any other fields with the
    same encoding are the same request up to the order of the peers. *)
Theorem management_request_exact `{!CryptoLaws, !EncodeInj Json MacInput} password network a req peers mac now :
  admin_auth_new password network = Ok a → peers ≡ₚ mr_peers req →
  compute_mac a (mr_op req) (mr_service req) peers (mr_nonce req) (mr_ts req) = Ok mac →
  (mr_mac req = mac → (now ≤ mr_ts req + 300 ∧ mr_ts req ≤ now + 300)%N → mr_nonce req ≠ "" →
     ∃ a', mgmt_verify req now a = (Ok (), a'))
  ∧ (∀ a1 a2, aa_mac_key a1 = aa_mac_key a → mgmt_verify req now a1 = (Ok (), a2) →
       b64url_decode (mr_mac req) = b64url_decode mac
       ∧ ∀ op service ps nonce ts,
           encode_to Json (MkMacInput op service (sort_strings ps) nonce ts)
             = encode_to Json (MkMacInput (mr_op req) (mr_service req) (sort_strings (mr_peers req)) (mr_nonce req)
                 (mr_ts req)) →
           op = mr_op req ∧ service = mr_service req ∧ ps ≡ₚ mr_peers req ∧ nonce = mr_nonce req ∧ ts = mr_ts req).
Proof.
  intros Ha Hp (bytes & Hb & [= <-])%bind_Ok. rewrite (sort_strings_perm _ _ Hp) in Hb.
  assert (aa_guard a = ReplayGuard_default) as Hg.
  { revert Ha. unfold admin_auth_new. case_match; [done|]. by intros [= <-]. }
  split.
  - intros Hm Ht Hn. unfold mgmt_verify. rewrite (proj2 (mgmt_check_Ok _ _ _)).
    + rewrite Hg, check_and_insert_spec by apply guard_ok_default.
      rewrite (proj2 (str_is_empty_false _)) by done. simpl. eauto.
    + exists bytes. rewrite Hm, b64url_round_trip, hmac_length. done.
  - intros a1 a2 Hk. unfold mgmt_verify. destruct (mgmt_check a1 req now) as [[]|] eqn:Hc; [|done].
    intros _. apply mgmt_check_Ok in Hc as (b & Hb' & Hd & _). rewrite Hk in Hd. rewrite Hb in Hb'.
    injection Hb' as <-. split; [by rewrite Hd, b64url_round_trip|].
    intros op service ps nonce ts Heq. rewrite Hb in Heq.
    pose proof (encode_to_inj _ _ _ Heq Hb) as [= -> -> Hs -> ->]. by apply sort_strings_inj in Hs.
Qed.
End admin_props.

(** ** Examples *)

Section admin_examples.
Import Toy.

Definition ex_admin_auth : AdminAuth := MkAdminAuth (hkdf_sha256 HKDF_SALT "secret" "net") ReplayGuard_default.
Definition ex_mgmt_mac : string :=
  match compute_mac ex_admin_auth "add_members" "svc" ["p2"; "p1"] "n1" 1000 with Ok m => m | Err _ => "" end.
Definition ex_mgmt_request : ManagementRequest :=
  MkManagementRequest "add_members" "svc" ["p1"; "p2"] "n1" 1000 ex_mgmt_mac.

Lemma management_request_exact_witness :
  ∃ a', mgmt_verify ex_mgmt_request 1100 ex_admin_auth = (Ok (), a').
Proof.
  destruct (management_request_exact "secret" "net" ex_admin_auth ex_mgmt_request ["p2"; "p1"] ex_mgmt_mac 1100)
    as [Hok _]; [reflexivity|constructor|vm_compute; reflexivity|].
  apply Hok; [reflexivity|split; vm_compute; discriminate|discriminate].
Defined.
End admin_examples.
