(* ===== verification/Replicate.v ===== *)
(** * Replication between sidecars: [src/src/replicate.rs], authentication

    In the mode without a cluster, sidecars that share the management password send
    each other changes and whole snapshots.  The messages carry a MAC under a key
    derived from the password; this file has the messages and their checks, [Sync]
    the exchanges. *)
From S2P Require Import Prelude Fsutil Crypto Authority Replay Store StoreMerge Admin.

Definition REP_SALT : string := "nexusauth/replicate".
Definition OP_REPLICATE : string := "replicate".
Definition OP_SYNC_REQUEST : string := "sync_request".
Definition OP_SYNC_RESPONSE : string := "sync_response".

Inductive RepError :=
  | ReEmptyPassword | ReKdf | ReBadMac | ReExpiredTimestamp | ReReplay | ReBadNonce
  | ReDecode (m : string) | ReStore (e : StoreError).
Global Instance RepError_eq_dec : EqDecision RepError.
Proof. solve_decision. Defined.

Definition rep_error_text (e : RepError) : string :=
  match e with
  | ReEmptyPassword => "management password is empty"
  | ReKdf => "key derivation failed"
  | ReBadMac => "invalid replication mac"
  | ReExpiredTimestamp => "replication timestamp out of range"
  | ReReplay => "replication nonce replayed"
  | ReBadNonce => "replication nonce is empty"
  | ReDecode m => "replication decode error: " +:+ m
  | ReStore e => "state merge error: " +:+ store_error_text e
  end.

Record ReplicateMsg := MkReplicateMsg {
  rm_op : string; rm_service : string; rm_version : N; rm_members : list string; rm_index_version : N;
  rm_deleted : bool; rm_nonce : string; rm_ts : N; rm_mac : string;
}.
Global Instance ReplicateMsg_eq_dec : EqDecision ReplicateMsg.
Proof. solve_decision. Defined.
Global Instance ReplicateMsg_countable : Countable ReplicateMsg.
Proof.
  refine (inj_countable' (λ t, (rm_op t, rm_service t, rm_version t, rm_members t, rm_index_version t,
      (rm_deleted t, rm_nonce t, rm_ts t, rm_mac t)))
    (λ '(a, b, c, d, e, (f, g, h, i)), MkReplicateMsg a b c d e f g h i) _). by intros [].
Defined.
Record SyncRequest := MkSyncRequest {
  sq_op : string; sq_network : string; sq_nonce : string; sq_ts : N; sq_mac : string
}.
Global Instance SyncRequest_eq_dec : EqDecision SyncRequest.
Proof. solve_decision. Defined.
Global Instance SyncRequest_countable : Countable SyncRequest.
Proof.
  refine (inj_countable' (λ t, (sq_op t, sq_network t, sq_nonce t, sq_ts t, sq_mac t))
    (λ '(a, b, c, d, e), MkSyncRequest a b c d e) _). by intros [].
Defined.
Record SyncResponse := MkSyncResponse {
  sp_op : string; sp_nonce : string; sp_snapshot : StoreSnapshot; sp_ts : N; sp_mac : string
}.
Global Instance SyncResponse_eq_dec : EqDecision SyncResponse.
Proof. solve_decision. Defined.
Global Instance SyncResponse_countable : Countable SyncResponse.
Proof.
  refine (inj_countable' (λ t, (sp_op t, sp_nonce t, sp_snapshot t, sp_ts t, sp_mac t))
    (λ '(a, b, c, d, e), MkSyncResponse a b c d e) _). by intros [].
Defined.

Definition sep8 (n : N) : string := to_be_bytes 8 n.
Definition bool_byte (b : bool) : string := String (if b then "001" else "000")%char "".

Definition replicate_input (m : ReplicateMsg) : string :=
  "nexusauth/replicate" +:+ nul +:+ rm_service m +:+ nul +:+ sep8 (rm_version m) +:+ nul
  +:+ sep8 (rm_index_version m) +:+ nul +:+ bool_byte (rm_deleted m) +:+ nul
  +:+ str_join "," (sort_strings (rm_members m)) +:+ nul +:+ rm_nonce m +:+ nul +:+ sep8 (rm_ts m).

Definition sync_req_input (network nonce : string) (ts : N) : string :=
  "nexusauth/sync/req" +:+ nul +:+ network +:+ nul +:+ nonce +:+ nul +:+ sep8 ts.

(** The MAC key and the window of nonces. *)
Record RepAuth := MkRepAuth { ra_key : string; ra_guard : ReplayGuard }.

Section replicate.
Context `{Crypto, Codec Cbor StoreSnapshot}.

(** [random_b64]: the bytes drawn are an argument. *)
Definition random_b64 (rng : string) : string := b64url_encode rng.

Definition rep_b64_decode (s : string) : result RepError string := ok_or (b64url_decode s) (ReDecode "base64").

Definition sync_resp_input (network nonce : string) (snap : StoreSnapshot) (ts : N) : result RepError string :=
  cbor ← map_err ReDecode (encode_to Cbor snap);
  Ok ("nexusauth/sync/resp" +:+ nul +:+ network +:+ nul +:+ nonce +:+ nul +:+ cbor +:+ nul +:+ sep8 ts).

Definition rep_auth_new (password network : string) : result RepError RepAuth :=
  if str_is_empty password then Err ReEmptyPassword
  else Ok (MkRepAuth (hkdf_sha256 REP_SALT password network) ReplayGuard_default).

Definition mac_b64 (a : RepAuth) (input : string) : string := b64url_encode (hmac_sha256 (ra_key a) input).

Definition verify_mac (a : RepAuth) (input provided_b64 : string) : result RepError unit :=
  provided ← rep_b64_decode provided_b64;
  if bool_decide (String.length provided ≠ MAC_LEN) then Err ReBadMac
  else if bool_decide (hmac_sha256 (ra_key a) input ≠ provided) then Err ReBadMac else Ok ().

Definition rep_map_replay (e : ReplayError) : RepError :=
  match e with ReplayEmpty => ReBadNonce | ReplaySeen => ReReplay end.

Definition check_fresh (nonce : string) (ts now : N) : ST RepAuth RepError unit := λ a,
  if (MAX_TS_SKEW_SECS <? abs_diff now ts)%N then (Err ReExpiredTimestamp, a)
  else
    let '(r, guard) := check_and_insert nonce (ra_guard a) in
    (map_err rep_map_replay r, MkRepAuth (ra_key a) guard).

Definition sign_replicate (a : RepAuth) (m : ReplicateMsg) : string := mac_b64 a (replicate_input m).

Definition verify_replicate (m : ReplicateMsg) (now : N) : ST RepAuth RepError unit := λ a,
  if bool_decide (rm_op m ≠ OP_REPLICATE) then (Err ReBadMac, a)
  else match verify_mac a (replicate_input m) (rm_mac m) with
       | Err e => (Err e, a)
       | Ok _ => check_fresh (rm_nonce m) (rm_ts m) now a
       end.

Definition sign_sync_request (a : RepAuth) (network nonce : string) (ts : N) : string :=
  mac_b64 a (sync_req_input network nonce ts).

Definition verify_sync_request (req : SyncRequest) (now : N) : ST RepAuth RepError unit := λ a,
  if bool_decide (sq_op req ≠ OP_SYNC_REQUEST) then (Err ReBadMac, a)
  else match verify_mac a (sync_req_input (sq_network req) (sq_nonce req) (sq_ts req)) (sq_mac req) with
       | Err e => (Err e, a)
       | Ok _ => check_fresh (sq_nonce req) (sq_ts req) now a
       end.

Definition sign_sync_response (a : RepAuth) (network nonce : string) (snap : StoreSnapshot) (ts : N)
    : result RepError string :=
  input ← sync_resp_input network nonce snap ts;
  Ok (mac_b64 a input).

Definition verify_sync_response (a : RepAuth) (network nonce : string) (resp : SyncResponse)
    : result RepError unit :=
  if bool_decide (sp_op resp ≠ OP_SYNC_RESPONSE) || bool_decide (sp_nonce resp ≠ nonce) then Err ReBadMac
  else
    input ← sync_resp_input network nonce (sp_snapshot resp) (sp_ts resp);
    verify_mac a input (sp_mac resp).
End replicate.

(** ** Properties *)

Section replicate_props.
Context `{CR : Crypto, CS : Codec Cbor StoreSnapshot}.

Lemma verify_mac_Ok a input mac u : verify_mac a input mac = Ok u ↔
  b64url_decode mac = Some (hmac_sha256 (ra_key a) input)
  ∧ String.length (hmac_sha256 (ra_key a) input) = MAC_LEN.
Proof.
  unfold verify_mac, rep_b64_decode. rewrite bind_Ok. setoid_rewrite ok_or_Ok. split.
  - intros (p & Hp & Hres). do 2 (case_bool_decide; [done|]). bool_tests. naive_solver.
  - intros [Hp Hl]. eexists. split; [exact Hp|]. rewrite !bool_decide_eq_false_2 by auto. by destruct u.
Qed.

Lemma own_mac_verifies `{!CryptoLaws} a b input : ra_key a = ra_key b → verify_mac b input (mac_b64 a input) = Ok ().
Proof. intros Hk. apply verify_mac_Ok. unfold mac_b64. by rewrite b64url_round_trip, hmac_length, Hk. Qed.

Lemma valid_service_no_nul s : is_valid_service_name s = true → str_has "000" s = false.
Proof.
  intros Hv. unfold is_valid_service_name, is_valid_network_name in Hv. bool_tests.
  destruct (str_has "000" s) eqn:Hs; [|done]. exfalso.
  match goal with Ha : str_all _ s = true |- _ => revert Ha end. clear -Hs.
  induction s as [|c s IH]; [done|]. simpl in *. apply orb_true_iff in Hs as [Hc|Hs].
  - apply bool_decide_eq_true in Hc as <-. done.
  - intros [_ Ha]%andb_true_iff. by apply IH.
Qed.

Lemma str_join_no_nul l : Forall (λ m, str_has "000" m = false) l → str_has "000" (str_join "," l) = false.
Proof.
  induction 1 as [|m l Hm Hl IH]; [done|]. destruct l as [|m' l]; [done|].
  change (str_has "000" (m +:+ "," +:+ str_join "," (m' :: l)) = false). by rewrite !str_has_app, Hm, IH.
Qed.

Lemma str_join_inj l k :
  Forall (λ m, m ≠ "" ∧ str_has "," m = false) l → Forall (λ m, m ≠ "" ∧ str_has "," m = false) k →
  str_join "," l = str_join "," k → l = k.
Proof.
  assert (∀ m : string, str_has "," m = false → ∀ n t, n +:+ "," +:+ t = m → False) as Hsplit.
  { intros m Hm n t <-. rewrite !str_has_app in Hm. apply orb_false_iff in Hm as [_ Hm]. done. }
  intros Hl. revert k. induction Hl as [|m l [Hm0 Hm] Hl IH]; intros [|m' k] Hk Heq.
  - done.
  - exfalso. apply Forall_cons in Hk as [[Hm'0 Hm'] Hk]. destruct k; simpl in Heq; [done|].
    destruct m'; [done|]. by rewrite string_app_cons in Heq.
  - exfalso. destruct l; simpl in Heq; [done|]. destruct m; [done|]. by rewrite string_app_cons in Heq.
  - apply Forall_cons in Hk as [[Hm'0 Hm'] Hk]. destruct l as [|a l], k as [|b k].
    + simpl in Heq. by subst.
    + exfalso. change (m = m' +:+ "," +:+ str_join "," (b :: k)) in Heq. by eapply Hsplit; [exact Hm|].
    + exfalso. change (m +:+ "," +:+ str_join "," (a :: l) = m') in Heq. by eapply Hsplit; [exact Hm'|].
    + change (m +:+ String ","%char (str_join "," (a :: l)) = m' +:+ String ","%char (str_join "," (b :: k))) in Heq.
      apply string_app_sep_inj in Heq as [-> Heq]; [|done..]. f_equal. by apply IH.
Qed.

(** The fields of a change a store accepts, at machine width. *)
Record change_ok (m : ReplicateMsg) : Prop := {
  ch_service : is_valid_service_name (rm_service m) = true;
  ch_members : Forall (λ p, is_valid_peer_id p = true) (rm_members m);
  ch_version : (rm_version m ≤ u64_max)%N;
  ch_index : (rm_index_version m ≤ u64_max)%N;
  ch_ts : (rm_ts m ≤ u64_max)%N;
}.

Lemma sort_strings_Forall P l : Forall P l → Forall P (sort_strings l).
Proof. unfold sort_strings. by rewrite merge_sort_Permutation. Qed.

Lemma sep8_inj a b s t : (a ≤ u64_max)%N → (b ≤ u64_max)%N → sep8 a +:+ s = sep8 b +:+ t → a = b ∧ s = t.
Proof.
  intros Ha Hb Heq. apply string_app_inj_len in Heq as [Heq ->]; [|by unfold sep8; rewrite !to_be_bytes_length].
  split; [|done]. by apply to_be_bytes8_inj.
Qed.

(** The text that is authenticated determines the change. *)
Lemma replicate_input_inj `{!CryptoLaws} m m' : change_ok m → change_ok m' →
  replicate_input m = replicate_input m' →
  rm_service m = rm_service m' ∧ rm_version m = rm_version m' ∧ rm_index_version m = rm_index_version m'
  ∧ rm_deleted m = rm_deleted m' ∧ rm_members m ≡ₚ rm_members m' ∧ rm_nonce m = rm_nonce m' ∧ rm_ts m = rm_ts m'.
Proof.
  intros [Hs Hm Hv Hi Ht] [Hs' Hm' Hv' Hi' Ht']. unfold replicate_input, nul. intros Heq.
  apply string_app_inj_len in Heq as [_ Heq]; [|done]. apply string_app_inj_len in Heq as [_ Heq]; [|done].
  apply string_app_sep_inj in Heq as [Hsv Heq]; [|by apply valid_service_no_nul..].
  apply sep8_inj in Heq as [Hve Heq]; [|done..]. apply string_app_inj_len in Heq as [_ Heq]; [|done].
  apply sep8_inj in Heq as [Hie Heq]; [|done..]. apply string_app_inj_len in Heq as [_ Heq]; [|done].
  apply string_app_inj_len in Heq as [Hd Heq]; [|done]. apply string_app_inj_len in Heq as [_ Heq]; [|done].
  assert (∀ l, Forall (λ p, is_valid_peer_id p = true) l → str_has "000" (str_join "," (sort_strings l)) = false) as Hnn.
  { intros l Hl. apply str_join_no_nul, sort_strings_Forall. eapply Forall_impl; [exact Hl|].
    intros p. apply valid_peer_no_nul. }
  assert (∀ l, Forall (λ p, is_valid_peer_id p = true) l →
    Forall (λ p, p ≠ "" ∧ str_has "," p = false) (sort_strings l)) as Hnc.
  { intros l Hl. apply sort_strings_Forall. eapply Forall_impl; [exact Hl|].
    intros p Hp. unfold is_valid_peer_id in Hp. apply bool_decide_eq_true in Hp. by apply peer_id_no_comma. }
  apply string_app_sep_inj in Heq as [Hj Heq]; [|by apply Hnn..].
  apply str_join_inj in Hj; [|by apply Hnc..]. apply sort_strings_inj in Hj.
  rewrite <-!string_app_assoc in Heq.
  apply string_app_inj_len_r in Heq as [Hn Hte]; [|by unfold sep8; rewrite !to_be_bytes_length].
  apply string_app_inj_len_r in Hn as [Hn _]; [|done]. apply to_be_bytes8_inj in Hte; [|done..].
  split_and!; try done. by destruct (rm_deleted m), (rm_deleted m').
Qed.

Lemma check_fresh_Ok nonce ts now a a' : guard_ok (ra_guard a) → check_fresh nonce ts now a = (Ok (), a') →
  (now ≤ ts + 300 ∧ ts ≤ now + 300)%N ∧ nonce ≠ "" ∧ nonce ∉ rg_order (ra_guard a)
  ∧ ra_key a' = ra_key a ∧ guard_ok (ra_guard a') ∧ nonce ∈ rg_order (ra_guard a').
Proof.
  intros Hg. unfold check_fresh. destruct (N.ltb_spec MAX_TS_SKEW_SECS (abs_diff now ts)) as [|Ht]; [done|].
  apply abs_diff_le in Ht. pose proof (check_and_insert_guard_ok nonce (ra_guard a) Hg) as Hg'.
  rewrite (check_and_insert_spec _ _ Hg) in *. destruct (str_is_empty nonce) eqn:Hn; [done|].
  apply str_is_empty_false in Hn. case_bool_decide as Hin; [done|]. intros [= <-]. simpl in *.
  split_and!; try done; [apply Ht..|].
  destruct (lastn_app_r MAX_SEEN_NONCES (rg_order (ra_guard a)) [nonce]) as [p ->]; [|set_solver].
  apply Nat.leb_le. vm_compute. reflexivity.
Qed.

Lemma check_fresh_seen nonce ts now a : guard_ok (ra_guard a) → nonce ∈ rg_order (ra_guard a) →
  ∃ e, check_fresh nonce ts now a = (Err e, a).
Proof.
  intros Hg Hin. unfold check_fresh. case_match; [by eauto|]. rewrite check_and_insert_spec by done.
  rewrite (bool_decide_eq_true_2 (nonce ∈ _)) by done. destruct a, (str_is_empty nonce); simpl; eauto.
Qed.

(** A replicated change is accepted only if a holder of the password
    authenticated exactly it, recently and for the first time.  The MAC is the HMAC
    of the change's own text, which determines the service, versions, deletion
    flag, members, nonce and time among the changes a store accepts; the time is
    within five minutes; the nonce was not seen; and afterwards no message with
    that nonce is accepted. *)
Theorem accepted_change_authentic `{!CryptoLaws} m now a a' :
  guard_ok (ra_guard a) → verify_replicate m now a = (Ok (), a') →
  b64url_decode (rm_mac m) = Some (hmac_sha256 (ra_key a) (replicate_input m))
  ∧ (now ≤ rm_ts m + 300 ∧ rm_ts m ≤ now + 300)%N
  ∧ rm_nonce m ∉ rg_order (ra_guard a)
  ∧ (∀ m' now', rm_nonce m' = rm_nonce m → ∃ e, verify_replicate m' now' a' = (Err e, a'))
  ∧ (∀ m', change_ok m → change_ok m' → replicate_input m' = replicate_input m →
       rm_service m' = rm_service m ∧ rm_version m' = rm_version m ∧ rm_index_version m' = rm_index_version m
       ∧ rm_deleted m' = rm_deleted m ∧ rm_members m' ≡ₚ rm_members m ∧ rm_nonce m' = rm_nonce m
       ∧ rm_ts m' = rm_ts m).
Proof.
  intros Hg. unfold verify_replicate at 1. case_bool_decide; [done|].
  destruct (verify_mac a (replicate_input m) (rm_mac m)) as [u|] eqn:Hm; [|done].
  apply verify_mac_Ok in Hm as [Hm _]. intros (Ht & Hn & Hni & Hk & Hg' & Hin)%check_fresh_Ok; [|done].
  split_and!; try done; [apply Ht..| |].
  - intros m' now' Heq. unfold verify_replicate. case_bool_decide; [by eauto|]. case_match; [|by eauto].
    apply check_fresh_seen; [done|by rewrite Heq].
  - intros m' Hok Hok' Heq. by apply replicate_input_inj.
Qed.
End replicate_props.

(** ** Examples *)

Section replicate_examples.
Import Toy.

Definition ex_rep : RepAuth := MkRepAuth (hkdf_sha256 REP_SALT "secret" "net") ReplayGuard_default.
Definition ex_change : ReplicateMsg :=
  let m := MkReplicateMsg OP_REPLICATE "svc" 3 ["p2"; "p1"] 7 false "n1" 1000 "" in
  MkReplicateMsg OP_REPLICATE "svc" 3 ["p2"; "p1"] 7 false "n1" 1000 (sign_replicate ex_rep m).

Lemma accepted_change_authentic_witness :
  ∃ a', verify_replicate ex_change 1100 ex_rep = (Ok (), a')
    ∧ ∃ e, verify_replicate ex_change 1200 a' = (Err e, a').
Proof.
  destruct (verify_replicate ex_change 1100 ex_rep) as [[[]|e] a'] eqn:E; [|vm_compute in E; discriminate].
  exists a'. split; [reflexivity|].
  destruct (accepted_change_authentic ex_change 1100 ex_rep a') as (_ & _ & _ & Hr & _);
    [exact guard_ok_default|exact E|].
  exact (Hr ex_change 1200%N eq_refl).
Defined.
End replicate_examples.
