(* ===== verification/PasswordJoin.v ===== *)
(** * Joining with the management password: [src/src/join.rs], the exchange

    In the mode without a cluster a new sidecar proves that it knows the management
    password and gets back, encrypted, the authority seed and a snapshot of the
    store.  This file has the messages, the checks of both sides and the server;
    [Joining] has the client's loop over candidates. *)
From S2P Require Import Prelude Fsutil Crypto Authority Replay Store Replicate.

Definition JOIN_SALT : string := "nexusauth/join".
Definition ENC_SALT : string := "nexusauth/join/enc".
Definition JOIN_MAX_TS_SKEW_SECS : N := 300.
Definition OP_REQUEST : string := "join_request".
Definition OP_RESPONSE : string := "join_response".

(** [JoinError] of this file; the one of [raft/join.rs] is in [Join]. *)
Inductive PwJoinError :=
  | PjNoCandidates | PjRequest (m : string) | PjBadResponse (m : string) | PjAuth | PjDecrypt
  | PjDecode (m : string) | PjKeyMismatch | PjPersist (m : string) | PjInvalidNonce.
Global Instance PwJoinError_eq_dec : EqDecision PwJoinError.
Proof. solve_decision. Defined.

Definition pw_join_error_text (e : PwJoinError) : string :=
  match e with
  | PjNoCandidates => "no join candidate available"
  | PjRequest e => "join request failed: " +:+ e
  | PjBadResponse e => "bad join response: " +:+ e
  | PjAuth => "join authentication failed"
  | PjDecrypt => "join secret decryption failed"
  | PjDecode e => "join decode error: " +:+ e
  | PjKeyMismatch => "fetched authority key mismatches DHT record"
  | PjPersist e => "persist joined state failed: " +:+ e
  | PjInvalidNonce => "invalid join nonce"
  end.

Record JoinRequest := MkJoinRequest {
  jq_op : string; jq_network : string; jq_nonce : string; jq_ts : N; jq_mac : string
}.
Global Instance JoinRequest_eq_dec : EqDecision JoinRequest.
Proof. solve_decision. Defined.
Global Instance JoinRequest_countable : Countable JoinRequest.
Proof.
  refine (inj_countable' (λ t, (jq_op t, jq_network t, jq_nonce t, jq_ts t, jq_mac t))
    (λ '(a, b, c, d, e), MkJoinRequest a b c d e) _). by intros [].
Defined.
Record JoinResponse := MkJoinResponse {
  jr_op : string; jr_responder_nonce : string; jr_aead_nonce : string; jr_ciphertext : string; jr_mac : string
}.
Global Instance JoinResponse_eq_dec : EqDecision JoinResponse.
Proof. solve_decision. Defined.
Global Instance JoinResponse_countable : Countable JoinResponse.
Proof.
  refine (inj_countable' (λ t, (jr_op t, jr_responder_nonce t, jr_aead_nonce t, jr_ciphertext t, jr_mac t))
    (λ '(a, b, c, d, e), MkJoinResponse a b c d e) _). by intros [].
Defined.
Record JoinSecret := MkJoinSecret { jc_seed : string; jc_state : StoreSnapshot }.
Global Instance JoinSecret_eq_dec : EqDecision JoinSecret.
Proof. solve_decision. Defined.
Global Instance JoinSecret_countable : Countable JoinSecret.
Proof.
  refine (inj_countable' (λ t, (jc_seed t, jc_state t)) (λ '(a, b), MkJoinSecret a b) _). by intros [].
Defined.

(** The server: password, switch, and the window of nonces behind a lock. *)
Record JoinServer := MkJoinServer { js_password : string; js_allow : bool; js_guard : ReplayGuard }.

Section password_join.
Context `{Crypto, Codec Cbor JoinSecret}.

(** The expansion to 32 bytes cannot fail. *)
Definition join_derive_key (salt password info : string) : string := hkdf_sha256 salt password info.
Definition join_mac_key (password network : string) : string := join_derive_key JOIN_SALT password network.
Definition enc_info (network joiner_nonce responder_nonce : string) : string :=
  network +:+ nul +:+ joiner_nonce +:+ nul +:+ responder_nonce.
Definition enc_key (password network joiner_nonce responder_nonce : string) : string :=
  join_derive_key ENC_SALT password (enc_info network joiner_nonce responder_nonce).

Definition request_mac_input (network nonce : string) (ts : N) : string :=
  "nexusauth/join/request" +:+ nul +:+ network +:+ nul +:+ nonce +:+ nul +:+ to_be_bytes 8 ts.
Definition response_mac_input (network responder_nonce aead_nonce ciphertext : string) : string :=
  "nexusauth/join/response" +:+ nul +:+ network +:+ nul +:+ responder_nonce +:+ nul +:+ aead_nonce +:+ nul
  +:+ ciphertext.

Definition hmac_b64 (key input : string) : string := b64url_encode (hmac_sha256 key input).
Definition join_b64_decode (s : string) : result PwJoinError string := ok_or (b64url_decode s) (PjDecode "base64").
(** [Mac::verify_slice]. *)
Definition check_mac (key input provided : string) : result PwJoinError unit :=
  if bool_decide (hmac_sha256 key input = provided) then Ok () else Err PjAuth.

Definition make_request (password network nonce : string) (ts : N) : JoinRequest :=
  let key := join_mac_key password network in
  MkJoinRequest OP_REQUEST network nonce ts (hmac_b64 key (request_mac_input network nonce ts)).

(** MAC, then time, then nonce. *)
Definition verify_join (password network : string) (req : JoinRequest) (now : N)
    : ST ReplayGuard PwJoinError unit := λ guard,
  if bool_decide (jq_op req ≠ OP_REQUEST) || bool_decide (jq_network req ≠ network) then (Err PjAuth, guard)
  else match (provided ← join_b64_decode (jq_mac req);
              check_mac (join_mac_key password network)
                (request_mac_input network (jq_nonce req) (jq_ts req)) provided) with
  | Err e => (Err e, guard)
  | Ok _ =>
      if (JOIN_MAX_TS_SKEW_SECS <? abs_diff now (jq_ts req))%N then (Err PjAuth, guard)
      else
        st_map_err (λ e, match e with ReplayEmpty => PjInvalidNonce | ReplaySeen => PjAuth end)
          (check_and_insert (jq_nonce req)) guard
  end.

(** [rng_nonce] (16 bytes) and [rng_aead] (12 bytes) are the random bytes drawn. *)
Definition make_response (rng_nonce rng_aead password network joiner_nonce seed : string) (state : StoreSnapshot)
    : result PwJoinError JoinResponse :=
  let responder_nonce := b64url_encode rng_nonce in
  let key := enc_key password network joiner_nonce responder_nonce in
  plaintext ← map_err PjDecode (encode_to Cbor (MkJoinSecret seed state));
  ciphertext ← ok_or (aead_encrypt key rng_aead plaintext) PjAuth;
  let mac := hmac_b64 (join_mac_key password network)
               (response_mac_input network responder_nonce rng_aead ciphertext) in
  Ok (MkJoinResponse OP_RESPONSE responder_nonce (b64url_encode rng_aead) (b64url_encode ciphertext) mac).

Definition open_response (password network joiner_nonce : string) (resp : JoinResponse)
    : result PwJoinError (string * StoreSnapshot) :=
  if bool_decide (jr_op resp ≠ OP_RESPONSE) then Err PjAuth
  else
    aead_nonce ← join_b64_decode (jr_aead_nonce resp);
    if bool_decide (String.length aead_nonce ≠ 12) then Err (PjDecode "aead nonce length")
    else
      ciphertext ← join_b64_decode (jr_ciphertext resp);
      provided ← join_b64_decode (jr_mac resp);
      check_mac (join_mac_key password network)
        (response_mac_input network (jr_responder_nonce resp) aead_nonce ciphertext) provided ;;
      let key := enc_key password network joiner_nonce (jr_responder_nonce resp) in
      plaintext ← ok_or (aead_decrypt key aead_nonce ciphertext) PjDecrypt;
      secret ← map_err (λ _, PjDecode "secret") (decode_from Cbor (A := JoinSecret) plaintext);
      if bool_decide (String.length (jc_seed secret) ≠ SEED_LEN) then Err (PjDecode "seed length")
      else Ok (jc_seed secret, jc_state secret).

Definition join_server_new (password : string) (allow : bool) : JoinServer :=
  MkJoinServer password allow ReplayGuard_default.
Definition allowed (s : JoinServer) : bool := js_allow s.

Definition respond (rng_nonce rng_aead network : string) (req : JoinRequest) (now : N) (seed : string)
    (state : StoreSnapshot) : ST JoinServer PwJoinError JoinResponse := λ s,
  if negb (js_allow s) then (Err PjAuth, s)
  else
    let '(r, guard) := verify_join (js_password s) network req now (js_guard s) in
    (r ;; make_response rng_nonce rng_aead (js_password s) network (jq_nonce req) seed state,
     MkJoinServer (js_password s) (js_allow s) guard).
End password_join.

(** ** Properties *)

Section password_join_props.
Context `{CR : Crypto, CL : !CryptoLaws, CJ : Codec Cbor JoinSecret}.

Lemma join_b64_decode_Ok s b : join_b64_decode s = Ok b ↔ b64url_decode s = Some b.
Proof. apply ok_or_Ok. Qed.
Lemma join_b64_round_trip b : join_b64_decode (b64url_encode b) = Ok b.
Proof. apply join_b64_decode_Ok, b64url_round_trip. Qed.
Lemma check_mac_Ok key input provided u : check_mac key input provided = Ok u ↔ hmac_sha256 key input = provided.
Proof. unfold check_mac. destruct u. case_bool_decide; naive_solver. Qed.

(** What a server requires of a request, and remembers of it. *)
Record request_fresh (password network : string) (req : JoinRequest) (now : N) (g : ReplayGuard) : Prop := {
  rf_op : jq_op req = OP_REQUEST;
  rf_network : jq_network req = network;
  rf_mac : b64url_decode (jq_mac req) = Some (hmac_sha256 (join_mac_key password network)
             (request_mac_input network (jq_nonce req) (jq_ts req)));
  rf_time : (now ≤ jq_ts req + 300 ∧ jq_ts req ≤ now + 300)%N;
  rf_nonce : jq_nonce req ≠ "" ∧ jq_nonce req ∉ rg_order g;
}.

Lemma verify_join_Ok password network req now g g' : guard_ok g →
  verify_join password network req now g = (Ok (), g') ↔
    request_fresh password network req now g
    ∧ g' = (check_and_insert (jq_nonce req) g).2.
Proof.
  intros Hg. unfold verify_join, st_map_err. rewrite (check_and_insert_spec _ _ Hg). split.
  - destruct (bool_decide (jq_op req ≠ _) || _) eqn:Ho; [done|]. bool_tests.
    destruct (join_b64_decode _ ≫= _) as [u|] eqn:Hm; [|done].
    apply bind_Ok in Hm as (p & Hp%join_b64_decode_Ok & <-%check_mac_Ok).
    destruct (N.ltb_spec JOIN_MAX_TS_SKEW_SECS (abs_diff now (jq_ts req))) as [|Ht]; [done|].
    apply abs_diff_le in Ht. destruct (str_is_empty (jq_nonce req)) eqn:Hn; [done|]. bool_tests.
    case_bool_decide as Hin; [done|]. intros [= <-]. split; [|done]. split; try done; by apply str_is_empty_false in Hn.
  - intros [[-> -> Hm Ht [Hn Hin]] ->]. rewrite !(bool_decide_eq_false_2 (_ ≠ _)) by auto. cbn [orb].
    unfold join_b64_decode. rewrite Hm. cbn [ok_or mbind result_bind]. rewrite (proj2 (check_mac_Ok _ _ _ ())) by done.
    rewrite (proj2 (N.ltb_ge _ _)) by (by apply abs_diff_le).
    rewrite (proj2 (str_is_empty_false _)) by done. by rewrite bool_decide_eq_false_2.
Qed.

Lemma verify_join_seen password network req now g : guard_ok g → jq_nonce req ∈ rg_order g →
  ∃ e, verify_join password network req now g = (Err e, g).
Proof.
  intros Hg Hin. destruct (verify_join password network req now g) as [[[]|e] g'] eqn:Hv.
  - apply verify_join_Ok in Hv as [[_ _ _ _ [_ Hni]] _]; done.
  - exists e. f_equal. revert Hv. unfold verify_join, st_map_err. rewrite (check_and_insert_spec _ _ Hg).
    rewrite (bool_decide_eq_true_2 (jq_nonce req ∈ _)) by done. repeat case_match; naive_solver.
Qed.

Lemma inserted_nonce g nonce : guard_ok g → nonce ≠ "" → nonce ∉ rg_order g →
  nonce ∈ rg_order (check_and_insert nonce g).2.
Proof.
  intros Hg Hn Hni. rewrite (check_and_insert_spec _ _ Hg), (proj2 (str_is_empty_false _)) by done.
  rewrite bool_decide_eq_false_2 by done. simpl.
  destruct (lastn_app_r MAX_SEEN_NONCES (rg_order g) [nonce]) as [p ->]; [|set_solver].
  apply Nat.leb_le. vm_compute. reflexivity.
Qed.

(** An honest response opens to what was put in. *)
Lemma open_make_response `{!CodecLaws Cbor JoinSecret} rn ra password network nonce seed state resp :
  String.length ra = 12 → String.length seed = SEED_LEN →
  make_response rn ra password network nonce seed state = Ok resp →
  open_response password network nonce resp = Ok (seed, state).
Proof.
  intros Hra Hs (pt & Hpt%map_err_Ok & (ct & Hct%ok_or_Ok & [= <-])%bind_Ok)%bind_Ok. unfold open_response.
  cbn [jr_op jr_aead_nonce jr_ciphertext jr_mac jr_responder_nonce]. rewrite bool_decide_eq_false_2 by auto.
  rewrite (join_b64_round_trip ra). cbn [mbind result_bind]. rewrite Hra, bool_decide_eq_false_2 by auto.
  rewrite (join_b64_round_trip ct). cbn [mbind result_bind]. unfold hmac_b64. rewrite join_b64_round_trip.
  cbn [mbind result_bind]. rewrite (proj2 (check_mac_Ok _ _ _ ())) by done. cbn [mbind result_bind].
  rewrite (aead_round_trip _ _ _ _ Hct). cbn [ok_or mbind result_bind]. rewrite (codec_round_trip _ _ Hpt).
  cbn. by rewrite Hs, bool_decide_eq_false_2 by auto.
Qed.


Lemma enc_info_inj network a b a' b' :
  str_has "000" a = false → str_has "000" a' = false →
  enc_info network a b = enc_info network a' b' → a = a' ∧ b = b'.
Proof.
  intros Ha Ha' Heq. unfold enc_info, nul in Heq. apply string_app_inj_len in Heq as [_ Heq]; [|done].
  apply string_app_inj_len in Heq as [_ Heq]; [|done]. by apply string_app_sep_inj in Heq.
Qed.

Lemma request_mac_input_inj network nonce ts nonce' ts' :
  (ts ≤ u64_max)%N → (ts' ≤ u64_max)%N →
  request_mac_input network nonce ts = request_mac_input network nonce' ts' → nonce = nonce' ∧ ts = ts'.
Proof.
  intros Ht Ht' Heq. unfold request_mac_input in Heq. do 4 (apply string_app_inj_len in Heq as [_ Heq]; [|done]).
  rewrite <-!string_app_assoc in Heq.
  apply string_app_inj_len_r in Heq as [Hn Hts]; [|by rewrite !to_be_bytes_length].
  apply string_app_inj_len_r in Hn as [Hn _]; [|done]. split; [done|]. by apply to_be_bytes8_inj.
Qed.

(** Only holders of the password take part.  A server answers only when joining
    is allowed and the request carries the MAC, under the password's key, of its own
    network, nonce and time (no other nonce and time have that text), recently and
    for the first time.  A newcomer accepts only a response with the MAC of its
    contents under the password's key, which decrypts under a key derived from the
    password and from the very nonce the newcomer sent: for another nonce, the key
    is derived from another text. *)
Theorem password_join_authentic :
  (∀ rn ra network req now seed state s s' resp, guard_ok (js_guard s) →
     respond rn ra network req now seed state s = (Ok resp, s') →
     js_allow s = true ∧ request_fresh (js_password s) network req now (js_guard s)
     ∧ ∀ nonce ts, (ts ≤ u64_max)%N → (jq_ts req ≤ u64_max)%N →
         request_mac_input network nonce ts = request_mac_input network (jq_nonce req) (jq_ts req) →
         nonce = jq_nonce req ∧ ts = jq_ts req)
  ∧ (∀ password network rng resp seed state,
       let nonce := b64url_encode rng in
       open_response password network nonce resp = Ok (seed, state) →
       String.length seed = SEED_LEN ∧ ∃ an ct pt,
         b64url_decode (jr_aead_nonce resp) = Some an ∧ b64url_decode (jr_ciphertext resp) = Some ct
         ∧ b64url_decode (jr_mac resp) = Some (hmac_sha256 (join_mac_key password network)
             (response_mac_input network (jr_responder_nonce resp) an ct))
         ∧ aead_decrypt (hkdf_sha256 ENC_SALT password (enc_info network nonce (jr_responder_nonce resp))) an ct
             = Some pt
         ∧ decode_from Cbor pt = Ok (MkJoinSecret seed state)
         ∧ ∀ rng' rn', enc_info network (b64url_encode rng') rn'
                         = enc_info network nonce (jr_responder_nonce resp) → rng' = rng).
Proof.
  split.
  - intros rn ra network req now seed state s s' resp Hg. unfold respond. destruct (js_allow s); [|done]. simpl.
    destruct (verify_join _ _ _ _ _) as [[[]|e] g] eqn:Hv; [|done]. intros _.
    apply verify_join_Ok in Hv as [Hf _]; [|done]. split_and!; [done..|]. intros. by apply (request_mac_input_inj network).
  - intros password network rng resp seed state nonce. unfold open_response. case_bool_decide; [done|].
    intros (an & Han%join_b64_decode_Ok & Hres)%bind_Ok. case_bool_decide; [done|].
    apply bind_Ok in Hres as (ct & Hct%join_b64_decode_Ok & (pr & Hpr%join_b64_decode_Ok & Hres)%bind_Ok).
    apply bind_Ok in Hres as (u & <-%check_mac_Ok & (pt & Hpt%ok_or_Ok & (sec & Hsec%map_err_Ok & Hres)%bind_Ok)%bind_Ok).
    destruct sec as [sd st]. simpl in Hres. case_bool_decide as Hl; [done|]. injection Hres as <- <-.
    split; [by destruct (decide (String.length sd = SEED_LEN))|]. exists an, ct, pt. split_and!; [done..|].
    intros rng' rn' [Heq _]%enc_info_inj; [|apply b64url_no_nul..].
    subst nonce. apply (f_equal b64url_decode) in Heq. rewrite !b64url_round_trip in Heq. by injection Heq.
Qed.
End password_join_props.

(** ** Examples *)

Section password_join_examples.
Import Toy.

Definition ex_server : JoinServer := join_server_new "secret" true.
Definition ex_snapshot : StoreSnapshot := MkStoreSnapshot "net" 3 {["svc" := MkServiceState 2 {["p1"]}]} ∅.
Definition ex_aead : string := pad 12 "aead".


Lemma password_join_authentic_witness :
  let req := make_request "secret" "net" (b64url_encode "n1") 1000 in
  ∃ resp s', respond "rn" ex_aead "net" req 1100 (pad 32 "seed") ex_snapshot ex_server = (Ok resp, s')
    ∧ request_fresh "secret" "net" req 1100 (js_guard ex_server)
    ∧ ∃ an ct pt, b64url_decode (jr_aead_nonce resp) = Some an ∧ b64url_decode (jr_ciphertext resp) = Some ct
        ∧ aead_decrypt (hkdf_sha256 ENC_SALT "secret" (enc_info "net" (b64url_encode "n1") (jr_responder_nonce resp))) an ct
            = Some pt.
Proof.
  intros req. destruct password_join_authentic as [Hserver Hclient].
  destruct (respond "rn" ex_aead "net" req 1100 (pad 32 "seed") ex_snapshot ex_server) as [[resp|e] s'] eqn:Hr;
    [|vm_compute in Hr; discriminate].
  exists resp, s'. split; [reflexivity|].
  destruct (Hserver _ _ _ _ _ _ _ ex_server _ _ guard_ok_default Hr) as (_ & Hf & _). split; [exact Hf|].
  destruct (Hclient "secret" "net" "n1" resp (pad 32 "seed") ex_snapshot) as (_ & an & ct & pt & Ha & Hc & _ & Hd & _).
  - vm_compute in Hr. injection Hr as <- _. vm_compute. reflexivity.
  - exists an, ct, pt. split; [exact Ha|]. split; [exact Hc|exact Hd].
Defined.
End password_join_examples.
