(* ===== verification/Context.v ===== *)
(** * The sidecar's shared state: [src/src/context.rs], and its environment

    [AuthContext] is the state the handlers share.  What it talks to is behind two
    interfaces: the Raft view of [src/src/admin_v2.rs] (the trait [AdminRaft]) and
    a connection to a node (the calls of [BackendClient] that are used).  Their
    implementations live in a world that every call may change: leadership, time
    and the answers of the node are different from one call to the next. *)
From S2P Require Import Prelude Fsutil Crypto Authority Replay Store Types StateMachine Transport AdminV2.
From S2P Require Import Protocol Admin Replicate PasswordJoin.

(** A connection, as the node sees it. *)
Abbreviation Conn := N (only parsing).

Class Clock (W : Type) := now_unix : W → N * W.

(** The trait [AdminRaft]. *)
Class AdminRaft (W : Type) := {
  is_leader : W → bool * W;
  raft_term : W → N * W;
  leader_peer : W → option string * W;
  policy_snapshot : W → PolicyState * W;
  raft_applied_index : W → option N * W;
  raft_stale : W → bool * W;
  raft_service_name : W → string;
  propose : PolicyCommand → ST W string AdminProposal;
}.

(** The calls of a connection ([BackendClient]) the sidecar makes. *)
Class BackendClient (W : Type) := {
  client_add_key : Conn → string → option string → bool → ST W SidecarError AddKeyResult;
  client_discover_providers : Conn → string → ST W SidecarError (list string);
  client_whoami : Conn → ST W SidecarError string;
  client_query_key : Conn → string → ST W SidecarError QueryKeyResult;
  (** Service, peer, payload, and the time limit in milliseconds. *)
  client_service_request_to_with_timeout : Conn → string → string → string → N → ST W SidecarError string;
}.

Definition CONTROL_TIMEOUT_MS : N := 60000.
Definition client_service_request_to {W} `{BackendClient W} (c : Conn) (service peer payload : string)
    : ST W SidecarError string :=
  client_service_request_to_with_timeout c service peer payload CONTROL_TIMEOUT_MS.

(** The default [AdminRaft::status_snapshot]. *)
Definition status_snapshot {W} `{AdminRaft W} (w : W) : RaftStatusSnapshot * W :=
  let '(leader, w) := leader_peer w in
  let '(term, w) := raft_term w in
  let '(applied, w) := raft_applied_index w in
  let '(stale, w) := raft_stale w in
  (MkRaftStatusSnapshot "" 0 leader term "" applied None [] [] stale, w).

(** ** The publisher's handle: [PublisherHandle] of [src/src/publisher.rs] *)

Record PublishStatus := MkPublishStatus {
  ps_epoch : option N; ps_ok : bool; ps_error : option string; ps_at : option N
}.
Definition PublishStatus_default : PublishStatus := MkPublishStatus None false None None.

(** The registered connections, the next id, the two pending notifications
    ([Notify] holds at most one permit) and the last attempt. *)
Record Publisher := MkPublisher {
  pb_clients : list (N * Conn); pb_next_id : N; pb_publish_notified : bool; pb_renew_notified : bool;
  pb_status : PublishStatus
}.
Definition Publisher_new : Publisher := MkPublisher [] 1 false false PublishStatus_default.

Definition set_status (p : Publisher) (s : PublishStatus) : Publisher :=
  MkPublisher (pb_clients p) (pb_next_id p) (pb_publish_notified p) (pb_renew_notified p) s.

Definition register (client : Conn) (p : Publisher) : N * Publisher :=
  (pb_next_id p,
   MkPublisher (pb_clients p ++ [(pb_next_id p, client)]) (wrap_add64 (pb_next_id p) 1) true
     (pb_renew_notified p) (pb_status p)).
Definition unregister (id : N) (p : Publisher) : Publisher :=
  MkPublisher (filter (λ c, c.1 ≠ id) (pb_clients p)) (pb_next_id p) (pb_publish_notified p)
    (pb_renew_notified p) (pb_status p).
Definition notify_publish (p : Publisher) : Publisher :=
  MkPublisher (pb_clients p) (pb_next_id p) true (pb_renew_notified p) (pb_status p).
Definition notify_renew (p : Publisher) : Publisher :=
  MkPublisher (pb_clients p) (pb_next_id p) (pb_publish_notified p) true (pb_status p).
Definition connection_count (p : Publisher) : nat := length (pb_clients p).
Definition any_client (p : Publisher) : option Conn := snd <$> head (pb_clients p).

Definition record_success (epoch now : N) (p : Publisher) : Publisher :=
  set_status p (MkPublishStatus (Some epoch) true None (Some now)).
Definition record_failure (epoch : option N) (error : string) (now : N) (p : Publisher) : Publisher :=
  let s := pb_status p in
  let last := match epoch with
              | Some epoch => Some (match ps_epoch s with Some previous => N.max previous epoch | None => epoch end)
              | None => ps_epoch s
              end in
  set_status p (MkPublishStatus last false (Some error) (Some now)).

(** ** The context *)

Section context.
Context `{Crypto}.

(** [ctx_admin_raft] says whether the Raft view is installed; the locks are not
    modelled. *)
Record AuthContext := MkAuthContext {
  ctx_authority : option Authority; ctx_authority_key_path : path; ctx_store : Store;
  ctx_admin : AdminAuth; ctx_admin_keys : AdminVerifier; ctx_join : JoinServer; ctx_replicate : RepAuth; ctx_publisher : Publisher;
  ctx_admin_raft : bool; ctx_raft_required : bool; ctx_network : string; ctx_service_name : string;
  ctx_expires_secs : N; ctx_renew_secs : N;
}.

Definition set_authority (c : AuthContext) (a : option Authority) : AuthContext :=
  MkAuthContext a (ctx_authority_key_path c) (ctx_store c) (ctx_admin c) (ctx_admin_keys c) (ctx_join c) (ctx_replicate c)
    (ctx_publisher c) (ctx_admin_raft c) (ctx_raft_required c) (ctx_network c) (ctx_service_name c)
    (ctx_expires_secs c) (ctx_renew_secs c).
Definition set_store (c : AuthContext) (s : Store) : AuthContext :=
  MkAuthContext (ctx_authority c) (ctx_authority_key_path c) s (ctx_admin c) (ctx_admin_keys c) (ctx_join c) (ctx_replicate c)
    (ctx_publisher c) (ctx_admin_raft c) (ctx_raft_required c) (ctx_network c) (ctx_service_name c)
    (ctx_expires_secs c) (ctx_renew_secs c).
Definition set_replicate (c : AuthContext) (r : RepAuth) : AuthContext :=
  MkAuthContext (ctx_authority c) (ctx_authority_key_path c) (ctx_store c) (ctx_admin c) (ctx_admin_keys c) (ctx_join c) r
    (ctx_publisher c) (ctx_admin_raft c) (ctx_raft_required c) (ctx_network c) (ctx_service_name c)
    (ctx_expires_secs c) (ctx_renew_secs c).
Definition set_publisher (c : AuthContext) (p : Publisher) : AuthContext :=
  MkAuthContext (ctx_authority c) (ctx_authority_key_path c) (ctx_store c) (ctx_admin c) (ctx_admin_keys c) (ctx_join c)
    (ctx_replicate c) p (ctx_admin_raft c) (ctx_raft_required c) (ctx_network c) (ctx_service_name c)
    (ctx_expires_secs c) (ctx_renew_secs c).

Definition set_admin_keys (c : AuthContext) (k : AdminVerifier) : AuthContext :=
  MkAuthContext (ctx_authority c) (ctx_authority_key_path c) (ctx_store c) (ctx_admin c) k (ctx_join c) (ctx_replicate c)
    (ctx_publisher c) (ctx_admin_raft c) (ctx_raft_required c) (ctx_network c) (ctx_service_name c)
    (ctx_expires_secs c) (ctx_renew_secs c).
Definition set_admin (c : AuthContext) (a : AdminAuth) : AuthContext :=
  MkAuthContext (ctx_authority c) (ctx_authority_key_path c) (ctx_store c) a (ctx_admin_keys c) (ctx_join c) (ctx_replicate c)
    (ctx_publisher c) (ctx_admin_raft c) (ctx_raft_required c) (ctx_network c) (ctx_service_name c)
    (ctx_expires_secs c) (ctx_renew_secs c).

Definition set_join (c : AuthContext) (j : JoinServer) : AuthContext :=
  MkAuthContext (ctx_authority c) (ctx_authority_key_path c) (ctx_store c) (ctx_admin c) (ctx_admin_keys c) j
    (ctx_replicate c) (ctx_publisher c) (ctx_admin_raft c) (ctx_raft_required c) (ctx_network c) (ctx_service_name c)
    (ctx_expires_secs c) (ctx_renew_secs c).

Definition has_authority_seed (c : AuthContext) : bool := bool_decide (is_Some (ctx_authority c)).

(** [AuthContext::authority]: a signer built anew from the seed in memory. *)
Definition current_authority (c : AuthContext) : option Authority :=
  a ← ctx_authority c; result_ok (from_seed (signing_key a) (ctx_network c)).
Definition authority_seed (c : AuthContext) : option string := signing_key <$> ctx_authority c.
Definition authority_public_key_b64 (c : AuthContext) : option string := public_key_b64 <$> ctx_authority c.
Definition install_authority (a : Authority) (c : AuthContext) : AuthContext := set_authority c (Some a).
Definition clear_authority (c : AuthContext) : AuthContext := set_authority c None.

(** A sidecar in its environment: the context, the disk and the world. *)
Record Node (W : Type) := MkNode { nd_ctx : AuthContext; nd_fs : Fs; nd_world : W }.
Global Arguments MkNode {_} _ _ _.
Global Arguments nd_ctx {_} _.
Global Arguments nd_fs {_} _.
Global Arguments nd_world {_} _.

Context {W : Type}.

Definition set_ctx (n : Node W) (c : AuthContext) : Node W := MkNode c (nd_fs n) (nd_world n).
Definition set_world (n : Node W) (w : W) : Node W := MkNode (nd_ctx n) (nd_fs n) w.

(** Calls on the node's parts: the context, a query of the world, a fallible call
    on the world, an operation on the locked store. *)
Definition ctx_get {E A} (f : AuthContext → A) : ST (Node W) E A := λ n, (Ok (f (nd_ctx n)), n).
Definition ctx_modify {E} (f : AuthContext → AuthContext) : ST (Node W) E unit := λ n,
  (Ok (), set_ctx n (f (nd_ctx n))).
Definition publisher_modify {E} (f : Publisher → Publisher) : ST (Node W) E unit :=
  ctx_modify (λ c, set_publisher c (f (ctx_publisher c))).
Definition ask {E A} (q : W → A * W) : ST (Node W) E A := λ n,
  let '(a, w) := q (nd_world n) in (Ok a, set_world n w).
Definition call {E A} (m : ST W E A) : ST (Node W) E A := λ n,
  let '(r, w) := m (nd_world n) in (r, set_world n w).
Definition on_store {A} (m : ST (Store * Fs) StoreError A) : ST (Node W) StoreError A := λ n,
  let '(r, (s, fs)) := m (ctx_store (nd_ctx n), nd_fs n) in
  (r, MkNode (set_store (nd_ctx n) s) fs (nd_world n)).
(** A call on the guarded part of an authenticator: password, administrator keys,
    replication. *)
Definition on_admin {E A} (m : ST AdminAuth E A) : ST (Node W) E A := λ n,
  let '(r, a) := m (ctx_admin (nd_ctx n)) in (r, set_ctx n (set_admin (nd_ctx n) a)).
Definition on_admin_keys {E A} (m : ST AdminVerifier E A) : ST (Node W) E A := λ n,
  let '(r, k) := m (ctx_admin_keys (nd_ctx n)) in (r, set_ctx n (set_admin_keys (nd_ctx n) k)).
Definition on_join {E A} (m : ST JoinServer E A) : ST (Node W) E A := λ n,
  let '(r, j) := m (ctx_join (nd_ctx n)) in (r, set_ctx n (set_join (nd_ctx n) j)).
Definition on_replicate {E A} (m : ST RepAuth E A) : ST (Node W) E A := λ n,
  let '(r, a) := m (ctx_replicate (nd_ctx n)) in (r, set_ctx n (set_replicate (nd_ctx n) a)).
End context.
