(* ===== verification/Publisher.v ===== *)
(** * Publication in the DHT: [src/src/publisher.rs]

    Whitelists first, the index last.  In cluster mode only the leader publishes,
    from the state machine; otherwise every sidecar publishes its store. *)
From S2P Require Import Prelude Fsutil Crypto Authority Replay Store StoreMerge Types StateMachine Transport.
From S2P Require Import AdminV2 Protocol Admin Replicate PasswordJoin Context.

Definition PUBLISH_ATTEMPTS : nat := 3.
Definition PUBLISH_ROUND_ATTEMPTS : nat := 3.

Inductive PublishOutcome :=
  | Published (policy_epoch : N) | NoConnections | NotLeader.
Global Instance PublishOutcome_eq_dec : EqDecision PublishOutcome.
Proof. solve_decision. Defined.

Record PublishError := MkPublishError { pe_message : string }.
Global Instance PublishError_eq_dec : EqDecision PublishError.
Proof. solve_decision. Defined.

Section publisher.
Context `{CR : Crypto, CO : Coset, CI : Codec Cbor IndexDoc, CW : Codec Cbor WhitelistDoc,
  CT : Codec Toml StoreSnapshot}.
Context {W : Type} `{WC : Clock W, WR : AdminRaft W, WB : BackendClient W}.

(** The attempts that are left and the last error; the pauses between attempts
    change nothing. *)
Fixpoint add_key_attempts (attempts : nat) (last : SidecarError) (client : Conn) (key value : string)
    : ST W SidecarError unit := λ w,
  match attempts with
  | O => (Err last, w)
  | S attempts =>
      match client_add_key client key (Some value) false w with
      | (Ok _, w) => (Ok (), w)
      | (Err e, w) => add_key_attempts attempts e client key value w
      end
  end.
Definition add_key_with_retry (client : Conn) (key value : string) : ST W SidecarError unit :=
  add_key_attempts PUBLISH_ATTEMPTS (sidecar_error "publish_failed" "no attempt made") client key value.

(** [PublisherHandle::publish]: every connection is tried, the first error is
    reported. *)
Definition publish_failure (id : N) (key : string) (e : SidecarError) : string :=
  "conn#" +:+ pretty id +:+ " " +:+ key +:+ ": [" +:+ se_code e +:+ "] " +:+ se_message e.
Fixpoint publish (clients : list (N * Conn)) (key value : string) (first_error : option string)
    : ST W PublishError unit := λ w,
  match clients with
  | [] =>
      match first_error with
      | Some message => (Err (MkPublishError message), w)
      | None => (Ok (), w)
      end
  | (id, client) :: clients =>
      match add_key_with_retry client key value w with
      | (Ok _, w) => publish clients key value first_error w
      | (Err e, w) =>
          publish clients key value
            (match first_error with None => Some (publish_failure id key e) | Some m => Some m end) w
      end
  end.

(** The signed records of the services, and their entries in the index. *)
Fixpoint sign_whitelists (a : Authority) (services : list (string * N * list string))
    : result PublishError (list (string * string) * list ServiceEntry) :=
  match services with
  | [] => Ok ([], [])
  | (name, version, members) :: services =>
      value ← map_err (λ e, MkPublishError ("whitelist sign failed for " +:+ name +:+ ": " +:+ authority_error_text e))
        (sign_whitelist a name (MkWhitelistDoc version members));
      key ← map_err (λ e, MkPublishError ("invalid service " +:+ name +:+ ": " +:+ authority_error_text e))
        (service_key a name);
      rest ← sign_whitelists a services;
      Ok ((key, value) :: rest.1, MkServiceEntry name (content_hash value) (str_len value) :: rest.2)
  end.
Fixpoint publish_pending (clients : list (N * Conn)) (pending : list (string * string)) : ST W PublishError unit :=
  match pending with
  | [] => mret ()
  | (key, value) :: pending => publish clients key value None ;; publish_pending clients pending
  end.

Definition no_seed : PublishError := MkPublishError "learner has no authority seed; refusing to publish".

Definition publish_whitelists (services : list (string * N * list string))
    : ST (Node W) PublishError (list ServiceEntry) :=
  c ← ctx_get id;
  a ← st_lift (ok_or (current_authority c) no_seed);
  se ← st_lift (sign_whitelists a services);
  call (publish_pending (pb_clients (ctx_publisher c)) se.1) ;;
  mret se.2.

Definition publish_index (index_version expires_at : N) (services : list ServiceEntry)
    : ST (Node W) PublishError unit :=
  c ← ctx_get id;
  a ← st_lift (ok_or (current_authority c) no_seed);
  bytes ← st_lift (map_err (λ e, MkPublishError ("index sign failed: " +:+ authority_error_text e))
                     (sign_index a (MkIndexDoc index_version expires_at services)));
  call (publish (pb_clients (ctx_publisher c)) (index_key a) bytes None).

Definition note_failure (epoch : option N) (error : string) : ST (Node W) PublishError unit :=
  now ← ask now_unix;
  publisher_modify (record_failure epoch error now).
Definition note_success (epoch : N) : ST (Node W) PublishError unit :=
  now ← ask now_unix;
  publisher_modify (record_success epoch now).

(** [match .. { Err(e) => { handle.record_failure(..); return Err(e) } .. }]. *)
Definition recording {A} (epoch : N) (m : ST (Node W) PublishError A) : ST (Node W) PublishError A := λ n,
  match m n with
  | (Ok a, n) => (Ok a, n)
  | (Err e, n) => (note_failure (Some epoch) (pe_message e) ;; st_err e) n
  end.
Definition fail_with {A} (epoch : N) (message : string) : ST (Node W) PublishError A :=
  note_failure (Some epoch) message ;; st_err (MkPublishError message).

Definition policy_services (s : PolicyState) : list (string * N * list string) :=
  (λ '(name, service), (name, st_version service, btree_set (st_members service))) <$> btree_entries (p_services s).

(** The renewal before publication: a proposal to the cluster. *)
Definition renew_index (state : PolicyState) (now : N) : ST (Node W) PublishError PolicyState := λ n,
  let expires_at := sat_add64 now (ctx_expires_secs (nd_ctx n)) in
  match call (E := string) (propose (RenewIndex expires_at)) n with
  | (Err e, n) => fail_with (p_policy_epoch state) ("renew_index failed: " +:+ e) n
  | (Ok _, n) => ask policy_snapshot n
  end.

Definition publish_once_raft (renew : bool) : ST (Node W) PublishError PublishOutcome :=
  c ← ctx_get id;
  if negb (ctx_admin_raft c) then st_err (MkPublishError "raft_not_ready: Raft 控制面尚未就绪")
  else
    leader ← ask is_leader;
    if negb leader then mret NotLeader
    else
      state ← ask policy_snapshot;
      now ← ask now_unix;
      state ← (if renew || (p_index_expires_at state <=? now)%N then renew_index state now else mret state);
      leader ← ask is_leader;
      if negb leader then mret NotLeader
      else
        let epoch := p_policy_epoch state in
        last ← ctx_get (λ c, ps_epoch (pb_status (ctx_publisher c)));
        if match last with Some last_epoch => (epoch <? last_epoch)%N | None => false end then
          fail_with epoch ("stale policy_epoch " +:+ pretty epoch +:+ " < last_publish_epoch "
            +:+ pretty (default 0%N last))
        else if (p_index_expires_at state =? 0)%N then
          fail_with epoch "state machine has no index expires_at"
        else
          entries ← recording epoch (publish_whitelists (policy_services state));
          leader ← ask is_leader;
          if negb leader then fail_with epoch "lost leadership before publishing index"
          else
            recording epoch (publish_index epoch (p_index_expires_at state) entries) ;;
            note_success epoch ;;
            mret (Published epoch).

Definition store_services (s : Store) : list (string * N * list string) :=
  (λ name, (name, default 1%N (version s name), default [] (members s name))) <$> service_names s.

(** The mode without a cluster; [bump_index_version] ignores a failed write. *)
Definition publish_once_store (renew : bool) : ST (Node W) PublishError PublishOutcome :=
  (if renew then st_map_err (λ e, MkPublishError (store_error_text e)) (on_store bump_index_version ;; mret ())
   else mret ()) ;;
  s ← ctx_get ctx_store;
  now ← ask now_unix;
  expires_secs ← ctx_get ctx_expires_secs;
  let expires_at := sat_add64 now expires_secs in
  entries ← publish_whitelists (store_services s);
  publish_index (s_index_version s) expires_at entries ;;
  note_success (s_index_version s) ;;
  mret (Published (s_index_version s)).

Definition publish_once (renew : bool) : ST (Node W) PublishError PublishOutcome :=
  c ← ctx_get id;
  if bool_decide (pb_clients (ctx_publisher c) = []) then mret NoConnections
  else if ctx_raft_required c then publish_once_raft renew
  else publish_once_store renew.

Definition publish_now (renew : bool) : ST (Node W) PublishError PublishOutcome := publish_once renew.

Fixpoint publish_attempts (attempts : nat) (last : PublishError) (renew : bool)
    : ST (Node W) PublishError PublishOutcome := λ n,
  match attempts with
  | O => (Err last, n)
  | S attempts =>
      match publish_once renew n with
      | (Ok outcome, n) => (Ok outcome, n)
      | (Err e, n) => publish_attempts attempts e renew n
      end
  end.
Definition publish_with_retry (renew : bool) (attempts : nat) : ST (Node W) PublishError PublishOutcome :=
  publish_attempts (attempts `max` 1) (MkPublishError "publish not attempted") renew.

(** [run_publish_round]: the error is only logged. *)
Definition run_publish_round (renew : bool) (n : Node W) : Node W :=
  (publish_with_retry renew PUBLISH_ROUND_ATTEMPTS n).2.

(** One turn of the loop of [run]: a pending notification or the renewal timer. *)
Inductive publish_event := EvPublish | EvRenew | EvTick.
Definition run_event (ev : publish_event) (n : Node W) : Node W :=
  let p := ctx_publisher (nd_ctx n) in
  match ev with
  | EvPublish =>
      run_publish_round false (set_ctx n (set_publisher (nd_ctx n)
        (MkPublisher (pb_clients p) (pb_next_id p) false (pb_renew_notified p) (pb_status p))))
  | EvRenew =>
      run_publish_round true (set_ctx n (set_publisher (nd_ctx n)
        (MkPublisher (pb_clients p) (pb_next_id p) (pb_publish_notified p) false (pb_status p))))
  | EvTick => run_publish_round true n
  end.
End publisher.
