(* ===== verification/PublisherProps.v ===== *)
(** * What publication guarantees

    The DHT is seen through the records the connections have taken, in order. *)
From S2P Require Import Prelude Fsutil Crypto Authority Replay Store StoreMerge Types StateMachine Transport.
From S2P Require Import AdminV2 Protocol Admin Replicate PasswordJoin Context Publisher.

(** A record taken by the node behind a connection. *)
Abbreviation write := (N * string * string)%type (only parsing).

(** What a node promises about the DHT: an answer with [success] means the record
    was taken, one without means it was not, and after an error (a timeout, say)
    either may be the case.  Nothing else writes on the sidecar's behalf. *)
Class DhtLaws (W : Type) `{Clock W, AdminRaft W, BackendClient W} := {
  dht_log : W → list write;
  add_key_answer c k v w r w' : client_add_key c k (Some v) false w = (Ok r, w') →
    dht_log w' = if kr_success r then dht_log w ++ [(c, k, v)] else dht_log w;
  add_key_error c k v w e w' : client_add_key c k (Some v) false w = (Err e, w') →
    dht_log w' = dht_log w ∨ dht_log w' = dht_log w ++ [(c, k, v)];
  now_unix_log w : dht_log (now_unix w).2 = dht_log w;
  is_leader_log w : dht_log (is_leader w).2 = dht_log w;
  policy_snapshot_log w : dht_log (policy_snapshot w).2 = dht_log w;
  propose_log c w : dht_log (propose c w).2 = dht_log w;
}.

(** A node that never answers a refused record with a success of the call. *)
Class NodeReports (W : Type) `{BackendClient W} : Prop :=
  add_key_success c k v w r w' : client_add_key c k (Some v) false w = (Ok r, w') → kr_success r = true.

Section publish_props.
Context `{CR : Crypto, CO : Coset, CI : Codec Cbor IndexDoc, CW : Codec Cbor WhitelistDoc,
  CT : Codec Toml StoreSnapshot}.
Context {W : Type} `{WC : Clock W, WR : AdminRaft W, WB : BackendClient W}.
Context `{DL : !DhtLaws W}.

(** A record goes to registered connections only, and to all of them when the call
    succeeds. *)
Lemma add_key_attempts_log k last c key value w r w' :
  add_key_attempts k last c key value w = (r, w') →
  ∃ ws, dht_log w' = dht_log w ++ ws ∧ Forall (λ x, x = (c, key, value)) ws
    ∧ (NodeReports W → r = Ok () → (c, key, value) ∈ ws).
Proof.
  revert last w. induction k as [|k IH]; intros last w; cbn [add_key_attempts].
  { intros [= <- <-]. exists []. rewrite app_nil_r. done. }
  destruct (client_add_key c key (Some value) false w) as [[res|e] w1] eqn:Ha.
  - intros [= <- <-]. pose proof (add_key_answer _ _ _ _ _ _ Ha) as Hl. destruct (kr_success res) eqn:Hs.
    + exists [(c, key, value)]. split_and!; [done|by constructor|set_solver].
    + exists []. rewrite app_nil_r. split_and!; [done|constructor|].
      intros Hnr _. by rewrite (add_key_success _ _ _ _ _ _ Ha) in Hs.
  - intros (ws & Hl & Hws & Hok)%IH. destruct (add_key_error _ _ _ _ _ _ Ha) as [He|He]; rewrite He in Hl.
    + exists ws. done.
    + exists ((c, key, value) :: ws). rewrite <-app_assoc in Hl. split_and!; [done|by constructor|set_solver].
Qed.

Lemma publish_log clients key value err w r w' :
  publish clients key value err w = (r, w') →
  ∃ ws, dht_log w' = dht_log w ++ ws
    ∧ Forall (λ x, ∃ c, x = (c, key, value) ∧ c ∈ clients.*2) ws
    ∧ (NodeReports W → r = Ok () → ∀ c, c ∈ clients.*2 → (c, key, value) ∈ ws)
    ∧ (r = Ok () → err = None).
Proof.
  revert err w. induction clients as [|[id c] clients IH]; intros err w; cbn [publish].
  { intros Hp. exists []. rewrite app_nil_r. destruct err; simplify_eq;
      split_and!; try done; try constructor; set_solver. }
  destruct (add_key_with_retry c key value w) as [[[]|e] w1] eqn:Ha.
  all: apply add_key_attempts_log in Ha as (ws1 & Hl1 & Hw1 & Hok1);
    intros (ws2 & Hl2 & Hw2 & Hok2 & Hn)%IH; exists (ws1 ++ ws2); rewrite Hl1, <-app_assoc in Hl2;
    split; [done|]; split; [apply Forall_app; split|].
  - eapply Forall_impl; [exact Hw1|]. simpl. intros x ->. exists c. set_solver.
  - eapply Forall_impl; [exact Hw2|]. simpl. intros x (c' & -> & ?). exists c'. set_solver.
  - split; [|done]. intros Hnr Hr c' [->|Hc']%elem_of_cons; apply elem_of_app; auto.
  - eapply Forall_impl; [exact Hw1|]. simpl. intros x ->. exists c. set_solver.
  - eapply Forall_impl; [exact Hw2|]. simpl. intros x (c' & -> & ?). exists c'. set_solver.
  - destruct err; (split; [intros _ Hr|intros Hr]; by specialize (Hn Hr)).
Qed.

Lemma publish_pending_log clients pending w r w' :
  publish_pending clients pending w = (r, w') →
  ∃ ws, dht_log w' = dht_log w ++ ws
    ∧ Forall (λ x, ∃ c kv, x = (c, kv.1, kv.2) ∧ c ∈ clients.*2 ∧ kv ∈ pending) ws
    ∧ (NodeReports W → r = Ok () → ∀ c kv, c ∈ clients.*2 → kv ∈ pending → (c, kv.1, kv.2) ∈ ws).
Proof.
  revert w. induction pending as [|[k v] pending IH]; intros w; cbn [publish_pending].
  { intros [= <- <-]. exists []. rewrite app_nil_r. split_and!; [done|constructor|set_solver]. }
  unfold mbind, ST_bind. destruct (publish clients k v None w) as [[[]|e] w1] eqn:Hp.
  - apply publish_log in Hp as (ws1 & Hl1 & Hw1 & Hok1 & _). intros (ws2 & Hl2 & Hw2 & Hok2)%IH.
    exists (ws1 ++ ws2). rewrite Hl1, <-app_assoc in Hl2. split; [done|]. split; [apply Forall_app; split|].
    + eapply Forall_impl; [exact Hw1|]. simpl. intros x (c & -> & ?). exists c, (k, v). set_solver.
    + eapply Forall_impl; [exact Hw2|]. simpl. intros x (c & kv & -> & ? & ?). exists c, kv. set_solver.
    + intros Hnr Hr c kv Hc [->|Hin]%elem_of_cons; apply elem_of_app; [left|right]; auto.
  - apply publish_log in Hp as (ws1 & Hl1 & Hw1 & _). intros [= <- <-]. exists ws1. split_and!; [done| |done].
    eapply Forall_impl; [exact Hw1|]. simpl. intros x (c & -> & ?). exists c, (k, v). set_solver.
Qed.

(** The signed whitelists: every entry of the index has its record, under its own
    key and with its digest and length. *)
Definition entry_backed (a : Authority) (pending : list (string * string)) (e : ServiceEntry) : Prop :=
  ∃ doc key value, service_key a (e_name e) = Ok key ∧ sign_whitelist a (e_name e) doc = Ok value
    ∧ e_hash e = content_hash value ∧ e_length e = str_len value ∧ (key, value) ∈ pending.

Lemma sign_whitelists_Ok a services pending entries :
  sign_whitelists a services = Ok (pending, entries) →
  Forall (entry_backed a pending) entries ∧ e_name <$> entries = (λ s, s.1.1) <$> services
  ∧ Forall (λ kv, ∃ name, service_key a name = Ok kv.1) pending.
Proof.
  revert pending entries. induction services as [|[[name v] ms] services IH]; intros pending entries;
    cbn [sign_whitelists].
  { intros [= <- <-]. split_and!; constructor. }
  intros (value & Hv%map_err_Ok & (key & Hk%map_err_Ok & ([ps es] & Hrest & [= <- <-])%bind_Ok)%bind_Ok)%bind_Ok.
  apply IH in Hrest as (Hes & Hnames & Hps). cbn [fst snd]. split_and!.
  - constructor.
    + exists (MkWhitelistDoc v ms), key, value. simpl. split_and!; try done. set_solver.
    + eapply Forall_impl; [exact Hes|]. intros e (d & k & x & ? & ? & ? & ? & ?). exists d, k, x. set_solver.
  - cbn. by rewrite Hnames.
  - constructor; [by eauto|done].
Qed.

(** Every index among the writes names only whitelists that every connection had
    taken before, each with the digest and length the index states. *)
Definition index_backed (a : Authority) (conns : list N) (ws : list write) : Prop :=
  ∀ pre c v post, ws = pre ++ (c, index_key a, v) :: post →
    ∃ doc, sign_index a doc = Ok v
      ∧ ∀ e, e ∈ ix_services doc →
          ∃ wdoc key value, service_key a (e_name e) = Ok key ∧ sign_whitelist a (e_name e) wdoc = Ok value
            ∧ e_hash e = content_hash value ∧ e_length e = str_len value
            ∧ ∀ c', c' ∈ conns → (c', key, value) ∈ pre.

Lemma service_key_not_index a name : service_key a name ≠ Ok (index_key a).
Proof.
  unfold service_key, index_key, is_valid_service_name. case_match; [done|]. bool_tests.
  intros Heq%(inj Ok). do 4 (apply string_app_inj_len in Heq as [_ Heq]; [|done]). done.
Qed.

Lemma index_backed_none a conns ws :
  Forall (λ x, ∃ name, service_key a name = Ok x.1.2) ws → index_backed a conns ws.
Proof.
  intros Hws pre c v post ->. apply Forall_app in Hws as [_ Hws]. apply Forall_cons in Hws as [[name Hk] _].
  by apply service_key_not_index in Hk.
Qed.

Lemma index_backed_app a conns ws1 ws2 pending doc bytes :
  Forall (λ x, ∃ name, service_key a name = Ok x.1.2) ws1 →
  (∀ c kv, c ∈ conns → kv ∈ pending → (c, kv.1, kv.2) ∈ ws1) →
  Forall (entry_backed a pending) (ix_services doc) → sign_index a doc = Ok bytes →
  Forall (λ x, ∃ c, x = (c, index_key a, bytes) ∧ c ∈ conns) ws2 →
  index_backed a conns (ws1 ++ ws2).
Proof.
  intros Hw1 Hall Hent Hsign Hw2 pre c v post Heq. apply app_eq_inv in Heq as [(k & -> & Heq)|(k & -> & Heq)].
  - destruct k as [|x k]; simplify_eq/=.
    + apply Forall_cons in Hw2 as [(c' & ? & _) _]. simplify_eq. exists doc. split; [done|].
      intros e He. rewrite Forall_forall in Hent. destruct (Hent e He) as (d & key & value & ? & ? & ? & ? & Hin).
      exists d, key, value. split_and!; try done. rewrite app_nil_r in Hall.
      intros c'' Hc''. by apply (Hall c'' (key, value)).
    + apply Forall_app in Hw1 as [_ Hw1]. apply Forall_cons in Hw1 as [[name Hk] _].
      by apply service_key_not_index in Hk.
  - rewrite Heq in Hw2. apply Forall_app in Hw2 as [_ Hw2]. apply Forall_cons in Hw2 as [(c' & ? & _) _]. simplify_eq.
    exists doc. split; [done|]. intros e He. rewrite Forall_forall in Hent.
    destruct (Hent e He) as (d & key & value & ? & ? & ? & ? & Hin). exists d, key, value. split_and!; try done.
    intros c'' Hc''. apply elem_of_app. left. by apply (Hall c'' (key, value)).
Qed.

(** ** Steps of a round *)

Definition conns (n : Node W) : list N := (pb_clients (ctx_publisher (nd_ctx n))).*2.

(** A step that writes nothing and keeps the connections and the signer. *)
Definition quiet (n n' : Node W) : Prop :=
  dht_log (nd_world n') = dht_log (nd_world n) ∧ conns n' = conns n
  ∧ current_authority (nd_ctx n') = current_authority (nd_ctx n).

Lemma quiet_refl n : quiet n n.
Proof. done. Qed.
Lemma quiet_trans n1 n2 n3 : quiet n1 n2 → quiet n2 n3 → quiet n1 n3.
Proof. intros (? & ? & ?) (? & ? & ?). split_and!; congruence. Qed.

Lemma ask_quiet {E A} (q : W → A * W) n r n' :
  (∀ w, dht_log (q w).2 = dht_log w) → ask (E := E) q n = (r, n') → quiet n n' ∧ is_ok r = true.
Proof.
  intros Hq. unfold ask. specialize (Hq (nd_world n)). destruct (q (nd_world n)) as [a w]. simpl in Hq.
  intros [= <- <-]. by split_and!.
Qed.

Lemma note_failure_quiet e m n r n' : note_failure e m n = (r, n') → quiet n n' ∧ r = Ok ().
Proof.
  unfold note_failure, mbind, ST_bind. destruct (ask now_unix n) as [ra n1] eqn:Ha.
  apply ask_quiet in Ha as [(? & ? & ?) Hok]; [|apply now_unix_log]. destruct ra; [|done].
  intros [= <- <-]. by split_and!.
Qed.
Lemma note_success_quiet e n r n' : note_success e n = (r, n') → quiet n n' ∧ r = Ok ().
Proof.
  unfold note_success, mbind, ST_bind. destruct (ask now_unix n) as [ra n1] eqn:Ha.
  apply ask_quiet in Ha as [(? & ? & ?) Hok]; [|apply now_unix_log]. destruct ra; [|done].
  intros [= <- <-]. by split_and!.
Qed.
Lemma fail_with_quiet {A} e m n (r : result _ A) n' : fail_with e m n = (r, n') → quiet n n' ∧ is_ok r = false.
Proof.
  unfold fail_with, mbind, ST_bind. destruct (note_failure (Some e) m n) as [ra n1] eqn:Ha.
  apply note_failure_quiet in Ha as [Hq ->]. by intros [= <- <-].
Qed.
Lemma recording_run {A} e (m : ST (Node W) PublishError A) n r n' : recording e m n = (r, n') →
  ∃ n1, m n = (r, n1) ∧ quiet n1 n'.
Proof.
  unfold recording. destruct (m n) as [[a|err] n1].
  { intros [= <- <-]. exists n1. split; [done|apply quiet_refl]. }
  unfold mbind, ST_bind. destruct (note_failure (Some e) (pe_message err) n1) as [ra n2] eqn:Ha.
  apply note_failure_quiet in Ha as [Hq ->]. intros [= <- <-]. eauto.
Qed.
Lemma renew_index_quiet state now n r n' : renew_index state now n = (r, n') → quiet n n'.
Proof.
  unfold renew_index, call.
  pose proof (propose_log (RenewIndex (sat_add64 now (ctx_expires_secs (nd_ctx n)))) (nd_world n)) as Hp.
  destruct (propose _ (nd_world n)) as [[p|e] w]; simpl in Hp.
  - intros [Hq _]%ask_quiet; [|apply policy_snapshot_log]. eapply quiet_trans; [|exact Hq]. done.
  - intros [Hq _]%fail_with_quiet. eapply quiet_trans; [|exact Hq]. done.
Qed.

Lemma maybe_renew_quiet (b : bool) state now n r n' :
  (if b then renew_index state now else mret state) n = (r, n') → quiet n n'.
Proof. destruct b; [apply renew_index_quiet|]. intros [= <- <-]. apply quiet_refl. Qed.

Lemma publish_whitelists_run services n r n' : publish_whitelists services n = (r, n') →
  nd_ctx n' = nd_ctx n ∧ ∃ ws, dht_log (nd_world n') = dht_log (nd_world n) ++ ws ∧
  match current_authority (nd_ctx n) with
  | None => ws = [] ∧ is_ok r = false
  | Some a =>
      Forall (λ x, ∃ name, service_key a name = Ok x.1.2) ws
      ∧ ∀ entries, r = Ok entries → ∃ pending, Forall (entry_backed a pending) entries
          ∧ e_name <$> entries = (λ s, s.1.1) <$> services
          ∧ (NodeReports W → ∀ c kv, c ∈ conns n → kv ∈ pending → (c, kv.1, kv.2) ∈ ws)
  end.
Proof.
  unfold publish_whitelists, mbind, ST_bind, ctx_get, st_lift. unfold id.
  destruct (current_authority (nd_ctx n)) as [a|]; simpl.
  2:{ intros [= <- <-]. split; [done|]. exists []. by rewrite app_nil_r. }
  destruct (sign_whitelists a services) as [[pending entries]|e] eqn:Hs; simpl.
  2:{ intros [= <- <-]. split; [done|]. exists []. rewrite app_nil_r. split_and!; [done|constructor|done]. }
  apply sign_whitelists_Ok in Hs as (Hes & Hnames & Hps). unfold call.
  destruct (publish_pending _ pending (nd_world n)) as [r1 w1] eqn:Hp.
  apply publish_pending_log in Hp as (ws & Hl & Hws & Hok).
  assert (Forall (λ x, ∃ name, service_key a name = Ok x.1.2) ws) as Hkeys.
  { eapply Forall_impl; [exact Hws|]. intros x (c & kv & -> & _ & Hkv). rewrite Forall_forall in Hps.
    by apply (Hps kv). }
  destruct r1 as [[]|e]; intros [= <- <-]; (split; [done|]); exists ws; split_and!; try done.
  intros ? [= <-]. exists pending. split_and!; try done. intros Hnr. by apply Hok.
Qed.

Lemma publish_index_run v exp entries n r n' : publish_index v exp entries n = (r, n') →
  nd_ctx n' = nd_ctx n ∧ ∃ ws, dht_log (nd_world n') = dht_log (nd_world n) ++ ws ∧
  match current_authority (nd_ctx n) with
  | None => ws = [] ∧ is_ok r = false
  | Some a => ∀ bytes, sign_index a (MkIndexDoc v exp entries) = Ok bytes →
      Forall (λ x, ∃ c, x = (c, index_key a, bytes) ∧ c ∈ conns n) ws
      ∧ (NodeReports W → r = Ok () → ∀ c, c ∈ conns n → (c, index_key a, bytes) ∈ ws)
  end
  ∧ (∀ a, current_authority (nd_ctx n) = Some a → is_ok (sign_index a (MkIndexDoc v exp entries)) = false →
       ws = [] ∧ is_ok r = false).
Proof.
  unfold publish_index, mbind, ST_bind, ctx_get, st_lift. unfold id.
  destruct (current_authority (nd_ctx n)) as [a|] eqn:Ha; simpl.
  2:{ intros [= <- <-]. split; [done|]. exists []. by rewrite app_nil_r. }
  destruct (sign_index a (MkIndexDoc v exp entries)) as [bytes|e] eqn:Hs; simpl.
  2:{ intros [= <- <-]. split; [done|]. exists []. rewrite app_nil_r. split_and!; try done. }
  unfold call. destruct (publish _ (index_key a) bytes None (nd_world n)) as [r1 w1] eqn:Hp.
  apply publish_log in Hp as (ws & Hl & Hws & Hok & _). intros [= <- <-]. split; [done|].
  exists ws. split_and!; [done| |].
  - intros ? [= <-]. done.
  - intros ? [= <-] Hf. by rewrite Hs in Hf.
Qed.

(** What a round leaves behind. *)
Definition round_ok (n : Node W) (r : result PublishError PublishOutcome) (n' : Node W) : Prop :=
  conns n' = conns n ∧ current_authority (nd_ctx n') = current_authority (nd_ctx n)
  ∧ ∃ ws, dht_log (nd_world n') = dht_log (nd_world n) ++ ws ∧
  match current_authority (nd_ctx n) with
  | None => ws = [] ∧ ∀ e, r ≠ Ok (Published e)
  | Some a =>
      (NodeReports W → index_backed a (conns n) ws)
      ∧ ∀ e, r = Ok (Published e) →
          ∃ doc bytes, ix_version doc = e ∧ sign_index a doc = Ok bytes
            ∧ (NodeReports W → ∀ c, c ∈ conns n → (c, index_key a, bytes) ∈ ws)
  end.

Lemma round_ok_quiet_l n n1 r n' : quiet n n1 → round_ok n1 r n' → round_ok n r n'.
Proof.
  intros (Hl & Hc & Ha) (Hc' & Ha' & ws & Hws & Hm). split; [congruence|]. split; [congruence|].
  exists ws. rewrite <-Hl. split; [done|]. by rewrite Ha, Hc in Hm.
Qed.

Lemma round_ok_nothing n r n' : quiet n n' → (∀ e, r ≠ Ok (Published e)) → round_ok n r n'.
Proof.
  intros (Hl & Hc & Ha) Hr. split; [done|]. split; [done|]. exists []. rewrite app_nil_r. split; [done|].
  case_match; [|done]. split; [intros _; apply index_backed_none; constructor|]. intros e He. by apply Hr in He.
Qed.

Lemma round_ok_whitelists services n r1 n1 r n' :
  publish_whitelists services n = (r1, n1) → quiet n1 n' → (∀ e, r ≠ Ok (Published e)) → round_ok n r n'.
Proof.
  intros (Hctx & ws & Hl & Hm)%publish_whitelists_run (Hq & Hc & Ha) Hr. unfold round_ok, conns in *. rewrite Hctx in Hc, Ha.
  split; [done|]. split; [done|]. exists ws. split; [congruence|].
  destruct (current_authority (nd_ctx n)) as [a|]; [|by destruct Hm]. destruct Hm as [Hws _].
  split; [intros _; by apply index_backed_none|]. intros e He. by apply Hr in He.
Qed.

Lemma round_ok_index services entries v exp n n1 n2 r2 n3 r n' :
  publish_whitelists services n = (Ok entries, n1) → quiet n1 n2 →
  publish_index v exp entries n2 = (r2, n3) → quiet n3 n' →
  (∀ e, r = Ok (Published e) → r2 = Ok () ∧ e = v) → round_ok n r n'.
Proof.
  intros (Hctx & ws1 & Hl1 & Hm1)%publish_whitelists_run (Hq1 & Hc1 & Ha1).
  intros (Hctx2 & ws2 & Hl2 & Hm2 & Hnosign)%publish_index_run (Hq2 & Hc2 & Ha2) Hr.
  unfold round_ok, conns in *. rewrite Hctx2 in Hc2, Ha2. rewrite Hctx in Hc1, Ha1.
  split; [congruence|]. split; [congruence|]. exists (ws1 ++ ws2). split; [rewrite Hq2, Hl2, Hq1, Hl1; by rewrite app_assoc|].
  rewrite Ha1 in Hm2, Hnosign. rewrite Hc1 in Hm2.
  destruct (current_authority (nd_ctx n)) as [a|].
  2:{ destruct Hm1 as [-> ?]. done. }
  destruct Hm1 as [Hws1 Hent]. destruct (Hent entries eq_refl) as (pending & Hback & _ & Hall).
  destruct (sign_index a (MkIndexDoc v exp entries)) as [bytes|err] eqn:Hs.
  - destruct (Hm2 bytes eq_refl) as [Hws2 Hok2]. split.
    + intros Hnr. apply (index_backed_app a _ ws1 ws2 pending (MkIndexDoc v exp entries) bytes); auto.
    + intros e [-> ->]%Hr. exists (MkIndexDoc v exp entries), bytes. split_and!; [done..|].
      intros Hnr c Hc. apply elem_of_app. right. by apply Hok2.
  - destruct (Hnosign a eq_refl) as [-> Hno]; [by rewrite Hs|]. rewrite app_nil_r. split.
    + intros _. by apply index_backed_none.
    + intros e [-> _]%Hr. done.
Qed.

Tactic Notation "ask_step" ident(H) "as" ident(n) ident(Hq) :=
  let Ha := fresh "Ha" in let e := fresh "e" in
  apply st_bind_run in H as [(? & n & Ha & H)|(e & Ha & ->)];
  apply ask_quiet in Ha as [Hq Ha];
  [clear Ha|first [apply now_unix_log|apply is_leader_log|apply policy_snapshot_log]
   |done|first [apply now_unix_log|apply is_leader_log|apply policy_snapshot_log]].

Lemma publish_once_raft_round renew n r n' : publish_once_raft renew n = (r, n') → round_ok n r n'.
Proof.
  unfold publish_once_raft. intros H. apply st_bind_run in H as [(c & n0 & [= <- <-] & H)|(e & [=] & _)].
  destruct (negb (ctx_admin_raft _)). { injection H as <- <-. apply round_ok_nothing; [apply quiet_refl|done]. }
  ask_step H as n1 Hq1. destruct (negb _). { injection H as <- <-. by apply round_ok_nothing. }
  ask_step H as n2 Hq2. ask_step H as n3 Hq3.
  apply (round_ok_quiet_l _ n3); [by eauto using quiet_trans|]. clear Hq1 Hq2 Hq3.
  apply st_bind_run in H as [(state & n4 & Hq%maybe_renew_quiet & H)|(e & Hq%maybe_renew_quiet & ->)];
    [|by apply round_ok_nothing].
  apply (round_ok_quiet_l _ n4); [done|]. clear Hq.
  ask_step H as n5 Hq. apply (round_ok_quiet_l _ n5); [done|]. clear Hq.
  destruct (negb _). { injection H as <- <-. apply round_ok_nothing; [apply quiet_refl|done]. }
  apply st_bind_run in H as [(last & n6 & [= <- <-] & H)|(e & [=] & _)].
  destruct (match ps_epoch _ with Some _ => _ | None => _ end).
  { apply fail_with_quiet in H as [Hq Hr]. apply round_ok_nothing; [done|]. by destruct r. }
  destruct (_ =? 0)%N. { apply fail_with_quiet in H as [Hq Hr]. apply round_ok_nothing; [done|]. by destruct r. }
  apply st_bind_run in H as [(entries & n6 & (n7 & Hw & Hq7)%recording_run & H)|(e & (n7 & Hw & Hq7)%recording_run & ->)].
  2:{ by eapply round_ok_whitelists. }
  ask_step H as n8 Hq8. destruct (negb _).
  { apply fail_with_quiet in H as [Hq9 Hr]. eapply round_ok_whitelists; [exact Hw|by eauto using quiet_trans|].
    by destruct r. }
  apply st_bind_run in H as [([] & n10 & (n9 & Hi & Hq9)%recording_run & H)|(e & (n9 & Hi & Hq9)%recording_run & ->)].
  2:{ by eapply round_ok_index; [exact Hw|exact (quiet_trans _ _ _ Hq7 Hq8)|exact Hi|exact Hq9|]. }
  apply st_bind_run in H as [([] & n11 & [Hq10 _]%note_success_quiet & H)|(e & [_ [=]]%note_success_quiet & _)].
  injection H as <- <-.
  eapply round_ok_index;
    [exact Hw|exact (quiet_trans _ _ _ Hq7 Hq8)|exact Hi|exact (quiet_trans _ _ _ Hq9 Hq10)|].
  by intros e [= ->].
Qed.

Lemma on_store_quiet {A} (m : ST (Store * Fs) StoreError A) n r n' : on_store m n = (r, n') → quiet n n'.
Proof. unfold on_store. destruct (m _) as [? [s fs]]. by intros [= <- <-]. Qed.

Lemma publish_once_store_round renew n r n' : publish_once_store renew n = (r, n') → round_ok n r n'.
Proof.
  unfold publish_once_store. intros H.
  assert (∀ n1 r1 n2, (if renew then st_map_err (λ e, MkPublishError (store_error_text e))
    (on_store bump_index_version ;; mret ()) else mret ()) n1 = (r1, n2) → quiet n1 n2) as Hbump.
  { intros n1 r1 n2. destruct renew; [|by intros [= <- <-]]. unfold st_map_err, mbind, ST_bind.
    destruct (on_store bump_index_version n1) as [ra na] eqn:Ho. apply on_store_quiet in Ho.
    destruct ra; by intros [= <- <-]. }
  apply st_bind_run in H as [([] & n1 & Hq%Hbump & H)|(e & Hq%Hbump & ->)]; [|by apply round_ok_nothing].
  apply (round_ok_quiet_l _ n1); [done|]. clear Hq Hbump.
  apply st_bind_run in H as [(s & n2 & [= <- <-] & H)|(e & [=] & _)]. ask_step H as n3 Hq.
  apply (round_ok_quiet_l _ n3); [done|]. clear Hq.
  apply st_bind_run in H as [(ex & n4 & [= <- <-] & H)|(e & [=] & _)].
  apply st_bind_run in H as [(entries & n4 & Hw & H)|(e & Hw & ->)];
    [|by eapply round_ok_whitelists; [exact Hw|apply quiet_refl|]].
  apply st_bind_run in H as [([] & n5 & Hi & H)|(e & Hi & ->)];
    [|by eapply round_ok_index; [exact Hw|apply quiet_refl|exact Hi|apply quiet_refl|]].
  apply st_bind_run in H as [([] & n6 & [Hq _]%note_success_quiet & H)|(e & [_ [=]]%note_success_quiet & _)].
  injection H as <- <-. eapply round_ok_index; [exact Hw|apply quiet_refl|exact Hi|exact Hq|]. by intros e [= ->].
Qed.

Lemma publish_once_round renew n r n' : publish_once renew n = (r, n') → round_ok n r n'.
Proof.
  unfold publish_once. intros H. apply st_bind_run in H as [(c & n0 & [= <- <-] & H)|(e & [=] & _)].
  case_bool_decide. { injection H as <- <-. apply round_ok_nothing; [apply quiet_refl|done]. }
  destruct (ctx_raft_required _); [by eapply publish_once_raft_round|by eapply publish_once_store_round].
Qed.

(** A run of the publisher's loop. *)
Definition run_events (evs : list publish_event) (n : Node W) : Node W := foldl (λ n ev, run_event ev n) n evs.

Lemma index_backed_more a cs l ws : index_backed a cs l → index_backed a cs ws → index_backed a cs (l ++ ws).
Proof.
  intros Hl Hws pre c v post Heq. apply app_eq_inv in Heq as [(k & -> & Heq)|(k & -> & Heq)].
  - destruct k as [|x k]; simplify_eq/=.
    + destruct (Hws [] c v post eq_refl) as (doc & Hd & He). exists doc. split; [done|]. intros e Hin.
      destruct (He e Hin) as (wd & key & value & ? & ? & ? & ? & Hc). exists wd, key, value. split_and!; try done.
      intros c' Hc'. by apply Hc, elem_of_nil in Hc'.
    + by destruct (Hl pre c v k eq_refl) as (doc & Hd & He); eauto.
  - destruct (Hws k c v post Heq) as (doc & Hd & He). exists doc. split; [done|]. intros e Hin.
    destruct (He e Hin) as (wd & key & value & ? & ? & ? & ? & Hc). exists wd, key, value. split_and!; try done.
    intros c' Hc'. apply elem_of_app. right. by apply Hc.
Qed.

(** The invariant of the loop. *)
Definition loop_ok (a : Authority) (cs : list N) (n : Node W) : Prop :=
  conns n = cs ∧ current_authority (nd_ctx n) = Some a ∧ index_backed a cs (dht_log (nd_world n)).

Lemma publish_once_loop_ok a cs renew n r n' :
  NodeReports W → loop_ok a cs n → publish_once renew n = (r, n') → loop_ok a cs n'.
Proof.
  intros Hnr (Hc & Ha & Hb) (Hc' & Ha' & ws & Hl & Hm)%publish_once_round. rewrite Ha in Hm. destruct Hm as [Hws _].
  rewrite <-Hc in *. split; [done|]. split; [congruence|]. rewrite Hl. apply index_backed_more; auto.
Qed.

Lemma publish_attempts_loop_ok a cs k last renew n r n' :
  NodeReports W → loop_ok a cs n → publish_attempts k last renew n = (r, n') → loop_ok a cs n'.
Proof.
  intros Hnr. revert last n. induction k as [|k IH]; intros last n Hn; cbn [publish_attempts].
  { by intros [= <- <-]. }
  destruct (publish_once renew n) as [[o|e] n1] eqn:Hp; eapply publish_once_loop_ok in Hp; eauto.
  by intros [= <- <-].
Qed.

Lemma run_event_loop_ok a cs ev n : NodeReports W → loop_ok a cs n → loop_ok a cs (run_event ev n).
Proof.
  intros Hnr Hn. unfold run_event, run_publish_round, publish_with_retry.
  destruct ev; (match goal with |- loop_ok _ _ (publish_attempts ?k ?l ?r ?n).2 =>
    destruct (publish_attempts k l r n) as [o n1] eqn:Hp end); by eapply publish_attempts_loop_ok in Hp.
Qed.

(** No reader of the DHT finds an index whose whitelists are not there.
    However many rounds the publisher runs, for whatever reason (a change, a
    renewal, the timer), with whatever failures, retries, timeouts and changes of
    leadership in between: whenever a connection took an index, every whitelist the
    index names had been taken before by every connection, with the digest and the
    length the index states. *)
Theorem index_after_whitelists a evs n :
  NodeReports W → current_authority (nd_ctx n) = Some a →
  index_backed a (conns n) (dht_log (nd_world n)) →
  index_backed a (conns n) (dht_log (nd_world (run_events evs n))).
Proof.
  intros Hnr Ha Hb. assert (loop_ok a (conns n) n) as Hn by done. clear Ha Hb. revert Hn.
  generalize (conns n) as cs. intros cs Hn. unfold run_events.
  assert (loop_ok a cs (foldl (λ n ev, run_event ev n) n evs)) as (_ & _ & ?); [|done].
  revert n Hn. induction evs as [|ev evs IH]; intros n Hn; [done|]. simpl. by apply IH, run_event_loop_ok.
Qed.

(** A round that reports success has published.  Every connection then has an
    index with the reported version, signed by the node's authority; a node without
    the seed never reports success and writes nothing. *)
Theorem published_is_visible renew n e n' :
  NodeReports W → publish_once renew n = (Ok (Published e), n') →
  ∃ a doc bytes ws, current_authority (nd_ctx n) = Some a ∧ ix_version doc = e ∧ sign_index a doc = Ok bytes
    ∧ dht_log (nd_world n') = dht_log (nd_world n) ++ ws
    ∧ (∀ c, c ∈ conns n → (c, index_key a, bytes) ∈ ws) ∧ index_backed a (conns n) ws.
Proof.
  intros Hnr (_ & _ & ws & Hl & Hm)%publish_once_round. destruct (current_authority (nd_ctx n)) as [a|].
  - destruct Hm as [Hb Hp]. destruct (Hp e eq_refl) as (doc & bytes & Hv & Hs & Hall).
    exists a, doc, bytes, ws. split_and!; auto.
  - by destruct Hm as [_ Hm]; destruct (Hm e).
Qed.

(** ** The published epoch *)

Definition last_epoch (n : Node W) : option N := ps_epoch (pb_status (ctx_publisher (nd_ctx n))).
Definition epoch_le (o1 o2 : option N) : Prop :=
  match o1, o2 with None, _ => True | Some a, Some b => (a ≤ b)%N | Some _, None => False end.

Lemma epoch_le_refl o : epoch_le o o.
Proof. by destruct o; simpl. Qed.
Lemma epoch_le_trans o1 o2 o3 : epoch_le o1 o2 → epoch_le o2 o3 → epoch_le o1 o3.
Proof. destruct o1, o2, o3; simpl; try done; lia. Qed.

Lemma ask_ctx {E A} (q : W → A * W) n r n' : ask (E := E) q n = (r, n') → nd_ctx n' = nd_ctx n.
Proof. unfold ask. destruct (q (nd_world n)). by intros [= <- <-]. Qed.
Lemma note_failure_epoch e m n r n' : note_failure (Some e) m n = (r, n') → epoch_le (last_epoch n) (last_epoch n').
Proof.
  unfold note_failure. intros [(now & n1 & Ha%ask_ctx & [= <- <-])|(? & Ha & ->)]%st_bind_run.
  - unfold last_epoch, ctx_modify. simpl. rewrite Ha. destruct (ps_epoch _); simpl; [lia|done].
  - apply ask_ctx in Ha. unfold last_epoch. rewrite Ha. apply epoch_le_refl.
Qed.
Lemma fail_with_epoch {A} e m n (r : result _ A) n' :
  fail_with e m n = (r, n') → epoch_le (last_epoch n) (last_epoch n') ∧ is_ok r = false.
Proof.
  unfold fail_with. intros [([] & n1 & Hn%note_failure_epoch & [= <- <-])|(? & Hn%note_failure_epoch & ->)]%st_bind_run;
    done.
Qed.
Lemma recording_epoch {A} e (m : ST (Node W) PublishError A) n r n' :
  (∀ n r n', m n = (r, n') → nd_ctx n' = nd_ctx n) → recording e m n = (r, n') →
  epoch_le (last_epoch n) (last_epoch n') ∧ (is_ok r = true → last_epoch n' = last_epoch n).
Proof.
  intros Hm. unfold recording. destruct (m n) as [[a|err] n1] eqn:Hr; apply Hm in Hr.
  - intros [= <- <-]. unfold last_epoch. rewrite Hr. split; [apply epoch_le_refl|done].
  - assert (last_epoch n = last_epoch n1) as -> by (unfold last_epoch; by rewrite Hr).
    intros [([] & n2 & Hn%note_failure_epoch & [= <- <-])|(? & Hn%note_failure_epoch & ->)]%st_bind_run; done.
Qed.
Lemma maybe_renew_epoch (b : bool) state now n r n' :
  (if b then renew_index state now else mret state) n = (r, n') → epoch_le (last_epoch n) (last_epoch n').
Proof.
  destruct b; [|intros [= <- <-]; apply epoch_le_refl]. unfold renew_index.
  destruct (call (E := string) _ n) as [[p|e] n1] eqn:Hc.
  all: assert (last_epoch n = last_epoch n1) as -> by
    (revert Hc; unfold call; destruct (propose _ _); by intros [= _ <-]).
  - intros Ha%ask_ctx. unfold last_epoch. rewrite Ha. apply epoch_le_refl.
  - by intros [? _]%fail_with_epoch.
Qed.

Definition epoch_ok (n : Node W) (r : result PublishError PublishOutcome) (n' : Node W) : Prop :=
  epoch_le (last_epoch n) (last_epoch n')
  ∧ ∀ e, r = Ok (Published e) → epoch_le (last_epoch n) (Some e) ∧ last_epoch n' = Some e.

Lemma epoch_ok_after n n1 r n' : epoch_le (last_epoch n) (last_epoch n1) → epoch_ok n1 r n' → epoch_ok n r n'.
Proof.
  intros Hle [Hle' Hp]. split; [by eapply epoch_le_trans|]. intros e [? ?]%Hp. split; [by eapply epoch_le_trans|done].
Qed.
Lemma epoch_ok_stop n r n' :
  epoch_le (last_epoch n) (last_epoch n') → (∀ e, r ≠ Ok (Published e)) → epoch_ok n r n'.
Proof. intros Hle Hr. split; [done|]. intros e He. by apply Hr in He. Qed.
Lemma ask_epoch {E A} (q : W → A * W) n r n' : ask (E := E) q n = (r, n') → last_epoch n' = last_epoch n ∧ is_ok r = true.
Proof. intros Ha. split; [apply ask_ctx in Ha; unfold last_epoch; by rewrite Ha|]. revert Ha. unfold ask. case_match. by intros [= <- _]. Qed.

Tactic Notation "ask_last" ident(H) "as" ident(n) ident(He) :=
  let Hok := fresh "Hok" in let e := fresh "e" in
  apply st_bind_run in H as [(? & n & [He Hok]%ask_epoch & H)|(e & [He Hok]%ask_epoch & ->)];
  [clear Hok|done].

Lemma publish_ctx services n r n' : publish_whitelists services n = (r, n') → nd_ctx n' = nd_ctx n.
Proof. by intros [? _]%publish_whitelists_run. Qed.
Lemma publish_index_ctx v exp entries n r n' : publish_index v exp entries n = (r, n') → nd_ctx n' = nd_ctx n.
Proof. by intros [? _]%publish_index_run. Qed.

Lemma publish_once_raft_epoch renew n r n' : publish_once_raft renew n = (r, n') → epoch_ok n r n'.
Proof.
  unfold publish_once_raft. intros H. apply st_bind_run in H as [(c & n0 & [= <- <-] & H)|(e & [=] & _)].
  destruct (negb (ctx_admin_raft _)). { injection H as <- <-. apply epoch_ok_stop; [apply epoch_le_refl|done]. }
  ask_last H as n1 He1. apply (epoch_ok_after _ n1); [rewrite He1; apply epoch_le_refl|].
  destruct (negb _). { injection H as <- <-. apply epoch_ok_stop; [apply epoch_le_refl|done]. }
  ask_last H as n2 He2. ask_last H as n3 He3. rewrite He2 in He3.
  apply (epoch_ok_after _ n3); [rewrite He3; apply epoch_le_refl|].
  apply st_bind_run in H as [(state & n4 & He4%maybe_renew_epoch & H)|(e & He4%maybe_renew_epoch & ->)];
    [|by apply epoch_ok_stop].
  apply (epoch_ok_after _ n4); [done|]. ask_last H as n5 He5.
  apply (epoch_ok_after _ n5); [rewrite He5; apply epoch_le_refl|].
  destruct (negb _). { injection H as <- <-. apply epoch_ok_stop; [apply epoch_le_refl|done]. }
  apply st_bind_run in H as [(last & n6 & [= <- <-] & H)|(e & [=] & _)]. fold (last_epoch n5) in H.
  destruct (match last_epoch n5 with Some _ => _ | None => _ end) eqn:Hstale.
  { apply fail_with_epoch in H as [He Hr]. apply epoch_ok_stop; [done|]. by destruct r. }
  assert (epoch_le (last_epoch n5) (Some (p_policy_epoch state))) as Hfresh.
  { destruct (last_epoch n5); simpl; [by apply N.ltb_ge|done]. }
  destruct (_ =? 0)%N. { apply fail_with_epoch in H as [He Hr]. apply epoch_ok_stop; [done|]. by destruct r. }
  apply st_bind_run in H as [(entries & n6 & [_ Hw]%recording_epoch & H)|(e & [Hw _]%recording_epoch & ->)];
    try apply publish_ctx; [|by apply epoch_ok_stop].
  ask_last H as n7 He7. rewrite Hw in He7 by done.
  destruct (negb _).
  { apply fail_with_epoch in H as [He Hr]. apply epoch_ok_stop; [by rewrite He7 in He|]. by destruct r. }
  apply st_bind_run in H as [([] & n8 & [_ Hi]%recording_epoch & H)|(e & [Hi _]%recording_epoch & ->)];
    try apply publish_index_ctx; [|apply epoch_ok_stop; [by rewrite He7 in Hi|done]].
  rewrite He7 in Hi. unfold note_success in H.
  apply st_bind_run in H as [([] & n9 & Hn & [= <- <-])|(e & Hn & ->)].
  - apply st_bind_run in Hn as [(now & n10 & _ & [= <-])|(e & _ & [=])]. split; [exact Hfresh|].
    intros e [= <-]. done.
  - apply st_bind_run in Hn as [(now & n10 & _ & [=])|(e' & [_ [=]]%ask_epoch & _)].
Qed.

(** In cluster mode the published version never goes back.  Every round leaves
    the last published epoch as it was or raises it, also when it fails; and a
    round that publishes does so with an epoch at least as high as any this node
    has published or tried to publish, and records it. *)
Theorem published_epoch_monotone renew n r n' :
  ctx_raft_required (nd_ctx n) = true → publish_once renew n = (r, n') →
  epoch_le (last_epoch n) (last_epoch n')
  ∧ ∀ e, r = Ok (Published e) → epoch_le (last_epoch n) (Some e) ∧ last_epoch n' = Some e.
Proof.
  intros Hreq. unfold publish_once. intros H. apply st_bind_run in H as [(c & n0 & [= <- <-] & H)|(e & [=] & _)].
  case_bool_decide. { injection H as <- <-. split; [apply epoch_le_refl|done]. }
  unfold id in H. rewrite Hreq in H. by apply publish_once_raft_epoch in H.
Qed.

(** A record the node refuses counts as published.  [add_key_with_retry] looks
    at whether the call was answered, not at the [success] of the answer: if every
    answer says that the record was not taken, [publish] succeeds and nothing was
    written. *)
Theorem refused_record_counts_as_published clients key value w :
  (∀ c k v w, ∃ r w', client_add_key c k v false w = (Ok r, w') ∧ kr_success r = false) →
  ∃ w', publish clients key value None w = (Ok (), w') ∧ dht_log w' = dht_log w.
Proof.
  intros Hrefuse. revert w. induction clients as [|[id c] clients IH]; intros w; [by exists w|].
  cbn [publish add_key_with_retry]. unfold add_key_with_retry, PUBLISH_ATTEMPTS. cbn [add_key_attempts].
  destruct (Hrefuse c key (Some value) w) as (r & w1 & Ha & Hs). rewrite Ha.
  apply add_key_answer in Ha. rewrite Hs in Ha. destruct (IH w1) as (w2 & Hp & Hl). exists w2.
  split; [done|congruence].
Qed.
End publish_props.

(** ** Examples

    A simulated environment: a schedule says how the node answers each [add_key]
    (takes the record, refuses it, or fails after taking it or not) and whether the
    node is the leader each time it is asked. *)

Inductive answer := Taken | Refused | Failed (applied : bool).

Record Sim := MkSim {
  sim_log : list write; sim_answers : list answer; sim_leader : list bool; sim_policy : PolicyState;
  sim_index : N; sim_time : N
}.

Section sim.
Context `{Crypto}.

Definition sim_add_key (honest : bool) (c : N) (k : string) (v : option string) (p : bool) : ST Sim SidecarError AddKeyResult := λ w,
  let '(ans, rest) := match sim_answers w with [] => (Taken, []) | x :: l => (x, l) end in
  let log (b : bool) := if b then sim_log w ++ [(c, k, default "" v)] else sim_log w in
  let next l := MkSim l rest (sim_leader w) (sim_policy w) (sim_index w) (sim_time w) in
  match ans with
  | Taken => (Ok (MkAddKeyResult true k), next (log true))
  | Refused =>
      (if honest then Err (sidecar_error "refused" "record refused") else Ok (MkAddKeyResult false k),
       next (log false))
  | Failed b => (Err (sidecar_error "timeout" "no answer"), next (log b))
  end.

#[local] Instance sim_clock : Clock Sim := λ w,
  (sim_time w, MkSim (sim_log w) (sim_answers w) (sim_leader w) (sim_policy w) (sim_index w) (sim_time w + 1)).
#[local] Instance sim_raft : AdminRaft Sim := {|
  is_leader w := (match sim_leader w with [] => true | b :: _ => b end,
    MkSim (sim_log w) (sim_answers w) (tail (sim_leader w)) (sim_policy w) (sim_index w) (sim_time w));
  raft_term w := (1%N, w);
  leader_peer w := (None, w);
  policy_snapshot w := (sim_policy w, w);
  raft_applied_index w := (Some (sim_index w), w);
  raft_stale w := (false, w);
  raft_service_name w := "auth";
  propose c w :=
    let i := (sim_index w + 1)%N in
    let '(res, p) := apply_command_at c i (sim_policy w) in
    (Ok (MkAdminProposal res i), MkSim (sim_log w) (sim_answers w) (sim_leader w) p i (sim_time w));
|}.
Definition sim_client (honest : bool) : BackendClient Sim := {|
  client_add_key := sim_add_key honest;
  client_discover_providers _ _ w := (Ok [], w);
  client_whoami _ w := (Ok "me", w);
  client_query_key _ _ w := (Err (sidecar_error "timeout" "no answer"), w);
  client_service_request_to_with_timeout _ _ _ _ _ w := (Err (sidecar_error "timeout" "no answer"), w);
|}.

Definition sim_laws (honest : bool) : @DhtLaws Sim _ _ (sim_client honest).
Proof.
  refine {| dht_log := sim_log |}; try done.
  - intros c k v w r w'. simpl. unfold sim_add_key. destruct honest; repeat case_match; intros [= <- <-]; done.
  - intros c k v w e w'. simpl. unfold sim_add_key. destruct honest; repeat case_match; intros [= <- <-]; simpl; auto.
  - intros c w. simpl. by destruct (apply_command_at _ _ _).
Defined.

Lemma sim_reports : @NodeReports Sim (sim_client true).
Proof. intros c k v w r w'. simpl. unfold sim_add_key. repeat case_match; by intros [= <- <-]. Qed.
End sim.

Section publish_examples.
Import Toy.
#[local] Existing Instance toy_coset.
#[local] Existing Instance sim_clock.
#[local] Existing Instance sim_raft.

Definition ex_seed : string := pad 32 "seed".
Definition ex_policy : PolicyState :=
  (apply_command_at (RenewIndex 5000) 1
    (apply_command_at (CreateService "svc" ["p1"; "p2"]) 1 (PolicyState_new "net")).2).2.
Definition ex_node (raft : bool) (answers : list answer) : Node Sim :=
  MkNode
    (MkAuthContext (Some (MkAuthority ex_seed "net" (net_hash "net"))) ["key"]
       (MkStore ["state"] "net" 4 {["svc" := MkServiceState 2 {["p1"]}]} ∅)
       (MkAdminAuth "" ReplayGuard_default) AdminVerifier_default (join_server_new "" false) (MkRepAuth "" ReplayGuard_default)
       (MkPublisher [(1%N, 7%N); (2%N, 8%N)] 3 false false PublishStatus_default)
       raft raft "net" "auth" 3600 1800)
    (MkFs ∅ ∅ 0 []) (MkSim [] answers [] ex_policy 2 1000).

Lemma index_after_whitelists_witness :
  let n := ex_node true [Taken; Failed true; Taken; Failed false] in
  ∃ a, current_authority (nd_ctx n) = Some a
    ∧ length (sim_log (nd_world (run_events (WB := sim_client true) [EvPublish; EvTick] n))) = 9
    ∧ index_backed a (conns n) (sim_log (nd_world (run_events (WB := sim_client true) [EvPublish; EvTick] n))).
Proof.
  intros n. destruct (current_authority (nd_ctx n)) as [a|] eqn:Ha; [|vm_compute in Ha; discriminate].
  exists a. split; [reflexivity|]. split; [vm_compute; reflexivity|].
  apply (index_after_whitelists (DL := sim_laws true) a [EvPublish; EvTick] n sim_reports Ha).
  intros pre c v post Heq. destruct pre; discriminate Heq.
Defined.

Definition epoch_of (r : result PublishError PublishOutcome) : option N :=
  match r with Ok (Published e) => Some e | _ => None end.
Lemma epoch_of_Some r e : epoch_of r = Some e → r = Ok (Published e).
Proof. destruct r as [[]|]; by intros [= ->]. Qed.

Lemma published_is_visible_witness :
  ∃ e n', publish_once (WB := sim_client true) true (ex_node false []) = (Ok (Published e), n')
    ∧ ∃ bytes, (7%N, index_key (MkAuthority ex_seed "net" (net_hash "net")), bytes) ∈ sim_log (nd_world n').
Proof.
  assert (epoch_of (publish_once (WB := sim_client true) true (ex_node false [])).1 = Some 5%N) as He
    by (vm_compute; reflexivity).
  destruct (publish_once (WB := sim_client true) true (ex_node false [])) as [r n'] eqn:E.
  apply epoch_of_Some in He. simpl in He. subst r. exists 5%N, n'. split; [reflexivity|].
  destruct (published_is_visible (DL := sim_laws true) true (ex_node false []) 5 n' sim_reports E)
    as (a & doc & bytes & ws & Ha & _ & _ & Hl & Hall & _).
  vm_compute in Ha. injection Ha as <-. exists bytes. simpl in Hl. rewrite Hl. apply Hall. constructor.
Defined.

Lemma published_epoch_monotone_witness :
  ∃ e n', publish_once (WB := sim_client true) false (ex_node true []) = (Ok (Published e), n')
    ∧ last_epoch n' = Some e.
Proof.
  assert (epoch_of (publish_once (WB := sim_client true) false (ex_node true [])).1 = Some 3%N) as He
    by (vm_compute; reflexivity).
  destruct (publish_once (WB := sim_client true) false (ex_node true [])) as [r n'] eqn:E.
  apply epoch_of_Some in He. simpl in He. subst r. exists 3%N, n'. split; [reflexivity|].
  destruct (published_epoch_monotone (DL := sim_laws true) false (ex_node true []) _ n' eq_refl E) as [_ Hp].
  apply (Hp 3%N eq_refl).
Defined.

(** A node that refuses every record. *)
Definition refuse_client : BackendClient Sim := {|
  client_add_key _ k _ _ w := (Ok (MkAddKeyResult false k), w);
  client_discover_providers _ _ w := (Ok [], w);
  client_whoami _ w := (Ok "me", w);
  client_query_key _ _ w := (Err (sidecar_error "timeout" "no answer"), w);
  client_service_request_to_with_timeout _ _ _ _ _ w := (Err (sidecar_error "timeout" "no answer"), w);
|}.
Definition refuse_laws : @DhtLaws Sim _ _ refuse_client.
Proof.
  refine {| dht_log := sim_log |}; try done.
  - intros c k v w r w'. simpl. by intros [= <- <-].
  - intros c w. simpl. by destruct (apply_command_at _ _ _).
Defined.

Lemma refused_record_counts_as_published_witness :
  ∃ w', publish (WB := refuse_client) [(1%N, 7%N)] "key" "value" None (nd_world (ex_node true [])) = (Ok (), w')
    ∧ sim_log w' = [].
Proof.
  apply (refused_record_counts_as_published (WB := refuse_client) (DL := refuse_laws)).
  intros c k v w. exists (MkAddKeyResult false k), w. split; reflexivity.
Defined.
End publish_examples.
