(* ===== verification/PublishTurns.v ===== *)
(** * The publisher among other tasks: [src/src/publisher.rs]

    A round of publication waits for the cluster and for every connection; while it
    waits, connections come and go, requests of an administrator start rounds of
    their own and wait for the lock, and the loop of [run] is notified.  The rounds
    of [Publisher] are taken apart into turns here, and the tasks are put together
    with the lock, the loop and its timer. *)
From S2P Require Import Prelude Turns Fsutil Crypto Authority Replay Store StoreMerge Types StateMachine Transport.
From S2P Require Import AdminV2 Protocol Admin Replicate PasswordJoin Context Publisher.

Section publish_turns.
Context `{CR : Crypto, CO : Coset, CI : Codec Cbor IndexDoc, CW : Codec Cbor WhitelistDoc,
  CT : Codec Toml StoreSnapshot}.
Context {W : Type} `{WC : Clock W, WR : AdminRaft W, WB : BackendClient W}.

Abbreviation TURNS A := (Turns (Node W) PublishError A) (only parsing).

(** ** A round, in turns *)

(** Each attempt is a call of the connection. *)
Fixpoint add_key_turns (attempts : nat) (last : SidecarError) (client : Conn) (key value : string)
    : Turns (Node W) SidecarError unit :=
  match attempts with
  | O => Done (Err last)
  | S attempts =>
      andthen (turn (call (client_add_key client key (Some value) false))) (λ r,
        match r with
        | Ok _ => Done (Ok ())
        | Err e => add_key_turns attempts e client key value
        end)
  end.
(** The connections are those there were when the record was taken up. *)
Fixpoint publish_to (clients : list (N * Conn)) (key value : string) (first_error : option string) : TURNS unit :=
  match clients with
  | [] => Done match first_error with Some message => Err (MkPublishError message) | None => Ok () end
  | (id, client) :: clients =>
      andthen (add_key_turns PUBLISH_ATTEMPTS (sidecar_error "publish_failed" "no attempt made") client key value) (λ r,
        publish_to clients key value
          match r, first_error with Err e, None => Some (publish_failure id key e) | _, m => m end)
  end.
Definition publish_turns (key value : string) : TURNS unit :=
  clients ← turn (ctx_get (λ c, pb_clients (ctx_publisher c)));
  publish_to clients key value None.
Fixpoint pending_turns (pending : list (string * string)) : TURNS unit :=
  match pending with
  | [] => mret ()
  | (key, value) :: pending => publish_turns key value ;; pending_turns pending
  end.

(** The records are signed before the first one is sent. *)
Definition signed_whitelists (services : list (string * N * list string))
    : ST (Node W) PublishError (list (string * string) * list ServiceEntry) :=
  c ← ctx_get id;
  a ← st_lift (ok_or (current_authority c) no_seed);
  st_lift (sign_whitelists a services).
Definition whitelists_turns (services : list (string * N * list string)) : TURNS (list ServiceEntry) :=
  se ← turn (signed_whitelists services);
  pending_turns se.1 ;;
  mret se.2.
Definition signed_index (index_version expires_at : N) (services : list ServiceEntry)
    : ST (Node W) PublishError (string * string) :=
  c ← ctx_get id;
  a ← st_lift (ok_or (current_authority c) no_seed);
  bytes ← st_lift (map_err (λ e, MkPublishError ("index sign failed: " +:+ authority_error_text e))
                     (sign_index a (MkIndexDoc index_version expires_at services)));
  mret (index_key a, bytes).
Definition index_turns (index_version expires_at : N) (services : list ServiceEntry) : TURNS unit :=
  kv ← turn (signed_index index_version expires_at services);
  publish_turns kv.1 kv.2.

Definition recording_turns {A} (epoch : N) (t : TURNS A) : TURNS A :=
  andthen t (λ r, match r with
                  | Ok a => Done (Ok a)
                  | Err e => turn (note_failure (Some epoch) (pe_message e)) ;; Done (Err e)
                  end).
Definition renew_turns (state : PolicyState) (now : N) : TURNS PolicyState :=
  expires_secs ← turn (ctx_get ctx_expires_secs);
  andthen (turn (call (E := string) (propose (RenewIndex (sat_add64 now expires_secs))))) (λ r,
    match r with
    | Err e => turn (fail_with (p_policy_epoch state) ("renew_index failed: " +:+ e))
    | Ok _ => turn (ask policy_snapshot)
    end).
Definition stale_epoch (epoch : N) (last : option N) : bool :=
  match last with Some last_epoch => (epoch <? last_epoch)%N | None => false end.

Definition raft_turns (renew : bool) : TURNS PublishOutcome :=
  installed ← turn (ctx_get ctx_admin_raft);
  if negb installed then Done (Err (MkPublishError "raft_not_ready: Raft 控制面尚未就绪"))
  else
    leader ← turn (ask is_leader);
    if negb leader then mret NotLeader
    else
      state ← turn (ask policy_snapshot);
      now ← turn (ask now_unix);
      state ← (if renew || (p_index_expires_at state <=? now)%N then renew_turns state now else mret state);
      leader ← turn (ask is_leader);
      if negb leader then mret NotLeader
      else
        let epoch := p_policy_epoch state in
        last ← turn (ctx_get (λ c, ps_epoch (pb_status (ctx_publisher c))));
        if stale_epoch epoch last then
          turn (fail_with epoch ("stale policy_epoch " +:+ pretty epoch +:+ " < last_publish_epoch "
            +:+ pretty (default 0%N last)))
        else if (p_index_expires_at state =? 0)%N then turn (fail_with epoch "state machine has no index expires_at")
        else
          entries ← recording_turns epoch (whitelists_turns (policy_services state));
          leader ← turn (ask is_leader);
          if negb leader then turn (fail_with epoch "lost leadership before publishing index")
          else
            recording_turns epoch (index_turns epoch (p_index_expires_at state) entries) ;;
            turn (note_success epoch) ;;
            mret (Published epoch).

Definition bump_turn : ST (Node W) PublishError unit :=
  st_map_err (λ e, MkPublishError (store_error_text e)) (on_store bump_index_version ;; mret ()).
Definition store_turns (renew : bool) : TURNS PublishOutcome :=
  (if renew then turn bump_turn else mret ()) ;;
  s ← turn (ctx_get ctx_store);
  now ← turn (ask now_unix);
  expires_secs ← turn (ctx_get ctx_expires_secs);
  let expires_at := sat_add64 now expires_secs in
  entries ← whitelists_turns (store_services s);
  index_turns (s_index_version s) expires_at entries ;;
  turn (note_success (s_index_version s)) ;;
  mret (Published (s_index_version s)).

(** [publish_once] once it has the lock. *)
Definition round_turns (renew : bool) : TURNS PublishOutcome :=
  clients ← turn (ctx_get (λ c, pb_clients (ctx_publisher c)));
  if bool_decide (clients = []) then mret NoConnections
  else
    clustered ← turn (ctx_get ctx_raft_required);
    if clustered : bool then raft_turns renew else store_turns renew.

(** ** The tasks *)

Inductive Task := Loop | Caller (k : nat).
#[global] Instance Task_eq_dec : EqDecision Task.
Proof. solve_decision. Defined.
(** The place of the loop of [run]: in its [select!], in a round (with the attempts
    that are left after this one, and waiting for the lock or with it), at its end. *)
Inductive Running := WaitsForLock | HasLock (t : TURNS PublishOutcome).
Inductive LoopAt :=
  | AtSelect
  | AtRound (renew : bool) (again : nat) (r : Running)
  | AtEnd.
(** A call of [publish_now]. *)
Inductive CallAt := CallRound (renew : bool) (r : Running) | CallReturned (r : result PublishError PublishOutcome).

(** The node, the loop, the calls, who has the publish lock, whether the timer has
    gone off since it was last taken, whether a shutdown has been announced.
    [bs_steady] is not in the code: the connections that were there when the round
    under the lock began and have not gone since. *)
Record Bureau := MkBureau {
  bs_node : Node W; bs_loop : LoopAt; bs_calls : list CallAt; bs_lock : option Task; bs_tick : bool; bs_shutdown : bool;
  bs_steady : list (N * Conn)
}.
Definition Bureau_start (n : Node W) : Bureau := MkBureau n AtSelect [] None false false [].

Definition with_node (n : Node W) (s : Bureau) : Bureau :=
  MkBureau n (bs_loop s) (bs_calls s) (bs_lock s) (bs_tick s) (bs_shutdown s) (bs_steady s).
Definition with_loop (l : LoopAt) (s : Bureau) : Bureau :=
  MkBureau (bs_node s) l (bs_calls s) (bs_lock s) (bs_tick s) (bs_shutdown s) (bs_steady s).
Definition with_call (k : nat) (c : CallAt) (s : Bureau) : Bureau :=
  MkBureau (bs_node s) (bs_loop s) (<[k := c]> (bs_calls s)) (bs_lock s) (bs_tick s) (bs_shutdown s) (bs_steady s).
Definition with_lock (o : option Task) (s : Bureau) : Bureau :=
  MkBureau (bs_node s) (bs_loop s) (bs_calls s) o (bs_tick s) (bs_shutdown s) (bs_steady s).
Definition with_tick (b : bool) (s : Bureau) : Bureau :=
  MkBureau (bs_node s) (bs_loop s) (bs_calls s) (bs_lock s) b (bs_shutdown s) (bs_steady s).
Definition with_steady (l : list (N * Conn)) (s : Bureau) : Bureau :=
  MkBureau (bs_node s) (bs_loop s) (bs_calls s) (bs_lock s) (bs_tick s) (bs_shutdown s) l.

Definition the_publisher (s : Bureau) : Publisher := ctx_publisher (nd_ctx (bs_node s)).
Definition on_publisher (f : Publisher → Publisher) (s : Bureau) : Bureau :=
  with_node (set_ctx (bs_node s) (set_publisher (nd_ctx (bs_node s)) (f (the_publisher s)))) s.

(** What is seen of a run. *)
Inductive Seen :=
  | SRegistered (id : N) (client : Conn) | SUnregistered (id : N)
  | STook (ev : publish_event) | SBegan (who : Task) | SEnded (who : Task) (r : result PublishError PublishOutcome).

(** ** The loop *)

(** The permit of a [Notify] is taken when its branch of [select!] is. *)
Definition take_publish (p : Publisher) : Publisher :=
  MkPublisher (pb_clients p) (pb_next_id p) false (pb_renew_notified p) (pb_status p).
Definition take_renew (p : Publisher) : Publisher :=
  MkPublisher (pb_clients p) (pb_next_id p) (pb_publish_notified p) false (pb_status p).
Definition is_ready (ev : publish_event) (s : Bureau) : bool :=
  match ev with
  | EvPublish => pb_publish_notified (the_publisher s)
  | EvRenew => pb_renew_notified (the_publisher s)
  | EvTick => bs_tick s
  end.
Definition take (ev : publish_event) (s : Bureau) : Bureau :=
  match ev with
  | EvPublish => on_publisher take_publish s
  | EvRenew => on_publisher take_renew s
  | EvTick => with_tick false s
  end.
Definition renews (ev : publish_event) : bool := match ev with EvPublish => false | _ => true end.
Definition loop_take (ev : publish_event) (s : Bureau) : Bureau * list Seen :=
  match bs_loop s with
  | AtSelect =>
      if is_ready ev s
      then (with_loop (AtRound (renews ev) (PUBLISH_ROUND_ATTEMPTS - 1) WaitsForLock) (take ev s), [STook ev])
      else (s, [])
  | _ => (s, [])
  end.
Definition loop_shutdown (s : Bureau) : Bureau :=
  match bs_loop s with
  | AtSelect => if bs_shutdown s then with_loop AtEnd s else s
  | _ => s
  end.
(** The end of an attempt: a round that failed is tried again, after a pause. *)
Definition loop_next (renew : bool) (again : nat) (r : result PublishError PublishOutcome) : LoopAt :=
  match r, again with
  | Err _, S again => AtRound renew again WaitsForLock
  | _, _ => AtSelect
  end.

(** ** The lock *)

Definition the_clients (s : Bureau) : list (N * Conn) := pb_clients (the_publisher s).
Definition acquire (who : Task) (s : Bureau) : Bureau := with_steady (the_clients s) (with_lock (Some who) s).
Definition release (s : Bureau) : Bureau := with_lock None s.

Definition lock_turn (who : Task) (s : Bureau) : Bureau * list Seen :=
  match bs_lock s, who with
  | Some _, _ => (s, [])
  | None, Loop =>
      match bs_loop s with
      | AtRound renew again WaitsForLock =>
          (acquire Loop (with_loop (AtRound renew again (HasLock (round_turns renew))) s), [SBegan Loop])
      | _ => (s, [])
      end
  | None, Caller k =>
      match bs_calls s !! k with
      | Some (CallRound renew WaitsForLock) =>
          (acquire (Caller k) (with_call k (CallRound renew (HasLock (round_turns renew))) s), [SBegan (Caller k)])
      | _ => (s, [])
      end
  end.

(** ** A turn of the round *)

(** The task that has the lock runs to its next wait; with the end of the round the
    lock is free. *)
Definition round_turn (who : Task) (s : Bureau) : Bureau * list Seen :=
  match who with
  | Loop =>
      match bs_loop s with
      | AtRound renew again (HasLock (Turn k)) =>
          let '(t, n) := k (bs_node s) in (with_loop (AtRound renew again (HasLock t)) (with_node n s), [])
      | AtRound renew again (HasLock (Done r)) => (release (with_loop (loop_next renew again r) s), [SEnded Loop r])
      | _ => (s, [])
      end
  | Caller k =>
      match bs_calls s !! k with
      | Some (CallRound renew (HasLock (Turn f))) =>
          let '(t, n) := f (bs_node s) in (with_call k (CallRound renew (HasLock t)) (with_node n s), [])
      | Some (CallRound renew (HasLock (Done r))) => (release (with_call k (CallReturned r) s), [SEnded (Caller k) r])
      | _ => (s, [])
      end
  end.

(** ** A run *)

Inductive BureauEvent :=
  | EvRegister (client : Conn) | EvUnregister (id : N) | EvNotifyPublish | EvNotifyRenew | EvTimer | EvShutdown
  | EvTake (ev : publish_event) | EvStop | EvCall (renew : bool) | EvLock (who : Task) | EvTurn (who : Task)
  | EvElsewhere (f : Node W → Node W).

Definition bureau_step (e : BureauEvent) (s : Bureau) : Bureau * list Seen :=
  match e with
  | EvRegister client =>
      let '(id, p) := register client (the_publisher s) in (on_publisher (λ _, p) s, [SRegistered id client])
  | EvUnregister id =>
      (with_steady (filter (λ c, c.1 ≠ id) (bs_steady s)) (on_publisher (unregister id) s), [SUnregistered id])
  | EvNotifyPublish => (on_publisher notify_publish s, [])
  | EvNotifyRenew => (on_publisher notify_renew s, [])
  | EvTimer => (with_tick true s, [])
  | EvShutdown => (MkBureau (bs_node s) (bs_loop s) (bs_calls s) (bs_lock s) (bs_tick s) true (bs_steady s), [])
  | EvTake ev => loop_take ev s
  | EvStop => (loop_shutdown s, [])
  | EvCall renew =>
      (MkBureau (bs_node s) (bs_loop s) (bs_calls s ++ [CallRound renew WaitsForLock]) (bs_lock s) (bs_tick s)
         (bs_shutdown s) (bs_steady s), [])
  | EvLock who => lock_turn who s
  | EvTurn who => round_turn who s
  | EvElsewhere f => (with_node (f (bs_node s)) s, [])
  end.
Fixpoint bureau_run (es : list BureauEvent) (s : Bureau) : Bureau * list Seen :=
  match es with
  | [] => (s, [])
  | e :: es =>
      let '(s, o) := bureau_step e s in
      let '(s, o') := bureau_run es s in (s, o ++ o')
  end.
End publish_turns.
