(* ===== verification/PublishTurnsProps.v ===== *)
(** * A round taken apart

    A round that nothing interrupts is the round of [Publisher]; and a round that
    loses its connections after it has looked for them is a success for nobody. *)
From S2P Require Import Prelude Turns Fsutil Crypto Authority Replay Store StoreMerge Types StateMachine Transport.
From S2P Require Import AdminV2 Protocol Admin Replicate PasswordJoin Context Publisher PublisherProps PublishTurns.

Section alone.
Context `{CR : Crypto, CO : Coset, CI : Codec Cbor IndexDoc, CW : Codec Cbor WhitelistDoc,
  CT : Codec Toml StoreSnapshot}.
Context {W : Type} `{WC : Clock W, WR : AdminRaft W, WB : BackendClient W}.

(** ** A round on its own *)

(** Both sides go through the same steps. *)
Lemma bind_same {E A B} (t : Turns (Node W) E A) (m : ST (Node W) E A) (f : A → Turns (Node W) E B) g n :
  finish t n = m n → (∀ a n, finish (f a) n = g a n) → finish (t ≫= f) n = (m ≫= g) n.
Proof. intros Ht Hf. rewrite finish_bind. unfold mbind, ST_bind. rewrite Ht. destruct (m n) as [[]]; auto. Qed.
Lemma turn_same {E A B} (m : ST (Node W) E A) (f : A → Turns (Node W) E B) g n :
  (∀ a n, finish (f a) n = g a n) → finish (turn m ≫= f) n = (m ≫= g) n.
Proof. intros Hf. apply bind_same; [apply finish_turn|done]. Qed.

Lemma get_same {E A B} (h : AuthContext → A) (f : A → Turns (Node W) E B) (g : AuthContext → ST (Node W) E B) n :
  finish (f (h (nd_ctx n))) n = g (nd_ctx n) n → finish (turn (ctx_get h) ≫= f) n = (ctx_get id ≫= g) n.
Proof. intros Hf. etrans; [apply finish_bind|]. exact Hf. Qed.

Lemma finish_add_key k last c key value (n : Node W) :
  finish (add_key_turns k last c key value) n = call (add_key_attempts k last c key value) n.
Proof.
  revert last n. induction k as [|k IH]; intros last n; cbn [add_key_turns]; [by destruct n|].
  rewrite finish_andthen, finish_turn. unfold call. cbn [add_key_attempts].
  destruct (client_add_key c key (Some value) false (nd_world n)) as [[a|e] w]; [done|]. by rewrite IH.
Qed.
Lemma finish_publish_to clients key value err (n : Node W) :
  finish (publish_to clients key value err) n = call (publish clients key value err) n.
Proof.
  revert err n. induction clients as [|[id c] clients IH]; intros err n; cbn [publish_to].
  { destruct err, n; done. }
  rewrite finish_andthen, finish_add_key. unfold call. cbn [publish]. fold (add_key_with_retry c key value).
  unfold add_key_with_retry. destruct (add_key_attempts _ _ c key value (nd_world n)) as [[[]|e] w], err; by rewrite IH.
Qed.
Lemma finish_publish key value (n : Node W) :
  finish (publish_turns key value) n = call (publish (pb_clients (ctx_publisher (nd_ctx n))) key value None) n.
Proof. unfold publish_turns. rewrite finish_bind. unfold mbind, ST_bind. rewrite finish_turn. apply finish_publish_to. Qed.
Lemma finish_pending pending (n : Node W) :
  finish (pending_turns pending) n = call (publish_pending (pb_clients (ctx_publisher (nd_ctx n))) pending) n.
Proof.
  revert n. induction pending as [|[key value] pending IH]; intros n; cbn [pending_turns]; [by destruct n|].
  rewrite finish_bind. unfold mbind at 1, ST_bind. rewrite finish_publish. unfold call. cbn [publish_pending].
  unfold mbind, ST_bind. destruct (publish _ key value None (nd_world n)) as [[[]|e] w]; [|done]. by rewrite IH.
Qed.
Lemma finish_whitelists services (n : Node W) :
  finish (whitelists_turns services) n = publish_whitelists services n.
Proof.
  unfold whitelists_turns, publish_whitelists. rewrite finish_bind. unfold mbind at 1, ST_bind. rewrite finish_turn.
  unfold signed_whitelists, mbind, ST_bind, ctx_get, st_lift, id.
  destruct (current_authority (nd_ctx n)) as [a|]; [|done]. cbn [ok_or].
  destruct (sign_whitelists a services) as [se|e]; [|done]. etrans; [apply (finish_bind (pending_turns _))|].
  unfold mbind, ST_bind. rewrite finish_pending. by destruct (call _ n) as [[[]|e] n'].
Qed.
Lemma finish_index v exp services (n : Node W) : finish (index_turns v exp services) n = publish_index v exp services n.
Proof.
  unfold index_turns, publish_index. rewrite finish_bind. unfold mbind at 1, ST_bind. rewrite finish_turn.
  unfold signed_index, mbind, ST_bind, ctx_get, st_lift, id.
  destruct (current_authority (nd_ctx n)) as [a|]; [|done]. cbn [ok_or].
  destruct (sign_index a (MkIndexDoc v exp services)) as [bytes|e]; [|done]. apply finish_publish.
Qed.
Lemma finish_recording {A} epoch (t : Turns (Node W) PublishError A) m (n : Node W) : (∀ n, finish t n = m n) →
  finish (recording_turns epoch t) n = recording epoch m n.
Proof.
  intros Ht. unfold recording_turns, recording. rewrite finish_andthen, Ht. destruct (m n) as [[a|e] n']; [done|].
  rewrite finish_bind. unfold mbind, ST_bind. rewrite finish_turn. done.
Qed.
Lemma finish_renew state now (n : Node W) : finish (renew_turns state now) n = renew_index state now n.
Proof.
  unfold renew_turns, renew_index. etrans; [apply finish_bind|]. unfold mbind, ST_bind. rewrite finish_turn.
  unfold ctx_get. rewrite finish_andthen, finish_turn. destruct (call _ n) as [[a|e] n']; by rewrite finish_turn.
Qed.

Lemma finish_raft renew (n : Node W) : finish (raft_turns renew) n = publish_once_raft renew n.
Proof.
  unfold raft_turns, publish_once_raft. apply get_same. destruct (negb _); [done|].
  apply turn_same; intros leader n1. destruct (negb leader); [done|].
  apply turn_same; intros state n2. apply turn_same; intros now n3.
  apply bind_same; [case_match; [apply finish_renew|done]|]. intros state' n4.
  apply turn_same; intros leader' n5. destruct (negb leader'); [done|]. cbv zeta.
  apply turn_same; intros last n6. unfold stale_epoch.
  destruct (match last with Some _ => _ | None => _ end); [apply finish_turn|]. destruct (_ =? 0)%N; [apply finish_turn|].
  apply bind_same; [apply finish_recording, finish_whitelists|]. intros entries n7.
  apply turn_same; intros leader'' n8. destruct (negb leader''); [apply finish_turn|].
  apply bind_same; [apply finish_recording, finish_index|]. intros [] n9. by apply turn_same.
Qed.
Lemma finish_store renew (n : Node W) : finish (store_turns renew) n = publish_once_store renew n.
Proof.
  unfold store_turns, publish_once_store. apply bind_same; [by destruct renew; [apply finish_turn|]|]. intros [] n1.
  apply turn_same; intros s n2. apply turn_same; intros now n3. apply turn_same; intros ex n4. cbv zeta.
  apply bind_same; [apply finish_whitelists|]. intros entries n5. apply bind_same; [apply finish_index|]. intros [] n6.
  by apply turn_same.
Qed.


(** ** A round nobody is there for *)

Lemma pending_nobody pending (w : W) : publish_pending [] pending w = (Ok (), w).
Proof. induction pending as [|[key value] pending IH]; [done|]. exact IH. Qed.

Lemma after_the_check renew (n0 n : Node W) : conns n0 ≠ [] →
  finish (next_turn (round_turns renew) n0).1 n =
  (if ctx_raft_required (nd_ctx n) then publish_once_raft renew else publish_once_store renew) n.
Proof.
  intros H0. assert (pb_clients (ctx_publisher (nd_ctx n0)) ≠ []) as H0' by (intros Hn; apply H0; unfold conns; by rewrite Hn).
  set (rest := clustered ← turn (ctx_get ctx_raft_required); if clustered : bool then raft_turns renew else store_turns renew).
  assert ((next_turn (round_turns renew) n0).1 = rest) as ->.
  { change (next_turn (round_turns renew) n0).1 with
      (if bool_decide (pb_clients (ctx_publisher (nd_ctx n0)) = []) then mret NoConnections else rest).
    by rewrite bool_decide_eq_false_2. }
  unfold rest. rewrite finish_bind. unfold mbind, ST_bind. rewrite finish_turn. unfold ctx_get.
  case_match; [apply finish_raft|apply finish_store].
Qed.

(** The check for connections is made once, at the beginning of a round; a round
    whose connections go after it, while it waits, hands its records to nobody and is
    a success: it reports the index as published, the state the administrator sees
    says so with this version, and no connection has taken anything. *)
Theorem published_to_nobody `{DL : !DhtLaws W} (n0 n : Node W) a pending entries bytes :
  conns n0 ≠ [] → conns n = [] → ctx_raft_required (nd_ctx n) = false → current_authority (nd_ctx n) = Some a →
  let store := ctx_store (nd_ctx n) in
  sign_whitelists a (store_services store) = Ok (pending, entries) →
  sign_index a (MkIndexDoc (s_index_version store)
    (sat_add64 (now_unix (nd_world n)).1 (ctx_expires_secs (nd_ctx n))) entries) = Ok bytes →
  ∃ n', finish (next_turn (round_turns false) n0).1 n = (Ok (Published (s_index_version store)), n')
    ∧ dht_log (nd_world n') = dht_log (nd_world n)
    ∧ last_epoch n' = Some (s_index_version store) ∧ ps_ok (pb_status (ctx_publisher (nd_ctx n'))) = true.
Proof.
  intros H0 Hc%fmap_nil_inv Hr Ha store Hw Hi. rewrite after_the_check, Hr by done.
  pose proof (now_unix_log (nd_world n)) as Hl. unfold publish_once_store, publish_whitelists, publish_index, note_success.
  unfold mbind, ST_bind, ask, ctx_get, st_lift, call, id. cbn. fold store.
  destruct (now_unix (nd_world n)) as [now w] eqn:Hnow. cbn in *. unfold set_world. cbn. rewrite Ha. cbn.
  rewrite Hw. cbn. rewrite Hc, pending_nobody. cbn. rewrite Ha. cbn. rewrite Hi. cbn. rewrite Hc. cbn.
  pose proof (now_unix_log w) as Hl2. destruct (now_unix w) as [now2 w2]. cbn in *.
  eexists. split; [reflexivity|]. split; [by etransitivity|done].
Qed.
End alone.
