(* ===== verification/PublishRely.v ===== *)
(** * A round of publication among other tasks

    What a round does and has done when it is over, whatever the other tasks do
    between its turns: they may register and remove connections, notify, change the
    policy, the leadership and the store, take the authority key away. *)
From S2P Require Import Prelude Turns Fsutil Crypto Authority Replay Store StoreMerge Types StateMachine Transport.
From S2P Require Import AdminV2 Protocol Admin Replicate PasswordJoin Context Publisher PublisherProps PublishTurns.

Create HintDb looks.

Section rely.
Context `{CR : Crypto, CO : Coset, CI : Codec Cbor IndexDoc, CW : Codec Cbor WhitelistDoc,
  CT : Codec Toml StoreSnapshot}.
Context {W : Type} `{WC : Clock W, WR : AdminRaft W, WB : BackendClient W}.
Context `{DL : !DhtLaws W}.
(** The authority key of the network. *)
Context (a : Authority).

Definition taken (n : Node W) : list write := dht_log (nd_world n).
Definition clients (n : Node W) : list (N * Conn) := pb_clients (ctx_publisher (nd_ctx n)).
Definition notice (n : Node W) : bool := pb_publish_notified (ctx_publisher (nd_ctx n)).
(** The node signs with no other key. *)
Definition own_key (n : Node W) : Prop := ∀ a', current_authority (nd_ctx n) = Some a' → a' = a.

(** [g] are the connections there have been since the round began. *)
Abbreviation steady := (list (N * Conn)) (only parsing).
Definition sound (g : steady) (n : Node W) : Prop := g ⊆ clients n ∧ own_key n.

(** An entry whose whitelist has been taken by the steady connections, with the
    digest and the length the index states. *)
Definition entry_taken (g : steady) (l : list write) (e : ServiceEntry) : Prop :=
  ∃ doc key value, service_key a (e_name e) = Ok key ∧ sign_whitelist a (e_name e) doc = Ok value
    ∧ e_hash e = content_hash value ∧ e_length e = str_len value ∧ ∀ c, c ∈ g.*2 → (c, key, value) ∈ l.
(** What a turn may hand to a connection: a whitelist, or an index all of whose
    whitelists have been taken. *)
Definition proper (g : steady) (l : list write) (x : write) : Prop :=
  (∃ name, service_key a name = Ok x.1.2)
  ∨ x.1.2 = index_key a ∧ ∃ doc, sign_index a doc = Ok x.2 ∧ Forall (entry_taken g l) (ix_services doc).

(** What the others do, and what a turn does: it leaves the list of connections and
    the notifications alone. *)
Definition desk (n : Node W) : list (N * Conn) * bool := (clients n, notice n).
Definition others (x y : steady * Node W) : Prop :=
  y.1 ⊆ x.1 ∧ taken y.2 = taken x.2 ∧ (sound x.1 x.2 → sound y.1 y.2).
Definition works (g : steady) (n n' : Node W) : Prop :=
  sound g n → sound g n' ∧ desk n' = desk n ∧ ∃ ws, taken n' = taken n ++ ws ∧ Forall (proper g (taken n)) ws.
Global Instance others_preorder : PreOrder others.
Proof.
  split; [by intros x|]. intros x y z (H1 & H2 & H3) (H4 & H5 & H6). split_and!; [set_solver|congruence|auto].
Qed.

Abbreviation inter := (interleaved others works) (only parsing).

(** Properties that neither the others nor a turn can break. *)
Definition kept (P : steady → Node W → Prop) : Prop :=
  (∀ g n, P g n → sound g n) ∧ stable others P ∧ ∀ g n n', works g n n' → P g n → P g n'.
Lemma kept_sound : kept sound.
Proof. split; [done|]. split; [by intros g n g' n' (_ & _ & ?)|]. intros g n n' Hw Hs. by apply Hw. Qed.
(** What has been taken stays taken. *)
Lemma kept_log P (Q : steady → list write → Prop) :
  (∀ g g' l ws, g' ⊆ g → Q g l → Q g' (l ++ ws)) → kept P → kept (λ g n, P g n ∧ Q g (taken n)).
Proof.
  intros HQ (Hs & Hst & Hw). split; [by intros g n [? _]; apply Hs|]. split.
  - intros g n g' n' Hr [HP H]. split; [by eapply Hst|]. destruct Hr as (Hsub & Hl & _). cbn in Hl.
    rewrite Hl, <-(app_nil_r (taken n)). by eapply HQ.
  - intros g n n' Hwork [HP H]. split; [by eapply Hw|]. destruct (Hwork (Hs _ _ HP)) as (_ & _ & ws & -> & _). by eapply HQ.
Qed.
Lemma entry_taken_more g g' l ws e : g' ⊆ g → entry_taken g l e → entry_taken g' (l ++ ws) e.
Proof.
  intros Hg (doc & key & value & Hk & Hs & Hh & Hl & Hall). exists doc, key, value. split_and!; [done..|].
  intros c (x & -> & Hx)%list_elem_of_fmap. apply elem_of_app. left. apply Hall, list_elem_of_fmap_2. by apply Hg.
Qed.
Lemma in_log_more (x : write) : ∀ (g g' : steady) l ws, g' ⊆ g → x ∈ l → x ∈ l ++ ws.
Proof. intros. apply elem_of_app. by left. Qed.

(** A kept property on top of the result. *)
Lemma inter_keep {E A} P (t : Turns (Node W) E A) Q g n : kept P → P g n →
  inter t Q g n → inter t (λ r g n, Q r g n ∧ P g n) g n.
Proof. intros (_ & Hst & Hw). by apply interleaved_keeps. Qed.

(** A turn, and what follows one. *)
Lemma inter_turn {E A} P (m : ST (Node W) E A) (Q : result E A → steady → Node W → Prop) g n : kept P → P g n →
  (∀ g n, P g n → works g n (m n).2 ∧ (P g (m n).2 → Q (m n).1 g (m n).2)) → inter (turn m) Q g n.
Proof.
  intros (Hs & Hst & Hw) HP Hm. apply interleaved_turn. intros g1 n1 Hr. assert (P g1 n1) as HP1 by (by eapply Hst).
  destruct (Hm g1 n1 HP1) as [Hwork HQ]. split; [done|]. apply HQ. by eapply Hw.
Qed.
Lemma inter_then {E A B} P (t : Turns (Node W) E A) (f : A → Turns (Node W) E B) Q g n :
  inter t (λ r g n, P g n ∧ ∀ a, r = Ok a → inter (f a) Q g n) g n → (∀ e g n, P g n → Q (Err e) g n) →
  inter (t ≫= f) Q g n.
Proof.
  intros Ht He. apply interleaved_bind. eapply interleaved_mono; [exact Ht|]. intros [b|e] g' n' [HP Hf]; auto.
Qed.

(** A turn of which only the effect on the node is of interest. *)
Definition only_looks {E A} (m : ST (Node W) E A) : Prop := ∀ n,
  quiet n (m n).2 ∧ clients (m n).2 = clients n ∧ notice (m n).2 = notice n.
Lemma looks_works {E A} (m : ST (Node W) E A) g n : only_looks m → works g n (m n).2.
Proof.
  intros Hm [Hg Hk]. destruct (Hm n) as ((Hl & _ & Ha) & Hc & Hp). split; [split; [by rewrite Hc|]|split; [unfold desk; congruence|]].
  - intros a'. rewrite Ha. apply Hk.
  - exists []. by rewrite app_nil_r.
Qed.
Lemma inter_looks {E A B} P (m : ST (Node W) E A) (f : A → Turns (Node W) E B) Q g n : kept P → P g n → only_looks m →
  (∀ b g n, P g n → inter (f b) Q g n) → (∀ e g n, P g n → Q (Err e) g n) → inter (turn m ≫= f) Q g n.
Proof.
  intros HK HP Hm Hf He. apply (inter_then P); [|done]. apply (inter_turn P); [done..|]. intros g' n' HP'.
  split; [by apply looks_works|]. intros HP2. split; [done|]. intros b _. by apply Hf.
Qed.
Lemma inter_looked {E A} P (m : ST (Node W) E A) (Q : result E A → steady → Node W → Prop) g n :
  kept P → P g n → only_looks m → (∀ r n' g n, m n' = (r, n) → P g n → Q r g n) → inter (turn m) Q g n.
Proof.
  intros HK HP Hm HQ. apply (inter_turn P); [done..|]. intros g' n' HP'. split; [by apply looks_works|].
  intros HP2. eapply HQ; [apply surjective_pairing|done].
Qed.

Lemma looks_ask {E A} (q : W → A * W) : (∀ w, dht_log (q w).2 = dht_log w) → only_looks (ask (E := E) q).
Proof. intros Hq n. unfold ask, quiet, clients, notice. specialize (Hq (nd_world n)). by destruct (q (nd_world n)). Qed.
Lemma looks_get {E A} (f : AuthContext → A) : only_looks (ctx_get (E := E) f).
Proof. by intros n. Qed.
Lemma looks_lift {E A} (r : result E A) : only_looks (st_lift r).
Proof. by intros n. Qed.
Lemma looks_bind {E A B} (m : ST (Node W) E A) (f : A → ST (Node W) E B) :
  only_looks m → (∀ b, only_looks (f b)) → only_looks (m ≫= f).
Proof.
  intros Hm Hf n. unfold mbind, ST_bind. destruct (Hm n) as (Hq & Hc & Hp). destruct (m n) as [[b|e] n1]; [|done].
  destruct (Hf b n1) as (Hq2 & Hc2 & Hp2). cbn in *. split_and!; [by eapply quiet_trans|congruence..].
Qed.
Lemma looks_status {E} f : (∀ p, pb_clients (f p) = pb_clients p ∧ pb_publish_notified (f p) = pb_publish_notified p) → only_looks (publisher_modify (E := E) f).
Proof. intros Hf n. unfold clients, quiet, conns, notice. simpl. by destruct (Hf (ctx_publisher (nd_ctx n))) as [-> ->]. Qed.
Lemma looks_failure e m : only_looks (note_failure (W := W) e m).
Proof. apply looks_bind; [apply looks_ask, now_unix_log|]. intros now. by apply looks_status. Qed.
Lemma looks_success e : only_looks (note_success (W := W) e).
Proof. apply looks_bind; [apply looks_ask, now_unix_log|]. intros now. by apply looks_status. Qed.
Lemma looks_fail {A} e m : only_looks (fail_with (W := W) (A := A) e m).
Proof. apply looks_bind; [apply looks_failure|]. intros []. by intros n. Qed.
Lemma looks_propose c : only_looks (call (E := string) (propose (W := W) c)).
Proof.
  intros n. unfold call, quiet, clients, notice. pose proof (propose_log c (nd_world n)) as Hp. by destruct (propose c (nd_world n)).
Qed.
Lemma looks_bump : only_looks (bump_turn (W := W)).
Proof.
  intros n. unfold bump_turn, st_map_err, mbind, ST_bind, on_store, quiet, clients, conns, notice.
  destruct (bump_index_version (ctx_store (nd_ctx n), nd_fs n)) as [[b|e] [s fs]]; done.
Qed.
Hint Resolve looks_ask looks_get looks_failure looks_success looks_fail looks_propose looks_bump now_unix_log is_leader_log
  policy_snapshot_log : looks.

(** ** A record for every connection *)

Section record.
Context (key value : string).

Lemma add_key_works c g (n : Node W) : proper g (taken n) (c, key, value) →
  let '(r, w) := client_add_key c key (Some value) false (nd_world n) in
  works g n (set_world n w) ∧ (NodeReports W → is_ok r = true → (c, key, value) ∈ taken (set_world n w)).
Proof.
  intros Hp. destruct (client_add_key c key (Some value) false (nd_world n)) as [[r|e] w] eqn:Ha.
  - pose proof (add_key_answer _ _ _ _ _ _ Ha) as Hl. split.
    + intros Hs. split; [done|]. split; [done|]. unfold taken. cbn. rewrite Hl. destruct (kr_success r).
      * exists [(c, key, value)]. split; [done|by apply Forall_singleton].
      * exists []. by rewrite app_nil_r.
    + intros Hnr _. unfold taken. cbn. rewrite Hl, (add_key_success _ _ _ _ _ _ Ha). set_solver.
  - split; [|done]. intros Hs. split; [done|]. split; [done|]. unfold taken. cbn. destruct (add_key_error _ _ _ _ _ _ Ha) as [Hl|Hl]; rewrite Hl.
    + exists []. by rewrite app_nil_r.
    + exists [(c, key, value)]. split; [done|by apply Forall_singleton].
Qed.

(** A kept property under which the record may be sent. *)
Definition may_send (P : steady → Node W → Prop) : Prop := kept P ∧ ∀ c g n, P g n → proper g (taken n) (c, key, value).

Lemma add_key_inter P k last c g n : may_send P → P g n →
  inter (add_key_turns k last c key value)
    (λ r g n, P g n ∧ (NodeReports W → r = Ok () → (c, key, value) ∈ taken n)) g n.
Proof.
  intros [HK Hmay]. revert last g n. induction k as [|k IH]; intros last g n HP; [done|]. cbn [add_key_turns].
  apply interleaved_andthen, (inter_turn P); [done..|]. intros g' n' HP'. pose proof (add_key_works c g' n' (Hmay _ _ _ HP')) as Hw.
  unfold call. destruct (client_add_key c key (Some value) false (nd_world n')) as [r w]. destruct Hw as [Hw Hin].
  split; [done|]. intros HP2. destruct r as [r|e]; [|by apply IH]. simpl. auto.
Qed.
Lemma publish_to_inter P l err g n : may_send P → P g n →
  inter (publish_to l key value err)
    (λ r g n, P g n ∧ (r = Ok () → err = None) ∧ (NodeReports W → r = Ok () → ∀ c, c ∈ l.*2 → (c, key, value) ∈ taken n)) g n.
Proof.
  revert P err g n. induction l as [|[id c] l IH]; intros P err g n HM HP; cbn [publish_to].
  { simpl. destruct err; (split_and!; [done..|set_solver]). }
  apply interleaved_andthen. eapply interleaved_mono; [by apply (add_key_inter P)|]. intros r g1 n1 [HP1 Hin].
  destruct r as [[]|e].
  - assert (may_send (λ g n, P g n ∧ (NodeReports W → (c, key, value) ∈ taken n))) as HM'.
    { destruct HM as [HK Hmay]. split; [|by intros c' g' n' [? _]; apply Hmay].
      apply (kept_log P (λ _ l, NodeReports W → (c, key, value) ∈ l)); [|done]. intros g' g'' l' ws Hs H Hn. set_solver. }
    eapply interleaved_mono; [apply (IH _ err g1 n1 HM'); auto|]. intros r g2 n2 ([HP2 Hc] & Herr & Hall).
    split_and!; [done|by destruct err|]. intros Hn Hr c' [->|Hc']%elem_of_cons; auto.
  - eapply interleaved_mono; [by apply (IH P)|]. intros r g2 n2 (HP2 & Herr & _).
    split; [done|]. split; [by destruct err; intros Hr; specialize (Herr Hr)|].
    intros _ Hr. specialize (Herr Hr). by destruct err.
Qed.
Lemma publish_inter P g n : may_send P → P g n →
  inter (publish_turns key value)
    (λ r g n, P g n ∧ (NodeReports W → r = Ok () → ∀ c, c ∈ g.*2 → (c, key, value) ∈ taken n)) g n.
Proof.
  intros HM HP. pose proof HM as [HK Hmay]. apply (inter_then P); [|by auto]. apply (inter_turn P); [done..|].
  intros g1 n1 HP1. split; [by apply looks_works, looks_get|]. intros _. split; [done|]. intros l [= <-].
  assert (may_send (λ g n, P g n ∧ g ⊆ clients n1)) as HM'.
  { destruct HK as (Hs & Hst & Hw). split; [split; [|split]|].
    - intros g' n' [? _]. by apply Hs.
    - intros g' n' g'' n'' Hr [HP' Hsub]. split; [by eapply Hst|]. destruct Hr as [Hr _]. set_solver.
    - intros g' n' n'' Hwork [HP' Hsub]. split; [by eapply Hw|done].
    - intros c g' n' [? _]. by apply Hmay. }
  eapply interleaved_mono; [apply (publish_to_inter _ _ _ _ _ HM'); split; [done|]; by apply HK in HP1 as []|].
  intros r g2 n2 ([HP2 Hsub] & _ & Hall). split; [done|]. intros Hn Hr c (x & -> & Hx)%list_elem_of_fmap.
  apply Hall; [done..|]. apply list_elem_of_fmap_2. by apply Hsub.
Qed.
End record.

(** ** Whitelists, then the index *)

Definition pending_taken (g : steady) (l : list write) (pending : list (string * string)) : Prop :=
  ∀ c kv, c ∈ g.*2 → kv ∈ pending → (c, kv.1, kv.2) ∈ l.
Lemma fst_sub (g g' : steady) c : g' ⊆ g → c ∈ g'.*2 → c ∈ g.*2.
Proof. intros Hs (x & -> & Hx)%list_elem_of_fmap. apply list_elem_of_fmap_2. by apply Hs. Qed.

Lemma pending_inter P pending g n : kept P → P g n → Forall (λ kv, ∃ name, service_key a name = Ok kv.1) pending →
  inter (pending_turns pending)
    (λ r g n, P g n ∧ (NodeReports W → r = Ok () → pending_taken g (taken n) pending)) g n.
Proof.
  intros HK HP Hpend. revert P g n HK HP. induction pending as [|[key value] pending IH]; intros P g n HK HP; cbn [pending_turns].
  { split; [done|]. intros _ _ c kv _ Hkv. set_solver. }
  apply Forall_cons in Hpend as [Hkey Hpend]. apply (inter_then P); [|by auto].
  eapply interleaved_mono; [apply (publish_inter key value P); [split; [done|by left]|done]|].
  intros r g1 n1 [HP1 Hall]. split; [done|]. intros [] ->.
  eapply interleaved_mono; [apply (IH Hpend (λ g n, P g n ∧ (NodeReports W → ∀ c, c ∈ g.*2 → (c, key, value) ∈ taken n)))|].
  - apply (kept_log P (λ g l, NodeReports W → ∀ c, c ∈ g.*2 → (c, key, value) ∈ l)); [|done].
    intros g' g'' l ws Hs H Hn c Hc. apply elem_of_app. left. apply H; [done|]. by eapply fst_sub.
  - auto.
  - intros r g2 n2 [[HP2 Hk] Hp]. split; [done|]. intros Hn Hr c kv Hc [->|Hkv]%elem_of_cons; [by apply Hk|by apply Hp].
Qed.

Definition entries_taken (g : steady) (l : list write) (entries : list ServiceEntry) : Prop := Forall (entry_taken g l) entries.
Lemma kept_entries P entries : kept P → kept (λ g n, P g n ∧ (NodeReports W → entries_taken g (taken n) entries)).
Proof.
  apply (kept_log P (λ g l, NodeReports W → entries_taken g l entries)). intros g g' l ws Hs H Hn.
  eapply Forall_impl; [by apply H|]. intros e. by apply entry_taken_more.
Qed.

Lemma signed_whitelists_run services (n : Node W) : own_key n →
  (signed_whitelists services n).2 = n
  ∧ ∀ pending entries, (signed_whitelists services n).1 = Ok (pending, entries) →
      Forall (entry_backed a pending) entries ∧ Forall (λ kv, ∃ name, service_key a name = Ok kv.1) pending.
Proof.
  intros Ha. unfold signed_whitelists, mbind, ST_bind, ctx_get, st_lift, id.
  destruct (current_authority (nd_ctx n)) as [a'|] eqn:Hc; [|done]. rewrite (Ha a' Hc). cbn. split; [done|].
  intros pending entries (? & _ & ?)%sign_whitelists_Ok. done.
Qed.
Lemma whitelists_inter P services g n : kept P → P g n →
  inter (whitelists_turns services)
    (λ r g n, P g n ∧ ∀ entries, r = Ok entries → NodeReports W → entries_taken g (taken n) entries) g n.
Proof.
  intros HK HP. pose proof HK as (Hsound & _). apply (inter_then P); [|by auto]. apply (inter_turn P); [done..|].
  intros g1 n1 HP1. destruct (signed_whitelists_run services n1) as [Hn Hrun]; [by apply (Hsound _ _ HP1)|]. rewrite Hn.
  split; [intros ?; do 2 (split; [done|]); exists []; by rewrite app_nil_r|]. intros _. split; [done|].
  intros [pending entries] Hse. destruct (Hrun _ _ Hse) as [Hback Hkeys]. apply (inter_then P); [|by auto].
  eapply interleaved_mono; [by apply (pending_inter P)|]. intros r g2 n2 [HP2 Hp]. split; [done|]. intros [] ->.
  split; [done|]. intros ? [= <-] Hnr. eapply Forall_impl; [exact Hback|]. cbn.
  intros e (doc & key & value & Hk & Hs & Hh & Hl & Hin). exists doc, key, value. split_and!; [done..|].
  intros c Hc. by apply (Hp Hnr eq_refl c (key, value)).
Qed.

(** What a round that reports [epoch] as published has achieved for the connections
    that stayed. *)
Definition visible (epoch : N) (g : steady) (l : list write) : Prop :=
  ∃ doc bytes, ix_version doc = epoch ∧ sign_index a doc = Ok bytes ∧ Forall (entry_taken g l) (ix_services doc)
    ∧ ∀ c, c ∈ g.*2 → (c, index_key a, bytes) ∈ l.
Lemma visible_more epoch g g' l ws : g' ⊆ g → visible epoch g l → visible epoch g' (l ++ ws).
Proof.
  intros Hs (doc & bytes & Hv & Hi & He & Hall). exists doc, bytes. split_and!; [done..| |].
  - eapply Forall_impl; [exact He|]. intros e. by apply entry_taken_more.
  - intros c Hc. apply elem_of_app. left. apply Hall. by eapply fst_sub.
Qed.

Lemma signed_index_run v exp entries (n : Node W) : own_key n →
  (signed_index v exp entries n).2 = n
  ∧ ∀ key bytes, (signed_index v exp entries n).1 = Ok (key, bytes) →
      key = index_key a ∧ sign_index a (MkIndexDoc v exp entries) = Ok bytes.
Proof.
  intros Ha. unfold signed_index, mbind, ST_bind, ctx_get, st_lift, id.
  destruct (current_authority (nd_ctx n)) as [a'|] eqn:Hc; [|done]. rewrite (Ha a' Hc). cbn.
  destruct (sign_index a (MkIndexDoc v exp entries)) as [b|e]; [|done]. cbn. split; [done|]. by intros key bytes [= <- <-].
Qed.
Lemma index_inter P v exp entries g n : kept P → P g n → NodeReports W → entries_taken g (taken n) entries →
  inter (index_turns v exp entries)
    (λ r g n, P g n ∧ (r = Ok () → visible v g (taken n))) g n.
Proof.
  intros HK HP Hnr Hent. pose proof HK as (Hsound & _).
  set (P' := λ g n, P g n ∧ (NodeReports W → entries_taken g (taken n) entries)).
  assert (kept P') as HK' by (by apply kept_entries). assert (P' g n) as HP' by done.
  apply (inter_then P'); [|by intros e g' n' [? _]]. apply (inter_turn P'); [done..|].
  intros g1 n1 [HP1 He1]. destruct (signed_index_run v exp entries n1) as [Hn Hrun]; [by apply (Hsound _ _ HP1)|]. rewrite Hn.
  split; [intros ?; do 2 (split; [done|]); exists []; by rewrite app_nil_r|]. intros _. split; [done|].
  intros [key bytes] Hkv. destruct (Hrun _ _ Hkv) as [-> Hsig].
  eapply interleaved_mono; [apply (publish_inter _ _ P')|].
  - split; [done|]. intros c g' n' [_ He]. right. split; [done|]. exists (MkIndexDoc v exp entries). split; [done|]. by apply He.
  - done.
  - intros r g2 n2 ([HP2 He2] & Hall). split; [done|]. intros ->. exists (MkIndexDoc v exp entries), bytes.
    split_and!; [done..|by apply He2|by apply Hall].
Qed.

(** ** The round *)

Lemma recording_inter {A} P epoch (t : Turns (Node W) PublishError A) Q g n : kept P →
  inter t (λ r g n, P g n ∧ ∀ b, r = Ok b → Q (Ok b) g n) g n → (∀ e g n, P g n → Q (Err e) g n) →
  inter (recording_turns epoch t) Q g n.
Proof.
  intros HK Ht He. apply interleaved_andthen. eapply interleaved_mono; [exact Ht|]. intros [b|e] g1 n1 [HP HQ]; [by apply HQ|].
  apply (inter_looks P); [done..|auto with looks| |by auto]. intros [] g2 n2 HP2. by apply He.
Qed.

Definition round_done (r : result PublishError PublishOutcome) (g : steady) (n : Node W) : Prop :=
  sound g n ∧ ∀ epoch, r = Ok (Published epoch) → visible epoch g (taken n).
Lemma done_otherwise r g n : sound g n → (∀ epoch, r ≠ Ok (Published epoch)) → round_done r g n.
Proof. intros Hs Hr. split; [done|]. intros epoch Heq. by destruct (Hr epoch). Qed.
Lemma fail_otherwise (epoch : N) m r n' (n : Node W) :
  fail_with (A := PublishOutcome) epoch m n' = (r, n) → ∀ e, r ≠ Ok (Published e).
Proof. intros [_ Hr]%fail_with_quiet e ->. done. Qed.

Lemma finish_inter v g n : sound g n → visible v g (taken n) →
  inter (turn (note_success v) ;; mret (Published v)) round_done g n.
Proof.
  intros Hs Hv. apply (inter_looks (λ g n, sound g n ∧ visible v g (taken n))); [|done|auto with looks| |].
  - apply kept_log; [|apply kept_sound]. intros g' g'' l ws. apply visible_more.
  - intros [] g1 n1 [Hs1 Hv1]. split; [done|]. by intros epoch [= <-].
  - intros e g1 n1 [Hs1 _]. by apply done_otherwise.
Qed.

(** A turn that only looks, before the rest of a round. *)
Lemma round_looks {A} (m : ST (Node W) PublishError A) (f : A → Turns (Node W) PublishError PublishOutcome) g n :
  sound g n → only_looks m → (∀ b g n, sound g n → inter (f b) round_done g n) → inter (turn m ≫= f) round_done g n.
Proof.
  intros Hs Hm Hf. apply (inter_looks sound); [apply kept_sound|done..|].
  intros e g' n' Hs'. by apply done_otherwise.
Qed.
Lemma round_fails epoch m g n : sound g n → inter (turn (fail_with epoch m)) round_done g n.
Proof.
  intros Hs. apply (inter_looked sound); [apply kept_sound|done|apply looks_fail|].
  intros r n' g' n2 Hr Hs'. apply done_otherwise; [done|]. by eapply fail_otherwise.
Qed.
Lemma renew_inter state now g n : sound g n → inter (renew_turns state now) (λ _ g n, sound g n) g n.
Proof.
  intros Hs. apply (inter_looks sound); [apply kept_sound|done|auto with looks| |done]. intros ex g1 n1 Hs1.
  apply interleaved_andthen, (inter_looked sound); [apply kept_sound|done|apply looks_propose|].
  intros [p|e] n' g2 n2 _ Hs2; (apply (inter_looked sound); [apply kept_sound|done|auto with looks|done]).
Qed.
Lemma raft_inter renew g n : NodeReports W → sound g n → inter (raft_turns renew) round_done g n.
Proof.
  intros Hnr Hs. unfold raft_turns. apply round_looks; [done|auto with looks|]. clear g n Hs. intros inst g n Hs.
  destruct (negb inst); [by apply done_otherwise|].
  apply round_looks; [done|auto with looks|]. clear g n Hs. intros leader g n Hs. destruct (negb leader); [by apply done_otherwise|].
  apply round_looks; [done|auto with looks|]. clear g n Hs. intros state g n Hs.
  apply round_looks; [done|auto with looks|]. clear g n Hs. intros now g n Hs.
  apply (inter_then sound); [|by intros e g' n' Hs'; apply done_otherwise].
  eapply (interleaved_mono _ _ _ (λ _ g n, sound g n)); [case_match; [by apply renew_inter|done]|].
  clear g n Hs. intros rb g n Hs. split; [done|]. intros state' _.
  apply round_looks; [done|auto with looks|]. clear g n Hs. intros leader' g n Hs. destruct (negb leader'); [by apply done_otherwise|].
  cbv zeta. apply round_looks; [done|auto with looks|]. clear g n Hs. intros last g n Hs.
  destruct (stale_epoch _ _); [by apply round_fails|]. destruct (_ =? 0)%N; [by apply round_fails|].
  set (P entries (g : steady) (n : Node W) := sound g n ∧ (NodeReports W → entries_taken g (taken n) entries)).
  assert (∀ entries, kept (P entries)) as HK by (intros entries; apply kept_entries, kept_sound).
  apply (inter_then sound); [|by intros e g' n' Hs'; apply done_otherwise].
  apply (recording_inter sound); [apply kept_sound| |done].
  eapply interleaved_mono; [by apply (whitelists_inter sound), Hs; apply kept_sound|]. clear g n Hs.
  intros r0 g n [Hs Hent]. split; [done|]. intros entries ->. split; [done|]. intros ? [= <-].
  apply (inter_looks (P entries)); [done|by split; [|auto]|auto with looks| |by intros e g' n' [? _]; apply done_otherwise].
  clear g n Hs Hent. intros leader'' g n [Hs Hent]. destruct (negb leader''); [by apply round_fails|].
  apply (inter_then sound); [|by intros e g' n' Hs'; apply done_otherwise].
  apply (recording_inter sound); [apply kept_sound| |done].
  eapply interleaved_mono; [apply (index_inter sound); [apply kept_sound|done..|by apply Hent]|]. clear g n Hs Hent.
  intros r g n [Hs Hv]. split; [done|]. intros [] ->. split; [done|]. intros ? [= <-]. apply finish_inter; auto.
Qed.
Lemma store_inter renew g n : NodeReports W → sound g n → inter (store_turns renew) round_done g n.
Proof.
  intros Hnr Hs. unfold store_turns. apply (inter_then sound); [|by intros e g' n' Hs'; apply done_otherwise].
  assert (inter (if renew then turn bump_turn else mret ()) (λ _ g n, sound g n) g n) as Hb.
  { destruct renew; [|done]. apply (inter_looked sound); [apply kept_sound|done|apply looks_bump|done]. }
  eapply interleaved_mono; [exact Hb|]. clear g n Hs Hb. intros rb g n Hs. split; [done|]. intros [] _.
  apply round_looks; [done|auto with looks|]. clear g n Hs. intros s g n Hs.
  apply round_looks; [done|auto with looks|]. clear g n Hs. intros now g n Hs.
  apply round_looks; [done|auto with looks|]. clear g n Hs. intros ex g n Hs. cbv zeta.
  apply (inter_then sound); [|by intros e g' n' Hs'; apply done_otherwise].
  eapply interleaved_mono; [by apply (whitelists_inter sound), Hs; apply kept_sound|]. clear g n Hs.
  intros r g n [Hs Hent]. split; [done|]. intros entries ->. specialize (Hent entries eq_refl Hnr).
  apply (inter_then sound); [|by intros e g' n' Hs'; apply done_otherwise].
  eapply interleaved_mono; [by apply (index_inter sound), Hent; [apply kept_sound|..]|]. clear g n Hs Hent.
  intros r g n [Hs Hv]. split; [done|]. intros [] ->. apply finish_inter; auto.
Qed.

(** A round that begins with the connections there are. *)
Lemma round_inter renew g n : NodeReports W → sound g n → inter (round_turns renew) round_done g n.
Proof.
  intros Hnr Hs. unfold round_turns. apply round_looks; [done|auto with looks|]. clear g n Hs. intros l g n Hs.
  case_bool_decide; [by apply done_otherwise|].
  apply round_looks; [done|auto with looks|]. clear g n Hs. intros cl g n Hs.
  destruct cl; [by apply raft_inter|by apply store_inter].
Qed.
End rely.
