(* ===== verification/PublishBureau.v ===== *)
(** * The publisher's tasks together

    Invariants of every run of the tasks of [PublishTurns]: one round at a time, the
    order in which a connection gets its records, and what became of a registration. *)
From S2P Require Import Prelude Turns Fsutil Crypto Authority Replay Store StoreMerge Types StateMachine Transport.
From S2P Require Import AdminV2 Protocol Admin Replicate PasswordJoin Context Publisher PublisherProps PublishTurns PublishRely.

Section bureau.
Context `{CR : Crypto, CO : Coset, CI : Codec Cbor IndexDoc, CW : Codec Cbor WhitelistDoc,
  CT : Codec Toml StoreSnapshot}.
Context {W : Type} `{WC : Clock W, WR : AdminRaft W, WB : BackendClient W}.
Context `{DL : !DhtLaws W}.
Context (a : Authority) (Hnr : NodeReports W).

Abbreviation Bureau := (Bureau (W := W)) (only parsing).
Abbreviation inter := (interleaved (others a) (works a)) (only parsing).
Abbreviation log s := (taken (bs_node s)) (only parsing).

(** What the rest of the sidecar may do: it adds nothing to the DHT, takes no
    connection and no notification away, and signs with no other key. *)
Definition elsewhere (f : Node W → Node W) : Prop := ∀ n,
  taken (f n) = taken n ∧ clients (f n) = clients n ∧ (own_key a n → own_key a (f n))
  ∧ (notice n = true → notice (f n) = true).
Definition proper_event (e : BureauEvent (W := W)) : Prop := match e with EvElsewhere f => elsewhere f | _ => True end.

(** The round a task is in, if it has the lock. *)
Definition running (who : Task) (s : Bureau) : option (Turns (Node W) PublishError PublishOutcome) :=
  match who with
  | Loop => match bs_loop s with AtRound _ _ (HasLock t) => Some t | _ => None end
  | Caller k => match bs_calls s !! k with Some (CallRound _ (HasLock t)) => Some t | _ => None end
  end.

Record bureau_ok (s : Bureau) : Prop := {
  bo_key : own_key a (bs_node s);
  bo_lock : ∀ who, bs_lock s = Some who ↔ is_Some (running who s);
  bo_round : ∀ who t, running who s = Some t → inter t (round_done a) (bs_steady s) (bs_node s) ∧ sound a (bs_steady s) (bs_node s);
}.

Lemma done_stable r : stable (others a) (round_done a r).
Proof.
  intros g n g' n' Hr [Hs Hv]. destruct Hr as (Hsub & Hl & Hso). cbn in *. split; [auto|]. intros e He.
  rewrite Hl, <-(app_nil_r (taken n)). by eapply visible_more, Hv.
Qed.

(** Two tasks with the lock are the same. *)
Lemma one_running s who who' : bureau_ok s → is_Some (running who s) → is_Some (running who' s) → who = who'.
Proof. intros [_ Hl _] H1%Hl H2%Hl. congruence. Qed.

(** A step of the others: the tasks stay where they are. *)
Lemma others_step s s' : bureau_ok s → others a (bs_steady s, bs_node s) (bs_steady s', bs_node s') →
  own_key a (bs_node s') → bs_lock s' = bs_lock s → (∀ who, running who s' = running who s) → bureau_ok s'.
Proof.
  intros [Hk Hl Hr] Ho Hk' Hlock Hrun. split; [done| |].
  - intros who. by rewrite Hlock, Hrun.
  - intros who t. rewrite Hrun. intros [Hi Hs]%Hr. split; [|by apply Ho].
    eapply interleaved_later; [apply _|apply done_stable|exact Ho|exact Hi].
Qed.
Lemma others_publisher s f : (∀ x, x ∈ clients (bs_node s) → x ∈ pb_clients (f (the_publisher s))) →
  others a (bs_steady s, bs_node s) (bs_steady s, bs_node (on_publisher f s)).
Proof. intros Hf. split_and!; [done..|]. intros [Hs Hk]. split; [|done]. intros x Hx%Hs. by apply Hf. Qed.

Definition writes (s s' : Bureau) : Prop :=
  ∃ ws, log s' = log s ++ ws ∧ Forall (proper a (bs_steady s) (log s)) ws.
Lemma writes_nothing s s' : log s' = log s → writes s s'.
Proof. intros Hl. exists []. by rewrite app_nil_r. Qed.

(** Only one task has moved. *)
Definition moved (who : Task) (s s' : Bureau) : Prop := ∀ who', who' ≠ who → running who' s' = running who' s.
Lemma moved_loop s s' : bs_calls s' = bs_calls s → moved Loop s s'.
Proof. intros Hc [|j] Hj; [done|]. simpl. by rewrite Hc. Qed.
Lemma moved_call k c s s' : bs_loop s' = bs_loop s → bs_calls s' = <[k := c]> (bs_calls s) → moved (Caller k) s s'.
Proof.
  intros Hl Hc [|j] Hj; simpl; [by rewrite Hl|]. by rewrite Hc, list_lookup_insert_ne by congruence.
Qed.

Lemma begin_ok who renew s s' : bureau_ok s → bs_lock s = None → moved who s s' → bs_node s' = bs_node s →
  bs_lock s' = Some who → bs_steady s' = clients (bs_node s) → running who s' = Some (round_turns renew) → bureau_ok s'.
Proof.
  intros [Hk Hl Hr] Hfree Hm Hn Hlock Hst Hrun.
  assert (∀ who', who' ≠ who → running who' s' = None) as Hnone.
  { intros who' Hne. rewrite Hm by done. apply eq_None_not_Some. intros Hw%Hl. congruence. }
  split; [by rewrite Hn| |].
  - intros who'. rewrite Hlock. split; [intros [= <-]; by rewrite Hrun|]. intros [t Ht].
    destruct (decide (who' = who)) as [->|Hne]; [done|]. by rewrite Hnone in Ht.
  - intros who' t Ht. destruct (decide (who' = who)) as [->|Hne]; [|by rewrite Hnone in Ht]. simplify_eq.
    assert (sound a (bs_steady s') (bs_node s')) as Hs by (rewrite Hst, Hn; by split). split; [|done]. by apply round_inter.
Qed.
Lemma turn_ok who k t n s s' : bureau_ok s → running who s = Some (Turn k) → k (bs_node s) = (t, n) → moved who s s' →
  bs_node s' = n → bs_lock s' = bs_lock s → bs_steady s' = bs_steady s → running who s' = Some t →
  bureau_ok s' ∧ writes s s'.
Proof.
  intros Hok Hrun Hturn Hm Hn Hlock Hst Hrun'. pose proof Hok as [Hk Hl Hr]. destruct (Hr _ _ Hrun) as [Hi Hs].
  specialize (Hi _ _ (reflexivity _)). rewrite Hturn in Hi. destruct Hi as [Hw Hi]. destruct (Hw Hs) as (Hs' & _ & Hws).
  split; [|by unfold writes; rewrite Hn]. split; [by rewrite Hn; apply Hs'| |].
  - intros who'. rewrite Hlock, Hl. destruct (decide (who' = who)) as [->|Hne]; [by rewrite Hrun, Hrun'|by rewrite Hm].
  - intros who' t' Ht'. destruct (decide (who' = who)) as [->|Hne].
    + rewrite Hrun' in Ht'. injection Ht' as <-. by rewrite Hst, Hn.
    + rewrite Hm in Ht' by done. destruct Hne. by eapply one_running.
Qed.
Lemma end_ok who r s s' : bureau_ok s → running who s = Some (Done r) → moved who s s' → bs_node s' = bs_node s →
  bs_lock s' = None → running who s' = None → bureau_ok s'.
Proof.
  intros Hok Hrun Hm Hn Hlock Hrun'. pose proof Hok as [Hk Hl Hr].
  assert (∀ who', running who' s' = None) as Hnone.
  { intros who'. destruct (decide (who' = who)) as [->|Hne]; [done|]. rewrite Hm by done.
    apply eq_None_not_Some. intros Hw. destruct Hne. by eapply one_running. }
  split; [by rewrite Hn| |].
  - intros who'. rewrite Hlock, Hnone. split; [done|by intros []].
  - intros who' t. by rewrite Hnone.
Qed.

Lemma start_ok n : own_key a n → bureau_ok (Bureau_start n).
Proof. intros Hk. split; [done| |by intros []]. intros who. split; [done|]. by destruct who; intros []. Qed.

Lemma round_turn_ok who s s' o : bureau_ok s → round_turn who s = (s', o) → bureau_ok s' ∧ writes s s'.
Proof.
  intros Hok. destruct who as [|k]; unfold round_turn.
  - destruct (bs_loop s) as [|renew again [|[r|f]]|] eqn:Hl; try (intros [= <- <-]; split; [done|by apply writes_nothing]).
    + intros [= <- <-]. split; [|by apply writes_nothing]. eapply (end_ok Loop r s); [done|by cbn; rewrite Hl|by apply moved_loop|done..|].
      destruct r, again; done.
    + destruct (f (bs_node s)) as [t n] eqn:Hf. intros [= <- <-].
      apply (turn_ok Loop f t n s); [done|by cbn; rewrite Hl|done|by apply moved_loop|done..].
  - destruct (bs_calls s !! k) as [[renew [|[r|f]]|]|] eqn:Hk; try (intros [= <- <-]; split; [done|by apply writes_nothing]).
    + intros [= <- <-]. split; [|by apply writes_nothing].
      eapply (end_ok (Caller k) r s); [done|by cbn; rewrite Hk|by eapply moved_call|done..|]. by cbn; rewrite list_lookup_insert_eq by (by eapply lookup_lt_Some).
    + destruct (f (bs_node s)) as [t n] eqn:Hf. intros [= <- <-].
      apply (turn_ok (Caller k) f t n s); [done|by cbn; rewrite Hk|done|by eapply moved_call|done..|]. by cbn; rewrite list_lookup_insert_eq by (by eapply lookup_lt_Some).
Qed.
Lemma lock_turn_ok who s s' o : bureau_ok s → lock_turn who s = (s', o) → bureau_ok s' ∧ writes s s'.
Proof.
  intros Hok. unfold lock_turn. destruct (bs_lock s) eqn:Hlock; [intros [= <- <-]; split; [done|by apply writes_nothing]|].
  destruct who as [|k].
  - destruct (bs_loop s) as [|renew again [|]|] eqn:Hl; intros [= <- <-]; (split; [|by apply writes_nothing]); try done.
    by apply (begin_ok Loop renew s); try done; apply moved_loop.
  - destruct (bs_calls s !! k) as [[renew [|]|]|] eqn:Hk; intros [= <- <-]; (split; [|by apply writes_nothing]); try done.
    apply (begin_ok (Caller k) renew s); [done|done|by eapply moved_call|done..|].
    by cbn; rewrite list_lookup_insert_eq by (by eapply lookup_lt_Some).
Qed.

(** A step that leaves the tasks and the steady connections alone. *)
Lemma still_ok s s' : bureau_ok s → log s' = log s → (∀ x, x ∈ clients (bs_node s) → x ∈ clients (bs_node s')) →
  (own_key a (bs_node s) → own_key a (bs_node s')) → bs_steady s' = bs_steady s → bs_lock s' = bs_lock s →
  (∀ who, running who s' = running who s) → bureau_ok s' ∧ writes s s'.
Proof.
  intros Hok Hl Hc Hk Hst Hlock Hrun. split; [|by apply writes_nothing]. apply (others_step s); [done| |by apply Hk, bo_key|done..].
  rewrite Hst. split_and!; [done..|]. intros [Hs Hk0]. split; [|by apply Hk]. intros x Hx%Hs. by apply Hc.
Qed.
Lemma step_ok e s s' o : proper_event e → bureau_ok s → bureau_step e s = (s', o) → bureau_ok s' ∧ writes s s'.
Proof.
  intros Hp Hok. destruct e as [client|id| | | | |ev| |renew|who|who|f]; cbn [bureau_step].
  - unfold register. intros [= <- <-]. apply still_ok; try done. intros x Hx. unfold clients. simpl. set_solver.
  - intros [= <- <-]. split; [|by apply writes_nothing]. apply (others_step s); [done| |exact (bo_key s Hok)|done..].
    split_and!; [intros x [_ Hx]%list_elem_of_filter; done|done|]. intros [Hs Hk]. split; [|done].
    intros x [Hne Hx]%list_elem_of_filter. apply list_elem_of_filter. split; [done|by apply Hs].
  - intros [= <- <-]. by apply still_ok.
  - intros [= <- <-]. by apply still_ok.
  - intros [= <- <-]. by apply still_ok.
  - intros [= <- <-]. by apply still_ok.
  - unfold loop_take. destruct (bs_loop s) eqn:Hl; try (intros [= <- <-]; by apply still_ok).
    destruct (is_ready ev s); intros [= <- <-]; [|by apply still_ok].
    destruct ev; (apply still_ok; try done; intros []; [by cbn; rewrite Hl|done]).
  - unfold loop_shutdown. intros [= <- <-]. destruct (bs_loop s) eqn:Hl; try by apply still_ok.
    destruct (bs_shutdown s); [|by apply still_ok]. apply still_ok; try done. intros []; [by cbn; rewrite Hl|done].
  - intros [= <- <-]. apply still_ok; try done. intros [|k]; [done|]. cbn.
    destruct (decide (k < length (bs_calls s))) as [Hk|Hk]; [by rewrite lookup_app_l|].
    rewrite lookup_app_r by lia. rewrite (proj2 (lookup_ge_None (bs_calls s) k)) by lia.
    by destruct (k - length (bs_calls s)) as [|[]].
  - by apply lock_turn_ok.
  - by apply round_turn_ok.
  - intros [= <- <-]. destruct (Hp (bs_node s)) as (Hl & Hc & Hk & _). apply still_ok; try done. cbn. by rewrite Hc.
Qed.

Lemma run_ok es s s' tr : Forall proper_event es → bureau_ok s → bureau_run es s = (s', tr) → bureau_ok s'.
Proof.
  revert s tr. induction es as [|e es IH]; intros s tr Hp Hok; cbn [bureau_run]; [by intros [= <- _]|].
  apply Forall_cons in Hp as [He Hp]. destruct (bureau_step e s) as [s1 o1] eqn:H1, (bureau_run es s1) as [s2 o2] eqn:H2.
  intros [= <- _]. apply (IH s1 o2); [done|by eapply step_ok in H1 as []|done].
Qed.


(** ** What becomes of a registration *)

Lemma bureau_run_snoc es e s : bureau_run (es ++ [e]) s =
  let '(s, tr) := bureau_run es s in let '(s', o) := bureau_step e s in (s', tr ++ o).
Proof.
  revert s. induction es as [|e0 es IH]; intros s; cbn [app bureau_run].
  - destruct (bureau_step e s) as [s' o]. by rewrite app_nil_r.
  - destruct (bureau_step e0 s) as [s1 o1]. rewrite IH. destruct (bureau_run es s1) as [s2 o2], (bureau_step e s2) as [s3 o3].
    by rewrite app_assoc.
Qed.

Definition notified (s : Bureau) : bool := pb_publish_notified (the_publisher s).
(** The round of the loop will serve the connection, or has begun with it. *)
Definition serving (x : N * Conn) (s : Bureau) : Prop :=
  ∃ renew again r, bs_loop s = AtRound renew again r ∧ (∀ t, r = HasLock t → x ∈ bs_steady s).
(** Since the registration, [tr] is what was seen: the notification waits, a round of
    the loop is on its way, or has ended. *)
Definition served (x : N * Conn) (tr : list Seen) (l : list write) : Prop :=
  ∃ p q r d, tr = p ++ STook EvPublish :: q ++ SEnded Loop r :: d ∧ ∀ epoch, r = Ok (Published epoch) → visible a epoch [x] l.
Definition on_its_way (x : N * Conn) (tr : list Seen) (s : Bureau) : Prop :=
  notified s = true ∨ (∃ p q, tr = p ++ STook EvPublish :: q) ∧ serving x s ∨ served x tr (log s).

Lemma served_more x tr o l ws : served x tr l → served x (tr ++ o) (l ++ ws).
Proof.
  intros (p & q & r & d & -> & Hv). exists p, q, r, (d ++ o). split; [by rewrite <-!app_assoc; cbn; rewrite <-app_assoc|].
  intros epoch Hr. by eapply visible_more; [|by apply Hv].
Qed.
Lemma took_more (tr o : list Seen) : (∃ p q, tr = p ++ STook EvPublish :: q) → ∃ p q, tr ++ o = p ++ STook EvPublish :: q.
Proof. intros (p & q & ->). exists p, (q ++ o). by rewrite <-app_assoc. Qed.

(** A step that moves neither the loop nor what [serving] looks at. *)
Lemma way_still x tr s s' o : writes s s' → (notified s = true → notified s' = true) → bs_loop s' = bs_loop s →
  (x ∈ bs_steady s → x ∈ bs_steady s') → on_its_way x tr s → on_its_way x (tr ++ o) s'.
Proof.
  intros (ws & Hl & _) Hn Hloop Hst [Hw|[[Ht (renew & again & r & Hr & Hs)]|Hd]].
  - left. auto.
  - right. left. split; [by apply took_more|]. exists renew, again, r. rewrite Hloop. split; [done|]. intros t Hrt. by eapply Hst, Hs.
  - right. right. rewrite Hl. by apply served_more.
Qed.

Lemma way_take x tr s ev s' o : bureau_ok s → writes s s' → loop_take ev s = (s', o) →
  on_its_way x tr s → on_its_way x (tr ++ o) s'.
Proof.
  intros Hok Hw. unfold loop_take. destruct (bs_loop s) eqn:Hl; try (intros [= <- <-]; by apply way_still).
  destruct (is_ready ev s) eqn:Hready; intros [= <- <-]; [|by apply way_still].
  destruct Hw as (ws & Hlog & _). intros [Hn|[[_ (renew & again & r & Hr & _)]|Hd]].
  - destruct ev; [|by left..]. right. left. split; [by exists tr, []|]. by eexists _, _, _.
  - congruence.
  - right. right. rewrite Hlog. by apply served_more.
Qed.
Lemma way_lock x tr s who s' o : bureau_ok s → writes s s' → x ∈ the_clients s → lock_turn who s = (s', o) →
  on_its_way x tr s → on_its_way x (tr ++ o) s'.
Proof.
  intros Hok Hw Hx. unfold lock_turn. destruct (bs_lock s) eqn:Hlock; [intros [= <- <-]; by apply way_still|].
  destruct who as [|k].
  - destruct (bs_loop s) as [|renew again [|]|] eqn:Hl; intros [= <- <-]; try by apply way_still.
    destruct Hw as (ws & Hlog & _). intros [Hn|[[Ht _]|Hd]]; [by left| |right; right; rewrite Hlog; by apply served_more].
    right. left. split; [by apply took_more|]. by eexists _, _, _.
  - destruct (bs_calls s !! k) as [[renew [|]|]|] eqn:Hk; intros [= <- <-]; by apply way_still.
Qed.
Lemma turn_keeps who s t : bureau_ok s → running who s = Some t →
  match t with Turn f => desk (f (bs_node s)).2 = desk (bs_node s) | Done r => round_done a r (bs_steady s) (bs_node s) end.
Proof.
  intros [_ _ Hr] [Hi Hs]%Hr. destruct t as [r|f]; [done|]. specialize (Hi _ _ (reflexivity _)).
  destruct (f (bs_node s)) as [t n]. by destruct Hi as [(_ & Hn & _)%(λ h, h Hs) _].
Qed.
Lemma serving_steady x s renew again t : serving x s → bs_loop s = AtRound renew again (HasLock t) → x ∈ bs_steady s.
Proof. intros (renew' & again' & r' & Hl' & Hs) Hl. rewrite Hl' in Hl. simplify_eq. by eapply Hs. Qed.
Lemma notified_node s s' : desk (bs_node s') = desk (bs_node s) → notified s = true → notified s' = true.
Proof. intros [= _ Hn]. unfold notice in Hn. unfold notified, the_publisher. by rewrite Hn. Qed.
Lemma way_turn x tr s who s' o : bureau_ok s → writes s s' → round_turn who s = (s', o) →
  on_its_way x tr s → on_its_way x (tr ++ o) s'.
Proof.
  intros Hok Hw. unfold round_turn. destruct who as [|k].
  - destruct (bs_loop s) as [|renew again [|t]|] eqn:Hl; try (intros [= <- <-]; by apply way_still).
    assert (running Loop s = Some t) as Hrun by (by cbn; rewrite Hl). pose proof (turn_keeps _ _ _ Hok Hrun) as Hk.
    destruct Hw as (ws & Hlog & _). destruct t as [r|f].
    + intros [= <- <-] [Hn|[[(p & q & ->) Hs]|Hd]]; [by left| |right; right; rewrite Hlog; by apply served_more].
      right. right. exists p, q, r, []. split; [by rewrite <-app_assoc|]. intros epoch Hr. destruct Hk as [_ Hv].
      specialize (Hv epoch Hr). rewrite <-(app_nil_r (log _)). eapply visible_more; [|exact Hv].
      intros y ->%list_elem_of_singleton. exact (serving_steady x s _ _ _ Hs Hl).
    + destruct (f (bs_node s)) as [t n]. intros [= <- <-] [Hn|[[Ht Hs]|Hd]].
      * left. by apply (notified_node s).
      * right. left. split; [by apply took_more|]. eexists _, _, _. split; [done|]. intros ? _. exact (serving_steady x s _ _ _ Hs Hl).
      * right. right. rewrite Hlog. by apply served_more.
  - destruct (bs_calls s !! k) as [[renew [|t]|]|] eqn:Hc; try (intros [= <- <-]; by apply way_still).
    assert (running (Caller k) s = Some t) as Hrun by (by cbn; rewrite Hc). pose proof (turn_keeps _ _ _ Hok Hrun) as Hk.
    destruct t as [r|f]; [intros [= <- <-]; by apply way_still|].
    destruct (f (bs_node s)) as [t n] eqn:Hf. intros [= <- <-]. apply way_still; try done. by apply (notified_node s).
Qed.

(** The list of connections, after a step. *)
Lemma turn_clients who s s' o : bureau_ok s → round_turn who s = (s', o) → the_clients s' = the_clients s.
Proof.
  intros Hok. assert (∀ f, running who s = Some (Turn f) → clients (f (bs_node s)).2 = clients (bs_node s)) as Hc.
  { intros f Hr. pose proof (turn_keeps _ _ _ Hok Hr) as [= Hc _]. exact Hc. }
  unfold round_turn. destruct who as [|k]; cbn in Hc.
  - destruct (bs_loop s) as [|renew again [|[r|f]]|] eqn:Hl; try (by intros [= <- <-]).
    specialize (Hc f eq_refl). destruct (f (bs_node s)) as [t n]. by intros [= <- <-].
  - destruct (bs_calls s !! k) as [[renew [|[r|f]]|]|] eqn:Hl; try (by intros [= <- <-]).
    specialize (Hc f eq_refl). destruct (f (bs_node s)) as [t n]. by intros [= <- <-].
Qed.
Lemma lock_clients who (s : Bureau) : the_clients (lock_turn who s).1 = the_clients s.
Proof.
  unfold lock_turn. destruct (bs_lock s); [done|]. destruct who as [|k]; [by destruct (bs_loop s) as [|? ? []|]|].
  by destruct (bs_calls s !! k) as [[? []|]|].
Qed.
Lemma take_clients ev (s : Bureau) : the_clients (loop_take ev s).1 = the_clients s.
Proof. unfold loop_take. destruct (bs_loop s); [|done..]. by destruct ev, (is_ready _ s). Qed.
Lemma step_clients x e s s' o : proper_event e → bureau_ok s → bureau_step e s = (s', o) → SUnregistered x.1 ∉ o →
  x ∈ the_clients s → x ∈ the_clients s'.
Proof.
  intros Hp Hok. destruct e as [client|id| | | | |ev| |renew|who|who|f]; cbn [bureau_step]; try (by intros [= <- <-]).
  - unfold register. intros [= <- <-] _ Hx. unfold the_clients. cbn. set_solver.
  - intros [= <- <-] Hne Hx. apply list_elem_of_filter. split; [|done]. intros Heq. apply Hne. rewrite Heq. set_solver.
  - intros Hs _. by rewrite <-(take_clients ev s), Hs.
  - unfold loop_shutdown. intros [= <- <-] _. by destruct (bs_loop s), (bs_shutdown s).
  - intros Hs _. by rewrite <-(lock_clients who s), Hs.
  - intros Hs _. by rewrite (turn_clients _ _ _ _ Hok Hs).
  - intros [= <- <-] _ Hx. destruct (Hp (bs_node s)) as (_ & Hc & _). unfold the_clients, the_publisher. cbn.
    unfold clients in Hc. by rewrite Hc.
Qed.
Lemma step_way x tr e s s' o : proper_event e → bureau_ok s → bureau_step e s = (s', o) → SUnregistered x.1 ∉ o →
  x ∈ the_clients s → on_its_way x tr s → on_its_way x (tr ++ o) s'.
Proof.
  intros Hp Hok Hstep Hne Hx. pose proof (step_ok _ _ _ _ Hp Hok Hstep) as [_ Hw]. revert Hstep.
  destruct e as [client|id| | | | |ev| |renew|who|who|f]; cbn [bureau_step].
  - unfold register. intros [= <- <-]. by apply way_still.
  - intros [= <- <-]. apply way_still; try done. intros Hin. apply list_elem_of_filter. split; [|done].
    intros Heq. apply Hne. rewrite Heq. set_solver.
  - intros [= <- <-]. by apply way_still.
  - intros [= <- <-]. by apply way_still.
  - intros [= <- <-]. by apply way_still.
  - intros [= <- <-]. by apply way_still.
  - by apply way_take.
  - intros [= <- <-]. unfold loop_shutdown in *. destruct (bs_loop s) eqn:Hl; [|by apply way_still..].
    destruct (bs_shutdown s); [|by apply way_still].
    destruct Hw as (ws & Hlog & _). intros [Hn|[[_ (? & ? & ? & ? & _)]|Hd]]; [by left|congruence|].
    right. right. rewrite Hlog. by apply served_more.
  - intros [= <- <-]. by apply way_still.
  - by apply way_lock.
  - by apply way_turn.
  - intros [= <- <-]. destruct (Hp (bs_node s)) as (_ & _ & _ & Hn). by apply way_still.
Qed.

(** Only a registration is seen as one, and it leaves a notification. *)
Lemma registration_seen e (s s' : Bureau) p q id c : bureau_step e s = (s', p ++ SRegistered id c :: q) →
  q = [] ∧ (id, c) ∈ the_clients s' ∧ notified s' = true.
Proof.
  assert (∀ y, p ++ SRegistered id c :: q = [y] → y = SRegistered id c ∧ q = []) as Hone.
  { intros y H. destruct p as [|? p]; cbn in H; [by simplify_eq|]. injection H as _ H. by destruct p. }
  destruct e as [client|id'| | | | |ev| |renew|who|who|f]; cbn [bureau_step];
    try (intros [= _ H]; by destruct p).
  - unfold register. intros [= <- H]. symmetry in H. apply Hone in H as [[= <- <-] ->].
    split; [done|]. split; [|done]. unfold the_clients. cbn. set_solver.
  - intros [= _ H]. symmetry in H. by apply Hone in H as [? _].
  - unfold loop_take. destruct (bs_loop s), (is_ready ev s); intros [= _ H]; try (by destruct p). symmetry in H. by apply Hone in H as [? _].
  - unfold lock_turn. destruct (bs_lock s); [intros [= _ H]; by destruct p|]. destruct who as [|k].
    + destruct (bs_loop s) as [|? ? []|]; intros [= _ H]; try (by destruct p). symmetry in H. by apply Hone in H as [? _].
    + destruct (bs_calls s !! k) as [[? []|]|]; intros [= _ H]; try (by destruct p). symmetry in H. by apply Hone in H as [? _].
  - unfold round_turn. destruct who as [|k].
    + destruct (bs_loop s) as [|? ? [|[r|g]]|]; [| | |destruct (g (bs_node s))|]; intros [= _ H]; try (by destruct p).
      symmetry in H. by apply Hone in H as [? _].
    + destruct (bs_calls s !! k) as [[? [|[r|g]]|]|]; [| |destruct (g (bs_node s))| |]; intros [= _ H]; try (by destruct p).
      symmetry in H. by apply Hone in H as [? _].
Qed.

Lemma run_way es (n : Node W) s tr1 tr2 id c : own_key a n → Forall proper_event es →
  bureau_run es (Bureau_start n) = (s, tr1 ++ SRegistered id c :: tr2) → SUnregistered id ∉ tr2 →
  (id, c) ∈ the_clients s ∧ on_its_way (id, c) tr2 s.
Proof.
  intros Hk. revert s tr2. induction es as [|e es IH] using rev_ind; intros s tr2 Hp.
  { cbn. intros [= _ H]. by destruct tr1. }
  apply Forall_app in Hp as [Hp He]. apply Forall_cons in He as [He _]. rewrite bureau_run_snoc.
  destruct (bureau_run es (Bureau_start n)) as [s1 tr] eqn:Hrun, (bureau_step e s1) as [s2 o] eqn:Hstep.
  intros [= <- [(k & Htr & Ho)|(k & Htr & Ho)]%app_eq_inv] Hne.
  - destruct k as [|y k]; cbn in Ho.
    + subst o. eapply (registration_seen _ _ _ []) in Hstep as (-> & Hin & Hn). split; [done|]. by left.
    + injection Ho as <- ->. apply not_elem_of_app in Hne as [Hk1 Ho]. subst tr.
      destruct (IH s1 k) as [Hin Hway]; [done..|]. assert (bureau_ok s1) as Hok by (by eapply run_ok, Hrun; [|apply start_ok]).
      split; [by eapply (step_clients (id, c))|by eapply (step_way (id, c))].
  - subst. apply registration_seen in Hstep as (-> & Hin & Hn). split; [done|]. by left.
Qed.

End bureau.
