(* ===== verification/PublishExamples.v ===== *)
(** * Rounds among other tasks, on concrete nodes

    A node with two connections, the loop of [run], a request of an administrator and
    connections that come and go, taking turns in ways that matter. *)
From S2P Require Import Prelude Turns Fsutil Crypto Authority Replay Store StoreMerge Types StateMachine Transport.
From S2P Require Import AdminV2 Protocol Admin Replicate PasswordJoin Context Publisher PublisherProps.
From S2P Require Import PublishTurns PublishTurnsProps PublishRely PublishBureau.

Section bureau_examples.
Import Toy.
#[local] Existing Instance toy_coset.
#[local] Existing Instance sim_clock.
#[local] Existing Instance sim_raft.
#[local] Instance honest_client : BackendClient Sim := sim_client true.
#[local] Instance honest_laws : DhtLaws Sim := sim_laws true.

Definition turns (who : Task) (k : nat) : list (BureauEvent (W := Sim)) := replicate k (EvTurn who).
Definition ex_authority : Authority := MkAuthority ex_seed "net" (net_hash "net").
Definition ex_bureau : Bureau (W := Sim) := Bureau_start (ex_node false []).
Lemma ex_key raft l : own_key ex_authority (ex_node raft l).
Proof. intros a' Ha. vm_compute in Ha. injection Ha as <-. reflexivity. Qed.

(** A round of an administrator; a third connection registers in the middle of it, and
    the loop serves it in the round after. *)
Definition ex_late : list (BureauEvent (W := Sim)) :=
  [EvCall true; EvLock (Caller 0)] ++ turns (Caller 0) 9 ++ [EvRegister 9%N; EvTake EvPublish; EvLock Loop]
    ++ turns (Caller 0) 30 ++ [EvLock Loop] ++ turns Loop 40.
(** What a connection has taken, by its keys. *)
Definition keys_of (c : N) (s : Bureau (W := Sim)) : list string :=
  (λ x, x.1.2) <$> filter (λ x, x.1.1 = c) (taken (bs_node s)).
Definition ex_index : string := index_key ex_authority.
Definition ex_whitelist : string := match service_key ex_authority "svc" with Ok k => k | Err _ => "" end.

(** Between the rounds the third connection has the index and not the whitelist it
    names; the round of its own brings it both, in order. *)
Example late_connection :
  keys_of 9 (bureau_run (firstn 44 ex_late) ex_bureau).1 = [ex_index]
  ∧ keys_of 9 (bureau_run ex_late ex_bureau).1 = [ex_index; ex_whitelist; ex_index].
Proof. vm_compute. split; reflexivity. Qed.

(** The first turn that hands out the index, with the second connection gone. *)
Definition ex_before : list (BureauEvent (W := Sim)) :=
  [EvCall true; EvLock (Caller 0); EvTake EvPublish; EvLock Loop] ++ turns (Caller 0) 10 ++ [EvUnregister 2%N] ++ turns (Caller 0) 2.


Lemma ok_or_else {E A} (r : result E A) d : is_ok r = true → r = Ok (match r with Ok x => x | Err _ => d end).
Proof. by destruct r. Qed.
(** Both connections go while the round waits. *)
Lemma published_to_nobody_witness :
  let gone := bs_node (bureau_run [EvUnregister 1%N; EvUnregister 2%N] ex_bureau).1 in
  ∃ n', finish (next_turn (round_turns false) (ex_node false [])).1 gone = (Ok (Published 4), n')
    ∧ dht_log (nd_world n') = [] ∧ last_epoch n' = Some 4%N ∧ ps_ok (pb_status (ctx_publisher (nd_ctx n'))) = true.
Proof.
  intros gone.
  pose proof (ok_or_else (sign_whitelists ex_authority (store_services (ctx_store (nd_ctx gone)))) ([], [])) as Hw.
  set (se := match sign_whitelists _ _ with Ok x => x | Err _ => _ end) in Hw.
  pose proof (ok_or_else (sign_index ex_authority (MkIndexDoc 4 (sat_add64 1000 3600) se.2)) "") as Hi.
  assert (s_index_version (ctx_store (nd_ctx gone)) = 4%N) as Hv by (vm_compute; reflexivity).
  assert (dht_log (nd_world gone) = []) as Hl by (vm_compute; reflexivity).
  rewrite <-Hv, <-Hl.
  eapply (published_to_nobody (ex_node false []) gone ex_authority se.1 se.2).
  - discriminate.
  - reflexivity.
  - reflexivity.
  - vm_compute. reflexivity.
  - rewrite Hw by (vm_compute; reflexivity). by destruct se.
  - apply Hi. vm_compute. reflexivity.
Defined.
End bureau_examples.
