(* ===== verification/Sync.v ===== *)
(** * Exchanges between sidecars: [src/src/replicate.rs], the network side

    Broadcast of a change, and the pull of a snapshot from a peer.  Requests and
    answers are JSON; the answers of a peer come from the world. *)
From S2P Require Import Prelude Fsutil Crypto Authority Replay Store StoreMerge StoreOps Types StateMachine.
From S2P Require Import Transport AdminV2 Protocol Admin Replicate PasswordJoin Context.

(** [Vec::dedup]: drops an element equal to the one before it. *)
Fixpoint dedup (l : list string) : list string :=
  match l with
  | [] => []
  | a :: l =>
      match l with
      | b :: _ => if bool_decide (a = b) then dedup l else a :: dedup l
      | [] => [a]
      end
  end.

(** A change to send to the peers. *)
Record Change := MkChange {
  cg_service : string; cg_version : N; cg_members : list string; cg_index_version : N; cg_deleted : bool
}.

(** Swaps of the Fisher-Yates shuffle: the positions [j] drawn for [i] from the last
    down to the first but one. *)
Definition swap (i j : nat) (l : list string) : list string :=
  match l !! i, l !! j with
  | Some a, Some b => <[j := a]> (<[i := b]> l)
  | _, _ => l
  end.
Fixpoint shuffle (i : nat) (draws : list N) (l : list string) : list string :=
  match i with
  | O => l
  | S i' =>
      let '(d, draws) := match draws with [] => (0%N, []) | d :: ds => (d, ds) end in
      shuffle i' draws (swap i (N.to_nat (d mod (N.of_nat i + 1))) l)
  end.

Section sync.
Context `{CR : Crypto, CT : Codec Toml StoreSnapshot, CS : Codec Cbor StoreSnapshot}.
Context `{JM : Codec Json ReplicateMsg, JQ : Codec Json SyncRequest, JP : Codec Json SyncResponse}.
Context {W : Type} `{WC : Clock W, WB : BackendClient W}.

(** The providers of the service, without the node itself (if it knows its own
    id), sorted and without repetitions; a failed discovery finds nobody. *)
Definition discover_peers (client : Conn) (service : string) (w : W) : list string * W :=
  let '(found, w) := client_discover_providers client service w in
  let peers := match found with Ok peers => peers | Err _ => [] end in
  let '(me, w) := client_whoami client w in
  let peers := match me with Ok me => filter (λ p, p ≠ me) peers | Err _ => peers end in
  (dedup (sort_strings peers), w).

Definition broadcast_to (a : RepAuth) (client : Conn) (service_name rng : string) (ch : Change) (peer : string) (w : W)
    : W :=
  let '(now, w) := now_unix w in
  let m := MkReplicateMsg OP_REPLICATE (cg_service ch) (cg_version ch) (cg_members ch) (cg_index_version ch)
             (cg_deleted ch) (random_b64 rng) now "" in
  let m := MkReplicateMsg (rm_op m) (rm_service m) (rm_version m) (rm_members m) (rm_index_version m) (rm_deleted m)
             (rm_nonce m) (rm_ts m) (sign_replicate a m) in
  match encode_to Json m with
  | Err _ => w
  | Ok payload => (client_service_request_to client service_name peer payload w).2
  end.
(** [rngs] are the random bytes drawn, one string per peer. *)
Fixpoint broadcast_all (a : RepAuth) (client : Conn) (service_name : string) (rngs : list string) (ch : Change)
    (peers : list string) (w : W) : W :=
  match peers with
  | [] => w
  | peer :: peers =>
      broadcast_all a client service_name (tail rngs) ch peers
        (broadcast_to a client service_name (default "" (head rngs)) ch peer w)
  end.
Definition broadcast (c : AuthContext) (client : Conn) (rngs : list string) (ch : Change) (w : W) : W :=
  let '(peers, w) := discover_peers client (ctx_service_name c) w in
  broadcast_all (ctx_replicate c) client (ctx_service_name c) rngs ch peers w.

Definition sidecar_text (e : SidecarError) : string := "[" +:+ se_code e +:+ "] " +:+ se_message e.

Definition sync_with_peer (client : Conn) (rng peer : string) : ST (Node W) string bool :=
  c ← ctx_get id;
  let nonce := random_b64 rng in
  ts ← ask now_unix;
  let req := MkSyncRequest OP_SYNC_REQUEST (ctx_network c) nonce ts
               (sign_sync_request (ctx_replicate c) (ctx_network c) nonce ts) in
  payload ← st_lift (encode_to Json req);
  bytes ← st_map_err sidecar_text (call (client_service_request_to client (ctx_service_name c) peer payload));
  resp ← st_lift (decode_from Json (A := SyncResponse) bytes);
  st_lift (map_err rep_error_text (verify_sync_response (ctx_replicate c) (ctx_network c) nonce resp)) ;;
  changed ← st_map_err store_error_text (on_store (merge_snapshot (sp_snapshot resp)));
  (if changed : bool then publisher_modify notify_publish else mret ()) ;;
  mret changed.

(** The first peer that answers is the one that is synchronised with. *)
Fixpoint sync_peers (client : Conn) (rngs peers : list string) : ST (Node W) string bool := λ n,
  match peers with
  | [] => (Ok false, n)
  | peer :: peers =>
      match sync_with_peer client (default "" (head rngs)) peer n with
      | (Ok changed, n) => (Ok changed, n)
      | (Err _, n) => sync_peers client (tail rngs) peers n
      end
  end.
Definition sync_once (client : Conn) (draws : list N) (rngs : list string) : ST (Node W) string bool := λ n,
  let '(peers, w) := discover_peers client (ctx_service_name (nd_ctx n)) (nd_world n) in
  let n := set_world n w in
  if bool_decide (peers = []) then (Ok false, n)
  else sync_peers client rngs (shuffle (length peers - 1) draws peers) n.

(** One turn of [sync_loop]: with a connection, one pull. *)
Definition sync_tick (draws : list N) (rngs : list string) (n : Node W) : Node W :=
  match any_client (ctx_publisher (nd_ctx n)) with
  | None => n
  | Some client => (sync_once client draws rngs n).2
  end.
End sync.
