(* ===== verification/Service.v ===== *)
(** * Service requests: [src/src/service.rs]

    The dispatch of an inbound request, the password-managed operations, the
    replication handlers, and the administrator requests of the cluster mode.
    Requests and replies are JSON values; the log is left out here ([Trail] has the
    audit lines).  The handlers of the Raft RPC, of the seed exchange, of the
    password-based joining and of the member operations are parameters here. *)
From S2P Require Import Prelude Fsutil Crypto Authority Replay Store Types StateMachine Transport AdminV2.
From S2P Require Import Join Seed Protocol Admin Replicate PasswordJoin Context Publisher Sync.

(** [serde_json::Value]; an object is its fields, the encoder orders them. *)
Inductive json :=
  | JNull | JBool (b : bool) | JNum (n : N) | JStr (s : string) | JArr (l : list json)
  | JObj (fields : list (string * json)).

Definition obj_get (key : string) (v : json) : option json :=
  match v with
  | JObj fields => (λ x, x.2.2) <$> list_find (λ f, f.1 = key) fields
  | _ => None
  end.
Definition as_str (v : json) : option string := match v with JStr s => Some s | _ => None end.
Definition jopt {A} (f : A → json) (o : option A) : json := match o with Some a => f a | None => JNull end.
(** [Map::insert]. *)
Definition obj_insert (key : string) (v : json) (o : json) : json :=
  match o with
  | JObj fields => JObj (filter (λ f, f.1 ≠ key) fields ++ [(key, v)])
  | _ => o
  end.

(** [serde_json::from_value] and [to_value] of the derived types. *)
Class FromValue (A : Type) := from_value : json → result string A.
Class ToValue (A : Type) := to_value : A → json.

(** The errors of the components as replies. *)
Definition admin_error (e : AdminError) : SidecarError :=
  sidecar_error
    match e with
    | AeEmptyPassword => "empty_password"
    | AeKdf => "kdf_error"
    | AeBadMac => "bad_mac"
    | AeExpiredTimestamp => "expired_timestamp"
    | AeReplay => "replay"
    | AeBadNonce => "bad_nonce"
    end (admin_error_text e).
Definition store_error (e : StoreError) : SidecarError :=
  sidecar_error
    match e with
    | ServiceNotFound _ => "not_found"
    | ServiceExists _ => "already_exists"
    | InvalidService _ => "invalid_service"
    | InvalidPeer _ => "invalid_peer"
    | NetworkMismatch _ _ => "network_mismatch"
    | StoreParse _ => "state_error"
    | StoreIo _ => "io_error"
    | StorePanic _ => "panic"
    end (store_error_text e).
Definition rep_error (e : RepError) : SidecarError :=
  sidecar_error
    match e with
    | ReEmptyPassword => "rep_empty_password"
    | ReKdf => "rep_kdf_error"
    | ReBadMac => "rep_bad_mac"
    | ReExpiredTimestamp => "rep_expired_timestamp"
    | ReReplay => "rep_replay"
    | ReBadNonce => "rep_bad_nonce"
    | ReDecode _ => "rep_decode_error"
    | ReStore _ => "rep_store_error"
    end (rep_error_text e).
Definition admin_v2_error (e : AdminV2Error) : SidecarError := sidecar_error (admin_v2_code e) (admin_v2_text e).

(** [to_lowercase] on the ASCII letters, and [contains]: the two texts looked for
    are ASCII and no other letter lowers to one of theirs. *)
Definition lower (c : ascii) : ascii :=
  if byte_in 65 90 c then ascii_of_N (N_of_ascii c + 32) else c.
Fixpoint to_lowercase (s : string) : string :=
  match s with EmptyString => "" | String c s => String (lower c) (to_lowercase s) end.
Fixpoint str_contains (p s : string) : bool :=
  String.prefix p s || match s with EmptyString => false | String _ s => str_contains p s end.
Definition map_admin_apply_error (e : string) : SidecarError :=
  let l := to_lowercase e in
  if str_contains "forwardtoleader" l || str_contains "not leader" l
  then sidecar_error "not_leader" e else sidecar_error "apply_timeout" e.

Definition publish_error (code : string) (error : PublishError) (policy_epoch : N) : SidecarError :=
  with_publish_error
    (sidecar_error code ("policy_epoch=" +:+ pretty policy_epoch +:+ " publish_error=" +:+ pe_message error))
    (pe_message error).

(** ** Classes of administrator operations *)

Inductive AdminOpClass := OpRead | OpWrite | OpUnknown.
Global Instance AdminOpClass_eq_dec : EqDecision AdminOpClass.
Proof. solve_decision. Defined.

Definition is_mutating_op (op : string) : bool :=
  bool_decide (op ∈ ["add_members"; "remove_members"; "set_members"; "create_service"; "delete_service"]).
Definition classify_admin_op (op : string) : AdminOpClass :=
  if bool_decide (op ∈ ["status"; "export_authority_pubkey"; "list_services"; "list_members"]) then OpRead
  else if bool_decide (op = "publish_now") then OpWrite
  else if is_mutating_op op then OpWrite else OpUnknown.
Definition is_member_management_op (op : string) : bool :=
  bool_decide (op ∈ ["add_learner"; "promote_voter"; "demote_voter"; "remove_member"; "issue_join_token"]).

Definition require_service_v2 (req : AdminRequestV2) : result SidecarError string :=
  if str_is_empty (aq_service req) then Err (sidecar_error "bad_request" "缺少 'service' 字段") else Ok (aq_service req).
Definition require_service (req : ManagementRequest) : result SidecarError string :=
  if str_is_empty (mr_service req) then Err (sidecar_error "bad_request" "缺少 'service' 字段") else Ok (mr_service req).

Definition policy_command_for (req : AdminRequestV2) : result SidecarError PolicyCommand :=
  service ← require_service_v2 req;
  let peers := canonical_peers (aq_peers req) in
  let op := aq_op req in
  if bool_decide (op = "add_members") then Ok (AddMembers service peers)
  else if bool_decide (op = "remove_members") then Ok (RemoveMembers service peers)
  else if bool_decide (op = "set_members") then Ok (SetMembers service peers)
  else if bool_decide (op = "create_service") then Ok (CreateService service peers)
  else if bool_decide (op = "delete_service") then Ok (DeleteService service)
  else Err (sidecar_error "unknown_op" ("未知写指令: " +:+ op)).

Definition with_raft_meta (value : json) (policy_epoch : N) (applied_index : option N) (leader : option string)
    (term : N) (stale : bool) : json :=
  obj_insert "stale" (JBool stale)
    (obj_insert "term" (JNum term)
      (obj_insert "leader" (jopt JStr leader)
        (obj_insert "applied_index" (jopt JNum applied_index)
          (obj_insert "policy_epoch" (JNum policy_epoch) value)))).

Definition member_json (m : RaftStatusMember) : json :=
  JObj [("node_id", JNum (sb_node_id m)); ("peer_id", JStr (sb_peer_id m)); ("voter", JBool (sb_voter m))].
Definition with_raft_status (value : json) (policy_epoch : N) (s : RaftStatusSnapshot) : json :=
  foldl (λ o '(k, v), obj_insert k v o) value
    [("policy_epoch", JNum policy_epoch); ("cluster_id", JStr (ss_cluster_id s)); ("node_id", JNum (ss_node_id s));
     ("leader", jopt JStr (ss_leader s)); ("term", JNum (ss_term s)); ("state", JStr (ss_state s));
     ("applied_index", jopt JNum (ss_applied_index s)); ("last_log_index", jopt JNum (ss_last_log_index s));
     ("voters", JArr (member_json <$> ss_voters s)); ("learners", JArr (member_json <$> ss_learners s));
     ("stale", JBool (ss_stale s)); ("health", JStr (health s))].

(** ** The cluster runtime, as the handlers use it *)

Record MembershipView := MkMembershipView {
  mv_voters : list MemberInfo; mv_learners : list MemberInfo; mv_leader : option N; mv_term : N
}.
Definition mv_all (v : MembershipView) : list MemberInfo := mv_voters v ++ mv_learners v.
Definition mv_find (v : MembershipView) (node_id : N) : option MemberInfo :=
  snd <$> list_find (λ m, mi_node_id m = node_id) (mv_all v).
Definition member_le (a b : MemberInfo) : Prop := (mi_node_id a ≤ mi_node_id b)%N.
Global Instance member_le_dec : RelDecision member_le.
Proof. intros a b. unfold member_le. apply N.le_dec. Defined.
Definition mv_is_voter (v : MembershipView) (node_id : N) : bool :=
  existsb (λ m, (mi_node_id m =? node_id)%N) (mv_voters v).
Definition mv_is_member (v : MembershipView) (node_id : N) : bool := bool_decide (is_Some (mv_find v node_id)).

(** What [RaftRuntime] offers beyond [AdminRaft]; [rt_ready] is whether it has been
    started. *)
Class RaftRuntime (W : Type) := {
  rt_ready : W → bool;
  rt_cluster_id : W → string;
  rt_peer_id : W → string;
  rt_membership_view : W → MembershipView * W;
  rt_leader_id : W → option N * W;
  rt_add_learner_node : N → RaftNode → ST W string MemberInfo;
  rt_status_snapshot : W → RaftStatusSnapshot * W;
  rt_uptime_secs : W → N;
  spawn_broadcast : Conn → Change → W → W;
}.

Section service.
Context `{CR : Crypto, CO : Coset, CI : Codec Cbor IndexDoc, CW : Codec Cbor WhitelistDoc,
  CT : Codec Toml StoreSnapshot, CS : Codec Cbor StoreSnapshot, CM : Codec Json MacInput,
  CAS : Codec Cbor AdminSigned, CAI : Codec Cbor AdminIdentity, CTS : Codec Cbor JoinTokenSigned,
  CJS : Codec Cbor JoinSigned}.
Context `{JV : Codec Json json, JE : Codec Json ForwardedAdminEnvelope, JJ : Codec Json RaftJoinRequest,
  JR : Codec Json RaftJoinResponse}.
Context `{FM : FromValue ManagementRequest, FA : FromValue AdminRequestV2, FR : FromValue ReplicateMsg,
  FS : FromValue SyncRequest, FJ : FromValue RaftJoinRequest, TP : ToValue SyncResponse}.
Context {W : Type} `{WC : Clock W, WR : AdminRaft W, WB : BackendClient W, WT : RaftRuntime W}.

Abbreviation handler := (ST (Node W) SidecarError string).

(** Handlers of other files. *)
Variable handle_rpc : string → handler.
Variable handle_seed_delivery handle_seed_drop handle_join : json → handler.
Variable execute_member_write : AdminRequestV2 → VerifiedAdmin → option string → handler.

Definition encode (v : json) : string := match encode_to Json v with Ok s => s | Err _ => "{}" end.
Definition query {A} (f : W → A) : ST (Node W) SidecarError A := λ n, (Ok (f (nd_world n)), n).

(** ** Replies about the store *)

Definition jnat (n : nat) : json := JNum (N.of_nat n).
Definition status (n : Node W) : json :=
  let c := nd_ctx n in
  let s := ctx_store c in
  JObj [("network", JStr (ctx_network c));
        ("authority_public_key", jopt JStr (authority_public_key_b64 c));
        ("has_authority_seed", JBool (has_authority_seed c));
        ("index_version", JNum (s_index_version s));
        ("services", JObj ((λ name, (name, JObj [("version", JNum (default 0%N (version s name)));
                                                  ("members", jnat (default 0 (member_count s name)))]))
                             <$> service_names s));
        ("expires_secs", JNum (ctx_expires_secs c));
        ("renew_secs", JNum (ctx_renew_secs c));
        ("connections", jnat (connection_count (ctx_publisher c)));
        ("uptime_secs", JNum (rt_uptime_secs (nd_world n)))].
Definition list_services (c : AuthContext) : json :=
  JObj [("services", JArr (JStr <$> service_names (ctx_store c)))].
Definition change_reply (c : AuthContext) (service : string) (v : N) : json :=
  JObj [("service", JStr service); ("version", JNum v);
        ("members", jnat (default 0 (member_count (ctx_store c) service)));
        ("index_version", JNum (s_index_version (ctx_store c)))].

(** ** Replication *)

Definition handle_replicate (value : json) : handler :=
  m ← st_lift (map_err (λ e, sidecar_error "bad_request" ("复制请求解析失败: " +:+ e)) (from_value (A := ReplicateMsg) value));
  now ← ask now_unix;
  st_map_err rep_error (on_replicate (verify_replicate m now)) ;;
  changed ← st_map_err store_error
    (on_store (apply_replicated (rm_service m) (rm_version m) (rm_members m) (rm_index_version m) (rm_deleted m)));
  (if changed : bool then publisher_modify notify_publish else mret ()) ;;
  mret (encode (JObj [("applied", JBool changed); ("service", JStr (rm_service m)); ("version", JNum (rm_version m))])).

Definition handle_sync_request (value : json) : handler :=
  req ← st_lift (map_err (λ e, sidecar_error "bad_request" ("同步请求解析失败: " +:+ e)) (from_value (A := SyncRequest) value));
  now ← ask now_unix;
  st_map_err rep_error (on_replicate (verify_sync_request req now)) ;;
  c ← ctx_get id;
  let snap := snapshot (ctx_store c) in
  ts ← ask now_unix;
  mac ← st_lift (map_err rep_error (sign_sync_response (ctx_replicate c) (ctx_network c) (sq_nonce req) snap ts));
  mret (encode (to_value (MkSyncResponse OP_SYNC_RESPONSE (sq_nonce req) snap ts mac))).

(** ** Password-managed operations *)

Definition after_change (client : option Conn) (ch : Change) : ST (Node W) SidecarError unit :=
  publisher_modify notify_publish ;;
  c ← ctx_get id;
  if ctx_raft_required c then mret ()
  else match client with
       | Some client => ask (λ w, ((), spawn_broadcast client ch w))
       | None => mret ()
       end.

(** The body the four member operations share. *)
Definition member_change (client : option Conn) (service : string) (op : ST (Store * Fs) StoreError N) : handler :=
  v ← st_map_err store_error (on_store op);
  c ← ctx_get id;
  let ms := default [] (members (ctx_store c) service) in
  after_change client (MkChange service v ms (s_index_version (ctx_store c)) false) ;;
  c ← ctx_get id;
  mret (encode (change_reply c service v)).

Definition management_op (client : option Conn) (req : ManagementRequest) : handler :=
  let op := mr_op req in
  if bool_decide (op = "status") then λ n, (Ok (encode (status n)), n)
  else if bool_decide (op = "export_authority_pubkey") then
    c ← ctx_get id;
    mret (encode (JObj [("network", JStr (ctx_network c));
                        ("public_key", JStr (default "" (authority_public_key_b64 c)))]))
  else if bool_decide (op = "list_services") then
    c ← ctx_get id; mret (encode (list_services c))
  else if bool_decide (op = "list_members") then
    service ← st_lift (require_service req);
    c ← ctx_get id;
    match version (ctx_store c) service, members (ctx_store c) service with
    | Some v, Some ms =>
        mret (encode (JObj [("service", JStr service); ("version", JNum v); ("members", JArr (JStr <$> ms))]))
    | _, _ => st_err (sidecar_error "not_found" ("服务不存在: " +:+ service))
    end
  else if bool_decide (op = "add_members") then
    service ← st_lift (require_service req);
    member_change client service (Store.add_members service (mr_peers req))
  else if bool_decide (op = "remove_members") then
    service ← st_lift (require_service req);
    member_change client service (Store.remove_members service (mr_peers req))
  else if bool_decide (op = "set_members") then
    service ← st_lift (require_service req);
    member_change client service (Store.set_members service (mr_peers req))
  else if bool_decide (op = "create_service") then
    service ← st_lift (require_service req);
    member_change client service (Store.create_service service (mr_peers req))
  else if bool_decide (op = "delete_service") then
    service ← st_lift (require_service req);
    tombstone ← st_map_err store_error (on_store (Store.delete_service service));
    c ← ctx_get id;
    let index_version := s_index_version (ctx_store c) in
    after_change client (MkChange service tombstone [] index_version true) ;;
    mret (encode (JObj [("service", JStr service); ("index_version", JNum index_version)]))
  else if bool_decide (op = "publish_now") then
    publisher_modify notify_publish ;;
    mret (encode (JObj [("scheduled", JBool true)]))
  else st_err (sidecar_error "unknown_op" ("未知指令: " +:+ op)).

(** ** Administrator requests of the cluster mode *)

Definition raft_not_ready : SidecarError :=
  sidecar_error "raft_not_ready" "Raft 控制面尚未就绪，拒绝管理请求（fail-closed）".
Definition admin_raft : ST (Node W) SidecarError unit :=
  c ← ctx_get id;
  if ctx_admin_raft c then mret () else st_err raft_not_ready.

(** A request of [publish_now] on the leader. *)
Definition execute_publish_now (req : AdminRequestV2) : handler := λ n,
  let '(outcome, n) := publish_now true n in
  let '(state, w) := policy_snapshot (nd_world n) in
  let '(applied, w) := raft_applied_index w in
  let n := set_world n w in
  match outcome with
  | Ok NotLeader => (Err (sidecar_error "not_leader" "本节点已不是 leader，放弃 publish_now"), n)
  | Ok outcome =>
      (Ok (encode (JObj [("published", JBool match outcome with Published _ => true | _ => false end);
                         ("policy_epoch", JNum (p_policy_epoch state)); ("raft_index", jopt JNum applied);
                         ("request_id", JStr (aq_request_id req))])), n)
  | Err e => (Err (publish_error "publish_failed" e (p_policy_epoch state)), n)
  end.

(** The reply to a command the state machine has answered; a change is published
    before it is acknowledged.  (The error text for an unexpected result leaves out
    the debug form of the result.) *)
Definition admin_reply (proposal : AdminProposal) : handler :=
  match ap_result proposal with
  | AdminResult request_id policy_epoch raft_index duplicate outcome =>
      let effective_index := if duplicate : bool then raft_index else ap_raft_index proposal in
      match outcome with
      | OutApplied service version changed => λ n,
          let '(published, n) := if changed : bool then publish_now false n else (Ok NoConnections, n) in
          match published with
          | Ok NotLeader =>
              (Err (with_publish_error (sidecar_error "committed_but_publish_failed" "状态已提交，但发布前已失去 leadership")
                      "not_leader"), n)
          | Ok _ =>
              (Ok (encode (JObj [("request_id", JStr request_id); ("service", jopt JStr service);
                                 ("version", jopt JNum version); ("changed", JBool changed);
                                 ("policy_epoch", JNum policy_epoch); ("raft_index", JNum effective_index);
                                 ("duplicate", JBool duplicate)])), n)
          | Err e => (Err (publish_error "committed_but_publish_failed" e policy_epoch), n)
          end
      | OutRejected code message => st_err (sidecar_error code message)
      end
  | _ => st_err (sidecar_error "raft_unexpected_result" "非管理员 apply 结果")
  end.

Definition execute_root_write (req : AdminRequestV2) (verified : VerifiedAdmin) (edge_peer : option string) : handler :=
  ask leader_peer ;;
  if is_member_management_op (aq_op req) then execute_member_write req verified edge_peer
  else if bool_decide (aq_op req = "publish_now") then execute_publish_now req
  else
    command ← st_lift (policy_command_for req);
    proposal ← st_map_err map_admin_apply_error
      (call (propose (Types.Admin (aq_request_id req) (aq_kid req) (va_request_hash verified) (aq_ts req) command)));
    admin_reply proposal.

Definition handle_root_write (raw : string) (req : AdminRequestV2) (verified : VerifiedAdmin)
    (forwarder : option Conn) (edge_peer : option string) : handler :=
  admin_raft ;;
  leading ← ask is_leader;
  if leading : bool then execute_root_write req verified edge_peer
  else
    leader ← ask leader_peer;
    match leader, forwarder with
    | None, _ => st_err (sidecar_error "no_leader" "当前没有已知的 Raft leader")
    | Some _, None => st_err (sidecar_error "not_leader" "本节点不是 leader 且没有可用的转发连接")
    | Some leader, Some forwarder =>
        me ← ask (client_whoami forwarder);
        let envelope := MkForwardedAdminEnvelope FORWARDED_ADMIN_OP FORWARDED_ADMIN_VERSION (b64_encode raw)
                          (default "" (result_ok me)) "" in
        payload ← st_lift (map_err (λ e, sidecar_error "bad_request" ("转发信封编码失败: " +:+ e)) (encode_to Json envelope));
        service ← query raft_service_name;
        st_map_err (λ e, sidecar_error (se_code e) (se_message e))
          (call (client_service_request_to forwarder service leader payload))
    end.

Definition forbidden_role : SidecarError := sidecar_error "forbidden_role" "viewer 管理员不能执行写操作".

Definition handle_forwarded_admin (raw : string) : handler :=
  e ← st_lift (map_err (λ e, sidecar_error "bad_request" ("转发信封解析失败: " +:+ e))
                 (decode_from Json (A := ForwardedAdminEnvelope) raw));
  if bool_decide (fw_op e ≠ FORWARDED_ADMIN_OP) || negb (fw_v e =? FORWARDED_ADMIN_VERSION)%N
  then st_err (sidecar_error "bad_request" "非法的 forwarded_admin 信封")
  else
    admin_raft ;;
    leading ← ask is_leader;
    if negb leading then st_err (sidecar_error "not_leader" "forwarded_admin 只能由 leader 处理")
    else
      bytes ← st_lift (ok_or (b64_decode (fw_request_b64 e)) (sidecar_error "bad_request" "request_b64 不是合法 base64"));
      value ← st_lift (map_err (λ e, sidecar_error "bad_request" ("原始请求解析失败: " +:+ e))
                         (decode_from Json (A := json) bytes));
      req ← st_lift (map_err (λ e, sidecar_error "bad_request" ("管理员请求解析失败: " +:+ e))
                       (from_value (A := AdminRequestV2) value));
      now ← ask now_unix;
      verified ← st_map_err admin_v2_error (on_admin_keys (admin_verify req now));
      if bool_decide (va_role verified ≠ Root) then st_err forbidden_role
      else if bool_decide (classify_admin_op (aq_op req) ≠ OpWrite)
      then st_err (sidecar_error "bad_request" "forwarded_admin 只接受写操作")
      else execute_root_write req verified (Some (fw_edge_peer e)).

Definition members_json (ms : list MemberInfo) : json :=
  JArr ((λ m, JObj [("node_id", JNum (mi_node_id m)); ("peer_id", JStr (mi_peer_id m));
                    ("identity_key", JStr (mi_identity_key m)); ("x25519_key", JStr (mi_x25519_key m));
                    ("voter", JBool (mi_voter m))]) <$> ms).

(** The reply to a query, from what has been asked of the cluster. *)
Definition admin_read_reply (req : AdminRequestV2) (state : PolicyState) (applied : option N) (leader : option string)
    (term : N) (stale : bool) : handler :=
  c ← ctx_get id;
  let meta v := with_raft_meta v (p_policy_epoch state) applied leader term stale in
  let op := aq_op req in
  if bool_decide (op = "status") then
    snap ← ask rt_status_snapshot;
    uptime ← query rt_uptime_secs;
    let publish := pb_status (ctx_publisher c) in
    mret (encode (with_raft_status
      (JObj [("network", JStr (ctx_network c)); ("authority_public_key", jopt JStr (authority_public_key_b64 c));
             ("has_authority_seed", JBool (has_authority_seed c));
             ("authority_seed_present", JBool (has_authority_seed c));
             ("index_version", JNum (p_policy_epoch state));
             ("services", JObj ((λ '(name, s), (name, JObj [("version", JNum (st_version s));
                                                            ("members", jnat (size (st_members s)))]))
                                  <$> btree_entries (p_services state)));
             ("expires_secs", JNum (ctx_expires_secs c)); ("renew_secs", JNum (ctx_renew_secs c));
             ("connections", jnat (connection_count (ctx_publisher c))); ("uptime_secs", JNum uptime);
             ("last_publish_epoch", jopt JNum (ps_epoch publish)); ("last_publish_ok", JBool (ps_ok publish));
             ("last_publish_error", jopt JStr (ps_error publish)); ("last_publish_at", jopt JNum (ps_at publish))])
      (p_policy_epoch state) snap))
  else if bool_decide (op = "export_authority_pubkey") then
    match authority_public_key_b64 c with
    | None => st_err (sidecar_error "no_authority_seed" "learner 不持有 authority seed")
    | Some key => mret (encode (meta (JObj [("network", JStr (ctx_network c)); ("public_key", JStr key)])))
    end
  else if bool_decide (op = "list_services") then
    mret (encode (meta (JObj [("services", JArr (JStr <$> btree_keys (p_services state)))])))
  else if bool_decide (op = "list_members") then
    if str_is_empty (aq_service req) then
      ready ← query rt_ready;
      if negb ready then st_err (sidecar_error "raft_not_ready" "Raft 控制面尚未就绪")
      else
        view ← ask rt_membership_view;
        cluster_id ← query rt_cluster_id;
        mret (encode (meta (JObj [("voters", members_json (mv_voters view)); ("learners", members_json (mv_learners view));
                                  ("leader", jopt JNum (mv_leader view)); ("term", JNum (mv_term view));
                                  ("cluster_id", JStr cluster_id)])))
    else
      service ← st_lift (require_service_v2 req);
      match p_services state !! service with
      | None => st_err (sidecar_error "not_found" ("服务不存在: " +:+ service))
      | Some entry =>
          mret (encode (meta (JObj [("service", JStr service); ("version", JNum (st_version entry));
                                    ("members", JArr (JStr <$> btree_set (st_members entry)))])))
      end
  else st_err (sidecar_error "unknown_op" ("未知指令: " +:+ op)).
Definition handle_admin_read (req : AdminRequestV2) : handler :=
  admin_raft ;;
  state ← ask policy_snapshot;
  applied ← ask raft_applied_index;
  leader ← ask leader_peer;
  term ← ask raft_term;
  stale ← ask raft_stale;
  admin_read_reply req state applied leader term stale.

Definition handle_admin_v2 (raw : string) (value : json) (forwarder : option Conn) : handler :=
  let op := default "" (obj_get "op" value ≫= as_str) in
  if bool_decide (op = FORWARDED_ADMIN_OP) then handle_forwarded_admin raw
  else
    req ← st_lift (map_err (λ e, sidecar_error "bad_request" ("管理员请求解析失败: " +:+ e))
                     (from_value (A := AdminRequestV2) value));
    now ← ask now_unix;
    verified ← st_map_err admin_v2_error (on_admin_keys (admin_verify req now));
    match classify_admin_op (aq_op req) with
    | OpRead => handle_admin_read req
    | OpWrite =>
        if bool_decide (va_role verified ≠ Root) then st_err forbidden_role
        else handle_root_write raw req verified forwarder None
    | OpUnknown => st_err (sidecar_error "unknown_op" ("未知指令: " +:+ aq_op req))
    end.

(** ** Joining with a token *)

Definition raft_runtime : ST (Node W) SidecarError unit :=
  ready ← query rt_ready;
  if ready : bool then mret () else st_err (sidecar_error "raft_not_ready" "Raft 控制面尚未就绪").

Definition join_failure (e : JoinError) : SidecarError := sidecar_error (join_code e) (join_text e).

(** [members.learners.push(info); sort_by_key(node_id)], when the view does not have
    the new node yet. *)
Definition with_learner (v : MembershipView) (info : MemberInfo) : MembershipView :=
  match mv_find v (mi_node_id info) with
  | Some _ => v
  | None =>
      MkMembershipView (mv_voters v)
        (merge_sort member_le (mv_learners v ++ [info]))
        (mv_leader v) (mv_term v)
  end.

(** The token as the state machine has it. *)
Definition check_token (state : PolicyState) (req : RaftJoinRequest) : result SidecarError unit :=
  let jti := jt_jti (rj_token req) in
  match p_join_tokens state !! jti with
  | None => Err (sidecar_error "join_token_unknown" ("join token not issued through raft: " +:+ jti))
  | Some stored =>
      if bool_decide (sj_token stored ≠ rj_token req)
      then Err (sidecar_error "join_token_mismatch" "join token does not match the recorded token")
      else if (jt_max_uses (sj_token stored) <=? sj_uses stored)%N
      then Err (sidecar_error "join_token_replayed" ("join token already used: " +:+ jti))
      else Ok ()
  end.

(** The admission itself, with the policy epoch of its audit line. *)
Definition admit_learner (req : RaftJoinRequest) : ST (Node W) SidecarError (RaftJoinResponse * N) :=
  c ← ctx_get id;
  cluster_id ← query rt_cluster_id;
  me ← query rt_peer_id;
  now ← ask now_unix;
  let audiences := me :: (if str_is_empty (rj_edge_peer req) then [] else [rj_edge_peer req]) in
  st_lift (map_err join_failure
    (verify_join_request req (ctx_admin_keys c) cluster_id (ctx_network c) now audiences)) ;;
  view ← ask rt_membership_view;
  if mv_is_member view (rj_node_id req)
  then st_err (sidecar_error "already_member" ("node " +:+ pretty (rj_node_id req) +:+ " is already a member"))
  else
    state ← ask policy_snapshot;
    st_lift (check_token state req) ;;
    used_at ← ask now_unix;
    proposal ← st_map_err (sidecar_error "raft_join_failed")
      (call (propose (ConsumeJoinToken (jt_jti (rj_token req)) (rj_node_id req) (rj_peer_id req) used_at)));
    match ap_result proposal with
    | Rejected code message _ => st_err (sidecar_error code message)
    | AdminResult _ _ _ _ _ => st_err (sidecar_error "raft_unexpected_result" "consume join token 结果异常")
    | Applied _ _ _ _ =>
        info ← st_map_err (sidecar_error "add_learner_failed")
          (call (rt_add_learner_node (rj_node_id req)
             (MkRaftNode (rj_peer_id req) (rj_identity_key req) (rj_x25519_key req))));
        view ← ask rt_membership_view;
        let view := with_learner view info in
        state ← ask policy_snapshot;
        term ← ask raft_term;
        leader ← ask rt_leader_id;
        mret (MkRaftJoinResponse RAFT_JOIN_VERSION true "" cluster_id (ctx_network c) (mi_node_id info)
                (mi_peer_id info) "learner" term leader (p_policy_epoch state) (mv_all view), p_policy_epoch state)
    end.
Definition join_reply (response : RaftJoinResponse) : handler :=
  st_lift (map_err (λ e, sidecar_error "encode_error" ("入网响应编码失败: " +:+ e)) (encode_to Json response)).
(** The two queries are those of the audit line. *)
Definition handle_leader_join (req : RaftJoinRequest) : handler :=
  response ← admit_learner req;
  ask raft_applied_index ;;
  ask leader_peer ;;
  join_reply response.1.

Definition handle_raft_join (value : json) (client : option Conn) : handler :=
  raft_runtime ;;
  join ← ctx_get ctx_join;
  if negb (allowed join) then st_err (sidecar_error "join_not_allowed" "allow_join = false，拒绝入网")
  else
    req ← st_lift (map_err (λ e, sidecar_error "bad_request" ("入网请求解析失败: " +:+ e))
                     (from_value (A := RaftJoinRequest) value));
    c ← ctx_get id;
    cluster_id ← query rt_cluster_id;
    me ← query rt_peer_id;
    now ← ask now_unix;
    st_lift (map_err join_failure (verify_join_request req (ctx_admin_keys c) cluster_id (ctx_network c) now [me])) ;;
    leading ← ask is_leader;
    if leading : bool then handle_leader_join req
    else
      leader ← ask leader_peer;
      match leader, client with
      | None, _ => st_err (sidecar_error "no_leader" "当前没有已知的 Raft leader")
      | Some _, None => st_err (sidecar_error "not_leader" "本节点不是 leader 且没有可用的转发连接")
      | Some leader, Some client =>
          payload ← st_lift (map_err (λ e, sidecar_error "bad_request" ("入网转发编码失败: " +:+ e))
                               (encode_to Json (relay req me)));
          service ← query raft_service_name;
          st_map_err (λ e, sidecar_error (se_code e) (se_message e))
            (call (client_service_request_to client service leader payload))
      end.

(** ** The entry point *)

Definition disabled (code message : string) : handler := st_err (sidecar_error code message).

Definition handle_service_request (payload : string) (client forwarder : option Conn) : handler :=
  value ← st_lift (map_err (λ e, sidecar_error "bad_request" ("请求解析失败: " +:+ e)) (decode_from Json (A := json) payload));
  op ← st_lift (ok_or (obj_get "op" value ≫= as_str) (sidecar_error "bad_request" "缺少 'op' 字段"));
  c ← ctx_get id;
  if bool_decide (op = RAFT_RPC_OP) then
    ready ← query rt_ready;
    if ready : bool then handle_rpc payload else disabled "raft_disabled" "Raft 控制面未启用"
  else if bool_decide (op = RAFT_JOIN_OP) then handle_raft_join value client
  else if bool_decide (op = SEED_DELIVERY_OP) then handle_seed_delivery value
  else if bool_decide (op = SEED_DROP_OP) then handle_seed_drop value
  else if bool_decide (op = "join_request") then
    if ctx_raft_required c then disabled "join_disabled" "Raft 模式下旧密码入网已禁用；请使用 join token"
    else handle_join value
  else if bool_decide (op = OP_REPLICATE) then
    if ctx_raft_required c then disabled "replicate_disabled" "Raft 模式下禁用旧 replicate 写入"
    else handle_replicate value
  else if bool_decide (op = OP_SYNC_REQUEST) then
    if ctx_raft_required c then disabled "sync_disabled" "Raft 模式下禁用旧 sync_request 反熵"
    else handle_sync_request value
  else if ctx_raft_required c then handle_admin_v2 payload value forwarder
  else
    req ← st_lift (map_err (λ e, sidecar_error "bad_request" ("请求解析失败: " +:+ e))
                     (from_value (A := ManagementRequest) value));
    now ← ask now_unix;
    st_map_err admin_error (on_admin (mgmt_verify req now)) ;;
    management_op client req.
End service.
