(* ===== verification/ServiceProps.v ===== *)
(** * Who can change the policy

    In cluster mode the policy changes through commands proposed to Raft.  The
    theorems here follow every command a sidecar proposes back to a signature of a
    root administrator, or of a join token. *)
From S2P Require Import Prelude Fsutil Crypto Authority Replay Store Types StateMachine Transport AdminV2.
From S2P Require Import Join Seed Protocol Admin Replicate PasswordJoin Context Publisher Sync Service.

(** ** Effects on the world

    A relation between worlds that every call respects: the handlers respect it
    then as well. *)
Section respects.
Context `{CR : Crypto} {W : Type} (R : relation W) `{HR : !PreOrder R}.

Definition respects {E A} (m : ST (Node W) E A) : Prop :=
  ∀ n r n', m n = (r, n') → R (nd_world n) (nd_world n').
Definition respects_world {A} (q : W → A * W) : Prop := ∀ w, R w (q w).2.

Lemma respects_bind {E A B} (m : ST (Node W) E A) (f : A → ST (Node W) E B) :
  respects m → (∀ a, respects (f a)) → respects (m ≫= f).
Proof.
  intros Hm Hf n r n' [(a & n1 & H1 & H2)|(e & H1 & ->)]%st_bind_run; [|by eapply Hm].
  etrans; [by eapply Hm|by eapply Hf].
Qed.
Lemma respects_same {E A} (m : ST (Node W) E A) :
  (∀ n, nd_world (m n).2 = nd_world n) → respects m.
Proof. intros Hm n r n' Heq. specialize (Hm n). rewrite Heq in Hm. simpl in Hm. by rewrite Hm. Qed.
Lemma respects_ret {E A} (a : A) : respects (E := E) (mret a).
Proof. by apply respects_same. Qed.
Lemma respects_err {E A} (e : E) : respects (A := A) (st_err e).
Proof. by apply respects_same. Qed.
Lemma respects_lift {E A} (r : result E A) : respects (st_lift r).
Proof. by apply respects_same. Qed.
Lemma respects_ctx_get {E A} (f : AuthContext → A) : respects (E := E) (ctx_get f).
Proof. by apply respects_same. Qed.
Lemma respects_publisher {E} f : respects (E := E) (publisher_modify f).
Proof. by apply respects_same. Qed.
Lemma respects_on_store {A} (m : ST (Store * Fs) StoreError A) : respects (on_store m).
Proof. apply respects_same. intros n. unfold on_store. by destruct (m _) as [? []]. Qed.
Lemma respects_on_admin {E A} (m : ST AdminAuth E A) : respects (on_admin m).
Proof. apply respects_same. intros n. unfold on_admin. by destruct (m _). Qed.
Lemma respects_on_admin_keys {E A} (m : ST AdminVerifier E A) : respects (on_admin_keys m).
Proof. apply respects_same. intros n. unfold on_admin_keys. by destruct (m _). Qed.
Lemma respects_on_replicate {E A} (m : ST RepAuth E A) : respects (on_replicate m).
Proof. apply respects_same. intros n. unfold on_replicate. by destruct (m _). Qed.
Lemma respects_ask {E A} (q : W → A * W) : respects_world q → respects (E := E) (ask q).
Proof. intros Hq n r n'. unfold ask. specialize (Hq (nd_world n)). destruct (q _). by intros [= <- <-]. Qed.
Lemma respects_call {E A} (m : ST W E A) : respects_world m → respects (call m).
Proof. intros Hq n r n'. unfold call. specialize (Hq (nd_world n)). destruct (m _). by intros [= <- <-]. Qed.
Lemma respects_map_err {E F A} (f : E → F) (m : ST (Node W) E A) : respects m → respects (st_map_err f m).
Proof. intros Hm n r n'. unfold st_map_err. destruct (m n) as [r1 n1] eqn:H1. intros [= <- <-]. by eapply Hm. Qed.
End respects.

(** The calls a round of publication makes. *)
Section publish_respects.
Context `{CR : Crypto, CO : Coset, CI : Codec Cbor IndexDoc, CW : Codec Cbor WhitelistDoc,
  CT : Codec Toml StoreSnapshot}.
Context {W : Type} `{WC : Clock W, WR : AdminRaft W, WB : BackendClient W}.
Context (R : relation W) `{HR : !PreOrder R}.
Context (Hnow : respects_world R now_unix) (Hleader : respects_world R is_leader)
  (Hsnap : respects_world R policy_snapshot)
  (Hrenew : ∀ e, respects_world R (propose (RenewIndex e)))
  (Hadd : ∀ c k v p, respects_world R (client_add_key c k v p)).

Lemma add_key_attempts_respects k last c key value : respects_world R (add_key_attempts k last c key value).
Proof.
  revert last. induction k as [|k IH]; intros last w; [done|]. cbn [add_key_attempts].
  pose proof (Hadd c key (Some value) false w) as Ha. destruct (client_add_key c key (Some value) false w) as [[r|e] w1].
  - done.
  - etrans; [exact Ha|apply IH].
Qed.
Lemma publish_respects clients key value err : respects_world R (publish clients key value err).
Proof.
  revert err. induction clients as [|[id c] clients IH]; intros err w; cbn [publish]; [by destruct err|].
  pose proof (add_key_attempts_respects PUBLISH_ATTEMPTS (sidecar_error "publish_failed" "no attempt made")
    c key value w) as Ha. unfold add_key_with_retry.
  destruct (add_key_attempts _ _ c key value w) as [[u|e] w1]; (etrans; [exact Ha|apply IH]).
Qed.
Lemma publish_pending_respects clients pending : respects_world R (publish_pending clients pending).
Proof.
  induction pending as [|[k v] pending IH]; intros w; [done|]. cbn [publish_pending]. unfold mbind, ST_bind.
  pose proof (publish_respects clients k v None w) as Hp.
  destruct (publish clients k v None w) as [[u|e] w1]; [|done]. etrans; [exact Hp|apply IH].
Qed.

Ltac respects_tac :=
  repeat first
    [ apply respects_bind; [done| |intros ?] | apply respects_ret | apply respects_err | apply respects_lift
    | apply respects_ctx_get | apply respects_publisher | apply respects_on_store; [done]
    | apply respects_map_err | apply respects_ask | apply respects_call | case_match | done ].

Lemma note_failure_respects e m : respects R (note_failure (W := W) e m).
Proof. unfold note_failure. respects_tac. Qed.
Lemma publish_whitelists_respects services : respects R (publish_whitelists (W := W) services).
Proof. unfold publish_whitelists. respects_tac. apply publish_pending_respects. Qed.
Lemma publish_index_respects v e es : respects R (publish_index (W := W) v e es).
Proof. unfold publish_index. respects_tac. apply publish_respects. Qed.
Lemma recording_respects {A} e (m : ST (Node W) PublishError A) : respects R m → respects R (recording e m).
Proof.
  intros Hm n r n'. unfold recording. destruct (m n) as [[a|err] n1] eqn:H1; apply Hm in H1.
  - by intros [= <- <-].
  - intros H2. etrans; [exact H1|]. revert H2. apply respects_bind; [done|apply note_failure_respects|intros ?].
    apply respects_err, _.
Qed.
Lemma renew_index_respects state now : respects R (renew_index (W := W) state now).
Proof.
  intros n r n'. unfold renew_index, call.
  pose proof (Hrenew (sat_add64 now (ctx_expires_secs (nd_ctx n))) (nd_world n)) as Hp.
  destruct (propose _ (nd_world n)) as [[p|e] w]; intros H2; (etrans; [exact Hp|]).
  - by apply (respects_ask R _ Hsnap) in H2.
  - revert H2. apply respects_bind; [done|apply note_failure_respects|intros ?]. apply respects_err, _.
Qed.

Lemma publish_once_respects renew : respects R (publish_once (W := W) renew).
Proof.
  unfold publish_once, publish_once_raft, publish_once_store, fail_with, note_success. respects_tac;
    auto using recording_respects, publish_whitelists_respects, publish_index_respects, note_failure_respects,
      renew_index_respects, publish_pending_respects, publish_respects.
Qed.
End publish_respects.

(** ** Authorised commands *)

Create HintDb guarded.

Section authorised.
Context `{CR : Crypto, CO : Coset, CI : Codec Cbor IndexDoc, CW : Codec Cbor WhitelistDoc,
  CT : Codec Toml StoreSnapshot, CS : Codec Cbor StoreSnapshot, CM : Codec Json MacInput,
  CAS : Codec Cbor AdminSigned, CAI : Codec Cbor AdminIdentity, CTS : Codec Cbor JoinTokenSigned,
  CJS : Codec Cbor JoinSigned}.
Context `{JV : Codec Json json, JE : Codec Json ForwardedAdminEnvelope, JJ : Codec Json RaftJoinRequest,
  JR : Codec Json RaftJoinResponse}.
Context `{FM : FromValue ManagementRequest, FA : FromValue AdminRequestV2, FR : FromValue ReplicateMsg,
  FS : FromValue SyncRequest, FJ : FromValue RaftJoinRequest, TP : ToValue SyncResponse}.

(** The commands proposed so far: only [propose] adds one, which may also fail. *)
Class RaftLog (W : Type) `{Clock W, AdminRaft W, BackendClient W, RaftRuntime W} := {
  raft_log : W → list PolicyCommand;
  propose_cmds c w : raft_log (propose c w).2 = raft_log w ∨ raft_log (propose c w).2 = raft_log w ++ [c];
  now_unix_cmds w : raft_log (now_unix w).2 = raft_log w;
  is_leader_cmds w : raft_log (is_leader w).2 = raft_log w;
  raft_term_cmds w : raft_log (raft_term w).2 = raft_log w;
  leader_peer_cmds w : raft_log (leader_peer w).2 = raft_log w;
  policy_snapshot_cmds w : raft_log (policy_snapshot w).2 = raft_log w;
  applied_index_cmds w : raft_log (raft_applied_index w).2 = raft_log w;
  stale_cmds w : raft_log (raft_stale w).2 = raft_log w;
  add_key_cmds c k v p w : raft_log (client_add_key c k v p w).2 = raft_log w;
  whoami_cmds c w : raft_log (client_whoami c w).2 = raft_log w;
  request_to_cmds c s p b t w : raft_log (client_service_request_to_with_timeout c s p b t w).2 = raft_log w;
  query_key_cmds c k w : raft_log (client_query_key c k w).2 = raft_log w;
  membership_view_cmds w : raft_log (rt_membership_view w).2 = raft_log w;
  leader_id_cmds w : raft_log (rt_leader_id w).2 = raft_log w;
  status_snapshot_cmds w : raft_log (rt_status_snapshot w).2 = raft_log w;
  add_learner_cmds i nd w : raft_log (rt_add_learner_node i nd w).2 = raft_log w;
}.

Context {W : Type} `{WC : Clock W, WR : AdminRaft W, WB : BackendClient W, WT : RaftRuntime W}.
Context `{RL : !RaftLog W}.
Variable handle_rpc : string → ST (Node W) SidecarError string.
Variable handle_seed_delivery handle_seed_drop handle_join : json → ST (Node W) SidecarError string.
Variable execute_member_write : AdminRequestV2 → VerifiedAdmin → option string → ST (Node W) SidecarError string.

(** Why a command may be proposed: a renewal of the index changes no policy; an
    administrator's command needs a request signed by a root key that asks for it,
    under the hash of that request; the use of a join token needs a request to join
    with a token signed by a root key, for the node derived from that peer. *)
Definition authorised (v : AdminVerifier) (cmd : PolicyCommand) : Prop :=
  match cmd with
  | RenewIndex _ => True
  | Types.Admin request_id kid h ts c =>
      ∃ req key bytes sig, aq_request_id req = request_id ∧ aq_kid req = kid ∧ aq_ts req = ts
        ∧ request_hash req = Ok h ∧ policy_command_for req = Ok c
        ∧ av_keys v !! kid = Some (key, Root) ∧ signing_bytes req = Ok bytes ∧ ed_verify key bytes sig = true
  | ConsumeJoinToken jti node_id peer_id _ =>
      ∃ req now cluster network allowed, jt_jti (rj_token req) = jti ∧ rj_peer_id req = peer_id
        ∧ rj_node_id req = node_id ∧ node_id = node_id_from_peer_id peer_id
        ∧ token_valid v (rj_token req) now cluster network allowed
  | _ => False
  end.

(** The commands added between two worlds are all authorised, none, or renewals. *)
Definition adds (P : PolicyCommand → Prop) (w w' : W) : Prop :=
  ∃ cs, raft_log w' = raft_log w ++ cs ∧ Forall P cs.
Global Instance adds_preorder P : PreOrder (adds P).
Proof.
  split.
  - intros w. exists []. by rewrite app_nil_r.
  - intros w1 w2 w3 (c1 & H1 & F1) (c2 & H2 & F2). exists (c1 ++ c2). rewrite H2, H1, app_assoc. split; [done|].
    by apply Forall_app.
Qed.
Lemma adds_same P (w w' : W) : raft_log w' = raft_log w → adds P w w'.
Proof. intros Hl. exists []. by rewrite app_nil_r. Qed.
Lemma propose_adds (P : PolicyCommand → Prop) c : P c → respects_world (adds P) (propose (W := W) c).
Proof.
  intros Hc w. destruct (propose_cmds c w) as [Hl|Hl]; [by apply adds_same|]. exists [c]. split; [done|by constructor].
Qed.

Lemma plain_request_cmds c s p b (w : W) : raft_log (client_service_request_to c s p b w).2 = raft_log w.
Proof. apply request_to_cmds. Qed.

Hint Resolve adds_same now_unix_cmds is_leader_cmds raft_term_cmds leader_peer_cmds policy_snapshot_cmds
  applied_index_cmds stale_cmds add_key_cmds whoami_cmds request_to_cmds plain_request_cmds query_key_cmds membership_view_cmds leader_id_cmds
  status_snapshot_cmds add_learner_cmds : nexus.
Hint Extern 0 (respects_world _ _) => intros ?; apply adds_same : nexus.

Lemma publish_now_adds P renew : (∀ e, P (RenewIndex e)) → respects (adds P) (publish_now (W := W) renew).
Proof.
  intros HP. apply publish_once_respects; [apply _|intros ?; auto with nexus..| |].
  - intros e. apply propose_adds, HP.
  - intros c k v p w. auto with nexus.
Qed.

Lemma execute_publish_now_adds P req : (∀ e, P (RenewIndex e)) → respects (adds P) (execute_publish_now req).
Proof.
  intros HP n r n'. unfold execute_publish_now. destruct (publish_now true n) as [o n1] eqn:Hp.
  apply (publish_now_adds P) in Hp; [|done]. pose proof (policy_snapshot_cmds (nd_world n1)) as H1.
  destruct (policy_snapshot (nd_world n1)) as [st w1]. pose proof (applied_index_cmds w1) as H2.
  destruct (raft_applied_index w1) as [ai w2]. simpl in H1, H2.
  assert (adds P (nd_world n) (nd_world (set_world n1 w2))) as Hw.
  { etrans; [exact Hp|]. apply adds_same. simpl. congruence. }
  destruct o as [[]|]; by intros [= <- <-].
Qed.

Lemma admin_reply_adds P p : (∀ e, P (RenewIndex e)) → respects (adds P) (admin_reply (W := W) p).
Proof.
  intros HP. unfold admin_reply. destruct (ap_result p) as [| |rid pe ri dup [s v ch|c m]];
    try (apply respects_err, _). intros n r n'.
  destruct (if ch then publish_now false n else (Ok NoConnections, n)) as [o n1] eqn:Hp.
  assert (adds P (nd_world n) (nd_world n1)) as Hw.
  { destruct ch; [by apply (publish_now_adds P) in Hp|]. by injection Hp as <- <-. }
  destruct o as [[]|]; by intros [= <- <-].
Qed.

(** What a verified request has shown. *)
Record request_ok (v : AdminVerifier) (req : AdminRequestV2) (va : VerifiedAdmin) : Prop := {
  ro_hash : request_hash req = Ok (va_request_hash va);
  ro_signed : ∃ key bytes sig, av_keys v !! aq_kid req = Some (key, va_role va) ∧ signing_bytes req = Ok bytes
    ∧ ed_verify key bytes sig = true;
}.
Lemma admin_verify_Ok req now v va v' : admin_verify req now v = (Ok va, v') → request_ok v req va.
Proof.
  unfold admin_verify. destruct (verify_static (av_keys v) req now) as [[role bytes]|] eqn:Hst; [|done].
  destruct (check_and_insert _ _) as [[[]|[]] guard]; [|done..].
  destruct (request_hash req) as [h|] eqn:Hh; [|done]. intros [= <- <-].
  apply verify_static_Ok in Hst as (_ & _ & _ & key & sig & Hk & Hb & _ & Hv). split; simpl; [done|by eauto 6].
Qed.
Lemma admin_command_authorised v req va c : request_ok v req va → va_role va = Root → policy_command_for req = Ok c →
  authorised v (Types.Admin (aq_request_id req) (aq_kid req) (va_request_hash va) (aq_ts req) c).
Proof.
  intros [Hh (key & bytes & sig & Hk & Hb & Hv)] Hr Hc. rewrite Hr in Hk. simpl. exists req, key, bytes, sig. by split_and!.
Qed.

(** One step of a handler: split the run, and leave the effect of the step. *)
Ltac adds_step :=
  first [ apply respects_bind; [apply _| |intros ?] | apply respects_ret, _ | apply respects_err, _
        | apply respects_lift, _ | apply respects_ctx_get, _ | apply respects_publisher, _ | apply respects_map_err
        | apply respects_ask; intros ?; auto with nexus; fail | apply respects_call; intros ?; auto with nexus; fail
        | apply respects_same; [apply _|done] ].
Ltac adds_tac := repeat (adds_step || case_match).

Lemma execute_root_write_adds v req va edge :
  request_ok v req va → va_role va = Root → is_member_management_op (aq_op req) = false →
  respects (adds (authorised v)) (execute_root_write execute_member_write req va edge).
Proof.
  intros Hok Hr Hm. unfold execute_root_write. rewrite Hm. adds_step; [by adds_step|].
  case_match; [by apply execute_publish_now_adds|]. intros n r n'.
  intros [(c & n1 & Hc & Hrun)|(e & Hc & ->)]%st_bind_run; unfold st_lift in Hc; simplify_eq; [|done].
  revert Hrun. apply respects_bind; [apply _| |intros ?; by apply admin_reply_adds].
  apply respects_map_err, respects_call, propose_adds. by apply admin_command_authorised.
Qed.
Lemma handle_root_write_adds v raw req va fwd edge :
  request_ok v req va → va_role va = Root → is_member_management_op (aq_op req) = false →
  respects (adds (authorised v)) (handle_root_write execute_member_write raw req va fwd edge).
Proof.
  intros Hok Hr Hm. unfold handle_root_write, admin_raft, query.
  repeat (by apply execute_root_write_adds) || adds_step || case_match.
Qed.

(** Member operations are not classified as writes. *)
Lemma member_op_unclassified op : is_member_management_op op = true → classify_admin_op op = OpUnknown.
Proof.
  unfold is_member_management_op. intros Hin%bool_decide_eq_true.
  repeat (apply elem_of_cons in Hin as [->|Hin]; [reflexivity|]). by apply elem_of_nil in Hin.
Qed.
Lemma write_op_not_member op : classify_admin_op op = OpWrite → is_member_management_op op = false.
Proof. destruct (is_member_management_op op) eqn:Hm; [|done]. by rewrite member_op_unclassified. Qed.

Lemma handle_admin_read_adds P req : respects (adds P) (handle_admin_read (W := W) req).
Proof. unfold handle_admin_read, admin_read_reply, admin_raft, query. adds_tac. Qed.

(** Steps that propose nothing and keep the keys; and handlers that propose
    authorised commands only, when started with the keys [v]. *)
Definition quiet {E A} (m : ST (Node W) E A) : Prop := ∀ n r n', m n = (r, n') →
  ctx_admin_keys (nd_ctx n') = ctx_admin_keys (nd_ctx n) ∧ raft_log (nd_world n') = raft_log (nd_world n).
Definition guarded {E A} (v : AdminVerifier) (m : ST (Node W) E A) : Prop := ∀ n r n',
  ctx_admin_keys (nd_ctx n) = v → m n = (r, n') → adds (authorised v) (nd_world n) (nd_world n').

Lemma quiet_ask {E A} (q : W → A * W) : (∀ w, raft_log (q w).2 = raft_log w) → quiet (E := E) (ask q).
Proof. intros Hq n r n'. unfold ask. specialize (Hq (nd_world n)). destruct (q _). by intros [= <- <-]. Qed.
Lemma quiet_same {E A} (m : ST (Node W) E A) : (∀ n, (m n).2 = n) → quiet m.
Proof. intros Hm n r n' Heq. specialize (Hm n). rewrite Heq in Hm. by simpl in Hm; subst. Qed.
Lemma quiet_admin_raft : quiet (admin_raft (W := W)).
Proof. apply quiet_same. intros n. unfold admin_raft, mbind, ST_bind, ctx_get. simpl. by destruct (ctx_admin_raft _). Qed.
Lemma quiet_raft_runtime : quiet (raft_runtime (W := W)).
Proof. apply quiet_same. intros n. unfold raft_runtime, mbind, ST_bind, query. by destruct (rt_ready _). Qed.

Lemma guarded_bind {E A B} v (m : ST (Node W) E A) (f : A → ST (Node W) E B) :
  quiet m → (∀ a, guarded v (f a)) → guarded v (m ≫= f).
Proof.
  intros Hm Hf n r n' Hk [(a & n1 & H1 & H2)|(e & H1 & ->)]%st_bind_run; apply Hm in H1 as [Hc Hl].
  - trans (nd_world n1); [by apply adds_same|]. eapply Hf; [congruence|done].
  - by apply adds_same.
Qed.
Lemma guarded_lift {E A B} v (m : result E A) (f : A → ST (Node W) E B) :
  (∀ a, m = Ok a → guarded v (f a)) → guarded v (st_lift m ≫= f).
Proof.
  intros Hf n r n' Hk [(a & n1 & H1 & H2)|(e & H1 & ->)]%st_bind_run; unfold st_lift in H1; simplify_eq; [|done].
  by eapply Hf.
Qed.
Lemma guarded_ctx {E B} v (f : AuthContext → ST (Node W) E B) :
  (∀ c, ctx_admin_keys c = v → guarded v (f c)) → guarded v (ctx_get id ≫= f).
Proof. intros Hf n r n' Hk. by apply Hf. Qed.
Lemma guarded_respects {E A} v (m : ST (Node W) E A) : respects (adds (authorised v)) m → guarded v m.
Proof. intros Hm n r n' _. apply Hm. Qed.
Lemma guarded_then {E A B} v (m : ST (Node W) E A) (f : A → ST (Node W) E B) :
  guarded v m → (∀ a, respects (adds (authorised v)) (f a)) → guarded v (m ≫= f).
Proof.
  intros Hm Hf n r n' Hk [(a & n1 & H1 & H2)|(e & H1 & ->)]%st_bind_run; [|by eapply Hm].
  trans (nd_world n1); [by eapply Hm|by eapply Hf].
Qed.
Lemma guarded_verified {B} v req now (k : VerifiedAdmin → ST (Node W) SidecarError B) :
  (∀ va, request_ok v req va → respects (adds (authorised v)) (k va)) →
  guarded v (st_map_err admin_v2_error (on_admin_keys (admin_verify req now)) ≫= k).
Proof.
  intros Hk n r n' Hv [(va & n1 & H1 & H2)|(e & H1 & ->)]%st_bind_run.
  - unfold st_map_err, on_admin_keys in H1. destruct (admin_verify req now _) as [[va'|e] v'] eqn:Ha; [|done].
    injection H1 as <- <-. apply Hk in H2; [done|]. rewrite <-Hv. by eapply admin_verify_Ok.
  - revert H1. apply respects_map_err, respects_on_admin_keys, _.
Qed.

Hint Resolve quiet_ask quiet_admin_raft quiet_raft_runtime now_unix_cmds is_leader_cmds
  membership_view_cmds policy_snapshot_cmds leader_peer_cmds : guarded.
Hint Extern 1 (quiet _) => apply quiet_same; done : guarded.
Ltac guarded_tac :=
  repeat first
    [ solve [auto with guarded] | apply guarded_lift; intros ? ? | apply guarded_verified; intros ? ? | apply guarded_ctx; intros ? ?
    | apply guarded_bind; [solve [auto with guarded]|intros ?]
    | apply guarded_respects, respects_err, _ | case_match ].

Lemma handle_forwarded_admin_guarded v raw : guarded v (handle_forwarded_admin (W := W) execute_member_write raw).
Proof.
  unfold handle_forwarded_admin. guarded_tac; [apply respects_err, _..|]. bool_tests.
  apply execute_root_write_adds; [done..|by apply write_op_not_member].
Qed.
Lemma handle_admin_v2_guarded v raw value fwd :
  guarded v (handle_admin_v2 (W := W) execute_member_write raw value fwd).
Proof.
  unfold handle_admin_v2. case_match; [apply handle_forwarded_admin_guarded|].
  guarded_tac; [apply handle_admin_read_adds|apply respects_err, _| |apply respects_err, _]. bool_tests.
  apply handle_root_write_adds; [done..|by apply write_op_not_member].
Qed.

Lemma admit_learner_guarded v req : guarded v (admit_learner (W := W) req).
Proof.
  unfold admit_learner. apply guarded_ctx; intros c Hc.
  generalize (if str_is_empty (rj_edge_peer req) then [] else [rj_edge_peer req]). intros edge.
  guarded_tac. apply guarded_respects. match goal with H : map_err _ (verify_join_request _ _ _ _ _ _) = Ok ?u |- _ =>
    destruct u; apply map_err_Ok, verify_join_request_token in H as [Htok Hid] end.
  rewrite Hc in Htok. apply respects_bind; [apply _| |intros ?].
  - apply respects_map_err, respects_call, propose_adds. simpl. by eauto 10.
  - case_match; adds_tac.
Qed.
Lemma handle_leader_join_guarded v req : guarded v (handle_leader_join (W := W) req).
Proof.
  unfold handle_leader_join, join_reply. apply guarded_then; [apply admit_learner_guarded|]. intros x. adds_tac.
Qed.
Hint Resolve handle_leader_join_guarded : guarded.
Lemma handle_raft_join_guarded v value client : guarded v (handle_raft_join (W := W) value client).
Proof.
  unfold handle_raft_join, query. guarded_tac; apply guarded_respects; adds_tac.
Qed.

Definition proposes_nothing {E A} (m : ST (Node W) E A) : Prop :=
  respects (λ w w', raft_log w' = raft_log w) m.
Lemma proposes_nothing_guarded {E A} v (m : ST (Node W) E A) : proposes_nothing m → guarded v m.
Proof. intros Hm n r n' _ H1%Hm. by apply adds_same. Qed.
Lemma guarded_run {E A} (m : ST (Node W) E A) (n n' : Node W) r :
  guarded (ctx_admin_keys (nd_ctx n)) m → m n = (r, n') →
  ∃ cs, raft_log (nd_world n') = raft_log (nd_world n) ++ cs
    ∧ Forall (authorised (ctx_admin_keys (nd_ctx n))) cs.
Proof. intros Hm. by apply Hm. Qed.

(** In cluster mode every command proposed is authorised, when the handlers that are
    parameters here propose nothing. *)
Lemma handled_commands_authorised payload client forwarder (n n' : Node W) r :
  ctx_raft_required (nd_ctx n) = true →
  (∀ p, proposes_nothing (handle_rpc p)) →
  (∀ v, proposes_nothing (handle_seed_delivery v)) → (∀ v, proposes_nothing (handle_seed_drop v)) →
  handle_service_request handle_rpc handle_seed_delivery handle_seed_drop handle_join execute_member_write
    payload client forwarder n = (r, n') →
  ∃ cs, raft_log (nd_world n') = raft_log (nd_world n) ++ cs
    ∧ Forall (authorised (ctx_admin_keys (nd_ctx n))) cs.
Proof.
  intros Hraft Hrpc Hsd Hsr. unfold handle_service_request.
  intros [(val & n1 & H1 & Hrun)|(e & H1 & ->)]%st_bind_run; unfold st_lift in H1; simplify_eq; [|by apply adds_same].
  apply st_bind_run in Hrun as [(op & n2 & H2 & Hrun)|(e & H2 & ->)]; unfold st_lift in H2; simplify_eq;
    [|by apply adds_same].
  cbv [mbind ST_bind ctx_get id query] in Hrun. rewrite Hraft in Hrun.
  revert Hrun. unfold disabled. repeat case_match; apply guarded_run;
    first [ by apply proposes_nothing_guarded | by apply handle_raft_join_guarded | by apply handle_admin_v2_guarded
          | apply guarded_respects, respects_err, _ ].
Qed.

(** A join token bound to one ingress sidecar admits nobody through another
    leader.  The audience of a token is ["auth"] or the id of a sidecar.  When it
    is neither ["auth"] nor the leader's own id, the leader refuses the request,
    also when it was relayed by the very sidecar the token is for: nothing is
    proposed, and no learner is added. *)
Theorem edge_token_refused_by_leader value client (n n' : Node W) req r :
  from_value value = Ok req →
  jt_audience (rj_token req) ≠ "auth" → jt_audience (rj_token req) ≠ rt_peer_id (nd_world n) →
  handle_raft_join value client n = (r, n') →
  (∃ e, r = Err e) ∧ nd_ctx n' = nd_ctx n ∧ raft_log (nd_world n') = raft_log (nd_world n).
Proof.
  intros Hreq Ha Hme. unfold handle_raft_join, raft_runtime. cbv [mbind ST_bind ctx_get id query st_lift].
  destruct (rt_ready (nd_world n)); [|intros [= <- <-]; by eauto]. simpl.
  destruct (allowed (ctx_join (nd_ctx n))); [|intros [= <- <-]; by eauto]. rewrite Hreq. simpl.
  destruct (ask now_unix n) as [[now|e] n1] eqn:Hn; pose proof (quiet_ask _ now_unix_cmds _ _ _ Hn) as [_ Hl];
    unfold ask in Hn; destruct (now_unix (nd_world n)) as [now1 w1]; [|done]. injection Hn as -> <-.
  destruct (verify_join_request _ _ _ _ _ _) as [[]|e] eqn:Hv; [exfalso|intros [= <- <-]; by eauto].
  apply verify_join_request_token in Hv as [Htok _]. destruct (tv_audience _ _ _ _ _ _ Htok) as [|[_ Hin]]; [done|].
  by apply list_elem_of_singleton in Hin.
Qed.

(** The handlers with another implementation of the member operations. *)
Lemma execute_root_write_other emw' req va edge (n : Node W) : classify_admin_op (aq_op req) = OpWrite →
  execute_root_write execute_member_write req va edge n = execute_root_write emw' req va edge n.
Proof. intros Hw. unfold execute_root_write. by rewrite (write_op_not_member _ Hw). Qed.
Lemma bind_ext {E A B} (m : ST (Node W) E A) (f g : A → ST (Node W) E B) n :
  (∀ a n, f a n = g a n) → (m ≫= f) n = (m ≫= g) n.
Proof. intros Hfg. unfold mbind, ST_bind. by destruct (m n) as [[]]. Qed.
Ltac same_tac := repeat first
  [ done | solve [apply execute_root_write_other; bool_tests; done] | solve [auto with guarded]
  | apply bind_ext; intros ? ? | case_match ].
Lemma handle_forwarded_admin_other emw' raw (n : Node W) :
  handle_forwarded_admin execute_member_write raw n = handle_forwarded_admin emw' raw n.
Proof. unfold handle_forwarded_admin. same_tac. Qed.
Lemma handle_admin_v2_other emw' raw value fwd (n : Node W) :
  handle_admin_v2 execute_member_write raw value fwd n = handle_admin_v2 emw' raw value fwd n.
Proof.
  unfold handle_admin_v2, handle_root_write. case_match; [apply handle_forwarded_admin_other|]. same_tac.
Qed.

Hint Resolve handle_admin_v2_other : guarded.

(** The member operations cannot be reached.  Whatever code is put in the place
    of [execute_member_write], every request is handled the same, so that code is
    never run: not for a direct request and not for a forwarded one, on the leader
    or not.  A request to add, promote, demote or remove a member, or to issue a
    join token, is answered [unknown_op] even though it carries a valid signature
    of a root key. *)
Theorem member_operations_unreachable execute_member_write' payload client forwarder (n : Node W) :
  handle_service_request handle_rpc handle_seed_delivery handle_seed_drop handle_join execute_member_write
    payload client forwarder n =
  handle_service_request handle_rpc handle_seed_delivery handle_seed_drop handle_join execute_member_write'
    payload client forwarder n
  ∧ ∀ raw value req va v',
      from_value value = Ok req → is_member_management_op (aq_op req) = true →
      obj_get "op" value = Some (JStr (aq_op req)) →
      admin_verify req (now_unix (nd_world n)).1 (ctx_admin_keys (nd_ctx n)) = (Ok va, v') →
      ∃ e n', handle_admin_v2 execute_member_write raw value forwarder n = (Err e, n') ∧ se_code e = "unknown_op"
        ∧ raft_log (nd_world n') = raft_log (nd_world n).
Proof.
  split.
  - unfold handle_service_request. do 3 (apply bind_ext; intros ? ?).
    repeat (case_match; [reflexivity|]). case_match; [apply handle_admin_v2_other|reflexivity].
  - intros raw value req va v' Hreq Hm Hop Hv. unfold handle_admin_v2. rewrite Hop. simpl.
    rewrite bool_decide_eq_false_2 by (intros Heq; rewrite Heq in Hm; vm_compute in Hm; discriminate).
    cbv [mbind ST_bind st_lift]. rewrite Hreq. simpl. pose proof (now_unix_cmds (nd_world n)) as Hl.
    unfold ask. destruct (now_unix (nd_world n)) as [now w1]. unfold st_map_err, on_admin_keys. simpl in *.
    rewrite Hv, (member_op_unclassified _ Hm). eexists _, _. by split_and!.
Qed.
End authorised.

(** ** Examples

    A cluster of one node, which leads; the network takes every record. *)

Record Solo := MkSolo { so_cmds : list PolicyCommand; so_policy : PolicyState; so_time : N }.

Section service_examples.
Import Toy.
#[local] Existing Instance toy_coset.

#[local] Instance solo_clock : Clock Solo := λ w, (so_time w, w).
#[local] Instance solo_raft : AdminRaft Solo := {|
  is_leader w := (true, w);
  raft_term w := (1%N, w);
  leader_peer w := (Some "me", w);
  policy_snapshot w := (so_policy w, w);
  raft_applied_index w := (Some (N.of_nat (length (so_cmds w))), w);
  raft_stale w := (false, w);
  raft_service_name w := "auth";
  propose c w :=
    let i := N.of_nat (S (length (so_cmds w))) in
    let '(res, p) := apply_command_at c i (so_policy w) in
    (Ok (MkAdminProposal res i), MkSolo (so_cmds w ++ [c]) p (so_time w));
|}.
#[local] Instance solo_client : BackendClient Solo := {|
  client_add_key _ k _ _ w := (Ok (MkAddKeyResult true k), w);
  client_discover_providers _ _ w := (Ok [], w);
  client_whoami _ w := (Ok "me", w);
  client_query_key _ _ w := (Err (sidecar_error "timeout" "no answer"), w);
  client_service_request_to_with_timeout _ _ _ _ _ w := (Err (sidecar_error "timeout" "no answer"), w);
|}.
#[local] Instance solo_runtime : RaftRuntime Solo := {|
  rt_ready w := true;
  rt_cluster_id w := "c";
  rt_peer_id w := "me";
  rt_membership_view w := (MkMembershipView [] [] (Some 1%N) 1, w);
  rt_leader_id w := (Some 1%N, w);
  rt_add_learner_node i nd w := (Err "no such node", w);
  rt_status_snapshot := status_snapshot;
  rt_uptime_secs w := so_time w;
  spawn_broadcast _ _ w := w;
|}.
#[local] Instance solo_log : RaftLog Solo.
Proof.
  refine {| raft_log := so_cmds |}; try done. intros c w. simpl. destruct (apply_command_at _ _ _). by right.
Defined.

(** Replies are not looked at; each example fixes the request that is parsed. *)
#[local] Instance no_codec A : Codec Json A | 100 := {| encode_to _ := Ok "{}"; decode_from _ := Err "not read" |}.
#[local] Instance op_codec : Codec Json json := {|
  encode_to _ := Ok "{}"; decode_from op := Ok (JObj [("op", JStr op)]) |}.
#[local] Instance no_response : ToValue SyncResponse := λ _, JNull.
Definition parse_as {A} (a : A) : FromValue A := λ _, Ok a.

Definition admin_request (op : string) : AdminRequestV2 :=
  let req := MkAdminRequestV2 2 op "svc" ["p1"] "alice" "r1" "n1" 1000 "" None None in
  match sign_request ex_admin_seed req with Ok r => r | Err _ => req end.
Definition solo_node : Node Solo :=
  MkNode
    (MkAuthContext (Some (MkAuthority (pad 32 "seed") "net" (net_hash "net"))) ["key"]
       (MkStore ["state"] "net" 1 ∅ ∅)
       (MkAdminAuth "" ReplayGuard_default) ex_admin_verifier (join_server_new "" true) (MkRepAuth "" ReplayGuard_default)
       Publisher_new true true "net" "auth" 3600 1800)
    (MkFs ∅ ∅ 0 []) (MkSolo [] (PolicyState_new "net") 1000).
Definition stuck {A B} (a : A) : ST (Node Solo) SidecarError B := st_err (sidecar_error "unused" "").
Definition stuck3 {A B C D} (a : A) (b : B) (c : C) : ST (Node Solo) SidecarError D := stuck a.

(** A token of the sidecar [edge]: valid there, for the request that carries it. *)
Definition edge_token : JoinToken :=
  let t := token_from_spec "c" "net" "alice" (MkAdminJoinTokenSpec "t1" "edge" 5000 0 "peerA" "") in
  match sign_join_token ex_root_seed t with Ok t => t | Err _ => t end.
Definition edge_join : RaftJoinRequest :=
  let r := MkRaftJoinRequest RAFT_JOIN_OP 1 "c" "net" edge_token (node_id_from_peer_id "peerA") "peerA"
    (ik_public_key_b64 (identity_from_seed ex_node_seed)) (b64_encode (pad 32 "x")) "n1" 1000 "" "" in
  match sign_join_request (identity_from_seed ex_node_seed) r with Ok r => r | Err _ => r end.

Lemma edge_token_refused_by_leader_witness :
  verify_join_request edge_join ex_admin_verifier "c" "net" 1000 ["edge"] = Ok ()
  ∧ (∃ e, (handle_raft_join (FJ := parse_as (relay edge_join "edge")) JNull None solo_node).1 = Err e).
Proof.
  split; [vm_compute; reflexivity|].
  eapply (edge_token_refused_by_leader (RL := solo_log) (FJ := parse_as (relay edge_join "edge")) JNull None solo_node
    (handle_raft_join (FJ := parse_as (relay edge_join "edge")) JNull None solo_node).2 (relay edge_join "edge")).
  - reflexivity.
  - vm_compute. discriminate.
  - vm_compute. discriminate.
  - apply surjective_pairing.
Defined.

Lemma member_operations_unreachable_witness :
  let req := admin_request "issue_join_token" in
  ∃ e n', handle_admin_v2 (FA := parse_as req) stuck3 "" (JObj [("op", JStr (aq_op req))]) None solo_node = (Err e, n')
    ∧ se_code e = "unknown_op" ∧ so_cmds (nd_world n') = [].
Proof.
  intros req.
  destruct (admin_verify req 1000 ex_admin_verifier) as [[va|e] v'] eqn:Hv; [|vm_compute in Hv; discriminate].
  apply (proj2 (member_operations_unreachable (RL := solo_log) (FM := λ _, Err "") (FA := parse_as req)
           (FR := λ _, Err "") (FS := λ _, Err "") (FJ := λ _, Err "") stuck stuck stuck stuck stuck3 stuck3
           "" None None solo_node) "" (JObj [("op", JStr (aq_op req))]) req va v').
  - reflexivity.
  - vm_compute. reflexivity.
  - reflexivity.
  - exact Hv.
Defined.
End service_examples.
