(* ===== verification/Runtime.v ===== *)
(** * The Raft runtime: [src/src/raft/mod.rs], [network.rs] and [bootstrap.rs]

    The consensus library [openraft] is behind the interface [RaftCore]: it keeps
    the log and the elections in a world of its own, and every call may find that
    world changed.  What the repository adds is here: the identity and the table of
    member keys, the signed exchange between sidecars, the changes of membership,
    the delivery of the authority seed, the start and the joining of a cluster. *)
From S2P Require Import Prelude Fsutil Crypto Authority Replay Store Types StateMachine RaftStorage Transport AdminV2.
From S2P Require Import Config Join Seed Protocol Admin Replicate PasswordJoin Context Publisher Sync Service.

(** ** What the runtime uses *)

(** The request and response types of [openraft]. *)
Class RaftTypes := MkRaftTypes {
  VoteRequest : Type; VoteResponse : Type; AppendEntriesRequest : Type; AppendEntriesResponse : Type;
  InstallSnapshotRequest : Type; InstallSnapshotResponse : Type;
}.
Abbreviation RpcBody := (RaftRpcBody VoteRequest AppendEntriesRequest InstallSnapshotRequest).

Inductive ServerState := StLeader | StFollower | StCandidate | StLearner | StShutdown.
Global Instance ServerState_eq_dec : EqDecision ServerState.
Proof. solve_decision. Defined.

(** [openraft::RaftMetrics], the fields that are read. *)
Record Metrics := MkMetrics {
  mt_state : ServerState; mt_current_term : N; mt_current_leader : option NodeId; mt_membership : Membership;
  mt_last_applied : option LogId; mt_last_log_index : option N;
}.
(** [Membership::voter_ids] of a joint configuration: the voters of each part. *)
Definition voter_ids (m : Membership) : gset NodeId := ⋃ mb_configs m.
Definition membership_entries (m : Membership) : list (NodeId * RaftNode) := ord_entries N.le (mb_nodes m).

(** [openraft::Config], the fields that are set. *)
Record CoreConfig := MkCoreConfig {
  cc_cluster_name : string; cc_heartbeat_interval : N; cc_election_timeout_min : N; cc_election_timeout_max : N
}.

(** [NetworkFactory] of [network.rs], over the [BackendTransport]. *)
Record NetworkFactory := MkNetworkFactory {
  nf_client : Conn; nf_timeout : N; nf_identity : IdentityKey; nf_cluster_id : string; nf_local_id : NodeId;
  nf_service : string;
}.

(** [openraft::Raft]; errors are their texts. *)
Class RaftCore {RT : RaftTypes} (W : Type) := {
  core_validate : CoreConfig → result string CoreConfig;
  core_storage_text : StorageError → string;
  core_new : NodeId → CoreConfig → NetworkFactory → Db → Sm → ST W string unit;
  core_metrics : W → Metrics * W;
  (** The state machine store, which the library applies the log to. *)
  core_state_machine : W → Sm;
  core_client_write : PolicyCommand → ST W string (PolicyResult * LogId);
  (** The last argument of the next three: wait until the learner has caught up;
      keep removed voters as learners, twice. *)
  core_add_learner : NodeId → RaftNode → bool → ST W string unit;
  core_change_voters : gset NodeId → bool → ST W string unit;
  core_remove_nodes : gset NodeId → bool → ST W string unit;
  core_is_initialized : ST W string bool;
  core_initialize : gmap NodeId RaftNode → ST W string unit;
  core_vote : VoteRequest → ST W string VoteResponse;
  core_append_entries : AppendEntriesRequest → ST W string AppendEntriesResponse;
  core_install_snapshot : InstallSnapshotRequest → ST W string InstallSnapshotResponse;
  core_elect : ST W string unit;
}.

(** Random bytes, and the monotonic clock in milliseconds. *)
Class Rng (W : Type) := random_bytes : nat → W → string * W.
Class Timer (W : Type) := { instant : W → N * W; sleep : N → W → W }.

(** ** Errors *)

Inductive RaftInitError :=
  | RiDisabled | RiWhoami (e : string) | RiTransport (e : TransportError) | RiStorage (e : string)
  | RiConfig (e : string) | RiBootstrap (e : string).
Definition raft_init_error_text (e : RaftInitError) : string :=
  match e with
  | RiDisabled => "raft cluster is disabled"
  | RiWhoami e => "whoami failed: " +:+ e
  | RiTransport e => "raft identity error: " +:+ transport_error_text e
  | RiStorage e => "raft storage error: " +:+ e
  | RiConfig e => "raft config error: " +:+ e
  | RiBootstrap e => "raft bootstrap error: " +:+ e
  end.
Inductive BootstrapError := BeRaft (e : string) | BeMember (e : string).
Definition bootstrap_error_text (e : BootstrapError) : string :=
  match e with
  | BeRaft e => "raft bootstrap error: " +:+ e
  | BeMember e => "bad cluster member config: " +:+ e
  end.

Definition client_error_text (e : SidecarError) : string := "[" +:+ se_code e +:+ "] " +:+ se_message e.
Definition rpc_auth_error (e : TransportError) : SidecarError :=
  sidecar_error "raft_auth_failed" (transport_error_text e).

Definition server_state_name (s : ServerState) : string :=
  match s with
  | StLeader => "leader" | StFollower => "follower" | StCandidate => "candidate"
  | StLearner => "learner" | StShutdown => "shutdown"
  end.

(** ** Sets of members *)

Definition remaining_voters (voters : list NodeId) (remove : NodeId) : result string (gset NodeId) :=
  let remaining : gset NodeId := list_to_set (filter (λ id, id ≠ remove) voters) in
  if bool_decide (remaining = ∅) then Err "refusing to remove/demote the last voter" else Ok remaining.

Definition join_candidates (configured discovered : list string) (self_peer : string) : list string :=
  dedup (sort_strings (filter (λ peer, peer ≠ self_peer) (configured ++ discovered))).

Section members.
Context `{Crypto}.

Fixpoint add_config_members (members : list ClusterMemberConfig) (map : gmap NodeId RaftNode)
    : result BootstrapError (gmap NodeId RaftNode) :=
  match members with
  | [] => Ok map
  | member :: members =>
      if str_is_empty (cm_peer_id member) then Err (BeMember "missing peer_id")
      else
        let node_id := node_id_from_peer_id (cm_peer_id member) in
        if (node_id =? 0)%N then Err (BeMember "derived node_id must be non-zero")
        else if str_is_empty (cm_identity_key member)
        then Err (BeMember ("node " +:+ pretty node_id +:+ " missing identity_key"))
        else match map !! node_id with
        | Some _ => Err (BeMember ("duplicate node_id " +:+ pretty node_id +:+ " derived from peer_id"))
        | None =>
            add_config_members members
              (<[node_id := MkRaftNode (cm_peer_id member) (cm_identity_key member) ""]> map)
        end
  end.
Definition members_from_config (members : list ClusterMemberConfig) : result BootstrapError (gmap NodeId RaftNode) :=
  add_config_members members ∅.
End members.

(** ** The runtime *)

Record Runtime := MkRuntime {
  ru_identity : IdentityKey; ru_verifier : RpcVerifier; ru_cluster_id : string; ru_node_id : NodeId;
  ru_peer_id : string; ru_service : string; ru_x25519 : SeedExchangeKey; ru_client : Conn; ru_rpc_timeout : N;
}.
Definition set_verifier (ru : Runtime) (v : RpcVerifier) : Runtime :=
  MkRuntime (ru_identity ru) v (ru_cluster_id ru) (ru_node_id ru) (ru_peer_id ru) (ru_service ru) (ru_x25519 ru)
    (ru_client ru) (ru_rpc_timeout ru).

(** A connection to one member.  The table of keys is shared with the runtime, so it
    is an argument of the calls. *)
Record NetworkConnection := MkNetworkConnection {
  nc_factory : NetworkFactory; nc_target : NodeId; nc_target_node : RaftNode
}.
Definition new_client (f : NetworkFactory) (target : NodeId) (node : RaftNode) : NetworkConnection :=
  MkNetworkConnection f target node.

Section runtime.
Context `{CR : Crypto, JE : Codec Json RaftRpcEnvelope, JR : Codec Json RaftRpcReply}.
Context {RT : RaftTypes} `{CB : Codec Cbor RpcBody, CV : Codec Cbor VoteResponse, CA : Codec Cbor AppendEntriesResponse,
  CN : Codec Cbor InstallSnapshotResponse}.
Context `{SB : Codec Cbor SeedBinding, SE : Codec Cbor SeedEnvelopeSigned, SA : Codec Cbor SeedAckSigned,
  SD : Codec Cbor DropSigned, JD : Codec Json SeedDeliveryRequest, JX : Codec Json SeedDropRequest, JA : Codec Json SeedAck}.
Context `{CT : Codec Cbor JoinTokenSigned, CJ : Codec Cbor JoinSigned, JT : Codec Json JoinToken,
  JQ : Codec Json RaftJoinRequest, JP : Codec Json RaftJoinResponse}.
Context {W : Type} `{WC : Clock W, WB : BackendClient W, RC : !RaftCore W, RN : Rng W, TM : Timer W}.

(** ** The signed exchange *)

(** [BackendTransport::request]. *)
Definition transport_request (client : Conn) (timeout : N) (service peer payload : string) : ST W string string :=
  st_map_err client_error_text (client_service_request_to_with_timeout client service peer payload timeout).

Definition send (v : RpcVerifier) (c : NetworkConnection) (body : RpcBody) : ST W string string :=
  let f := nc_factory c in
  payload ← st_lift (map_err transport_error_text
    (encode_request (nf_identity f) (nf_cluster_id f) (nf_local_id f) (nc_target c) body));
  raw ← transport_request (nf_client f) (nf_timeout f) (nf_service f) (rn_peer_id (nc_target_node c)) payload;
  reply ← st_lift (map_err (λ e, "decode raft rpc reply: " +:+ e) (decode_from Json (A := RaftRpcReply) raw));
  st_lift (map_err transport_error_text (verify_reply v (nc_target c) reply)).

(** The three calls of [RaftNetwork]; their errors are [RPCError::Network] of a text. *)
Definition net_call {A} `{Codec Cbor A} (what : string) (body : RpcBody) (v : RpcVerifier) (c : NetworkConnection)
    : ST W string A :=
  bytes ← send v c body;
  st_lift (map_err (λ e, "decode " +:+ what +:+ ": " +:+ e) (decode_from Cbor bytes)).
Definition net_append_entries (rpc : AppendEntriesRequest) := net_call (A := AppendEntriesResponse) "append_entries" (RpcAppendEntries rpc).
Definition net_install_snapshot (rpc : InstallSnapshotRequest) :=
  net_call (A := InstallSnapshotResponse) "install_snapshot" (RpcInstallSnapshot rpc).
Definition net_vote (rpc : VoteRequest) := net_call (A := VoteResponse) "vote" (RpcVote rpc).

Definition signed_reply_payload (identity : IdentityKey) (cluster_id : string) (from to : NodeId) (ok : bool)
    (body error : string) : result string string :=
  map_err transport_error_text (encode_reply identity cluster_id from to ok body error).

(** ** Calls on the runtime and its world *)

Abbreviation RW := (Runtime * W)%type.
Definition env_ask {E A} (q : W → A * W) : ST RW E A := λ '(ru, w), let '(a, w) := q w in (Ok a, (ru, w)).
Definition env_call {E A} (m : ST W E A) : ST RW E A := λ '(ru, w), let '(r, w) := m w in (r, (ru, w)).
Definition self {E A} (f : Runtime → A) : ST RW E A := λ s, (Ok (f s.1), s).
Definition on_verifier {E A} (m : ST RpcVerifier E A) : ST RW E A := λ '(ru, w),
  let '(r, v) := m (ru_verifier ru) in (r, (set_verifier ru v, w)).

(** ** Queries *)

Definition metrics {E} : ST RW E Metrics := env_ask core_metrics.
Definition runtime_is_leader {E} : ST RW E bool := m ← metrics; mret (bool_decide (mt_state m = StLeader)).
Definition runtime_term {E} : ST RW E N := m ← metrics; mret (mt_current_term m).
Definition runtime_leader_id {E} : ST RW E (option NodeId) := m ← metrics; mret (mt_current_leader m).
Definition runtime_leader_peer {E} : ST RW E (option string) :=
  m ← metrics;
  mret (leader_id ← mt_current_leader m; rn_peer_id <$> mb_nodes (mt_membership m) !! leader_id).
Definition runtime_policy_snapshot {E} : ST RW E PolicyState := λ s, (Ok (policy_state (core_state_machine s.2)), s).
Definition runtime_applied_index {E} : ST RW E (option N) := λ s, (Ok (applied_index (core_state_machine s.2)), s).
Definition metrics_stale (m : Metrics) : bool :=
  bool_decide (mt_current_leader m = None)
  || (from_option li_index 0 (mt_last_applied m) <? default 0 (mt_last_log_index m))%N.
Definition runtime_stale {E} : ST RW E bool := m ← metrics; mret (metrics_stale m).

Definition runtime_propose (command : PolicyCommand) : ST RW string AdminProposal :=
  response ← env_call (core_client_write command);
  mret (MkAdminProposal response.1 (li_index response.2)).

(** The members of a kind, in the order of the ids: [nodes] iterates a [BTreeMap], so
    the stable sort that follows in the source changes nothing. *)
Definition status_of (m : Membership) (entry : NodeId * RaftNode) : RaftStatusMember :=
  MkRaftStatusMember entry.1 (rn_peer_id entry.2) (bool_decide (entry.1 ∈ voter_ids m)).
Definition runtime_status_snapshot {E} : ST RW E RaftStatusSnapshot :=
  m ← metrics;
  ru ← self id;
  let entries := status_of (mt_membership m) <$> membership_entries (mt_membership m) in
  mret (MkRaftStatusSnapshot (ru_cluster_id ru) (ru_node_id ru)
    (id ← mt_current_leader m; rn_peer_id <$> mb_nodes (mt_membership m) !! id)
    (mt_current_term m) (server_state_name (mt_state m)) (li_index <$> mt_last_applied m) (mt_last_log_index m)
    (filter (λ e, sb_voter e = true) entries) (filter (λ e, sb_voter e = false) entries) (metrics_stale m)).

Definition info_of (m : Membership) (entry : NodeId * RaftNode) : MemberInfo :=
  MkMemberInfo entry.1 (rn_peer_id entry.2) (rn_identity_key entry.2) (rn_x25519_key entry.2)
    (bool_decide (entry.1 ∈ voter_ids m)).
Definition view_of (m : Metrics) : MembershipView :=
  let entries := info_of (mt_membership m) <$> membership_entries (mt_membership m) in
  MkMembershipView (filter (λ e, mi_voter e = true) entries) (filter (λ e, mi_voter e = false) entries)
    (mt_current_leader m) (mt_current_term m).
Definition membership_view {E} : ST RW E MembershipView := m ← metrics; mret (view_of m).
Definition member_node {E} (node_id : NodeId) : ST RW E (option RaftNode) :=
  m ← metrics; mret (mb_nodes (mt_membership m) !! node_id).

(** A key that does not parse leaves the table as it was, and the failure is dropped. *)
Definition member_keys (m : Membership) : list (NodeId * string) :=
  (λ e : NodeId * RaftNode, (e.1, rn_identity_key e.2)) <$> membership_entries m.
Definition refresh_verifier_from_metrics {E} : ST RW E unit :=
  m ← metrics;
  let nodes := member_keys (mt_membership m) in
  if bool_decide (nodes = []) then mret () else λ s, (Ok (), (on_verifier (replace_nodes nodes) s).2).

(** ** Changes of membership *)

Definition add_learner_node (node_id : NodeId) (node : RaftNode) : ST RW string MemberInfo :=
  view ← membership_view;
  if mv_is_member view node_id then st_err ("node " +:+ pretty node_id +:+ " is already a member")
  else if str_is_empty (rn_identity_key node) then st_err "identity_key is required"
  else
    env_call (core_add_learner node_id node false) ;;
    refresh_verifier_from_metrics ;;
    mret (MkMemberInfo node_id (rn_peer_id node) (rn_identity_key node) (rn_x25519_key node) false).

Definition voter_set (view : MembershipView) : gset NodeId := list_to_set (mi_node_id <$> mv_voters view).

Definition promote_voter (node_id : NodeId) : ST RW string unit :=
  view ← membership_view;
  if mv_is_voter view node_id then st_err ("node " +:+ pretty node_id +:+ " is already a voter")
  else
    member ← st_lift (ok_or (mv_find view node_id) ("node " +:+ pretty node_id +:+ " is not a learner"));
    env_call (core_add_learner node_id
      (MkRaftNode (mi_peer_id member) (mi_identity_key member) (mi_x25519_key member)) true) ;;
    env_call (core_change_voters ({[node_id]} ∪ voter_set view) true) ;;
    refresh_verifier_from_metrics.

(** The exchange with a member, with the table of keys and the client of the runtime. *)
Definition service_request (peer payload : string) : ST RW string string :=
  ru ← self id;
  env_call (transport_request (ru_client ru) (ru_rpc_timeout ru) (ru_service ru) peer payload).

Definition send_body (target : NodeId) (body : RpcBody) : ST RW string unit :=
  node ← member_node target;
  node ← st_lift (ok_or node ("unknown target node " +:+ pretty target));
  ru ← self id;
  payload ← st_lift (map_err transport_error_text
    (encode_request (ru_identity ru) (ru_cluster_id ru) (ru_node_id ru) target body));
  raw ← service_request (rn_peer_id node) payload;
  reply ← st_lift (map_err (λ e, "decode reply: " +:+ e) (decode_from Json (A := RaftRpcReply) raw));
  v ← self ru_verifier;
  st_lift (map_err transport_error_text (verify_reply v target reply)) ;;
  mret ().

Definition TRANSFER_TIMEOUT_MS : N := 8000.
Definition TRANSFER_POLL_MS : N := 100.
(** The loop that waits for the candidate to lead; [None] means out of fuel. *)
Fixpoint await_leader (fuel : nat) (candidate : NodeId) (deadline : N) (w : W) : option (result string unit) * W :=
  match fuel with
  | O => (None, w)
  | S fuel =>
      let '(m, w) := core_metrics w in
      if bool_decide (mt_current_leader m = Some candidate) && bool_decide (mt_state m ≠ StLeader)
      then (Some (Ok ()), w)
      else
        let '(now, w) := instant w in
        if (deadline <=? now)%N then (Some (Err "leader re-election timed out before membership change"), w)
        else await_leader fuel candidate deadline (sleep TRANSFER_POLL_MS w)
  end.
(** One turn for each pause that fits before the deadline, and one more. *)
Definition transfer_fuel : nat := N.to_nat (TRANSFER_TIMEOUT_MS / TRANSFER_POLL_MS + 1).

Definition transfer_leader_away : ST RW string unit :=
  view ← membership_view;
  me ← self ru_node_id;
  candidate ← st_lift (ok_or (snd <$> list_find (λ id, id ≠ me) (mi_node_id <$> mv_voters view))
                         "no other voter available for leader transfer");
  send_body candidate RpcElect ;;
  start ← env_ask instant;
  outcome ← env_ask (await_leader transfer_fuel candidate (start + TRANSFER_TIMEOUT_MS)%N);
  st_lift (default (Err "out of fuel") outcome).

Definition demote_voter (node_id : NodeId) : ST RW string unit :=
  view ← membership_view;
  if negb (mv_is_voter view node_id) then st_err ("node " +:+ pretty node_id +:+ " is not a voter")
  else
    remaining ← st_lift (remaining_voters (mi_node_id <$> mv_voters view) node_id);
    me ← self ru_node_id;
    leading ← (if (node_id =? me)%N then runtime_is_leader else mret false);
    (if leading : bool then transfer_leader_away else mret ()) ;;
    env_call (core_change_voters remaining true) ;;
    refresh_verifier_from_metrics.

Definition remove_member (node_id : NodeId) : ST RW string unit :=
  view ← membership_view;
  if negb (mv_is_member view node_id) then st_err ("node " +:+ pretty node_id +:+ " is not a member")
  else
    me ← self ru_node_id;
    leading ← (if (node_id =? me)%N then runtime_is_leader else mret false);
    (if leading : bool then transfer_leader_away else mret ()) ;;
    (if mv_is_voter view node_id then
       remaining ← st_lift (remaining_voters (mi_node_id <$> mv_voters view) node_id);
       env_call (core_change_voters remaining true)
     else mret ()) ;;
    node ← member_node node_id;
    (if bool_decide (is_Some node) then env_call (core_remove_nodes {[node_id]} true) else mret ()) ;;
    refresh_verifier_from_metrics.

(** ** The authority seed *)

(** [ctx.authority_seed()] and [ctx.network] are arguments. *)
Definition deliver_seed (seed : option string) (network : string) (target : NodeId) : ST RW string unit :=
  seed ← st_lift (ok_or seed "leader has no authority seed");
  node ← member_node target;
  node ← st_lift (ok_or node ("unknown target node " +:+ pretty target));
  ru ← self id;
  rng_eph ← env_ask (random_bytes 32);
  rng_nonce ← env_ask (random_bytes 12);
  envelope ← st_lift (map_err seed_error_text
    (seal_seed rng_eph rng_nonce (ru_identity ru) (ru_node_id ru) (ru_cluster_id ru) network target node seed));
  payload ← st_lift (encode_to Json (MkSeedDeliveryRequest SEED_DELIVERY_OP envelope));
  raw ← service_request (rn_peer_id node) payload;
  ack ← st_lift (decode_from Json (A := SeedAck) raw);
  v ← self ru_verifier;
  st_lift (map_err seed_error_text (verify_ack v target ack)).

Definition drop_remote_seed (target : NodeId) : ST RW string unit :=
  node ← member_node target;
  node ← st_lift (ok_or node ("unknown target node " +:+ pretty target));
  ru ← self id;
  request ← st_lift (map_err seed_error_text
    (sign_drop_request (ru_identity ru) (ru_node_id ru) (ru_cluster_id ru) target node));
  payload ← st_lift (encode_to Json request);
  raw ← service_request (rn_peer_id node) payload;
  ack ← st_lift (decode_from Json (A := SeedAck) raw);
  v ← self ru_verifier;
  st_lift (map_err seed_error_text (verify_ack v target ack)).

(** ** Inbound calls of the other members *)

(** [encode_cbor] of a response, or the error of the call as its text. *)
Definition rpc_outcome {A} `{Codec Cbor A} (m : ST W string A) : ST RW SidecarError (result string string) := λ '(ru, w),
  let '(r, w) := m w in
  (Ok (match r with Ok resp => encode_to Cbor resp | Err e => Err e end), (ru, w)).
Definition rpc_execute (body : RpcBody) : ST RW SidecarError (result string string) :=
  match body with
  | RpcVote req => rpc_outcome (core_vote req)
  | RpcAppendEntries req => rpc_outcome (core_append_entries req)
  | RpcInstallSnapshot req => rpc_outcome (core_install_snapshot req)
  | RpcElect => λ '(ru, w), let '(r, w) := core_elect w in (Ok (match r with Ok _ => Ok "" | Err e => Err e end), (ru, w))
  end.
Definition handle_rpc (payload : string) : ST RW SidecarError string :=
  envelope ← st_lift (map_err (λ e, sidecar_error "raft_bad_request" ("RPC 解析失败: " +:+ e))
                        (decode_from Json (A := RaftRpcEnvelope) payload));
  if bool_decide (re_op envelope ≠ RAFT_RPC_OP) then st_err (sidecar_error "raft_bad_request" "非 raft_rpc 请求")
  else
    ru ← self id;
    request ← st_lift (map_err rpc_auth_error (verify_request (ru_verifier ru) envelope));
    outcome ← rpc_execute request.2;
    let '(ok, body, error) := match outcome with Ok body => (true, body, "") | Err e => (false, "", e) end in
    st_lift (map_err (sidecar_error "raft_encode_error")
      (signed_reply_payload (ru_identity ru) (ru_cluster_id ru) (ru_node_id ru) request.1 ok body error)).

(** ** Joining with the token of the configuration *)

Definition read_join_token (cluster : ClusterConfig) (fs : Fs) : option JoinToken * Fs :=
  if negb (str_is_empty (cl_join_token_path cluster)) then
    match fs_read_to_string (path_of (cl_join_token_path cluster)) fs with
    | (Ok text, fs) => (result_ok (decode_from Json text), fs)
    | (Err _, fs) => (None, fs)
    end
  else if negb (str_is_empty (cl_join_token cluster)) then (result_ok (decode_from Json (cl_join_token cluster)), fs)
  else (None, fs).

(** One candidate: the answer's members, or why it is passed over; an answer that
    admits the node but has a bad key ends the attempt. *)
Definition join_answer (ru : Runtime) (network raw : string) : result string (list (NodeId * string)) :=
  response ← map_err (λ e, "decode join response: " +:+ e) (decode_from Json (A := RaftJoinResponse) raw);
  if negb (jr_ok response) then Err (jr_error response)
  else if bool_decide (jr_cluster_id response ≠ ru_cluster_id ru) || bool_decide (jr_network response ≠ network)
  then Err "join response cluster/network mismatch"
  else
    let nodes := (λ m, (mi_node_id m, mi_identity_key m)) <$> jr_members response in
    Ok (nodes ++ if existsb (λ n, (n.1 =? ru_node_id ru)%N) nodes then []
                 else [(ru_node_id ru, ik_public_key_b64 (ru_identity ru))]).
Fixpoint join_through (payload network last_error : string) (candidates : list string) : ST RW string bool :=
  match candidates with
  | [] => st_err (if str_is_empty last_error then "all join candidates failed" else last_error)
  | peer :: candidates => λ s,
      match service_request peer payload s with
      | (Err e, s) => join_through payload network e candidates s
      | (Ok raw, s) =>
          match join_answer s.1 network raw with
          | Err e => join_through payload network e candidates s
          | Ok nodes => (st_map_err transport_error_text (on_verifier (replace_nodes nodes)) ;; mret true) s
          end
      end
  end.

Definition try_join (config : ServiceConfig) : ST (Fs * RW) string bool := λ '(fs, s),
  match env_call core_is_initialized s with
  | (Err e, s) => (Err e, (fs, s))
  | (Ok true, s) => (Ok false, (fs, s))
  | (Ok false, s) =>
      let cluster := cf_cluster config in
      match read_join_token cluster fs with
      | (None, fs) => (Ok false, (fs, s))
      | (Some token, fs) =>
          let configured := cm_peer_id <$> cl_voters cluster ++ cl_learners cluster in
          let '(found, (ru, w)) := env_call (client_discover_providers (ru_client s.1) (ru_service s.1)) s in
          let discovered := match found with Ok peers => peers | Err _ => [] end in
          let candidates := join_candidates configured discovered (ru_peer_id ru) in
          if bool_decide (candidates = []) then (Err "no join candidate available", (fs, (ru, w)))
          else
            let '(nonce, w) := random_bytes 16 w in
            let '(now, w) := now_unix w in
            let request := MkRaftJoinRequest RAFT_JOIN_OP RAFT_JOIN_VERSION (ru_cluster_id ru) (cf_network config) token
              (ru_node_id ru) (ru_peer_id ru) (ik_public_key_b64 (ru_identity ru)) (sk_public_b64 (ru_x25519 ru))
              (b64url_encode nonce) now "" "" in
            let '(r, s) :=
              (request ← st_lift (map_err join_text (sign_join_request (ru_identity ru) request));
               payload ← st_lift (encode_to Json request);
               join_through payload (cf_network config) "" candidates) (ru, w) in
            (r, (fs, s))
      end
  end.

(** ** The start *)

Definition bootstrap_if_enabled (config : ClusterConfig) (local_id : NodeId) (local_node : RaftNode)
    : ST W BootstrapError bool :=
  if negb (cl_bootstrap config) then mret false
  else
    initialized ← st_map_err BeRaft core_is_initialized;
    if initialized : bool then mret false
    else
      voters ← st_lift (members_from_config (cl_voters config));
      let voters := match voters !! local_id with Some _ => voters | None => <[local_id := local_node]> voters end in
      if bool_decide (voters = ∅) then st_err (BeMember "no voter configured")
      else st_map_err BeRaft (core_initialize voters) ;; mret true.

(** [bootstrap::add_learner]. *)
Definition bootstrap_add_learner (id : NodeId) (node : RaftNode) : ST W BootstrapError unit :=
  st_map_err BeRaft (core_add_learner id node false).

Definition start_rpc_timeout (heartbeat_interval_ms : N) : N :=
  N.min (N.max (N.min (heartbeat_interval_ms * 4) u64_max) 200) 10000.
Definition core_config (cluster : ClusterConfig) : CoreConfig :=
  MkCoreConfig (cl_cluster_id cluster) (N.max (cl_heartbeat_interval_ms cluster) 10)
    (N.max (cl_election_timeout_min_ms cluster) 50)
    (N.max (cl_election_timeout_max_ms cluster) (sat_add64 (cl_election_timeout_min_ms cluster) 50)).

(** The keys of the configured members; whether the node itself is one of them. *)
Fixpoint load_members (whoami : string) (members : list ClusterMemberConfig) (ids : gset NodeId) (self_in_config : bool)
    (v : RpcVerifier) : result RaftInitError (gset NodeId * bool * RpcVerifier) :=
  match members with
  | [] => Ok (ids, self_in_config, v)
  | member :: members =>
      if str_is_empty (cm_peer_id member) then Err (RiConfig "cluster member missing peer_id")
      else
        let member_id := node_id_from_peer_id (cm_peer_id member) in
        if bool_decide (member_id ∈ ids)
        then Err (RiConfig ("duplicate node_id " +:+ pretty member_id +:+ " derived from configured peer_id"))
        else match add_node member_id (cm_identity_key member) v with
        | (Err e, _) => Err (RiTransport e)
        | (Ok _, v) =>
            load_members whoami members ({[member_id]} ∪ ids)
              (self_in_config || bool_decide (cm_peer_id member = whoami)) v
        end
  end.

Context `{C1 : Codec Cbor LogEntry, C2 : Codec Cbor LogId, C3 : Codec Cbor (option LogId), C4 : Codec Cbor Vote,
  C5 : Codec Cbor PolicyState, C6 : Codec Cbor StoredMembership, C7 : Codec Cbor SnapshotMeta}.

(** The files, the database and the world of a node that starts. *)
Record Boot := MkBoot { bt_fs : Fs; bt_db : Db; bt_world : W }.
Definition boot_fs {E A} (m : ST Fs E A) : ST Boot E A := λ b,
  let '(r, fs) := m (bt_fs b) in (r, MkBoot fs (bt_db b) (bt_world b)).
Definition boot_storage {E A} (m : ST (Fs * Db) E A) : ST Boot E A := λ b,
  let '(r, (fs, db)) := m (bt_fs b, bt_db b) in (r, MkBoot fs db (bt_world b)).
Definition boot_call {E A} (m : ST W E A) : ST Boot E A := λ b,
  let '(r, w) := m (bt_world b) in (r, MkBoot (bt_fs b) (bt_db b) w).
Definition boot_ask {E A} (q : W → A * W) : ST Boot E A := λ b,
  let '(a, w) := q (bt_world b) in (Ok a, MkBoot (bt_fs b) (bt_db b) w).
Definition boot_db {E} : ST Boot E Db := λ b, (Ok (bt_db b), b).
Definition boot_refresh {E} (runtime : Runtime) : ST Boot E Runtime := λ b,
  let '(_, (runtime, w)) := refresh_verifier_from_metrics (E := string) (runtime, bt_world b) in
  (Ok runtime, MkBoot (bt_fs b) (bt_db b) w).

Definition runtime_start (config : ServiceConfig) (client : Conn) : ST Boot RaftInitError Runtime :=
  let cluster := cf_cluster config in
  if negb (cl_enabled cluster) then st_err RiDisabled
  else if (cf_renew_secs config =? 0)%N || (cf_expires_secs config <=? cf_renew_secs config)%N then
    st_err (RiConfig ("renew_secs=" +:+ pretty (cf_renew_secs config) +:+ " must be less than expires_secs="
                      +:+ pretty (cf_expires_secs config)))
  else
    st_lift (map_err (λ e, RiConfig (admin_v2_text e)) (from_config (cf_admin_keys config) true)) ;;
    whoami ← st_map_err (λ e, RiWhoami (se_message e)) (boot_call (client_whoami client));
    let node_id := node_id_from_peer_id whoami in
    if (node_id =? 0)%N then st_err (RiConfig "node_id must be non-zero")
    else
      rng ← boot_ask (random_bytes 32);
      identity ← st_map_err RiTransport (boot_fs (identity_load_or_create rng (path_of (cl_identity_key_path cluster))));
      rng ← boot_ask (random_bytes 32);
      x25519 ← st_map_err (λ e, RiConfig (seed_error_text e))
        (boot_fs (exchange_load_or_create rng (path_of (cl_seed_exchange_key_path cluster))));
      let local_node := MkRaftNode whoami (ik_public_key_b64 identity) (sk_public_b64 x25519) in
      loaded ← st_lift (load_members whoami (cl_voters cluster ++ cl_learners cluster) ∅ false
                          (verifier_new (cl_cluster_id cluster) node_id));
      let '(member_ids, self_in_config, v) := loaded in
      if bool_decide (node_id ∈ member_ids) && negb self_in_config
      then st_err (RiConfig "local node_id collides with a configured member")
      else
        v ← st_lift (map_err RiTransport (add_nodes [(node_id, rn_identity_key local_node)] v));
        sm ← st_map_err (λ e, RiStorage (core_storage_text e))
               (boot_storage (storage_open (path_of (cl_data_path cluster)) (cf_network config)));
        v ← st_lift (map_err RiTransport (add_nodes (prod_map id rn_identity_key <$> membership_nodes sm) v));
        let rpc_timeout := start_rpc_timeout (cl_heartbeat_interval_ms cluster) in
        let network := MkNetworkFactory client rpc_timeout identity (cl_cluster_id cluster) node_id (cf_service config) in
        raft_config ← st_lift (map_err RiConfig (core_validate (core_config cluster)));
        db ← boot_db;
        st_map_err RiStorage (boot_call (core_new node_id raft_config network db sm)) ;;
        st_map_err (λ e, RiBootstrap (bootstrap_error_text e))
          (boot_call (bootstrap_if_enabled cluster node_id local_node)) ;;
        boot_refresh (MkRuntime identity v (cl_cluster_id cluster) node_id whoami (cf_service config) x25519 client
                        rpc_timeout).
End runtime.
