(* ===== verification/Members.v ===== *)
(** * The sidecar with its Raft runtime: [src/src/service.rs], [src/src/raft/mod.rs]

    The runtime of [Runtime] put behind the interfaces the handlers use, the
    handlers that work on the runtime itself (seed exchange, member operations,
    password-based joining) and the whole dispatch of a request. *)
From S2P Require Import Prelude Fsutil Crypto Authority Replay Store Types StateMachine RaftStorage Transport AdminV2.
From S2P Require Import Config Join Seed Protocol Admin Replicate PasswordJoin Context Publisher Sync Service.
From S2P Require Import Runtime.

(** ** The world of a sidecar *)

(** [AuthContext::raft], once the runtime has been started, and what is outside. *)
Record Sidecar (W : Type) := MkSidecar { sc_runtime : option Runtime; sc_env : W }.
Global Arguments MkSidecar {_} _ _.
Global Arguments sc_runtime {_} _.
Global Arguments sc_env {_} _.

(** What is left of the environment: the time since the start, and the task that
    broadcasts a change. *)
Class Background (W : Type) := { uptime_secs : W → N; spawn_change : Conn → Change → W → W }.

Section sidecar.
Context {W : Type}.

(** A method of the runtime; without one there is nothing to call it on. *)
Definition sc_run {E A} (absent : result E A) (m : ST (Runtime * W) E A) : ST (Sidecar W) E A := λ s,
  match sc_runtime s with
  | None => (absent, s)
  | Some ru => let '(r, (ru, w)) := m (ru, sc_env s) in (r, MkSidecar (Some ru) w)
  end.
Definition sc_query {A} (absent : A) (m : ST (Runtime * W) Empty_set A) (s : Sidecar W) : A * Sidecar W :=
  match sc_run (Ok absent) m s with
  | (Ok a, s) => (a, s)
  | (Err e, s) => match e with end
  end.
Definition sc_ask {A} (q : W → A * W) (s : Sidecar W) : A * Sidecar W :=
  let '(a, w) := q (sc_env s) in (a, MkSidecar (sc_runtime s) w).
Definition sc_call {E A} (m : ST W E A) : ST (Sidecar W) E A := λ s,
  let '(r, w) := m (sc_env s) in (r, MkSidecar (sc_runtime s) w).
Definition sc_get {A} (f : Runtime → A) (absent : A) (s : Sidecar W) : A := from_option f absent (sc_runtime s).

Context `{CR : Crypto}.
Context {RT : RaftTypes}.
Context `{WC : Clock W, WB : BackendClient W, RC : !RaftCore W, RN : Rng W, TM : Timer W, BG : Background W}.

Global Instance sidecar_clock : Clock (Sidecar W) := sc_ask now_unix.
Global Instance sidecar_rng : Rng (Sidecar W) := λ n, sc_ask (random_bytes n).
Global Instance sidecar_client : BackendClient (Sidecar W) := {|
  client_add_key c k v p := sc_call (client_add_key c k v p);
  client_discover_providers c s := sc_call (client_discover_providers c s);
  client_whoami c := sc_call (client_whoami c);
  client_query_key c k := sc_call (client_query_key c k);
  client_service_request_to_with_timeout c s p b t := sc_call (client_service_request_to_with_timeout c s p b t);
|}.
(** [impl AdminRaft for RaftRuntime]. *)
Global Instance sidecar_raft : AdminRaft (Sidecar W) := {|
  is_leader := sc_query false runtime_is_leader;
  raft_term := sc_query 0%N runtime_term;
  leader_peer := sc_query None runtime_leader_peer;
  policy_snapshot := sc_query (PolicyState_new "") runtime_policy_snapshot;
  raft_applied_index := sc_query None runtime_applied_index;
  raft_stale := sc_query true runtime_stale;
  raft_service_name := sc_get ru_service "";
  propose command := sc_run (Err "raft not ready") (runtime_propose command);
|}.
Global Instance sidecar_runtime : RaftRuntime (Sidecar W) := {|
  rt_ready s := bool_decide (is_Some (sc_runtime s));
  rt_cluster_id := sc_get ru_cluster_id "";
  rt_peer_id := sc_get ru_peer_id "";
  rt_membership_view := sc_query (MkMembershipView [] [] None 0) membership_view;
  rt_leader_id := sc_query None runtime_leader_id;
  rt_add_learner_node i node := sc_run (Err "raft not ready") (add_learner_node i node);
  rt_status_snapshot :=
    sc_query (MkRaftStatusSnapshot "" 0 None 0 "" None None [] [] true) runtime_status_snapshot;
  rt_uptime_secs s := uptime_secs (sc_env s);
  spawn_broadcast c ch s := MkSidecar (sc_runtime s) (spawn_change c ch (sc_env s));
|}.
End sidecar.

(** ** Specifications of members *)

Definition require_member (req : AdminRequestV2) : result SidecarError AdminMemberSpec :=
  ok_or (aq_member req) (sidecar_error "bad_request" "缺少 'member' 字段").
Section specs.
Context `{Crypto}.
Definition member_node_id (spec : AdminMemberSpec) : result SidecarError NodeId :=
  if negb (is_valid_peer_id (ms_peer_id spec)) then Err (sidecar_error "bad_request" "invalid peer_id")
  else
    let derived := node_id_from_peer_id (ms_peer_id spec) in
    if (ms_node_id spec =? 0)%N || negb (ms_node_id spec =? derived)%N
    then Err (sidecar_error "bad_request" ("node_id " +:+ pretty (ms_node_id spec)
                +:+ " does not match node_id_from_peer_id(" +:+ ms_peer_id spec +:+ ") = " +:+ pretty derived))
    else Ok derived.
Definition node_from_spec (spec : AdminMemberSpec) (require_identity : bool) : result SidecarError RaftNode :=
  member_node_id spec ;;
  if require_identity && str_is_empty (ms_identity_key spec)
  then Err (sidecar_error "bad_request" "identity_key is required")
  else if require_identity && str_is_empty (ms_x25519_key spec)
  then Err (sidecar_error "bad_request" "x25519_key is required for later seed delivery")
  else Ok (MkRaftNode (ms_peer_id spec) (ms_identity_key spec) (ms_x25519_key spec)).
End specs.

Definition join_error (e : PwJoinError) : SidecarError :=
  sidecar_error
    match e with
    | PjNoCandidates => "no_candidates"
    | PjRequest _ => "request_failed"
    | PjBadResponse _ => "bad_response"
    | PjAuth => "join_auth_failed"
    | PjDecrypt => "join_decrypt_failed"
    | PjDecode _ => "join_decode_error"
    | PjKeyMismatch => "join_key_mismatch"
    | PjPersist _ => "join_persist_error"
    | PjInvalidNonce => "join_invalid_nonce"
    end (pw_join_error_text e).

(** ** The handlers *)

Section members.
Context `{CR : Crypto, CO : Coset, CI : Codec Cbor IndexDoc, CW : Codec Cbor WhitelistDoc,
  CT : Codec Toml StoreSnapshot, CS : Codec Cbor StoreSnapshot, CM : Codec Json MacInput,
  CAS : Codec Cbor AdminSigned, CAI : Codec Cbor AdminIdentity, CTS : Codec Cbor JoinTokenSigned,
  CJS : Codec Cbor JoinSigned, CJC : Codec Cbor JoinSecret}.
Context `{JV : Codec Json json, JF : Codec Json ForwardedAdminEnvelope, JQ : Codec Json RaftJoinRequest,
  JP : Codec Json RaftJoinResponse, JE : Codec Json RaftRpcEnvelope, JR : Codec Json RaftRpcReply}.
Context {RT : RaftTypes} `{CB : Codec Cbor RpcBody, CV : Codec Cbor VoteResponse, CA : Codec Cbor AppendEntriesResponse,
  CN : Codec Cbor InstallSnapshotResponse}.
Context `{SB : Codec Cbor SeedBinding, SE : Codec Cbor SeedEnvelopeSigned, SA : Codec Cbor SeedAckSigned,
  SD : Codec Cbor DropSigned, JD : Codec Json SeedDeliveryRequest, JX : Codec Json SeedDropRequest, JA : Codec Json SeedAck}.
Context `{FM : FromValue ManagementRequest, FA : FromValue AdminRequestV2, FR : FromValue ReplicateMsg,
  FS : FromValue SyncRequest, FJ : FromValue RaftJoinRequest, FP : FromValue JoinRequest,
  FD : FromValue SeedDeliveryRequest, FX : FromValue SeedDropRequest}.
Context `{TP : ToValue SyncResponse, TJ : ToValue JoinResponse, TT : ToValue JoinToken}.
Context {W : Type} `{WC : Clock W, WB : BackendClient W, RC : !RaftCore W, RN : Rng W, TM : Timer W, BG : Background W}.

Abbreviation SN := (Node (Sidecar W)).
Abbreviation shandler := (ST SN SidecarError string).

Definition on_fs {E A} (m : ST Fs E A) : ST SN E A := λ n,
  let '(r, fs) := m (nd_fs n) in (r, MkNode (nd_ctx n) fs (nd_world n)).
(** The runtime of the node, as [raft_runtime] gives it. *)
Definition the_runtime : ST SN SidecarError Runtime := λ n,
  (ok_or (sc_runtime (nd_world n)) (sidecar_error "raft_not_ready" "Raft 控制面尚未就绪"), n).
Definition on_runtime {E A} (absent : E) (m : ST (Runtime * W) E A) : ST SN E A := call (sc_run (Err absent) m).
Definition rt_call {A} (m : ST (Runtime * W) string A) : ST SN string A := on_runtime "raft not ready" m.

(** ** The seed exchange, as its receiver *)

Definition accept_seed (envelope : SeedEnvelope) : ST SN string unit :=
  leader ← rt_call runtime_leader_id;
  ru ← rt_call (self id);
  c ← ctx_get id;
  seed ← st_lift (map_err seed_error_text
    (open_seed (ru_x25519 ru) (ru_verifier ru) (ru_node_id ru) (ru_peer_id ru) (ik_public_key_b64 (ru_identity ru))
       (ru_cluster_id ru) (ctx_network c) leader envelope));
  authority ← st_lift (map_err authority_error_text (from_seed seed (ctx_network c)));
  st_map_err seed_error_text (on_fs (write_seed_file (ctx_authority_key_path c) seed)) ;;
  ctx_modify (install_authority authority).

(** Remove the file, then forget the key: also for the node that demotes itself. *)
Definition drop_local_seed : ST SN SeedError unit :=
  c ← ctx_get id;
  on_fs (remove_seed_file (ctx_authority_key_path c)) ;;
  ctx_modify clear_authority.
Definition accept_seed_drop (request : SeedDropRequest) : ST SN string unit :=
  leader ← rt_call runtime_leader_id;
  ru ← rt_call (self id);
  st_lift (map_err seed_error_text
    (verify_drop_request (ru_verifier ru) leader request (ru_node_id ru) (ru_peer_id ru) (ru_cluster_id ru))) ;;
  st_map_err seed_error_text drop_local_seed.

(** The signed receipt of an attempt. *)
Definition acknowledge (to : NodeId) (m : ST SN string unit) : shandler := λ n,
  let '(result, n) := m n in
  (ru ← the_runtime;
   ack ← st_lift (map_err (λ e, sidecar_error "seed_encode_error" (seed_error_text e))
     (sign_ack (ru_identity ru) (ru_node_id ru) to (match result with Ok _ => true | Err _ => false end)
        (match result with Ok _ => "" | Err e => e end)));
   st_lift (map_err (λ e, sidecar_error "encode_error" ("seed 回执编码失败: " +:+ e)) (encode_to Json ack))) n.
Definition handle_seed_delivery (value : json) : shandler :=
  the_runtime ;;
  req ← st_lift (map_err (λ e, sidecar_error "bad_request" ("seed 请求解析失败: " +:+ e))
                   (from_value (A := SeedDeliveryRequest) value));
  acknowledge (sg_from_node (env_body (sdel_envelope req))) (accept_seed (sdel_envelope req)).
Definition handle_seed_drop (value : json) : shandler :=
  the_runtime ;;
  req ← st_lift (map_err (λ e, sidecar_error "bad_request" ("seed 清除请求解析失败: " +:+ e))
                   (from_value (A := SeedDropRequest) value));
  acknowledge (dr_from_node (drop_body req)) (accept_seed_drop req).

(** ** Joining with the password *)

Definition handle_join (value : json) : shandler :=
  req ← st_lift (map_err (λ e, sidecar_error "bad_request" ("入网请求解析失败: " +:+ e)) (from_value (A := JoinRequest) value));
  c ← ctx_get id;
  authority ← st_lift (ok_or (current_authority c) (sidecar_error "no_authority_seed" "本节点不持有 authority seed"));
  now ← ask now_unix;
  rng_nonce ← ask (random_bytes 16);
  rng_aead ← ask (random_bytes 12);
  resp ← st_map_err join_error
    (on_join (respond rng_nonce rng_aead (ctx_network c) req now (signing_key authority) (snapshot (ctx_store c))));
  mret (encode (to_value resp)).

(** ** Member operations of the leader *)

(** The log line of [audit_member] is left out; the two queries it makes are kept. *)
Definition audit_member : ST SN SidecarError unit := ask raft_applied_index ;; ask leader_peer ;; mret ().
Definition runtime_step {A} (code : string) (m : ST (Runtime * W) string A) : ST SN SidecarError A :=
  st_map_err (sidecar_error code) (rt_call m).
(** A call whose failure is dropped. *)
Definition runtime_try (m : ST (Runtime * W) string unit) : ST SN SidecarError unit := λ n, (Ok (), (rt_call m n).2).

(** A change of membership; when it fails, what was done before it is undone. *)
Definition or_undo (code : string) (m : ST (Runtime * W) string unit) (undo : ST SN SidecarError unit)
    : ST SN SidecarError unit := λ n,
  match rt_call m n with
  | (Ok _, n) => (Ok (), n)
  | (Err e, n) => (undo ;; st_err (sidecar_error code e)) n
  end.

(** The fields that end every reply. *)
Definition member_reply (req : AdminRequestV2) (fields : list (string * json)) (policy_epoch : N) : shandler :=
  applied ← ask raft_applied_index;
  term ← ask raft_term;
  mret (encode (JObj ([("request_id", JStr (aq_request_id req))] ++ fields
                      ++ [("policy_epoch", JNum policy_epoch); ("raft_index", jopt JNum applied); ("term", JNum term)]))).

Definition issue_join_token (req : AdminRequestV2) (verified : VerifiedAdmin) : shandler :=
  spec ← st_lift (ok_or (aq_join_token req) (sidecar_error "bad_request" "缺少 'join_token' 字段"));
  ru ← the_runtime;
  c ← ctx_get id;
  let token := token_from_spec (ru_cluster_id ru) (ctx_network c) (aq_kid req) spec in
  now ← ask now_unix;
  st_lift (map_err (λ e, sidecar_error (token_code e) (token_text e))
    (verify_join_token (ctx_admin_keys c) token now (ru_cluster_id ru) (ctx_network c)
       [ru_peer_id ru; jt_audience token])) ;;
  proposal ← st_map_err map_admin_apply_error
    (call (propose (Types.Admin (aq_request_id req) (aq_kid req) (va_request_hash verified) (aq_ts req)
                      (IssueJoinToken token))));
  effective_index ← st_lift
    match ap_result proposal with
    | AdminResult _ _ raft_index duplicate outcome =>
        match outcome with
        | OutRejected code message => Err (sidecar_error code message)
        | OutApplied _ _ _ => Ok (if duplicate : bool then raft_index else ap_raft_index proposal)
        end
    | _ => Err (sidecar_error "raft_unexpected_result" "join token apply 结果异常")
    end;
  state ← ask policy_snapshot;
  audit_member ;;
  term ← ask raft_term;
  mret (encode (JObj [("request_id", JStr (aq_request_id req)); ("token", to_value token);
                      ("policy_epoch", JNum (p_policy_epoch state)); ("raft_index", JNum effective_index);
                      ("term", JNum term)])).

Definition member_add_learner (req : AdminRequestV2) : shandler :=
  spec ← st_lift (require_member req);
  target ← st_lift (member_node_id spec);
  node ← st_lift (node_from_spec spec true);
  info ← runtime_step "add_learner_failed" (add_learner_node target node);
  state ← ask policy_snapshot;
  audit_member ;;
  member_reply req [("node_id", JNum (mi_node_id info)); ("peer_id", JStr (mi_peer_id info)); ("voter", JBool false)]
    (p_policy_epoch state).

(** The seed goes out before the vote is given, and is called back when the
    promotion fails. *)
Definition member_promote (req : AdminRequestV2) : shandler :=
  spec ← st_lift (require_member req);
  target ← st_lift (member_node_id spec);
  view ← ask rt_membership_view;
  member ← st_lift (ok_or (mv_find view target) (sidecar_error "not_found" ("node " +:+ pretty target +:+ " is not a member")));
  if mi_voter member then st_err (sidecar_error "already_voter" ("node " +:+ pretty target +:+ " is already a voter"))
  else if str_is_empty (mi_x25519_key member)
  then st_err (sidecar_error "missing_x25519_key" ("node " +:+ pretty target +:+ " has no X25519 exchange key"))
  else
    c ← ctx_get id;
    runtime_step "seed_delivery_failed" (deliver_seed (authority_seed c) (ctx_network c) target) ;;
    or_undo "promote_voter_failed" (promote_voter target) (runtime_try (drop_remote_seed target)) ;;
    state ← ask policy_snapshot;
    audit_member ;;
    member_reply req [("node_id", JNum target); ("peer_id", JStr (mi_peer_id member)); ("voter", JBool true)]
      (p_policy_epoch state).

Definition local_drop : ST SN SidecarError unit :=
  st_map_err (λ e, sidecar_error "seed_remove_failed" (seed_error_text e)) drop_local_seed.

Definition member_demote (req : AdminRequestV2) : shandler :=
  spec ← st_lift (require_member req);
  target ← st_lift (member_node_id spec);
  view ← ask rt_membership_view;
  if negb (mv_is_voter view target) then st_err (sidecar_error "not_voter" ("node " +:+ pretty target +:+ " is not a voter"))
  else
    runtime_step "demote_voter_failed" (demote_voter target) ;;
    ru ← the_runtime;
    (if (target =? ru_node_id ru)%N then local_drop else runtime_step "seed_remove_failed" (drop_remote_seed target)) ;;
    state ← ask policy_snapshot;
    ask rt_membership_view ;;
    audit_member ;;
    member_reply req [("node_id", JNum target); ("voter", JBool false)] (p_policy_epoch state).

Definition member_remove (req : AdminRequestV2) : shandler :=
  spec ← st_lift (require_member req);
  target ← st_lift (member_node_id spec);
  view ← ask rt_membership_view;
  if negb (mv_is_member view target) then st_err (sidecar_error "not_found" ("node " +:+ pretty target +:+ " is not a member"))
  else
    let was_voter := mv_is_voter view target in
    ru ← the_runtime;
    c ← ctx_get id;
    let remote := was_voter && negb (target =? ru_node_id ru)%N in
    (if remote then runtime_step "seed_remove_failed" (drop_remote_seed target) else mret ()) ;;
    or_undo "remove_member_failed" (remove_member target)
      (if remote then runtime_try (deliver_seed (authority_seed c) (ctx_network c) target) else mret ()) ;;
    (if was_voter && (target =? ru_node_id ru)%N then local_drop else mret ()) ;;
    state ← ask policy_snapshot;
    audit_member ;;
    member_reply req [("node_id", JNum target); ("removed", JBool true)] (p_policy_epoch state).

Definition execute_member_write (req : AdminRequestV2) (verified : VerifiedAdmin) (edge_peer : option string) : shandler :=
  the_runtime ;;
  leading ← ask is_leader;
  if negb leading then st_err (sidecar_error "not_leader" "成员变更必须由 leader 执行")
  else
    let op := aq_op req in
    if bool_decide (op = "issue_join_token") then issue_join_token req verified
    else if bool_decide (op = "add_learner") then member_add_learner req
    else if bool_decide (op = "promote_voter") then member_promote req
    else if bool_decide (op = "demote_voter") then member_demote req
    else if bool_decide (op = "remove_member") then member_remove req
    else st_err (sidecar_error "unknown_op" ("未知成员指令: " +:+ op)).

(** ** The whole dispatch *)

Definition sidecar_rpc (payload : string) : shandler :=
  on_runtime (sidecar_error "raft_disabled" "Raft 控制面未启用") (Runtime.handle_rpc payload).
Definition sidecar_request : string → option Conn → option Conn → shandler :=
  handle_service_request sidecar_rpc handle_seed_delivery handle_seed_drop handle_join execute_member_write.
End members.
