(* ===== verification/Process.v ===== *)
(** * The start of the process: [src/src/main.rs], [src/src/runtime.rs], [src/src/join.rs]

    How a sidecar gets its context: from the files it has, by founding a network, or
    (without a cluster) by fetching key and state from another sidecar with the
    password; and how it starts its Raft runtime.  [Halt] is the end of the process.
    The background tasks that are started here (the publisher's loop, the exchange
    of snapshots) are left out; the watchdog and the listening socket are in [Serve]. *)
From S2P Require Import Prelude Fsutil Crypto Authority Replay Store Types StateMachine RaftStorage Transport AdminV2.
From S2P Require Import Config Join Seed Protocol Admin Replicate PasswordJoin Context Publisher Sync Service.
From S2P Require Import Runtime Members.

(** [std::process::exit(1)] after a critical log entry with this title, or a failed
    [expect]. *)
Inductive Halt := HaltExit (title : string) | HaltPanic (message : string).

Section process.
Context `{CR : Crypto, CO : Coset, CD : Codec Cbor JoinSecret, JQ : Codec Json JoinRequest, JP : Codec Json JoinResponse}.
Context `{TS : Codec Toml StoreSnapshot}.
Context {W : Type} `{WC : Clock W, WB : BackendClient W, RN : Rng W, TM : Timer W}.
(** The text of a version 4 UUID made from random bytes (crate [uuid]). *)
Context (uuid_text : string → string).

Abbreviation FW := (Fs * W)%type (only parsing).
Definition fw_fs {E A} (m : ST Fs E A) : ST FW E A := λ '(fs, w), let '(r, fs) := m fs in (r, (fs, w)).
Definition fw_call {E A} (m : ST W E A) : ST FW E A := λ '(fs, w), let '(r, w) := m w in (r, (fs, w)).
Definition fw_ask {E A} (q : W → A * W) : ST FW E A := λ '(fs, w), let '(a, w) := q w in (Ok a, (fs, w)).
Definition fw_query {E A} (q : Fs → A * Fs) : ST FW E A := λ '(fs, w), let '(a, fs) := q fs in (Ok a, (fs, w)).
(** The result of a call as a value. *)
Definition attempt_of {S E E' A} (m : ST S E A) : ST S E' (result E A) := λ s, let '(r, s) := m s in (Ok r, s).

(** ** Joining with the password: [join::attempt] *)

(** The index in the DHT, when there is one, was signed with the fetched key. *)
Definition verify_against_dht (client : Conn) (authority : Authority) : ST W PwJoinError unit := λ w,
  let key := index_key authority in
  match client_query_key client key w with
  | (Err _, w) => (Ok (), w)
  | (Ok result, w) =>
      match qk_value result with
      | None => (Ok (), w)
      | Some value =>
          (map_err (λ _, PjKeyMismatch) (verify_cose_sign1 (public_key_bytes authority) key value) ;; Ok (), w)
      end
  end.

(** The providers without the node itself, each once, in order. *)
Fixpoint first_seen (me : option string) (seen : gset string) (peers : list string) : list string :=
  match peers with
  | [] => []
  | p :: peers =>
      if bool_decide (Some p ≠ me) && bool_decide (p ∉ seen) then p :: first_seen me ({[p]} ∪ seen) peers
      else first_seen me seen peers
  end.
Definition join_peers (me : option string) (found : list string) : list string := sort_strings (first_seen me ∅ found).

Definition refused_by (peer : string) (e : SidecarError) : PwJoinError :=
  PjRequest (peer +:+ ": [" +:+ se_code e +:+ "] " +:+ se_message e).

(** Key and state are written, the key first. *)
Definition persist_joined (config : ServiceConfig) (authority : Authority) (state : StoreSnapshot)
    : ST Fs PwJoinError (Authority * Store) :=
  st_map_err (λ e, PjPersist (io_text e))
    (atomic_write (path_of (cf_authority_key_path config)) (signing_key authority) (Some 384%N)) ;;
  store ← st_map_err (λ e, PjPersist (store_error_text e))
            (from_snapshot (path_of (cf_state_path config)) (cf_network config) state);
  mret (authority, store).

(** One peer after the other; an error of the last one is reported. *)
Fixpoint attempt_through (client : Conn) (config : ServiceConfig) (last_error : option PwJoinError)
    (peers : list string) : ST FW PwJoinError (Authority * Store) :=
  match peers with
  | [] => st_err (default PjNoCandidates last_error)
  | peer :: peers =>
      rng ← fw_ask (random_bytes 16);
      ts ← fw_ask now_unix;
      let nonce := b64url_encode rng in
      let password := cf_management_password config in
      let network := cf_network config in
      payload ← st_lift (map_err PjDecode (encode_to Json (make_request password network nonce ts)));
      reply ← attempt_of (fw_call (client_service_request_to client (cf_service config) peer payload));
      match reply with
      | Err e => attempt_through client config (Some (refused_by peer e)) peers
      | Ok bytes =>
          match decode_from Json (A := JoinResponse) bytes with
          | Err e => attempt_through client config (Some (PjBadResponse (peer +:+ ": " +:+ e))) peers
          | Ok resp =>
              match open_response password network nonce resp with
              | Err e => attempt_through client config (Some e) peers
              | Ok (seed, state) =>
                  authority ← st_lift (map_err (λ e, PjDecode (authority_error_text e)) (from_seed seed network));
                  checked ← attempt_of (fw_call (verify_against_dht client authority));
                  match checked with
                  | Err _ => attempt_through client config last_error peers
                  | Ok _ => fw_fs (persist_joined config authority state)
                  end
              end
          end
      end
  end.

Definition attempt (client : Conn) (config : ServiceConfig) : ST FW PwJoinError (Authority * Store) :=
  me ← attempt_of (fw_call (client_whoami client));
  found ← attempt_of (fw_call (client_discover_providers client (cf_service config)));
  let peers := join_peers (result_ok me) (match found with Ok peers => peers | Err _ => [] end) in
  if bool_decide (peers = []) then st_err PjNoCandidates else attempt_through client config None peers.

(** ** The context: [build_context] *)

Definition build_context (config : ServiceConfig) (authority : option Authority) (store : Store) (publisher : Publisher)
    : ST FW Halt AuthContext :=
  let cluster := cl_enabled (cf_cluster config) in
  let network := cf_network config in
  if cluster && (cf_expires_secs config <=? cf_renew_secs config)%N then st_err (HaltExit "续期配置无效")
  else
    password ← (if str_is_empty (cf_management_password config) && cluster
                then bytes ← fw_ask (random_bytes 16); mret ("cluster-only-" +:+ uuid_text bytes)
                else mret (cf_management_password config));
    admin_keys ← st_lift (map_err (λ _, HaltExit "管理员公钥配置无效") (from_config (cf_admin_keys config) cluster));
    admin ← st_lift (map_err (λ _, HaltPanic "管理密码已在启动时校验") (admin_auth_new password network));
    replicate ← st_lift (map_err (λ _, HaltPanic "管理密码已在启动时校验") (rep_auth_new password network));
    mret (MkAuthContext authority (path_of (cf_authority_key_path config)) store admin admin_keys
            (join_server_new password (cf_allow_join config)) replicate publisher false cluster network
            (cf_service config) (cf_expires_secs config) (cf_renew_secs config)).

(** ** What [main] does before it listens *)

Definition load_store (config : ServiceConfig) : ST FW Halt Store :=
  st_map_err (λ _, HaltExit "加载成员状态失败")
    (fw_fs (Store.load_or_create (path_of (cf_state_path config)) (cf_network config) (cf_services config))).

Definition build_initial (config : ServiceConfig) (publisher : Publisher) : ST FW Halt (option AuthContext) :=
  let key_path := path_of (cf_authority_key_path config) in
  there ← fw_query (path_exists key_path);
  if there : bool then
    authority ← st_map_err (λ _, HaltExit "加载权威密钥失败") (fw_fs (load key_path (cf_network config)));
    store ← load_store config;
    ctx ← build_context config (Some authority) store publisher;
    mret (Some ctx)
  else if bool_decide (cf_join_mode config = "init") then
    seed ← fw_ask (random_bytes 32);
    authority ← st_lift (map_err (λ _, HaltExit "生成权威密钥失败") (generate seed (cf_network config)));
    st_map_err (λ _, HaltExit "写入权威密钥失败") (fw_fs (atomic_write key_path (signing_key authority) (Some 384%N))) ;;
    store ← load_store config;
    ctx ← build_context config (Some authority) store publisher;
    mret (Some ctx)
  else if cl_enabled (cf_cluster config) then
    store ← load_store config;
    ctx ← build_context config None store publisher;
    mret (Some ctx)
  else mret None.

(** Without a network the sidecar only listens. *)
Definition initial_context (config : ServiceConfig) (publisher : Publisher) : ST FW Halt (option AuthContext) :=
  if str_is_empty (cf_network config) then mret None
  else if str_is_empty (cf_management_password config) && negb (cl_enabled (cf_cluster config))
  then st_err (HaltExit "管理密码未配置")
  else build_initial config publisher.

(** ** Becoming ready on a connection: [Runtime::ensure_ready] *)

Definition join_timeout_ms (config : ServiceConfig) : N := N.max (cf_join_timeout_secs config) 1 * 1000.
Definition join_retry_ms (config : ServiceConfig) : N := N.max (cf_join_retry_secs config) 1 * 1000.

(** The loop of the attempts, until one succeeds or the deadline has passed. *)
Fixpoint join_loop (fuel : nat) (client : Conn) (config : ServiceConfig) (deadline : N) (s : FW)
    : option (option (Authority * Store)) * FW :=
  match fuel with
  | O => (None, s)
  | S fuel =>
      match attempt client config s with
      | (Ok joined, s) => (Some (Some joined), s)
      | (Err _, (fs, w)) =>
          let '(now, w) := instant w in
          if (deadline <=? now)%N then (Some None, (fs, w))
          else join_loop fuel client config deadline (fs, sleep (join_retry_ms config) w)
      end
  end.
(** A turn takes a second at least. *)
Definition join_fuel (config : ServiceConfig) : nat := S (N.to_nat (N.max (cf_join_timeout_secs config) 1)).

(** The key, when there is a key file. *)
Definition load_present (p : path) (network : string) : ST Fs AuthorityError (option Authority) := λ fs,
  match load p network fs with
  | (Ok authority, fs) => (Ok (Some authority), fs)
  | (Err (AuthIo e), fs) => (if bool_decide (io_kind e = NotFound) then Ok None else Err (AuthIo e), fs)
  | (Err e, fs) => (Err e, fs)
  end.

(** What [ensure_ready] builds the context from, in the two modes; [None] when the
    files cannot be read, or the time is up. *)
Definition ready_cluster (config : ServiceConfig) (s : FW) : option (option Authority * Store) * FW :=
  let '(r, s) :=
    fw_fs (authority ← st_map_err authority_error_text
                         (load_present (path_of (cf_authority_key_path config)) (cf_network config));
           store ← st_map_err store_error_text
                     (Store.load_or_create (path_of (cf_state_path config)) (cf_network config) (cf_services config));
           mret (authority, store)) s in
  (result_ok r, s).
Definition ready_joined (client : Conn) (config : ServiceConfig) (start : N) (s : FW)
    : option (option Authority * Store) * FW :=
  let '(r, s) := join_loop (join_fuel config) client config (start + join_timeout_ms config) s in
  ((λ x, (Some x.1, x.2)) <$> mjoin r, s).

(** [Runtime]: the context once there is one, the Raft runtime once it has been
    started, the time of the start.  Before there is a context the publisher's
    handle is kept here. *)
Context {RT : RaftTypes} `{RC : !RaftCore W}.
Record Process := MkProcess {
  pr_config : ServiceConfig; pr_publisher : Publisher; pr_ready : option AuthContext; pr_runtime : option Runtime;
  pr_start : N; pr_db : Db; pr_env : FW
}.
Definition set_env (p : Process) (s : FW) : Process :=
  MkProcess (pr_config p) (pr_publisher p) (pr_ready p) (pr_runtime p) (pr_start p) (pr_db p) s.
Definition is_ready (p : Process) : bool := bool_decide (is_Some (pr_ready p)).

(** [Runtime::activate]. *)
Definition activate (authority : option Authority) (store : Store) : ST Process Halt AuthContext := λ p,
  let '(r, s) := build_context (pr_config p) authority store (pr_publisher p) (pr_env p) in
  match r with
  | Ok ctx => (Ok ctx, MkProcess (pr_config p) (pr_publisher p) (Some ctx) (pr_runtime p) (pr_start p) (pr_db p) s)
  | Err e => (Err e, set_env p s)
  end.

Definition ensure_ready (client : Conn) : ST Process Halt (option AuthContext) := λ p,
  match pr_ready p with
  | Some ctx => (Ok (Some ctx), p)
  | None =>
      let config := pr_config p in
      let '(found, s) := if cl_enabled (cf_cluster config) then ready_cluster config (pr_env p)
                         else ready_joined client config (pr_start p) (pr_env p) in
      match found with
      | None => (Ok None, set_env p s)
      | Some (authority, store) => (ctx ← activate authority store; mret (Some ctx)) (set_env p s)
      end
  end.
End process.

(** ** The Raft runtime: [Runtime::ensure_raft] *)

Section raft_start.
Context `{CR : Crypto, JE : Codec Json RaftRpcEnvelope, JR : Codec Json RaftRpcReply}.
Context {RT : RaftTypes} `{CB : Codec Cbor RpcBody, CV : Codec Cbor VoteResponse, CA : Codec Cbor AppendEntriesResponse,
  CN : Codec Cbor InstallSnapshotResponse}.
Context `{CT : Codec Cbor JoinTokenSigned, CJ : Codec Cbor JoinSigned, JT : Codec Json JoinToken,
  JQ : Codec Json RaftJoinRequest, JP : Codec Json RaftJoinResponse}.
Context {W : Type} `{WC : Clock W, WB : BackendClient W, RC : !RaftCore W, RN : Rng W, TM : Timer W}.
Context `{C1 : Codec Cbor LogEntry, C2 : Codec Cbor LogId, C3 : Codec Cbor (option LogId), C4 : Codec Cbor Vote,
  C5 : Codec Cbor PolicyState, C6 : Codec Cbor StoredMembership, C7 : Codec Cbor SnapshotMeta}.

Definition with_admin_raft (c : AuthContext) : AuthContext :=
  MkAuthContext (ctx_authority c) (ctx_authority_key_path c) (ctx_store c) (ctx_admin c) (ctx_admin_keys c) (ctx_join c)
    (ctx_replicate c) (ctx_publisher c) true (ctx_raft_required c) (ctx_network c) (ctx_service_name c)
    (ctx_expires_secs c) (ctx_renew_secs c).

(** Once, in the cluster mode, when there is a context; a failed start is tried
    again on the next connection, a failed attempt to join is only logged. *)
Definition ensure_raft (client : Conn) (p : Process) : Process :=
  if negb (cl_enabled (cf_cluster (pr_config p))) then p
  else match pr_ready p, pr_runtime p with
  | Some ctx, None =>
      let '(fs, w) := pr_env p in
      match runtime_start (pr_config p) client (MkBoot fs (pr_db p) w) with
      | (Err _, b) =>
          MkProcess (pr_config p) (pr_publisher p) (Some ctx) None (pr_start p) (bt_db b) (bt_fs b, bt_world b)
      | (Ok ru, b) =>
          let '(_, (fs, (ru, w))) := try_join (pr_config p) (bt_fs b, (ru, bt_world b)) in
          MkProcess (pr_config p) (pr_publisher p) (Some (with_admin_raft ctx)) (Some ru) (pr_start p) (bt_db b) (fs, w)
      end
  | _, _ => p
  end.

(** The task that watches the metrics: one change.  The keys of the members are
    taken over, and a node that has become leader renews its records. *)
Definition watch_turn (was_leader : bool) (publisher : Publisher) : ST (Runtime * W) Empty_set (bool * Publisher) :=
  refresh_verifier_from_metrics ;;
  leads ← runtime_is_leader;
  mret (leads, if leads && negb was_leader then notify_renew publisher else publisher).
End raft_start.
