(* ===== verification/Connection.v ===== *)
(** * A connection to a node: [src/src/connection.rs]

    [BackendClient] sends control messages to the node and waits for the replies,
    many at a time, over one stream; the read loop wakes the waiting calls through
    a table of pending ids and starts a task for every request of the node; the
    main task of the connection makes the sidecar ready and registers the
    connection with the publisher.  The tasks are interleaved by the executor: a
    run is a sequence of events, each of which is one turn of one task, and every
    event is possible at any time (one that finds nothing to do changes nothing).
    The input is the bytes that are still to come. *)
From S2P Require Import Prelude Fsutil Crypto Authority Replay Store Types StateMachine Transport AdminV2.
From S2P Require Import Protocol Admin Replicate PasswordJoin Context Service.

(** What a waiting call is woken with. *)
Abbreviation Outcome := (result SidecarError string) (only parsing).

(** ** The methods of the client *)

(** The message a method sends under a new id, its time limit in milliseconds and
    what it makes of the reply. *)
Record Method (A : Type) := MkMethod {
  md_message : Uuid → Message; md_limit : N; md_result : Outcome → result SidecarError A
}.
Global Arguments MkMethod {_} _ _ _.
Global Arguments md_message {_} _ _.
Global Arguments md_limit {_} _.
Global Arguments md_result {_} _ _.

(** [BackendClient::call] and [call_result]. *)
Definition client_call (message : Uuid → Message) : Method string := MkMethod message CONTROL_TIMEOUT_MS id.
Definition call_result {T} `{Codec Cbor T} (message : Uuid → Message) : Method T :=
  MkMethod message CONTROL_TIMEOUT_MS (λ r, bytes ← r; decode_result bytes).

Section methods.
Context `{Codec Cbor (list string), Codec Cbor PublicIpInfo, Codec Cbor WhoamiResult, Codec Cbor SuccessResult}.
Context `{Codec Cbor RelayStatusResult, Codec Cbor PqStatusResult, Codec Cbor json}.
Context `{Codec Cbor QueryKeyResult, Codec Cbor AddKeyResult}.

Definition list_services : Method (list string) := call_result ListServices.
Definition discover_providers (service : string) : Method (list string) :=
  call_result (λ id, DiscoverProviders id service).
Definition query_public_ip : Method PublicIpInfo := call_result QueryPublicIp.
Definition whoami : Method string :=
  let m := call_result (T := WhoamiResult) Whoami in
  MkMethod (md_message m) (md_limit m) (λ r, wr_peer_id <$> md_result m r).
Definition reconnect_bootstrap : Method SuccessResult := call_result ReconnectBootstrap.
Definition reannounce_services : Method SuccessResult := call_result ReannounceServices.
Definition reload_config : Method SuccessResult := call_result ReloadConfig.
Definition relay_status : Method RelayStatusResult := call_result RelayStatus.
Definition pq_status : Method PqStatusResult := call_result PqStatus.
Definition auth_status : Method json := call_result AuthStatus.
Definition query_key (key : string) : Method QueryKeyResult := call_result (λ id, QueryKey id key).
Definition add_key (key : string) (value : option string) (providing : bool) : Method AddKeyResult :=
  call_result (λ id, AddKey id key value providing).
Definition service_request (service payload : string) : Method string :=
  client_call (λ id, ServiceRequest id service payload).
Definition service_request_to_with_timeout (service peer payload : string) (limit : N) : Method string :=
  MkMethod (λ id, ServiceRequestTo id service peer payload) limit id.
Definition service_request_to (service peer payload : string) : Method string :=
  service_request_to_with_timeout service peer payload CONTROL_TIMEOUT_MS.
End methods.

(** ** The state of a connection *)

(** The oneshot channel of a call: not yet made, open, with the message sent, or
    closed because the sender was dropped. *)
Inductive Channel := ChNone | ChOpen | ChSent (r : Outcome) | ChClosed.

Global Instance Channel_eq_dec : EqDecision Channel.
Proof. solve_decision. Defined.

(** Where [call_with_timeout] is: before it has run, writing, about to remove its
    entry after a failed write, waiting until a deadline, about to remove its
    entry after the deadline, returned, or dropped by its caller. *)
Inductive Phase :=
  | CallNew | CallWriting | CallFailed (e : string) | CallWaiting (deadline : N) | CallExpired
  | CallDone (r : Outcome) | CallDropped.
Record Call := MkCall {
  cl_id : Uuid; cl_message : Message; cl_limit : N; cl_chan : Channel; cl_phase : Phase
}.

(** A request of the node: its handler runs, its reply is being written, written. *)
Inductive Serving := RqHandling | RqReplying (reply : Message) | RqReplied (written : bool) (reply : Message).
Record Inbound := MkInbound {
  rq_id : Uuid; rq_service : string; rq_payload : string; rq_ctx : bool; rq_phase : Serving
}.

(** The main task: in [ensure_ready], in [ensure_raft], waiting for the end of the
    read loop with the id the publisher gave it, returned. *)
Inductive Main := MainJoining | MainStarting | MainServing (registered : option N) | MainClosed.

(** [cn_ctx] tells whether [Runtime::ctx] has a context; it and the publisher are
    shared with the other connections. *)
Record Connection := MkConnection {
  cn_in : string; cn_out : string; cn_now : N; cn_reading : bool; cn_pending : gmap string nat;
  cn_calls : list Call; cn_requests : list Inbound; cn_ctx : bool; cn_main : Main; cn_publisher : Publisher
}.

Definition set_phase (p : Phase) (c : Call) : Call := MkCall (cl_id c) (cl_message c) (cl_limit c) (cl_chan c) p.
Definition set_chan (ch : Channel) (c : Call) : Call := MkCall (cl_id c) (cl_message c) (cl_limit c) ch (cl_phase c).
Definition set_serving (p : Serving) (q : Inbound) : Inbound :=
  MkInbound (rq_id q) (rq_service q) (rq_payload q) (rq_ctx q) p.

Definition set_table (c : Connection) (pending : gmap string nat) (calls : list Call) : Connection :=
  MkConnection (cn_in c) (cn_out c) (cn_now c) (cn_reading c) pending calls (cn_requests c) (cn_ctx c) (cn_main c)
    (cn_publisher c).
Definition set_requests (c : Connection) (requests : list Inbound) : Connection :=
  MkConnection (cn_in c) (cn_out c) (cn_now c) (cn_reading c) (cn_pending c) (cn_calls c) requests (cn_ctx c)
    (cn_main c) (cn_publisher c).
Definition set_out (c : Connection) (out : string) : Connection :=
  MkConnection (cn_in c) out (cn_now c) (cn_reading c) (cn_pending c) (cn_calls c) (cn_requests c) (cn_ctx c)
    (cn_main c) (cn_publisher c).
Definition set_input (c : Connection) (reading : bool) (input : string) : Connection :=
  MkConnection input (cn_out c) (cn_now c) reading (cn_pending c) (cn_calls c) (cn_requests c) (cn_ctx c) (cn_main c)
    (cn_publisher c).
Definition set_main (c : Connection) (ctx : bool) (main : Main) (publisher : Publisher) : Connection :=
  MkConnection (cn_in c) (cn_out c) (cn_now c) (cn_reading c) (cn_pending c) (cn_calls c) (cn_requests c) ctx main
    publisher.
Definition set_now (c : Connection) (now : N) : Connection :=
  MkConnection (cn_in c) (cn_out c) now (cn_reading c) (cn_pending c) (cn_calls c) (cn_requests c) (cn_ctx c)
    (cn_main c) (cn_publisher c).
Definition update_call (k : nat) (f : Call → Call) (c : Connection) : Connection :=
  set_table c (cn_pending c) (alter f k (cn_calls c)).

(** ** Calls: [BackendClient::call_with_timeout] *)

(** A sender that is dropped closes its channel; one that has sent is gone. *)
Definition close_channel (c : Call) : Call :=
  match cl_chan c with ChOpen => set_chan ChClosed c | _ => c end.
Definition send_channel (r : Outcome) (c : Call) : Call :=
  match cl_chan c with ChOpen => set_chan (ChSent r) c | _ => c end.

(** The sender in the table of pending calls under an id goes out of it. *)
Definition drop_entry (id : Uuid) (c : Connection) : Connection :=
  match cn_pending c !! id with
  | Some k => set_table c (delete id (cn_pending c)) (alter close_channel k (cn_calls c))
  | None => c
  end.

(** [pending.insert(id, tx)] with a new channel. *)
Definition call_insert (k : nat) (cl : Call) (c : Connection) : Connection :=
  let c := drop_entry (cl_id cl) c in
  set_table c (<[cl_id cl := k]> (cn_pending c))
    (alter (λ cl, set_phase CallWriting (set_chan ChOpen cl)) k (cn_calls c)).

(** [pending.remove(&id)], and the call returns. *)
Definition call_give_up (k : nat) (cl : Call) (e : SidecarError) (c : Connection) : Connection :=
  update_call k (set_phase (CallDone (Err e))) (drop_entry (cl_id cl) c).

Definition io_error (e : string) : SidecarError := sidecar_error "io_error" e.
Definition node_gone : SidecarError := sidecar_error "node_gone" "response channel closed".
Definition call_timeout : SidecarError := sidecar_error "timeout" "control command timed out".

(** One turn of a call.  [tokio::time::timeout] looks at the channel first. *)
Definition call_poll (k : nat) (c : Connection) : Connection :=
  match cn_calls c !! k with
  | None => c
  | Some cl =>
      match cl_phase cl with
      | CallNew => call_insert k cl c
      | CallFailed e => call_give_up k cl (io_error e) c
      | CallWaiting deadline =>
          match cl_chan cl with
          | ChSent r => update_call k (set_phase (CallDone r)) c
          | ChClosed => update_call k (set_phase (CallDone (Err node_gone))) c
          | _ => if (deadline <=? cn_now c)%N then update_call k (set_phase CallExpired) c else c
          end
      | CallExpired => call_give_up k cl call_timeout c
      | CallWriting | CallDone _ | CallDropped => c
      end
  end.

(** The caller drops the future of the call. *)
Definition call_cancel (k : nat) (c : Connection) : Connection :=
  update_call k (λ cl, match cl_phase cl with CallDone _ => cl | _ => set_phase CallDropped cl end) c.

(** What a run shows: the call [k] has entered the table, a frame was read, the
    reply to the request [j] was written. *)
Inductive Obs := OCalled (k : nat) | ORead (m : Message) | OReplied (j : nat) (reply : Message).

Section connection.
Context `{Codec Cbor Message}.

(** [write_msg]. *)
Definition write_msg (fault : option Fault) (m : Message) (c : Connection) : result string unit * Connection :=
  let '(r, out) := write_frame fault m (cn_out c) in (map_err frame_error_text r, set_out c out).

(** The write of a call comes to its end; the time limit starts then. *)
Definition call_write (k : nat) (fault : option Fault) (c : Connection) : Connection :=
  match cn_calls c !! k with
  | Some cl =>
      match cl_phase cl with
      | CallWriting =>
          let '(r, c) := write_msg fault (cl_message cl) c in
          update_call k (set_phase match r with
                                   | Ok _ => CallWaiting (cn_now c + cl_limit cl)
                                   | Err e => CallFailed e
                                   end) c
      | _ => c
      end
  | None => c
  end.

(** ** The read loop *)

(** The outcome a reply carries. *)
Definition reply_outcome (ok : bool) (value : option string) (error : option SidecarError) : Outcome :=
  if ok then Ok (default "" value) else Err (default (sidecar_error "backend_error" "unknown error") error).

(** The reply to a request. *)
Definition request_reply (id : Uuid) (r : Outcome) : Message :=
  match r with
  | Ok value => Reply id true (Some value) None
  | Err e => Reply id false None (Some e)
  end.
Definition joining : SidecarError := sidecar_error "joining" "边车尚未就绪".

(** A request starts a task, with the context there is now. *)
Definition spawn_request (id : Uuid) (service payload : string) (c : Connection) : Connection :=
  set_requests c (cn_requests c ++
    [MkInbound id service payload (cn_ctx c)
       (if cn_ctx c then RqHandling else RqReplying (request_reply id (Err joining)))]).

(** A reply wakes the call that waits for it, and no other one. *)
Definition wake (id : Uuid) (r : Outcome) (c : Connection) : Connection :=
  match cn_pending c !! id with
  | Some k => set_table c (delete id (cn_pending c)) (alter (send_channel r) k (cn_calls c))
  | None => c
  end.

Definition dispatch (m : Message) (c : Connection) : Connection :=
  match m with
  | Request id service payload => spawn_request id service payload c
  | Reply id ok value error => wake id (reply_outcome ok value error) c
  | _ => c
  end.

(** One turn of [read_loop]. *)
Definition read_turn (c : Connection) : Connection * list Obs :=
  if cn_reading c then
    match read_frame (cn_in c) with
    | (Ok m, rest) => (dispatch m (set_input c true rest), [ORead m])
    | (Err _, rest) => (set_input c false rest, [])
    end
  else (c, []).

(** The handler of a request answers; the reply is written. *)
Definition request_handled (j : nat) (r : Outcome) (c : Connection) : Connection :=
  set_requests c (alter (λ q, match rq_phase q with
                              | RqHandling => set_serving (RqReplying (request_reply (rq_id q) r)) q
                              | _ => q
                              end) j (cn_requests c)).
Definition request_write (j : nat) (fault : option Fault) (c : Connection) : Connection * list Obs :=
  match cn_requests c !! j with
  | Some q =>
      match rq_phase q with
      | RqReplying reply =>
          let '(r, c) := write_msg fault reply c in
          let ok := bool_decide (r = Ok ()) in
          (set_requests c (alter (set_serving (RqReplied ok reply)) j (cn_requests c)), if ok then [OReplied j reply] else [])
      | _ => (c, [])
      end
  | None => (c, [])
  end.

(** ** The connection: [handshake] and [handle_connection] *)

Definition handshake (fault : option Fault) (input : string) : result string unit * (string * string) :=
  match read_frame input with
  | (Ok (Hello version), rest) =>
      if bool_decide (version = PROTOCOL_VERSION) then
        let '(r, out) := write_frame fault (Hello PROTOCOL_VERSION) "" in
        (map_err frame_error_text r, (rest, out))
      else (Err ("协议版本不兼容: 对端 " +:+ pretty version +:+ ", 本端 " +:+ pretty PROTOCOL_VERSION), (rest, ""))
  | (Ok other, rest) => (Err ("期望 hello 首帧, 收到 " +:+ kind other), (rest, ""))
  | (Err e, rest) => (Err (frame_error_text e), (rest, ""))
  end.

(** The connection after the handshake, with the read loop started; none when the
    handshake fails. *)
Definition open_connection (fault : option Fault) (input : string) (now : N) (ctx : bool) (publisher : Publisher)
    : option Connection :=
  match handshake fault input with
  | (Ok _, (rest, out)) => Some (MkConnection rest out now true ∅ [] [] ctx MainJoining publisher)
  | (Err _, _) => None
  end.

(** The main task goes on when [ensure_ready] has returned (a context or none),
    when [ensure_raft] has, and when the read loop has ended. *)
Definition main_ready (ready : bool) (c : Connection) : Connection :=
  match cn_main c with
  | MainJoining => if ready then set_main c true MainStarting (cn_publisher c)
                   else set_main c (cn_ctx c) (MainServing None) (cn_publisher c)
  | _ => c
  end.
Definition main_register (me : Conn) (c : Connection) : Connection :=
  match cn_main c with
  | MainStarting => let '(id, p) := register me (cn_publisher c) in set_main c (cn_ctx c) (MainServing (Some id)) p
  | _ => c
  end.
Definition main_finish (c : Connection) : Connection :=
  match cn_main c with
  | MainServing registered =>
      if cn_reading c then c
      else set_main c (cn_ctx c) MainClosed
             (match registered with Some id => unregister id (cn_publisher c) | None => cn_publisher c end)
  | _ => c
  end.

(** ** Runs *)

Inductive Event :=
  | EvCall (id : Uuid) (message : Message) (limit : N)
  | EvPoll (k : nat) | EvWrite (k : nat) (fault : option Fault) | EvCancel (k : nat)
  | EvRead | EvHandled (j : nat) (r : Outcome) | EvReply (j : nat) (fault : option Fault)
  | EvReady (ready : bool) | EvRegister | EvFinish
  | EvTick (ms : N) | EvOthers (ctx : bool) (publisher : Publisher).

(** A new call of a method; the id comes from [Uuid::new_v4]. *)
Definition call_start (id : Uuid) (message : Message) (limit : N) (c : Connection) : Connection :=
  set_table c (cn_pending c) (cn_calls c ++ [MkCall id message limit ChNone CallNew]).

(** Whether polling the call [k] puts it in the table. *)
Definition enters (k : nat) (c : Connection) : bool :=
  match cl_phase <$> cn_calls c !! k with Some CallNew => true | _ => false end.

Definition conn_step (me : Conn) (e : Event) (c : Connection) : Connection * list Obs :=
  match e with
  | EvCall id message limit => (call_start id message limit c, [])
  | EvPoll k => (call_poll k c, if enters k c then [OCalled k] else [])
  | EvWrite k fault => (call_write k fault c, [])
  | EvCancel k => (call_cancel k c, [])
  | EvRead => read_turn c
  | EvHandled j r => (request_handled j r c, [])
  | EvReply j fault => request_write j fault c
  | EvReady ready => (main_ready ready c, [])
  | EvRegister => (main_register me c, [])
  | EvFinish => (main_finish c, [])
  | EvTick ms => (set_now c (cn_now c + ms), [])
  | EvOthers ctx publisher => (set_main c (cn_ctx c || ctx) (cn_main c) publisher, [])
  end.

Fixpoint conn_run (me : Conn) (es : list Event) (c : Connection) : Connection * list Obs :=
  match es with
  | [] => (c, [])
  | e :: es => let '(c, o1) := conn_step me e c in let '(c, o2) := conn_run me es c in (c, o1 ++ o2)
  end.
End connection.
