(* ===== verification/ConnectionProps.v ===== *)
(** * Properties of a connection to a node

    Runs of [Connection] from the handshake on, under any interleaving of its
    tasks: which reply a call returns with, what the table of pending calls holds,
    how long a call can take, how the requests of the node are answered, and what
    the end of the stream means for the calls. *)
From S2P Require Import Prelude Fsutil Crypto Authority Replay Store Types StateMachine Transport AdminV2.
From S2P Require Import Protocol Admin Replicate PasswordJoin Context Service Connection.

Section runs.
Context `{CM : Codec Cbor Message} (me : Conn).

(** The states a connection comes to after the handshake, by the events [es],
    with what they showed. *)
Definition reaches (es : list Event) (tr : list Obs) (c : Connection) : Prop :=
  ∃ fault input now ctx publisher c0,
    open_connection fault input now ctx publisher = Some c0 ∧ conn_run me es c0 = (c, tr).

Lemma conn_run_app es1 es2 c :
  conn_run me (es1 ++ es2) c
  = let '(c1, o1) := conn_run me es1 c in let '(c2, o2) := conn_run me es2 c1 in (c2, o1 ++ o2).
Proof.
  revert c. induction es1 as [|e es1 IH]; intros c; simpl; [by destruct (conn_run _ _ _)|].
  destruct (conn_step me e c) as [c1 o1]. rewrite IH.
  destruct (conn_run me es1 c1) as [c2 o2], (conn_run me es2 c2) as [c3 o3]. by rewrite app_assoc.
Qed.

Lemma run_snoc es e c :
  conn_run me (es ++ [e]) c
  = let '(c1, o1) := conn_run me es c in let '(c2, o2) := conn_step me e c1 in (c2, o1 ++ o2).
Proof.
  rewrite conn_run_app. destruct (conn_run me es c) as [c1 o1]. simpl.
  destruct (conn_step me e c1) as [c2 o2]. by rewrite app_nil_r.
Qed.

(** The state right after the handshake. *)
Definition fresh_connection (c : Connection) : Prop :=
  cn_reading c = true ∧ cn_pending c = ∅ ∧ cn_calls c = [] ∧ cn_requests c = [] ∧ cn_main c = MainJoining.

Lemma open_connection_Some fault input now ctx publisher c :
  open_connection fault input now ctx publisher = Some c →
  fresh_connection c ∧ cn_now c = now
  ∧ (∃ rest, read_frame input = (Ok (Hello PROTOCOL_VERSION), rest) ∧ cn_in c = rest)
  ∧ encode_frame (Hello PROTOCOL_VERSION) = Ok (cn_out c).
Proof.
  unfold open_connection, handshake.
  destruct (read_frame input) as [[m|e] rest] eqn:Hr; [|done]. destruct m; try done.
  case_bool_decide as Hv; [subst version|done].
  unfold write_frame. destruct (encode_frame _) as [frame|e] eqn:He; [|done].
  destruct fault; [done|]. simpl. intros [= <-]. simpl. unfold fresh_connection. simpl. eauto 10.
Qed.

(** Induction over a run: a property that holds after the handshake and is kept by
    every event holds in every state reached. *)
Lemma reaches_ind (P : list Event → list Obs → Connection → Prop) :
  (∀ c, fresh_connection c → P [] [] c) →
  (∀ es tr c e c' o, P es tr c → conn_step me e c = (c', o) → P (es ++ [e]) (tr ++ o) c') →
  ∀ es tr c, reaches es tr c → P es tr c.
Proof.
  intros H0 Hs es tr c (fault & input & now & ctx & pub & c0 & [Ho _]%open_connection_Some & Hr).
  revert tr c Hr. induction es as [|e es IH] using rev_ind; intros tr c.
  - intros [= <- <-]. auto.
  - rewrite run_snoc. destruct (conn_run me es c0) as [c1 o1]. destruct (conn_step me e c1) as [c2 o2] eqn:He.
    intros [= <- <-]. eauto.
Qed.

Lemma write_msg_run fault m c r c' :
  write_msg fault m c = (r, c') →
  ∃ out, c' = set_out c out ∧ match r with Ok _ => ∃ frame, encode_frame m = Ok frame | Err _ => True end.
Proof.
  unfold write_msg, write_frame. destruct (encode_frame m) as [frame|]; [destruct fault|]; intros [= <- <-]; simpl; eauto.
Qed.

(** ** What every event keeps *)

(** The calls, by everything but channel and phase. *)
Definition call_key (c : Call) : Uuid * Message * N := (cl_id c, cl_message c, cl_limit c).

Lemma alter_key k f (l : list Call) : (∀ c, call_key (f c) = call_key c) → call_key <$> alter f k l = call_key <$> l.
Proof.
  intros Hf. apply list_eq. intros i. rewrite !list_lookup_fmap. destruct (decide (i = k)) as [->|?].
  - rewrite list_lookup_alter_eq. destruct (l !! k); simpl; [by rewrite Hf|done].
  - by rewrite list_lookup_alter_ne.
Qed.
Lemma close_channel_key c : call_key (close_channel c) = call_key c.
Proof. unfold close_channel. by case_match. Qed.
Lemma send_channel_key r c : call_key (send_channel r c) = call_key c.
Proof. unfold send_channel. by case_match. Qed.
Lemma drop_entry_key id c : call_key <$> cn_calls (drop_entry id c) = call_key <$> cn_calls c.
Proof. unfold drop_entry. case_match; [|done]. apply alter_key, close_channel_key. Qed.
Lemma update_call_key k f c :
  (∀ cl, call_key (f cl) = call_key cl) → call_key <$> cn_calls (update_call k f c) = call_key <$> cn_calls c.
Proof. apply alter_key. Qed.

Lemma call_poll_key k c : call_key <$> cn_calls (call_poll k c) = call_key <$> cn_calls c.
Proof.
  unfold call_poll, call_give_up. repeat case_match; try done; rewrite ?update_call_key; auto using drop_entry_key.
  unfold call_insert. simpl. rewrite alter_key by done. apply drop_entry_key.
Qed.

(** The key of the call an event starts. *)
Definition started (e : Event) : list (Uuid * Message * N) :=
  match e with EvCall id message limit => [(id, message, limit)] | _ => [] end.

Lemma step_keys e c c' o :
  conn_step me e c = (c', o) → call_key <$> cn_calls c' = (call_key <$> cn_calls c) ++ started e.
Proof.
  destruct e; simpl; rewrite ?app_nil_r; try (intros [= <- <-]; try done).
  - simpl. by rewrite fmap_app.
  - apply call_poll_key.
  - unfold call_write. destruct (cn_calls c !! k) as [cl|]; [|done]. destruct (cl_phase cl); try done.
    destruct (write_msg _ _ _) as [r c1] eqn:Hw. apply write_msg_run in Hw as (out & -> & _). by rewrite update_call_key.
  - unfold call_cancel. apply update_call_key. intros cl. by case_match.
  - unfold read_turn, dispatch, wake, spawn_request. intros Hs. repeat case_match; simplify_eq/=; try done.
    apply alter_key, send_channel_key.
  - unfold request_write, write_msg. intros Hs. repeat case_match; by simplify_eq/=.
  - unfold main_ready. by repeat case_match.
  - unfold main_register. by repeat case_match.
  - unfold main_finish. by repeat case_match.
Qed.

Lemma run_keys es c c' tr :
  conn_run me es c = (c', tr) → call_key <$> cn_calls c' = (call_key <$> cn_calls c) ++ (es ≫= started).
Proof.
  revert c c' tr. induction es as [|e es IH]; intros c c' tr; simpl.
  - intros [= <- _]. by rewrite app_nil_r.
  - destruct (conn_step me e c) as [c1 o1] eqn:He, (conn_run me es c1) as [c2 o2] eqn:Hr. intros [= <- _].
    by rewrite (IH _ _ _ Hr), (step_keys _ _ _ _ He), app_assoc.
Qed.

(** A call keeps its place and its key. *)
Lemma run_call es c c' tr k cl :
  conn_run me es c = (c', tr) → cn_calls c !! k = Some cl →
  ∃ cl', cn_calls c' !! k = Some cl' ∧ call_key cl' = call_key cl.
Proof.
  intros Hr%run_keys Hk. assert (Hk' : (call_key <$> cn_calls c') !! k = Some (call_key cl)).
  { rewrite Hr. apply lookup_app_l_Some. by rewrite list_lookup_fmap, Hk. }
  apply list_lookup_fmap_Some in Hk' as (cl' & ? & ?). eauto.
Qed.

(** [Uuid::new_v4] has not given the same id twice. *)
Definition distinct_ids (c : Connection) : Prop := NoDup (cl_id <$> cn_calls c).

Lemma ids_of_keys (c : Connection) : cl_id <$> cn_calls c = (λ x : Uuid * Message * N, x.1.1) <$> (call_key <$> cn_calls c).
Proof. by rewrite <-list_fmap_compose. Qed.
Lemma distinct_ids_run es c c' tr : conn_run me es c = (c', tr) → distinct_ids c' → distinct_ids c.
Proof. unfold distinct_ids. rewrite !ids_of_keys. intros ->%run_keys. rewrite fmap_app. by intros [? _]%NoDup_app. Qed.
Lemma distinct_ids_step e c c' o : conn_step me e c = (c', o) → distinct_ids c' → distinct_ids c.
Proof. unfold distinct_ids. rewrite !ids_of_keys. intros ->%step_keys. rewrite fmap_app. by intros [? _]%NoDup_app. Qed.
Lemma distinct_ids_eq c k k' cl cl' :
  distinct_ids c → cn_calls c !! k = Some cl → cn_calls c !! k' = Some cl' → cl_id cl = cl_id cl' → k = k'.
Proof.
  intros Hd Hk Hk' Heq. eapply (NoDup_lookup _ _ _ _ Hd); rewrite list_lookup_fmap; [by rewrite Hk|].
  by rewrite Hk', Heq.
Qed.

(** ** Replies and calls *)

(** The outcome a frame carries for an id, and the replies for it in a trace. *)
Definition outcome_for (id : Uuid) (o : Obs) : option (result SidecarError string) :=
  match o with
  | ORead (Reply id' ok value error) => if decide (id' = id) then Some (reply_outcome ok value error) else None
  | _ => None
  end.

(** What was read after the call [k] had entered the table. *)
Fixpoint after_call (k : nat) (tr : list Obs) : option (list Obs) :=
  match tr with
  | [] => None
  | OCalled k' :: tr => if decide (k' = k) then Some tr else after_call k tr
  | _ :: tr => after_call k tr
  end.

(** The reply to the call [k] with the given id: the first one read since then. *)
Definition answer (k : nat) (id : Uuid) (tr : list Obs) : option (result SidecarError string) :=
  since ← after_call k tr; head (omap (outcome_for id) since).

Lemma after_call_app k tr o :
  after_call k (tr ++ o) = match after_call k tr with Some since => Some (since ++ o) | None => after_call k o end.
Proof. induction tr as [|[k'| |] tr IH]; simpl; try done. by case_decide. Qed.

Lemma answer_snoc k id tr o :
  answer k id (tr ++ [o]) = match answer k id tr with
                            | Some r => Some r
                            | None => match after_call k tr with Some _ => outcome_for id o | None => None end
                            end.
Proof.
  unfold answer. rewrite after_call_app. destruct (after_call k tr) as [since|]; simpl.
  - rewrite omap_app. destruct (omap _ since); [simpl; by case_match|done].
  - destruct o as [k'| |]; try done. simpl. by case_decide.
Qed.

(** What a call may have returned with. *)
Definition explained (ans : option (result SidecarError string)) (r : result SidecarError string) : Prop :=
  ans = Some r ∨ (∃ e, r = Err (io_error e)) ∨ r = Err call_timeout.

Definition call_ok (tr : list Obs) (k : nat) (cl : Call) : Prop :=
  match cl_chan cl with
  | ChNone => after_call k tr = None ∧ (cl_phase cl = CallNew ∨ cl_phase cl = CallDropped)
  | ChOpen => is_Some (after_call k tr) ∧ answer k (cl_id cl) tr = None
              ∧ cl_phase cl ≠ CallNew ∧ ∀ r, cl_phase cl ≠ CallDone r
  | ChSent r => answer k (cl_id cl) tr = Some r ∧ cl_phase cl ≠ CallNew
  | ChClosed => ∃ r, cl_phase cl = CallDone r
  end
  ∧ match cl_phase cl with CallDone r => explained (answer k (cl_id cl) tr) r | _ => True end.

Record conn_ok (tr : list Obs) (c : Connection) : Prop := {
  ok_pending : ∀ id k, cn_pending c !! id = Some k
    ↔ ∃ cl, cn_calls c !! k = Some cl ∧ cl_id cl = id ∧ cl_chan cl = ChOpen;
  ok_calls : ∀ k cl, cn_calls c !! k = Some cl → call_ok tr k cl;
  ok_trace : ∀ k, is_Some (after_call k tr) → k < length (cn_calls c);
}.

(** An observation that does not concern a call leaves it as it is. *)
Lemma call_ok_snoc tr o k cl :
  call_ok tr k cl → o ≠ OCalled k → (cl_chan cl = ChOpen → outcome_for (cl_id cl) o = None) →
  call_ok (tr ++ [o]) k cl.
Proof.
  intros [Hc Hd] Ho Hopen. unfold call_ok in *. rewrite answer_snoc, after_call_app.
  assert (Hn : after_call k [o] = None) by (destruct o; simpl; try case_decide; congruence).
  split.
  - destruct (cl_chan cl); try done.
    + destruct Hc as [-> ?]. by rewrite Hn.
    + destruct Hc as ([s ->] & -> & ?). rewrite Hopen by done. eauto.
    + by destruct Hc as [-> ?].
  - destruct (cl_phase cl) as [| | | | |r|]; try done. destruct Hd as [-> |[[e ->]| ->]]; unfold explained; eauto.
Qed.

Lemma call_ok_new tr k id message limit :
  after_call k tr = None → call_ok tr k (MkCall id message limit ChNone CallNew).
Proof. unfold call_ok. simpl. auto. Qed.

(** The shape of every step on the table: one call changes, and its entry is there
    as long as its channel is open. *)
Lemma conn_ok_update tr o c c' k cl cl' :
  conn_ok tr c → distinct_ids c → cn_calls c !! k = Some cl →
  cl_id cl' = cl_id cl → cn_calls c' = <[k := cl']> (cn_calls c) →
  (cl_chan cl' = ChOpen → cn_pending c' = <[cl_id cl := k]> (cn_pending c)) →
  (cl_chan cl' ≠ ChOpen → cn_pending c' = delete (cl_id cl) (cn_pending c)) →
  call_ok (tr ++ o) k cl' →
  (∀ k' cl2, k' ≠ k → cn_calls c !! k' = Some cl2 → call_ok (tr ++ o) k' cl2) →
  (∀ k', is_Some (after_call k' (tr ++ o)) → k' = k ∨ is_Some (after_call k' tr)) →
  conn_ok (tr ++ o) c'.
Proof.
  intros [Hp Hc Ht] Hd Hk Hid Hcalls Hopen Hclosed Hok Hothers Htr.
  assert (Hlen : k < length (cn_calls c)) by (by eapply lookup_lt_Some).
  assert (Hlook : ∀ k', cn_calls c' !! k' = if decide (k' = k) then Some cl' else cn_calls c !! k').
  { intros k'. rewrite Hcalls. case_decide as Heq; [subst; by apply list_lookup_insert_eq|by apply list_lookup_insert_ne]. }
  split.
  - intros id k'.
    transitivity (if decide (id = cl_id cl) then k' = k ∧ cl_chan cl' = ChOpen else cn_pending c !! id = Some k').
    + destruct (decide (cl_chan cl' = ChOpen)) as [Ho|Ho].
      * rewrite (Hopen Ho). case_decide as Heq; [subst; rewrite lookup_insert_eq; naive_solver|].
        by rewrite lookup_insert_ne.
      * rewrite (Hclosed Ho). case_decide as Heq; [subst; rewrite lookup_delete_eq; naive_solver|].
        by rewrite lookup_delete_ne.
    + setoid_rewrite Hlook. case_decide as Heq; [subst id|rewrite Hp].
      * case_decide as Hkk; [naive_solver|]. split; [naive_solver|]. intros (cl2 & Hk2 & Hid2 & _).
        destruct Hkk. exact (distinct_ids_eq _ _ _ _ _ Hd Hk2 Hk Hid2).
      * case_decide as Hkk; [subst k'|done]. split; naive_solver.
  - intros k' cl2. rewrite Hlook. case_decide as Hkk; [intros [= <-]; by subst|eauto].
  - intros k' [-> |?]%Htr; rewrite Hcalls, length_insert; auto.
Qed.

Lemma alter_insert_Some {A} (f : A → A) k (l : list A) x : l !! k = Some x → alter f k l = <[k := f x]> l.
Proof.
  intros Hk. apply list_eq. intros i. destruct (decide (i = k)) as [->|?].
  - rewrite list_lookup_alter_eq, Hk, list_lookup_insert_eq; [done|by eapply lookup_lt_Some].
  - by rewrite list_lookup_alter_ne, list_lookup_insert_ne.
Qed.

Lemma no_entry tr c k cl :
  conn_ok tr c → distinct_ids c → cn_calls c !! k = Some cl →
  cn_pending c !! cl_id cl = if decide (cl_chan cl = ChOpen) then Some k else None.
Proof.
  intros Hok Hd Hk. case_decide as Hch; [apply (ok_pending _ _ Hok); eauto|].
  destruct (cn_pending c !! cl_id cl) as [k'|] eqn:Hp; [|done].
  apply (ok_pending _ _ Hok) in Hp as (cl' & Hk' & Hid & Hch').
  pose proof (distinct_ids_eq _ _ _ _ _ Hd Hk' Hk Hid) as ->. congruence.
Qed.

(** The entry of a call goes out of the table: its own channel is the one that is
    closed, or sent to. *)
Lemma drop_entry_own tr c k cl :
  conn_ok tr c → distinct_ids c → cn_calls c !! k = Some cl →
  drop_entry (cl_id cl) c = set_table c (delete (cl_id cl) (cn_pending c)) (<[k := close_channel cl]> (cn_calls c)).
Proof.
  intros Hok Hd Hk. unfold drop_entry. rewrite (no_entry _ _ _ _ Hok Hd Hk). case_decide as Hch.
  - by rewrite (alter_insert_Some _ _ _ _ Hk).
  - replace (close_channel cl) with cl by (unfold close_channel; destruct (cl_chan cl); congruence).
    rewrite list_insert_id by done.
    rewrite delete_id by (rewrite (no_entry _ _ _ _ Hok Hd Hk); by rewrite decide_False). by destruct c.
Qed.
Lemma wake_own tr c k cl r :
  conn_ok tr c → distinct_ids c → cn_calls c !! k = Some cl →
  wake (cl_id cl) r c = set_table c (delete (cl_id cl) (cn_pending c)) (<[k := send_channel r cl]> (cn_calls c)).
Proof.
  intros Hok Hd Hk. unfold wake. rewrite (no_entry _ _ _ _ Hok Hd Hk). case_decide as Hch.
  - by rewrite (alter_insert_Some _ _ _ _ Hk).
  - replace (send_channel r cl) with cl by (unfold send_channel; destruct (cl_chan cl); congruence).
    rewrite list_insert_id by done.
    rewrite delete_id by (rewrite (no_entry _ _ _ _ Hok Hd Hk); by rewrite decide_False). by destruct c.
Qed.

(** A state with the same table satisfies the same invariant. *)
Lemma conn_ok_same tr c c' :
  conn_ok tr c → cn_pending c' = cn_pending c → cn_calls c' = cn_calls c → conn_ok tr c'.
Proof. intros [H1 H2 H3] Hp Hc. split; rewrite ?Hp, ?Hc; auto. Qed.

(** A change of a call that leaves its channel and its answer alone. *)
Lemma conn_ok_phase tr c k cl p :
  conn_ok tr c → distinct_ids c → cn_calls c !! k = Some cl →
  call_ok tr k (set_phase p cl) → conn_ok tr (update_call k (set_phase p) c).
Proof.
  intros Hok Hd Hk Hcl. pose proof (no_entry _ _ _ _ Hok Hd Hk) as Hp.
  rewrite <-(app_nil_r tr).
  eapply (conn_ok_update tr [] c _ k cl (set_phase p cl)); rewrite ?app_nil_r; eauto.
  - unfold update_call. simpl. by apply alter_insert_Some.
  - simpl. intros Ho. rewrite decide_True in Hp by done. by rewrite insert_id.
  - simpl. intros Ho. rewrite decide_False in Hp by done. by rewrite delete_id.
  - intros. eapply ok_calls; eauto.
Qed.

Lemma conn_ok_insert tr c k cl :
  conn_ok tr c → distinct_ids c → cn_calls c !! k = Some cl → cl_phase cl = CallNew →
  conn_ok (tr ++ [OCalled k]) (call_insert k cl c).
Proof.
  intros Hok Hd Hk Hnew. destruct (ok_calls _ _ Hok k cl Hk) as [Hch _].
  assert (Hch' : cl_chan cl = ChNone ∧ after_call k tr = None)     by (rewrite Hnew in Hch; destruct (cl_chan cl); [by destruct Hch|by destruct Hch as (_ & _ & ? & _)|by destruct Hch..]).
  destruct Hch' as [Hnone Haft]. unfold call_insert. rewrite (drop_entry_own _ _ _ _ Hok Hd Hk). simpl.
  assert (Hc0 : close_channel cl = cl) by (unfold close_channel; by rewrite Hnone).
  rewrite Hc0, list_insert_id by done. rewrite (alter_insert_Some _ _ _ _ Hk).
  eapply (conn_ok_update tr [OCalled k] c _ k cl (set_phase CallWriting (set_chan ChOpen cl))); simpl; eauto.
  - intros _. by rewrite insert_delete_eq.
  - done.
  - unfold call_ok, answer. simpl. rewrite after_call_app, Haft. simpl. rewrite decide_True by done.
    split; [|done]. split_and!; [eauto|done|done|done].
  - intros k' cl2 Hne Hk2. apply call_ok_snoc; [by eapply ok_calls|congruence|done].
  - intros k'. rewrite after_call_app. destruct (after_call k' tr); [eauto|]. simpl. case_decide; [auto|].
    by intros [].
Qed.

Lemma conn_ok_give_up tr c k cl e :
  conn_ok tr c → distinct_ids c → cn_calls c !! k = Some cl →
  (cl_phase cl = CallExpired ∧ e = call_timeout) ∨ (∃ m, cl_phase cl = CallFailed m ∧ e = io_error m) →
  conn_ok tr (call_give_up k cl e c).
Proof.
  intros Hok Hd Hk He. destruct (ok_calls _ _ Hok k cl Hk) as [Hch _].
  unfold call_give_up, update_call. rewrite (drop_entry_own _ _ _ _ Hok Hd Hk). simpl.
  rewrite (alter_insert_Some _ _ _ (close_channel cl))
    by (apply list_lookup_insert_eq; by eapply lookup_lt_Some).
  rewrite list_insert_insert_eq. rewrite <-(app_nil_r tr).
  assert (Hex : explained (answer k (cl_id cl) tr) (Err e)) by (unfold explained; naive_solver).
  eapply (conn_ok_update tr [] c _ k cl (set_phase (CallDone (Err e)) (close_channel cl))); rewrite ?app_nil_r; eauto.
  - unfold close_channel. by case_match.
  - unfold close_channel. simpl. destruct (cl_chan cl) eqn:Hc; simpl; congruence.
  - unfold call_ok, close_channel. destruct (cl_chan cl) eqn:Hc; simpl; rewrite ?Hc; (split; [|exact Hex]).
    + destruct Hch as [_ [Hx|Hx]]; rewrite Hx in He; naive_solver.
    + eauto.
    + by destruct Hch.
    + eauto.
  - intros. eapply ok_calls; eauto.
Qed.

Lemma conn_ok_poll tr c k :
  conn_ok tr c → distinct_ids c → conn_ok (tr ++ (if enters k c then [OCalled k] else [])) (call_poll k c).
Proof.
  intros Hok Hd. unfold call_poll, enters. destruct (cn_calls c !! k) as [cl|] eqn:Hk; simpl; [|by rewrite app_nil_r].
  destruct (cl_phase cl) eqn:Hph; rewrite ?app_nil_r; try done.
  - by apply conn_ok_insert.
  - apply conn_ok_give_up; eauto.
  - destruct (ok_calls _ _ Hok k cl Hk) as [Hch _]. destruct (cl_chan cl) eqn:Hc.
    + destruct Hch as [_ [?|?]]; congruence.
    + case_match; [|done]. apply (conn_ok_phase _ _ _ _ _ Hok Hd Hk). unfold call_ok. simpl. rewrite Hc.
      destruct Hch as (? & ? & ? & ?). split_and!; done.
    + apply (conn_ok_phase _ _ _ _ _ Hok Hd Hk). unfold call_ok, explained. simpl. rewrite Hc.
      destruct Hch. split_and!; auto.
    + destruct Hch; congruence.
  - apply conn_ok_give_up; eauto.
Qed.

Lemma conn_ok_wake tr c id ok value error :
  conn_ok tr c → distinct_ids c →
  conn_ok (tr ++ [ORead (Reply id ok value error)]) (wake id (reply_outcome ok value error) c).
Proof.
  intros Hok Hd. set (o := ORead _).
  assert (Htr : ∀ k', is_Some (after_call k' (tr ++ [o])) → is_Some (after_call k' tr)).
  { intros k'. rewrite after_call_app. destruct (after_call k' tr); [eauto|]. by intros []. }
  destruct (list_find (λ cl, cl_id cl = id) (cn_calls c)) as [[k cl]|] eqn:Hf.
  - apply list_find_Some in Hf as (Hk & <- & _).
    rewrite (wake_own _ _ _ _ _ Hok Hd Hk). destruct (ok_calls _ _ Hok k cl Hk) as [Hch Hdone].
    eapply (conn_ok_update tr [o] c _ k cl (send_channel (reply_outcome ok value error) cl)); eauto.
    + unfold send_channel. by destruct (cl_chan cl).
    + unfold send_channel. destruct (cl_chan cl) eqn:Hc; simpl; congruence.
    + unfold send_channel. destruct (cl_chan cl) eqn:Hc;
        try (apply call_ok_snoc; [by eapply ok_calls|done|congruence]).
      unfold call_ok. simpl. rewrite answer_snoc. destruct Hch as ([s Hs] & Ha & Hnew & Hnd). rewrite Ha, Hs. simpl.
      rewrite decide_True by done. split; [done|]. destruct (cl_phase cl); try done. by destruct (Hnd r).
    + intros k' cl2 Hne Hk2. apply call_ok_snoc; [by eapply ok_calls|done|]. intros _. simpl.
      rewrite decide_False; [done|]. intros Heq. apply Hne. exact (distinct_ids_eq _ _ _ _ _ Hd Hk2 Hk (eq_sym Heq)).
  - apply list_find_None in Hf. rewrite Forall_lookup in Hf.
    assert (Hp : cn_pending c !! id = None).
    { destruct (cn_pending c !! id) as [k|] eqn:Hp; [|done].
      apply (ok_pending _ _ Hok) in Hp as (cl & Hk & Hid & _). by destruct (Hf _ _ Hk). }
    unfold wake. rewrite Hp. destruct Hok as [H1 H2 H3]. split; [done| |eauto].
    intros k cl Hk. apply call_ok_snoc; [eauto|done|]. intros _. simpl. rewrite decide_False; [done|].
    intros Heq. by destruct (Hf _ _ Hk).
Qed.

(** An observation that is neither a call nor a reply. *)
Lemma conn_ok_quiet tr o c :
  conn_ok tr c → (∀ k, o ≠ OCalled k) → (∀ id, outcome_for id o = None) → conn_ok (tr ++ [o]) c.
Proof.
  intros [H1 H2 H3] Ho Hq. split; [done| |].
  - intros k cl Hk. apply call_ok_snoc; auto.
  - intros k. rewrite after_call_app. destruct (after_call k tr) eqn:Ha; [intros _; apply H3; eauto|].
    destruct o as [k'| |]; simpl; [by destruct (Ho k')|by intros []..].
Qed.

Lemma conn_ok_start tr c id message limit : conn_ok tr c → conn_ok tr (call_start id message limit c).
Proof.
  intros [H1 H2 H3]. unfold call_start. split; simpl.
  - intros id' k. rewrite H1. split; intros (cl & Hk & Hid & Hch); exists cl.
    + split; [by apply lookup_app_l_Some|done].
    + apply lookup_app_Some in Hk as [Hk|[_ Hk]]; [done|]. apply list_lookup_singleton_Some in Hk as [_ <-]. done.
  - intros k cl [Hk|[Hlen Hk]]%lookup_app_Some; [eauto|]. apply list_lookup_singleton_Some in Hk as [Hk <-].
    apply call_ok_new. destruct (after_call k tr) eqn:Ha; [|done]. assert (k < length (cn_calls c)) by (apply H3; eauto). lia.
  - intros k Hk%H3. rewrite length_app. lia.
Qed.

Lemma alter_None {A} (f : A → A) k (l : list A) : l !! k = None → alter f k l = l.
Proof.
  intros Hk. apply list_eq. intros i. destruct (decide (i = k)) as [->|?].
  - by rewrite list_lookup_alter_eq, Hk.
  - by rewrite list_lookup_alter_ne.
Qed.

Lemma conn_ok_write tr c k fault : conn_ok tr c → distinct_ids c → conn_ok tr (call_write k fault c).
Proof.
  intros Hok Hd.
  unfold call_write. destruct (cn_calls c !! k) as [cl|] eqn:Hk; [|done]. destruct (cl_phase cl) eqn:Hph; try done.
  destruct (write_msg _ _ _) as [r c1] eqn:Hw. apply write_msg_run in Hw as (out & -> & _).
  assert (Hok1 : conn_ok tr (set_out c out)) by (by eapply conn_ok_same).
  eapply conn_ok_phase; eauto. destruct (ok_calls _ _ Hok k cl Hk) as [Hch _].
  unfold call_ok. simpl. rewrite Hph in Hch. split; [|by destruct r].
  destruct (cl_chan cl); [by destruct Hch as [_ [?|?]]| | |by destruct Hch].
  + destruct Hch as (? & ? & _). by destruct r; split_and!.
  + destruct Hch. by destruct r.
Qed.

Lemma conn_ok_cancel tr c k : conn_ok tr c → distinct_ids c → conn_ok tr (call_cancel k c).
Proof.
  intros Hok Hd.
  unfold call_cancel, update_call. destruct (cn_calls c !! k) as [cl|] eqn:Hk;
    [|by rewrite (alter_None _ _ _ Hk); destruct c].
  rewrite (alter_insert_Some _ _ _ _ Hk). destruct (ok_calls _ _ Hok k cl Hk) as [Hch Hdone].
  assert (Hph : (∃ r, cl_phase cl = CallDone r) ∨ ∀ r, cl_phase cl ≠ CallDone r)
    by (destruct (cl_phase cl); eauto).
  destruct Hph as [[r Hr]|Hr]; [rewrite Hr, list_insert_id by done; by destruct c|].
  replace (match cl_phase cl with CallDone _ => cl | _ => set_phase CallDropped cl end) with (set_phase CallDropped cl)
    by (destruct (cl_phase cl) as [| | | | |r0|]; try done; by destruct (Hr r0)).
  rewrite <-(alter_insert_Some (set_phase CallDropped) _ _ _ Hk).
  apply (conn_ok_phase _ _ _ _ _ Hok Hd Hk). unfold call_ok. simpl. split; [|done].
  destruct (cl_chan cl); [naive_solver|naive_solver|naive_solver|]. destruct Hch as [r ?]. by destruct (Hr r).
Qed.

Lemma conn_ok_read tr c c' o :
  conn_ok tr c → distinct_ids c → read_turn c = (c', o) → conn_ok (tr ++ o) c'.
Proof.
  intros Hok Hd.
  unfold read_turn. destruct (cn_reading c); [|intros [= <- <-]; by rewrite app_nil_r].
  destruct (read_frame (cn_in c)) as [[m|e] rest]; intros [= <- <-]; [|rewrite app_nil_r; by eapply conn_ok_same].
  assert (Hok1 : conn_ok tr (set_input c true rest)) by (by eapply conn_ok_same).
  destruct m; try (by apply conn_ok_quiet).
  + eapply conn_ok_same; [by apply (conn_ok_quiet tr (ORead _))|done|done].
  + by apply conn_ok_wake.
Qed.

Lemma conn_ok_step tr c e c' o :
  conn_ok tr c → conn_step me e c = (c', o) → distinct_ids c' → conn_ok (tr ++ o) c'.
Proof.
  intros Hok Hs Hd. apply (distinct_ids_step _ _ _ _ Hs) in Hd. revert Hs.
  destruct e; simpl; try (intros [= <- <-]; rewrite ?app_nil_r).
  - by apply conn_ok_start.
  - by apply conn_ok_poll.
  - by apply conn_ok_write.
  - by apply conn_ok_cancel.
  - by apply conn_ok_read.
  - by eapply conn_ok_same.
  - unfold request_write. intros Hs.
    repeat case_match; simplify_eq/=; rewrite ?app_nil_r; try done;
      match goal with H : write_msg _ _ _ = _ |- _ => apply write_msg_run in H as (out & -> & _) end.
    + eapply conn_ok_same; [by apply (conn_ok_quiet tr (OReplied _ _))|done|done].
    + by eapply conn_ok_same.
  - eapply conn_ok_same; [exact Hok|unfold main_ready; by repeat case_match..].
  - eapply conn_ok_same; [exact Hok|unfold main_register; by repeat case_match..].
  - eapply conn_ok_same; [exact Hok|unfold main_finish; by repeat case_match..].
  - by eapply conn_ok_same.
  - by eapply conn_ok_same.
Qed.

Lemma conn_ok_fresh c : fresh_connection c → conn_ok [] c.
Proof.
  intros (_ & Hp & Hc & _). split; rewrite ?Hp, ?Hc.
  - intros id k. rewrite lookup_empty. split; [done|]. intros (cl & Hk & _). by rewrite lookup_nil in Hk.
  - intros k cl. by rewrite lookup_nil.
  - intros k [? ?]. done.
Qed.

Lemma reaches_ok es tr c : reaches es tr c → distinct_ids c → conn_ok tr c.
Proof.
  intros Hr. pattern es, tr, c. revert es tr c Hr. apply reaches_ind; [auto using conn_ok_fresh|].
  intros es tr c e c' o IH Hs Hd. eapply conn_ok_step; [|exact Hs|exact Hd]. by eapply IH, distinct_ids_step.
Qed.

(** C16: a call returns with its own reply.  However the tasks are interleaved,
    whatever the node sends and whichever writes fail, a call that has returned
    gives the outcome of the first reply with its id that was read after it had
    entered the table, or reports that its message could not be written or that its
    time is up; no other reply reaches it.  The table holds exactly the calls that
    have entered it and were neither answered nor have returned: nothing is left of
    a finished call. *)
Theorem call_returns_own_reply es tr c :
  reaches es tr c → distinct_ids c →
  (∀ k cl r, cn_calls c !! k = Some cl → cl_phase cl = CallDone r →
     answer k (cl_id cl) tr = Some r ∨ (∃ e, r = Err (io_error e)) ∨ r = Err call_timeout)
  ∧ (∀ id k, cn_pending c !! id = Some k ↔
       ∃ cl, cn_calls c !! k = Some cl ∧ cl_id cl = id ∧ is_Some (after_call k tr) ∧ answer k id tr = None
         ∧ ∀ r, cl_phase cl ≠ CallDone r).
Proof.
  intros Hr Hd. pose proof (reaches_ok _ _ _ Hr Hd) as Hok. split.
  - intros k cl r Hk Hp. destruct (ok_calls _ _ Hok k cl Hk) as [_ Hex]. by rewrite Hp in Hex.
  - intros id k. rewrite (ok_pending _ _ Hok). split; intros (cl & Hk & <- & Hc); exists cl;
      destruct (ok_calls _ _ Hok k cl Hk) as [Hch _].
    + rewrite Hc in Hch. naive_solver.
    + destruct Hc as ([s Hs] & Ha & Hnd). split_and!; [done..|]. destruct (cl_chan cl); [|done| |].
      * destruct Hch as [Hn _]. by rewrite Hs in Hn.
      * destruct Hch as [Hn _]. by rewrite Ha in Hn.
      * destruct Hch as [r Hp]. by destruct (Hnd r).
Qed.

(** ** How a call goes on *)

Definition woken (cl : Call) : Prop := cl_chan cl = ChClosed ∨ ∃ r, cl_chan cl = ChSent r.
Definition phase_at (c : Connection) (k : nat) : option Phase := cl_phase <$> cn_calls c !! k.

(** What one event can do to the phase of a call with a time limit, at a time;
    [polled] tells whether the event is a turn of this call, and [woken] whether its
    channel has something for it. *)
Definition moves (polled : bool) (woken : Prop) (now limit : N) (p p' : Phase) : Prop :=
  match p with
  | CallNew => p' = p ∧ polled = false ∨ p' = CallWriting ∨ p' = CallDropped
  | CallWriting => p' = p ∨ (∃ e, p' = CallFailed e) ∨ p' = CallWaiting (now + limit) ∨ p' = CallDropped
  | CallFailed _ | CallExpired => p' = p ∧ polled = false ∨ (∃ r, p' = CallDone r) ∨ p' = CallDropped
  | CallWaiting d => p' = p ∧ (polled = true → (now < d)%N) ∨ (∃ r, p' = CallDone r ∧ woken)
                     ∨ p' = CallExpired ∧ (d ≤ now)%N ∨ p' = CallDropped
  | CallDone _ | CallDropped => p' = p
  end.
Ltac open_moves :=
  repeat match goal with H : _ ∨ _ |- _ => destruct H | H : _ ∧ _ |- _ => destruct H | H : ∃ _, _ |- _ => destruct H end.
Lemma moves_refl woken now limit p : moves false woken now limit p p.
Proof. destruct p; simpl; auto. left. by split. Qed.

Lemma phase_at_alter f j p' c k :
  phase_at (set_table c p' (alter f j (cn_calls c))) k
  = if decide (k = j) then cl_phase ∘ f <$> cn_calls c !! k else phase_at c k.
Proof.
  unfold phase_at. simpl. case_decide as Hj; [subst k; rewrite list_lookup_alter_eq; by destruct (_ !! _)|].
  by rewrite list_lookup_alter_ne.
Qed.
Lemma phase_at_keep f j p' c k :
  (∀ cl, cl_phase (f cl) = cl_phase cl) → phase_at (set_table c p' (alter f j (cn_calls c))) k = phase_at c k.
Proof.
  intros Hf. rewrite phase_at_alter. case_decide; [|done]. unfold phase_at. destruct (_ !! _); simpl; by rewrite ?Hf.
Qed.
Lemma phase_at_drop id c k : phase_at (drop_entry id c) k = phase_at c k.
Proof.
  unfold drop_entry. case_match; [|done]. apply phase_at_keep. intros cl. unfold close_channel. by destruct (cl_chan cl).
Qed.
Lemma phase_at_set j ph c k :
  phase_at (update_call j (set_phase ph) c) k = if decide (k = j) then (λ _, ph) <$> phase_at c k else phase_at c k.
Proof.
  unfold update_call. rewrite phase_at_alter. case_decide; [|done]. unfold phase_at. by destruct (_ !! _).
Qed.

(** A turn of the call [j] moves [j] as its phase says, and no other call. *)
Lemma poll_moves j c k cl :
  cn_calls c !! k = Some cl →
  ∃ p', phase_at (call_poll j c) k = Some p' ∧ moves (bool_decide (j = k)) (woken cl) (cn_now c) (cl_limit cl) (cl_phase cl) p'.
Proof.
  intros Hk. assert (Hp : phase_at c k = Some (cl_phase cl)) by (unfold phase_at; by rewrite Hk).
  unfold call_poll. destruct (decide (j = k)) as [->|Hne].
  - rewrite Hk, bool_decide_true by done. destruct (cl_phase cl) eqn:Hph; simpl; try (eexists; split; [exact Hp|naive_solver]).
    + exists CallWriting. split; [|auto]. unfold call_insert. rewrite phase_at_alter, decide_True by done.
      pose proof (phase_at_drop (cl_id cl) c k) as Hd. unfold phase_at in Hd. rewrite Hk in Hd.
      by destruct (cn_calls (drop_entry _ _) !! k).
    + unfold call_give_up. rewrite phase_at_set, decide_True, phase_at_drop, Hp by done. simpl. eauto 6.
    + unfold woken. destruct (cl_chan cl); rewrite ?phase_at_set, ?decide_True, ?Hp by done; simpl; try by eauto 10.
      all: destruct (N.leb_spec deadline (cn_now c));
        rewrite ?phase_at_set, ?decide_True, ?Hp by done; simpl; eauto 10.
    + unfold call_give_up. rewrite phase_at_set, decide_True, phase_at_drop, Hp by done. simpl. eauto 6.
  - exists (cl_phase cl). rewrite bool_decide_false by done. split; [|apply moves_refl]. rewrite <-Hp.
    destruct (cn_calls c !! j) as [cj|]; [|done]. destruct (cl_phase cj); try done.
    + unfold call_insert. rewrite phase_at_alter, decide_False by done. apply phase_at_drop.
    + unfold call_give_up. rewrite phase_at_set, decide_False by done. apply phase_at_drop.
    + destruct (cl_chan cj); try (case_match; [|done]); by rewrite phase_at_set, decide_False.
    + unfold call_give_up. rewrite phase_at_set, decide_False by done. apply phase_at_drop.
Qed.

Definition polls (k : nat) (e : Event) : bool := match e with EvPoll j => bool_decide (j = k) | _ => false end.

Lemma step_moves e c c' o k cl :
  conn_step me e c = (c', o) → cn_calls c !! k = Some cl →
  ∃ p', phase_at c' k = Some p' ∧ moves (polls k e) (woken cl) (cn_now c) (cl_limit cl) (cl_phase cl) p'.
Proof.
  intros Hs Hk. assert (Hp : phase_at c k = Some (cl_phase cl)) by (unfold phase_at; by rewrite Hk).
  assert (Hsame : cn_calls c' = cn_calls c →
    ∃ p', phase_at c' k = Some p' ∧ moves false (woken cl) (cn_now c) (cl_limit cl) (cl_phase cl) p').
  { intros Heq. exists (cl_phase cl). split; [|apply moves_refl]. unfold phase_at. by rewrite Heq, Hk. }
  destruct e; simpl in Hs |- *; try (injection Hs as <- <-); try by apply Hsame.
  - exists (cl_phase cl). split; [|apply moves_refl]. unfold phase_at, call_start. simpl.
    by rewrite (lookup_app_l_Some _ _ _ _ Hk).
  - by apply poll_moves.
  - unfold call_write in *. destruct (cn_calls c !! k0) as [c0|] eqn:Hk0; [|by apply Hsame].
    destruct (cl_phase c0) eqn:Hph; try by apply Hsame.
    destruct (write_msg _ _ _) as [r c1] eqn:Hw. apply write_msg_run in Hw as (out & -> & _).
    rewrite phase_at_set. case_decide as Heq; [subst k0|exists (cl_phase cl); split; [exact Hp|apply moves_refl]].
    simplify_eq. change (phase_at (set_out c out) k) with (phase_at c k). rewrite Hp, Hph. simpl.
    destruct r; simpl; eauto 10.
  - unfold call_cancel, update_call in *. rewrite phase_at_alter, Hk, Hp.
    case_decide as Heq; [|exists (cl_phase cl); split; [done|apply moves_refl]]. simpl.
    destruct (cl_phase cl) eqn:Hph; simpl; rewrite ?Hph; eauto 10.
  - unfold read_turn in Hs. destruct (cn_reading c); [|by simplify_eq; apply Hsame].
    destruct (read_frame (cn_in c)) as [[m|e] rest]; injection Hs as <- <-; [|by apply Hsame].
    destruct m; try by apply Hsame. unfold dispatch, wake in *. simpl in *. destruct (cn_pending c !! id) as [j|]; [|by apply Hsame].
    exists (cl_phase cl). split; [|apply moves_refl]. rewrite <-Hp.
    apply (phase_at_keep _ j _ (set_input c true rest)). intros c0. unfold send_channel. by destruct (cl_chan c0).
  - apply Hsame. unfold request_write in Hs. repeat case_match; simplify_eq/=; try done;
      match goal with H : write_msg _ _ _ = _ |- _ => by apply write_msg_run in H as (out & -> & _) end.
  - apply Hsame. unfold main_ready. by repeat case_match.
  - apply Hsame. unfold main_register. by repeat case_match.
  - apply Hsame. unfold main_finish. by repeat case_match.
Qed.

(** ** How long a call can take *)

(** The message of a call is out, or could not be written; the call has returned,
    or its caller has dropped it. *)
Definition handed_over (p : Phase) : Prop := p ≠ CallNew ∧ p ≠ CallWriting.
Definition ended (p : Phase) : Prop := (∃ r, p = CallDone r) ∨ p = CallDropped.

(** The turns a call needs once its time is up. *)
Definition turns_left (p : Phase) : nat :=
  match p with
  | CallDone _ | CallDropped => 0
  | CallFailed _ | CallExpired => 1
  | _ => 2
  end.
Lemma turns_left_0 p : turns_left p = 0 → ended p.
Proof. unfold ended. destruct p; simpl; try done; eauto. Qed.

(** The deadline of a waiting call. *)
Definition due (now : N) (p : Phase) : Prop := ∀ d, p = CallWaiting d → (d ≤ now)%N.

Lemma step_now e c c' o : conn_step me e c = (c', o) → (cn_now c ≤ cn_now c')%N.
Proof.
  destruct e; simpl; try (intros [= <- <-]; simpl; try lia).
  - unfold call_poll, call_give_up, call_insert, drop_entry. repeat case_match; simpl; lia.
  - unfold call_write, write_msg. repeat case_match; simplify_eq/=; lia.
  - unfold read_turn, dispatch, wake. intros Hs. repeat case_match; simplify_eq/=; lia.
  - unfold request_write, write_msg. intros Hs. repeat case_match; simplify_eq/=; lia.
  - unfold main_ready. repeat case_match; simpl; lia.
  - unfold main_register. repeat case_match; simpl; lia.
  - unfold main_finish. repeat case_match; simpl; lia.
Qed.

Lemma moves_handed polled woken now limit p p' :
  moves polled woken now limit p p' → handed_over p →
  handed_over p' ∧ turns_left p' ≤ turns_left p ∧ (due now p → due now p')
  ∧ (polled = true → due now p → turns_left p' ≤ turns_left p - 1).
Proof.
  unfold handed_over, due. intros Hm [Hn Hw]. destruct p; try done; simpl in Hm;
    open_moves; subst; simpl; split_and!; try done; try lia.
  intros Hp Hd. specialize (Hd _ eq_refl).
  match goal with H : polled = true → _ |- _ => specialize (H Hp) end. lia.
Qed.

(** Once a call is handed over and due, every turn it gets brings it nearer its end. *)
Lemma run_due es c c' tr k cl :
  conn_run me es c = (c', tr) → cn_calls c !! k = Some cl → handed_over (cl_phase cl) → due (cn_now c) (cl_phase cl) →
  ∃ cl', cn_calls c' !! k = Some cl'
    ∧ turns_left (cl_phase cl') ≤ turns_left (cl_phase cl) - length (filter (λ e, polls k e = true) es).
Proof.
  revert c c' tr cl. induction es as [|e es IH]; intros c c' tr cl; simpl.
  - intros [= <- _] Hk _ _. exists cl. split; [done|simpl; lia].
  - destruct (conn_step me e c) as [c1 o1] eqn:He, (conn_run me es c1) as [c2 o2] eqn:Hr. intros [= <- _] Hk Hh Hd.
    destruct (step_moves _ _ _ _ _ _ He Hk) as (p' & Hp' & Hm).
    destruct (moves_handed _ _ _ _ _ _ Hm Hh) as (Hh' & Hle & Hdue & Hpoll).
    unfold phase_at in Hp'. destruct (cn_calls c1 !! k) as [cl1|] eqn:Hk1; [|done]. injection Hp' as <-.
    destruct (IH _ _ _ _ Hr Hk1 Hh') as (cl' & Hk' & Ht).
    { intros d Hw. specialize (Hdue Hd d Hw). pose proof (step_now _ _ _ _ He). lia. }
    exists cl'. split; [done|]. rewrite filter_cons. case_decide as Hpk; simpl; [specialize (Hpoll Hpk Hd)|]; lia.
Qed.

(** A call that is handed over stays so, and never gets a later deadline. *)
Lemma run_waits es c c' tr k cl :
  conn_run me es c = (c', tr) → cn_calls c !! k = Some cl → handed_over (cl_phase cl) →
  ∃ cl', cn_calls c' !! k = Some cl' ∧ call_key cl' = call_key cl ∧ handed_over (cl_phase cl')
    ∧ ∀ d, cl_phase cl' = CallWaiting d → cl_phase cl = CallWaiting d.
Proof.
  intros Hr Hk Hh. destruct (run_call _ _ _ _ _ _ Hr Hk) as (cl' & Hk' & Hkey).
  exists cl'. split; [done|]. split; [done|]. clear Hkey.
  revert c cl tr Hr Hk Hh. induction es as [|e es IH]; intros c cl tr; simpl.
  - intros [= -> _] Hk Hh. simplify_eq. auto.
  - destruct (conn_step me e c) as [c1 o1] eqn:He, (conn_run me es c1) as [c2 o2] eqn:Hr. intros [= -> _] Hk Hh.
    destruct (step_moves _ _ _ _ _ _ He Hk) as (p' & Hp' & Hm).
    destruct (moves_handed _ _ _ _ _ _ Hm Hh) as (Hh' & _).
    unfold phase_at in Hp'. destruct (cn_calls c1 !! k) as [cl1|] eqn:Hk1; [|done]. injection Hp' as <-.
    destruct (IH _ _ _ Hr Hk1 Hh') as [? Hd]. split; [done|]. intros d Hw%Hd. rewrite Hw in Hm.
    destruct (cl_phase cl); simpl in Hm; open_moves; try done; try congruence.
    by destruct Hh.
Qed.

(** A deadline is at most the time limit away. *)
Lemma reaches_deadline es tr c k cl d :
  reaches es tr c → cn_calls c !! k = Some cl → cl_phase cl = CallWaiting d → (d ≤ cn_now c + cl_limit cl)%N.
Proof.
  intros Hr. revert k cl d. pattern es, tr, c. revert es tr c Hr. apply reaches_ind.
  - intros c (_ & _ & Hc & _) k cl d. by rewrite Hc, lookup_nil.
  - intros es tr c e c' o IH Hs k cl' d Hk' Hw. pose proof (step_now _ _ _ _ Hs) as Hnow.
    destruct (cn_calls c !! k) as [cl|] eqn:Hk.
    + destruct (step_moves _ _ _ _ _ _ Hs Hk) as (p' & Hp' & Hm).
      assert (Hlim : cl_limit cl' = cl_limit cl).
      { pose proof (run_call [e] c c' (o ++ []) k cl) as (cl2 & Hk2 & Hkey); [simpl; by rewrite Hs|done|].
        rewrite Hk' in Hk2. injection Hk2 as <-. by injection Hkey. }
      unfold phase_at in Hp'. rewrite Hk' in Hp'. simpl in Hp'. rewrite Hw in Hp'. injection Hp' as <-. rewrite Hlim.
      destruct (cl_phase cl) as [| | |d0| | |] eqn:Hph; simpl in Hm; open_moves; try done; simplify_eq.
      * lia.
      * specialize (IH _ _ _ Hk Hph). lia.
    + pose proof (step_keys _ _ _ _ Hs) as Hkeys. destruct e; simpl in Hkeys;
        try (rewrite app_nil_r in Hkeys; apply (f_equal length) in Hkeys; rewrite !length_fmap in Hkeys;
             apply lookup_lt_Some in Hk'; apply lookup_ge_None in Hk; lia).
      injection Hs as <- <-. unfold call_start in Hk'. simpl in Hk'.
      apply lookup_app_Some in Hk' as [?|[_ Hx]]; [congruence|]. by apply list_lookup_singleton_Some in Hx as [_ <-].
Qed.

(** C19: every call comes back in time.  Whatever the node and the other tasks do, a
    call whose message has been handed over has returned (or was dropped by its
    caller) once its time limit has passed and it has had two more turns; the
    connection need not answer, nor be alive. *)
Theorem call_returns_in_time es1 es2 es3 tr1 tr2 tr3 c1 c2 c3 k cl :
  reaches es1 tr1 c1 → cn_calls c1 !! k = Some cl → handed_over (cl_phase cl) →
  conn_run me es2 c1 = (c2, tr2) → (cn_now c1 + cl_limit cl ≤ cn_now c2)%N →
  conn_run me es3 c2 = (c3, tr3) → 2 ≤ length (filter (λ e, polls k e = true) es3) →
  ∃ cl', cn_calls c3 !! k = Some cl' ∧ call_key cl' = call_key cl ∧ ended (cl_phase cl').
Proof.
  intros Hreach Hk Hh H12 Hnow H23 Hpolls.
  assert (Hc2 : ∃ cl2, cn_calls c2 !! k = Some cl2 ∧ call_key cl2 = call_key cl
                  ∧ handed_over (cl_phase cl2) ∧ due (cn_now c2) (cl_phase cl2)).
  { pose proof (λ d, reaches_deadline _ _ _ _ _ d Hreach Hk) as Hdl.
    destruct (run_waits _ _ _ _ _ _ H12 Hk Hh) as (cl2 & Hk2 & Hkey & Hh2 & Hd2).
    exists cl2. split_and!; [done..|]. intros d Hw. specialize (Hdl d (Hd2 d Hw)). lia. }
  destruct Hc2 as (cl2 & Hk2 & Hkey & Hh2 & Hd2).
  destruct (run_due _ _ _ _ _ _ H23 Hk2 Hh2 Hd2) as (cl3 & Hk3 & Ht).
  destruct (run_call _ _ _ _ _ _ H23 Hk2) as (cl3' & Hk3' & Hkey3). rewrite Hk3 in Hk3'. injection Hk3' as <-.
  exists cl3. split_and!; [done|congruence|]. apply turns_left_0.
  assert (turns_left (cl_phase cl2) ≤ 2) by (destruct (cl_phase cl2); simpl; lia). lia.
Qed.

Lemma run_now es c c' tr : conn_run me es c = (c', tr) → (cn_now c ≤ cn_now c')%N.
Proof.
  revert c c' tr. induction es as [|e es IH]; intros c c' tr; simpl; [intros [= <- _]; lia|].
  destruct (conn_step me e c) as [c1 o1] eqn:He, (conn_run me es c1) as [c2 o2] eqn:Hr. intros [= <- _].
  pose proof (step_now _ _ _ _ He). specialize (IH _ _ _ Hr). lia.
Qed.

Lemma run_dropped es c c' tr k cl :
  conn_run me es c = (c', tr) → cn_calls c !! k = Some cl → cl_phase cl = CallDropped →
  ∃ cl', cn_calls c' !! k = Some cl' ∧ cl_phase cl' = CallDropped.
Proof.
  revert c cl tr. induction es as [|e es IH]; intros c cl tr; simpl; [intros [= <- _]; eauto|].
  destruct (conn_step me e c) as [c1 o1] eqn:He, (conn_run me es c1) as [c2 o2] eqn:Hr. intros [= <- _] Hk Hp.
  destruct (step_moves _ _ _ _ _ _ He Hk) as (p' & Hp' & Hm). rewrite Hp in Hm. simpl in Hm. subst p'.
  unfold phase_at in Hp'. destruct (cn_calls c1 !! k) as [cl1|] eqn:Hk1; [|done]. injection Hp' as Hp'. eauto.
Qed.

(** ** The end of the stream *)

Lemma step_reading e c c' o :
  conn_step me e c = (c', o) → cn_reading c = false → cn_reading c' = false ∧ ∀ id, omap (outcome_for id) o = [].
Proof.
  destruct e; simpl; try (intros [= <- <-]; simpl; try done).
  - intros Hr. split; [|intros; by case_match].
    rewrite <-Hr. unfold call_poll, call_give_up, call_insert, drop_entry. by repeat case_match.
  - unfold call_write, write_msg. repeat case_match; by simplify_eq/=.
  - unfold read_turn. intros Hs Hr. rewrite Hr in Hs. by injection Hs as <- <-.
  - unfold request_write, write_msg. intros Hs Hr. repeat case_match; by simplify_eq/=.
  - unfold main_ready. by repeat case_match.
  - unfold main_register. by repeat case_match.
  - unfold main_finish. by repeat case_match.
Qed.

Lemma answer_app k id tr o :
  is_Some (after_call k tr) → omap (outcome_for id) o = [] → answer k id (tr ++ o) = answer k id tr.
Proof. intros [since Hs] Ho. unfold answer. rewrite after_call_app, Hs. simpl. by rewrite omap_app, Ho, app_nil_r. Qed.

Lemma reaches_snoc es tr c e c' o : reaches es tr c → conn_step me e c = (c', o) → reaches (es ++ [e]) (tr ++ o) c'.
Proof.
  intros (fault & input & now & ctx & pub & c0 & Ho & Hr) Hs. exists fault, input, now, ctx, pub, c0.
  split; [done|]. by rewrite run_snoc, Hr, Hs.
Qed.

(** A lost connection is not reported to those who wait on it.  When the stream
    has ended, a call that has not been answered goes on waiting: whatever happens
    then, before its deadline it has not returned (it may only have been dropped by
    its caller); the error [node_gone] is never seen. *)
Theorem lost_connection_not_reported es1 es2 tr1 tr2 c1 c2 k cl deadline :
  reaches es1 tr1 c1 → cn_reading c1 = false →
  cn_calls c1 !! k = Some cl → cl_phase cl = CallWaiting deadline → answer k (cl_id cl) tr1 = None →
  conn_run me es2 c1 = (c2, tr2) → distinct_ids c2 → (cn_now c2 < deadline)%N →
  ∃ cl', cn_calls c2 !! k = Some cl' ∧ (cl_phase cl' = CallWaiting deadline ∨ cl_phase cl' = CallDropped).
Proof.
  revert es1 tr1 c1 tr2 cl. induction es2 as [|e es2 IH]; intros es1 tr1 c1 tr2 cl Hreach Hread Hk Hw Ha; simpl.
  { intros [= <- _] _ _. eauto. }
  destruct (conn_step me e c1) as [c o1] eqn:He, (conn_run me es2 c) as [c' o2] eqn:Hr. intros [= <- _] Hd Hnow.
  pose proof (distinct_ids_run _ _ _ _ Hr Hd) as Hdc. pose proof (distinct_ids_step _ _ _ _ He Hdc) as Hd1.
  destruct (ok_calls _ _ (reaches_ok _ _ _ Hreach Hd1) k cl Hk) as [Hch _].
  destruct (step_reading _ _ _ _ He Hread) as [Hread' Hno].
  destruct (step_moves _ _ _ _ _ _ He Hk) as (p' & Hp' & Hm).
  destruct (run_call [e] c1 c (o1 ++ []) k cl) as (cl1 & Hk1 & Hkey); [simpl; by rewrite He|done|].
  unfold phase_at in Hp'. rewrite Hk1 in Hp'. injection Hp' as <-. rewrite Hw in Hch, Hm. simpl in Hm.
  assert (Hopen : cl_chan cl = ChOpen ∧ is_Some (after_call k tr1)).
  { destruct (cl_chan cl); [by destruct Hch as [_ [?|?]]|by destruct Hch|destruct Hch; congruence|by destruct Hch]. }
  assert (Hlater : (cn_now c1 < deadline)%N).
  { pose proof (step_now _ _ _ _ He). pose proof (run_now _ _ _ _ Hr). lia. }
  destruct Hm as [[Hm _]|[(r & _ & [Hc|[r' Hc]])|[[_ Hle]|Hm]]].
  - eapply (IH _ _ _ _ _ (reaches_snoc _ _ _ _ _ _ Hreach He) Hread' Hk1 Hm); eauto.
    injection Hkey as -> _ _. rewrite answer_app; [done|apply Hopen|apply Hno].
  - destruct Hopen. congruence.
  - destruct Hopen. congruence.
  - lia.
  - destruct (run_dropped _ _ _ _ _ _ Hr Hk1 Hm) as (cl' & ? & ?). eauto.
Qed.

(** ** The requests of the node *)

Definition read_request (o : Obs) : option (Uuid * string * string) :=
  match o with ORead (Request id service payload) => Some (id, service, payload) | _ => None end.
Definition replied (o : Obs) : option nat := match o with OReplied j _ => Some j | _ => None end.
Definition request_key (q : Inbound) : Uuid * string * string := (rq_id q, rq_service q, rq_payload q).

(** The reply the request [j] is given: what its handler said, or that the sidecar
    is not ready. *)
Definition reply_for (es : list Event) (j : nat) (q : Inbound) (m : Message) : Prop :=
  ∃ r, m = request_reply (rq_id q) r ∧ if rq_ctx q then EvHandled j r ∈ es else r = Err joining.

Record serves (es : list Event) (tr : list Obs) (c : Connection) : Prop := {
  sv_read : omap read_request tr = request_key <$> cn_requests c;
  sv_once : NoDup (omap replied tr);
  sv_replied : ∀ j m, OReplied j m ∈ tr → ∃ q, cn_requests c !! j = Some q ∧ rq_phase q = RqReplied true m;
  sv_phase : ∀ j q, cn_requests c !! j = Some q →
    match rq_phase q with
    | RqHandling => rq_ctx q = true
    | RqReplying m | RqReplied _ m => reply_for es j q m
    end;
}.

Lemma reply_for_mono es e j q m : reply_for es j q m → reply_for (es ++ [e]) j q m.
Proof. intros (r & -> & Hr). exists r. split; [done|]. destruct (rq_ctx q); [|done]. by apply elem_of_app; left. Qed.

Lemma serves_same es tr c e c' o :
  serves es tr c → cn_requests c' = cn_requests c → omap read_request o = [] → omap replied o = [] →
  serves (es ++ [e]) (tr ++ o) c'.
Proof.
  intros [H1 H2 H3 H4] Hq Hr Hp. split; rewrite ?omap_app, ?Hr, ?Hp, ?app_nil_r, ?Hq; auto.
  - intros j m [Hin|Hin]%elem_of_app; [auto|].
    assert (Hx : j ∈ omap replied o) by (apply list_elem_of_omap; eauto). rewrite Hp in Hx. by apply not_elem_of_nil in Hx.
  - intros j q Hj. specialize (H4 j q Hj). destruct (rq_phase q); auto using reply_for_mono.
Qed.

(** The request [j] goes to its next phase, showing [o]. *)
Lemma serves_alter es tr c e c' o j q p :
  serves es tr c → cn_requests c !! j = Some q → cn_requests c' = alter (set_serving p) j (cn_requests c) →
  (∀ b m, rq_phase q ≠ RqReplied b m) →
  match p with RqHandling => False | RqReplying m | RqReplied _ m => reply_for (es ++ [e]) j q m end →
  (o = [] ∨ ∃ m, p = RqReplied true m ∧ o = [OReplied j m]) →
  serves (es ++ [e]) (tr ++ o) c'.
Proof.
  intros [H1 H2 H3 H4] Hj Hq Hnot Hp Ho. rewrite (alter_insert_Some _ _ _ _ Hj) in Hq.
  assert (Hlt : j < length (cn_requests c)) by (by eapply lookup_lt_Some).
  assert (Hnr : ∀ m, OReplied j m ∉ tr). { intros m (q' & Hj' & Hph)%H3. simplify_eq. by destruct (Hnot true m). }
  split.
  - rewrite omap_app, H1, Hq, list_fmap_insert.
    rewrite list_insert_id by (rewrite list_lookup_fmap, Hj; done).
    destruct Ho as [->|(m & _ & ->)]; by rewrite app_nil_r.
  - destruct Ho as [->|(m & _ & ->)]; [by rewrite app_nil_r|]. rewrite omap_app. simpl. apply NoDup_app.
    split_and!; [done| |apply NoDup_singleton]. intros j' Hin ->%list_elem_of_singleton.
    apply list_elem_of_omap in Hin as ([| |j' m'] & Hin & Heq); try done. injection Heq as ->. by destruct (Hnr m').
  - intros j' m'. rewrite elem_of_app, Hq. intros [Hin|Hin].
    + destruct (decide (j' = j)) as [->|Hne]; [by destruct (Hnr m')|]. rewrite list_lookup_insert_ne by done. auto.
    + destruct Ho as [->|(m & -> & ->)]; [by apply not_elem_of_nil in Hin|].
      apply list_elem_of_singleton in Hin as [= -> ->]. rewrite list_lookup_insert_eq by done. eauto.
  - intros j' q'. rewrite Hq. destruct (decide (j' = j)) as [->|Hne].
    + rewrite list_lookup_insert_eq by done. intros [= <-]. simpl. by destruct p.
    + rewrite list_lookup_insert_ne by done. intros Hj'. specialize (H4 _ _ Hj').
      destruct (rq_phase q'); auto using reply_for_mono.
Qed.

Lemma serves_read es tr c c' o :
  serves es tr c → read_turn c = (c', o) → serves (es ++ [EvRead]) (tr ++ o) c'.
Proof.
  intros Hs. unfold read_turn. destruct (cn_reading c); [|intros [= <- <-]; by apply serves_same with c].
  destruct (read_frame (cn_in c)) as [[m|e] rest]; intros [= <- <-]; [|by apply serves_same with c].
  destruct m; try (by apply serves_same with c).
  - destruct Hs as [H1 H2 H3 H4]. split; simpl.
    + by rewrite omap_app, H1, fmap_app.
    + rewrite omap_app. simpl. by rewrite app_nil_r.
    + intros j m [Hin|Hin%list_elem_of_singleton]%elem_of_app; [|done].
      destruct (H3 j m Hin) as (q & Hj & Hp). exists q. split; [by apply lookup_app_l_Some|done].
    + intros j q [Hj|[_ Hj]]%lookup_app_Some.
      * specialize (H4 _ _ Hj). destruct (rq_phase q); auto using reply_for_mono.
      * apply list_lookup_singleton_Some in Hj as [_ <-]. simpl. destruct (cn_ctx c) eqn:Hc; [done|].
        exists (Err joining). done.
  - eapply serves_same; [exact Hs| |done..]. unfold dispatch, wake. by case_match.
Qed.

Lemma serves_step es tr c e c' o : serves es tr c → conn_step me e c = (c', o) → serves (es ++ [e]) (tr ++ o) c'.
Proof.
  intros Hs. destruct e; simpl; try (intros [= <- <-]; try by apply serves_same with c).
  - eapply serves_same; [exact Hs| |by case_match..].
    unfold call_poll, call_give_up, call_insert, drop_entry. by repeat case_match.
  - eapply serves_same; [exact Hs| |done..]. unfold call_write, write_msg. repeat case_match; by simplify_eq/=.
  - by apply serves_read.
  - destruct (cn_requests c !! j) as [q|] eqn:Hj;
      [|apply serves_same with c; try done; unfold request_handled; simpl; by rewrite alter_None].
    destruct (rq_phase q) eqn:Hp.
    + eapply (serves_alter _ _ _ _ _ _ _ _ (RqReplying (request_reply (rq_id q) r)) Hs Hj); [|congruence| |by left].
      * unfold request_handled. simpl. rewrite !(alter_insert_Some _ _ _ _ Hj). by rewrite Hp.
      * exists r. split; [done|]. pose proof (sv_phase _ _ _ Hs j q Hj) as Hc. rewrite Hp in Hc. rewrite Hc.
        apply elem_of_app. right. by apply list_elem_of_singleton.
    + eapply serves_same; [exact Hs| |done..]. unfold request_handled. simpl.
      rewrite (alter_insert_Some _ _ _ _ Hj), Hp. by apply list_insert_id.
    + eapply serves_same; [exact Hs| |done..]. unfold request_handled. simpl.
      rewrite (alter_insert_Some _ _ _ _ Hj), Hp. by apply list_insert_id.
  - unfold request_write. destruct (cn_requests c !! j) as [q|] eqn:Hj; [|intros [= <- <-]; by apply serves_same with c].
    destruct (rq_phase q) eqn:Hp; try (intros [= <- <-]; by apply serves_same with c).
    destruct (write_msg _ _ _) as [r c1] eqn:Hw. apply write_msg_run in Hw as (out & -> & _). intros [= <- <-].
    pose proof (sv_phase _ _ _ Hs j q Hj) as Hr. rewrite Hp in Hr.
    eapply (serves_alter _ _ _ _ _ _ _ _ _ Hs Hj); [done|congruence|by apply reply_for_mono|].
    case_bool_decide; eauto.
  - eapply serves_same; [exact Hs| |done..]. unfold main_ready. by repeat case_match.
  - eapply serves_same; [exact Hs| |done..]. unfold main_register. by repeat case_match.
  - eapply serves_same; [exact Hs| |done..]. unfold main_finish. by repeat case_match.
Qed.

(** Every request of the node gets its own reply, once.  The tasks of a
    connection are those of the requests read, in their order; no request is
    answered twice; and what is written for a request carries its id and the answer
    its handler gave, or the error that the sidecar is not ready when there was no
    context as it was read (then no handler runs). *)
Theorem requests_answered_once es tr c :
  reaches es tr c →
  omap read_request tr = request_key <$> cn_requests c
  ∧ NoDup (omap replied tr)
  ∧ ∀ j m, OReplied j m ∈ tr → ∃ q r, cn_requests c !! j = Some q ∧ m = request_reply (rq_id q) r
      ∧ if rq_ctx q then EvHandled j r ∈ es else r = Err joining.
Proof.
  intros Hreach. assert (Hs : serves es tr c).
  { pattern es, tr, c. revert es tr c Hreach. apply reaches_ind; [|eauto using serves_step].
    intros c (_ & _ & _ & Hq & _). split; rewrite ?Hq; simpl; [done|apply NoDup_nil_2|..].
    - intros j m Hin. by apply not_elem_of_nil in Hin.
    - intros j q. by rewrite lookup_nil. }
  destruct Hs as [H1 H2 H3 H4]. split_and!; [done..|]. intros j m (q & Hj & Hp)%H3.
  specialize (H4 j q Hj). rewrite Hp in H4. destruct H4 as (r & ? & ?). eauto.
Qed.
End runs.

(** ** Examples *)

Section connection_examples.
#[local] Existing Instance countable_codec.

(** A node that sends a request and one reply, and then closes the stream, to a
    sidecar that is not ready and has two calls under way. *)
Definition ex_frames : list Message :=
  [Hello PROTOCOL_VERSION; Request "r" "auth" "p"; Reply "a" true (Some "v") None].
Definition ex_input : string := (write_frames ex_frames "").2.
Definition ex_closed : Connection := MkConnection "" "" 0 false ∅ [] [] false MainClosed Publisher_new.
Definition ex_opened : Connection := default ex_closed (open_connection None ex_input 0 false Publisher_new).
Definition ex_events : list Event :=
  [EvCall "a" (Whoami "a") 1000; EvCall "b" (ListServices "b") 1000; EvPoll 0; EvWrite 0 None; EvPoll 1; EvWrite 1 None;
   EvRead; EvRead; EvReply 0 None; EvPoll 0; EvRead].
Definition ex_run : Connection * list Obs := Eval vm_compute in conn_run 7 ex_events ex_opened.
Definition ex_conn : Connection := ex_run.1.

Lemma ex_reaches : reaches 7 ex_events ex_run.2 ex_conn.
Proof. exists None, ex_input, 0%N, false, Publisher_new, ex_opened. split; vm_compute; reflexivity. Qed.

Lemma call_returns_own_reply_witness :
  (cl_phase <$> cn_calls ex_conn !! 0) = Some (CallDone (Ok "v"))
  ∧ (answer 0 "a" ex_run.2 = Some (Ok "v") ∨ (∃ e, @Ok SidecarError _ "v" = Err (io_error e)) ∨ Ok "v" = Err call_timeout).
Proof.
  split; [reflexivity|].
  destruct (call_returns_own_reply 7 ex_events ex_run.2 ex_conn) as [Hcalls _].
  - exact ex_reaches.
  - vm_compute. repeat constructor; apply (bool_decide_unpack _); vm_compute; exact I.
  - exact (Hcalls 0 _ _ eq_refl eq_refl).
Defined.

Lemma call_returns_in_time_witness :
  ∃ cl, cn_calls (conn_run 7 [EvPoll 1; EvPoll 1] (conn_run 7 [EvTick 1000] ex_conn).1).1 !! 1 = Some cl
    ∧ ended (cl_phase cl).
Proof.
  destruct (call_returns_in_time 7 ex_events [EvTick 1000] [EvPoll 1; EvPoll 1] ex_run.2
    (conn_run 7 [EvTick 1000] ex_conn).2 (conn_run 7 [EvPoll 1; EvPoll 1] (conn_run 7 [EvTick 1000] ex_conn).1).2 ex_conn
    (conn_run 7 [EvTick 1000] ex_conn).1 (conn_run 7 [EvPoll 1; EvPoll 1] (conn_run 7 [EvTick 1000] ex_conn).1).1
    1 (MkCall "b" (ListServices "b") 1000 ChOpen (CallWaiting 1000))) as (cl & Hk & _ & He).
  - exact ex_reaches.
  - reflexivity.
  - split; discriminate.
  - reflexivity.
  - vm_compute. discriminate.
  - reflexivity.
  - vm_compute. lia.
  - exists cl. split; [exact Hk|exact He].
Defined.

Lemma lost_connection_not_reported_witness :
  cn_reading ex_conn = false
  ∧ ∃ cl, cn_calls (conn_run 7 [EvTick 999; EvPoll 1; EvFinish] ex_conn).1 !! 1 = Some cl
      ∧ (cl_phase cl = CallWaiting 1000 ∨ cl_phase cl = CallDropped).
Proof.
  split; [reflexivity|].
  eapply (lost_connection_not_reported 7 ex_events [EvTick 999; EvPoll 1; EvFinish] ex_run.2
    (conn_run 7 [EvTick 999; EvPoll 1; EvFinish] ex_conn).2 ex_conn _ 1
    (MkCall "b" (ListServices "b") 1000 ChOpen (CallWaiting 1000)) 1000).
  - exact ex_reaches.
  - reflexivity.
  - reflexivity.
  - reflexivity.
  - reflexivity.
  - reflexivity.
  - vm_compute. repeat constructor; apply (bool_decide_unpack _); vm_compute; exact I.
  - vm_compute. reflexivity.
Defined.

Lemma requests_answered_once_witness :
  OReplied 0 (request_reply "r" (Err joining)) ∈ ex_run.2 ∧ NoDup (omap replied ex_run.2).
Proof.
  split; [vm_compute; repeat constructor|].
  destruct (requests_answered_once 7 ex_events ex_run.2 ex_conn) as (_ & Honce & _); [exact ex_reaches|exact Honce].
Defined.
End connection_examples.
