(* ===== verification/RuntimeProps.v ===== *)
(** * Properties of the Raft runtime

    What the runtime asks of the consensus library and sends to the other members is
    observed through a log of events; the laws of [EventLog] say which call of the
    environment makes which event. *)
From S2P Require Import Prelude Fsutil Crypto Authority Replay Store Types StateMachine RaftStorage Transport AdminV2.
From S2P Require Import Config Join Seed Protocol Admin Replicate PasswordJoin Context Publisher Sync Service ServiceProps.
From S2P Require Import Runtime Members.

(** ** Waiting for a new leader *)

(** The clock does not go back, a pause takes its time, and the queries take some. *)
Class TimerLaws {RT : RaftTypes} (W : Type) `{TM : Timer W, RC : !RaftCore W} := {
  time : W → N;
  instant_time w : (time w ≤ (instant w).1)%N ∧ ((instant w).1 ≤ time (instant w).2)%N;
  sleep_time d w : (time w + d ≤ time (sleep d w))%N;
  metrics_time w : (time w ≤ time (core_metrics w).2)%N;
}.

Section transfer.
Context {RT : RaftTypes} {W : Type} `{TL : TimerLaws W}.

Lemma await_leader_ends fuel candidate deadline w :
  (deadline ≤ time w + N.of_nat fuel * TRANSFER_POLL_MS)%N →
  ∃ r w', (∀ fuel', S fuel ≤ fuel' → await_leader fuel' candidate deadline w = (Some r, w'))
    ∧ match r with
      | Ok _ => ∃ w0 m, core_metrics w0 = (m, w') ∧ mt_current_leader m = Some candidate ∧ mt_state m ≠ StLeader
      | Err _ => ∃ w0 now, instant w0 = (now, w') ∧ (deadline ≤ now)%N
      end.
Proof.
  revert w. induction fuel as [|fuel IH]; intros w Ht;
    pose proof (metrics_time w) as Hm; destruct (core_metrics w) as [m w1] eqn:Hmet; cbn [snd] in Hm;
    destruct (bool_decide (mt_current_leader m = Some candidate) && bool_decide (mt_state m ≠ StLeader)) eqn:Hlead.
  1, 3: exists (Ok ()), w1; split;
    [intros [|fuel'] ?; [lia|]; cbn [await_leader]; by rewrite Hmet, Hlead|by bool_tests; eauto].
  all: pose proof (instant_time w1) as [Hi1 Hi2]; destruct (instant w1) as [now w2] eqn:Hin; cbn [fst snd] in *;
    destruct (N.leb_spec deadline now) as [Hd|Hd].
  1, 3: eexists (Err _), w2; split;
    [intros [|fuel'] ?; [lia|]; cbn [await_leader]; rewrite Hmet, Hlead, Hin; by rewrite (proj2 (N.leb_le _ _) Hd)|eauto].
  - lia.
  - pose proof (sleep_time TRANSFER_POLL_MS w2) as Hs.
    destruct (IH (sleep TRANSFER_POLL_MS w2)) as (r & w' & Hr & Hspec); [lia|]. exists r, w'. split; [|done].
    intros [|fuel'] ?; [lia|]. cbn [await_leader]. rewrite Hmet, Hlead, Hin, (proj2 (N.leb_gt _ _) Hd). apply Hr. lia.
Qed.

(** Waiting for another member to take over always ends.  With a clock that does
    not go back, the loop of [transfer_leader_away] stops within 81 turns, and more
    fuel changes nothing; it reports success only after a look at the metrics that
    showed the candidate as leader and this node as none, and the timeout only when
    8 seconds have passed. *)
Theorem leader_transfer_terminates candidate w :
  let '(start, w1) := instant w in
  ∃ r w2, (∀ fuel, transfer_fuel ≤ fuel →
             await_leader fuel candidate (start + TRANSFER_TIMEOUT_MS) w1 = (Some r, w2))
    ∧ match r with
      | Ok _ => ∃ w0 m, core_metrics w0 = (m, w2) ∧ mt_current_leader m = Some candidate ∧ mt_state m ≠ StLeader
      | Err _ => ∃ w0 now, instant w0 = (now, w2) ∧ (start + 8000 ≤ now)%N
      end.
Proof.
  pose proof (instant_time w) as [_ Hi]. destruct (instant w) as [start w1]. cbn [fst snd] in Hi.
  destruct (await_leader_ends 80 candidate (start + TRANSFER_TIMEOUT_MS) w1) as (r & w2 & Hr & Hspec).
  - unfold TRANSFER_TIMEOUT_MS, TRANSFER_POLL_MS. lia.
  - exists r, w2. split; [|done]. intros fuel Hf. by apply Hr.
Qed.
End transfer.

(** ** Events *)

(** What the consensus library is asked to do, and what is sent to a peer. *)
Inductive Event {RT : RaftTypes} :=
  | EvWrite (cmd : PolicyCommand)
  | EvLearner (id : NodeId) (node : RaftNode) (wait : bool)
  | EvVoters (voters : gset NodeId) (retain : bool)
  | EvRemove (nodes : gset NodeId) (retain : bool)
  | EvInitialize (voters : gmap NodeId RaftNode)
  | EvRpc (body : RpcBody)
  | EvRequest (peer payload : string).

Class EventLog {RT : RaftTypes} (W : Type) `{Clock W, BackendClient W, !RaftCore W, Rng W, Timer W, Background W} := {
  events : W → list Event;
  client_write_events c w : events (core_client_write c w).2 = events w ++ [EvWrite c];
  add_learner_events i n b w : events (core_add_learner i n b w).2 = events w ++ [EvLearner i n b];
  change_voters_events s b w : events (core_change_voters s b w).2 = events w ++ [EvVoters s b];
  remove_nodes_events s b w : events (core_remove_nodes s b w).2 = events w ++ [EvRemove s b];
  initialize_events v w : events (core_initialize v w).2 = events w ++ [EvInitialize v];
  vote_events r w : events (core_vote r w).2 = events w ++ [EvRpc (RpcVote r)];
  append_events r w : events (core_append_entries r w).2 = events w ++ [EvRpc (RpcAppendEntries r)];
  install_events r w : events (core_install_snapshot r w).2 = events w ++ [EvRpc (RpcInstallSnapshot r)];
  elect_events w : events (core_elect w).2 = events w ++ [EvRpc RpcElect];
  request_events c s p b t w :
    events (client_service_request_to_with_timeout c s p b t w).2 = events w ++ [EvRequest p b];
  metrics_events w : events (core_metrics w).2 = events w;
  initialized_events w : events (core_is_initialized w).2 = events w;
  now_events w : events (now_unix w).2 = events w;
  random_events n w : events (random_bytes n w).2 = events w;
  instant_events w : events (instant w).2 = events w;
  sleep_events d w : events (sleep d w) = events w;
  add_key_events c k v p w : events (client_add_key c k v p w).2 = events w;
  discover_events c s w : events (client_discover_providers c s w).2 = events w;
  whoami_events c w : events (client_whoami c w).2 = events w;
  query_key_events c k w : events (client_query_key c k w).2 = events w;
  spawn_events c ch w : events (spawn_change c ch w) = events w;
}.

(** ** The signed exchange between members *)

Section exchange.
Context `{CL : CryptoLaws, JE : Codec Json RaftRpcEnvelope, JR : Codec Json RaftRpcReply}.
Context {RT : RaftTypes} `{CB : Codec Cbor RpcBody, CV : Codec Cbor VoteResponse, CA : Codec Cbor AppendEntriesResponse,
  CN : Codec Cbor InstallSnapshotResponse}.
Context {W : Type} `{WC : Clock W, WB : BackendClient W, RC : !RaftCore W, RN : Rng W, TM : Timer W, BG : Background W}.
Context `{EL : !EventLog W}.

Lemma rpc_execute_events body ru w outcome s :
  rpc_execute body (ru, w) = (outcome, s) → s.1 = ru ∧ events s.2 = events w ++ [EvRpc body].
Proof.
  destruct body as [req|req|req|]; cbn [rpc_execute]; unfold rpc_outcome;
    [pose proof (vote_events req w)|pose proof (append_events req w)|pose proof (install_events req w)
    |pose proof (elect_events w)];
    (match goal with |- context [let '(_, _) := ?m in _] => destruct m as [r w1] end); by intros [= <- <-].
Qed.

(** C14: only the members of the cluster can drive a node's Raft.  Whatever bytes
    arrive, [handle_rpc] leaves the runtime as it is, and either asks the consensus
    library for nothing, or for exactly one call: the body of an envelope for this
    cluster and this node, whose sender is in the table of keys and whose signature
    that sender's key verifies over an input that fixes cluster, sender, receiver
    and body. *)
Theorem rpc_only_from_members payload ru w r ru' w' :
  (∀ e, decode_from Json payload = Ok e → (re_from e ≤ u64_max)%N ∧ (re_to e ≤ u64_max)%N) →
  handle_rpc payload (ru, w) = (r, (ru', w')) →
  ru' = ru ∧
  ((w' = w ∧ ∃ e, r = Err e)
   ∨ ∃ envelope from body key bytes sig,
       decode_from Json payload = Ok envelope ∧ re_from envelope = from
       ∧ re_cluster_id envelope = rv_cluster_id (ru_verifier ru) ∧ re_to envelope = rv_local_id (ru_verifier ru)
       ∧ rv_keys (ru_verifier ru) !! from = Some key ∧ body_decode bytes = Ok body
       ∧ ed_verify key (request_input (rv_cluster_id (ru_verifier ru)) from (rv_local_id (ru_verifier ru)) bytes) sig = true
       ∧ (∀ f t b, (f ≤ u64_max)%N → (t ≤ u64_max)%N →
            request_input (rv_cluster_id (ru_verifier ru)) f t b
              = request_input (rv_cluster_id (ru_verifier ru)) from (rv_local_id (ru_verifier ru)) bytes →
            f = from ∧ t = rv_local_id (ru_verifier ru) ∧ b = bytes)
       ∧ events w' = events w ++ [EvRpc body]).
Proof.
  intros Hwidth. unfold handle_rpc.
  intros [(e & H1%map_err_Ok & Hrun)|(x & _ & -> & [= -> ->])]%st_lift_run; [|by eauto].
  case_bool_decide as Hop; [injection Hrun as <- <- <-; by eauto|].
  apply st_bind_run in Hrun as [(ru0 & s2 & [= <- <-] & Hrun)|(x & [=] & _)].
  apply st_lift_run in Hrun as [([from body] & H3%map_err_Ok & Hrun)|(x & _ & -> & [= -> ->])]; [|by eauto].
  destruct (Hwidth _ H1) as [Hw1 Hw2].
  destruct (accepted_request_authentic _ _ _ _ Hw1 Hw2 H3) as (Hc & Ht & Hf & key & bb & sig & Hk & Hv & Hb & Hinj).
  apply st_bind_run in Hrun as [(out & [ru4 w4] & H4 & Hrun)|(x & H4 & ->)]; apply rpc_execute_events in H4 as [Hru4 Hev];
    simpl in Hru4, Hev; subst.
  - assert ((ru', w') = (ru, w4)) as [= -> ->] by (destruct out; unfold st_lift in Hrun; congruence).
    split; [done|]. right. exists e, (re_from e), body, key, bb, sig. by split_and!.
  - split; [done|]. right. exists e, (re_from e), body, key, bb, sig. by split_and!.
Qed.

(** A connection of one member to another, each with the other's key in its table. *)
Record linked (c : NetworkConnection) (v : RpcVerifier) (seed : string) (ru : Runtime) (seed' : string) : Prop := {
  lk_lengths : String.length seed = 32 ∧ String.length seed' = 32;
  lk_identities : nf_identity (nc_factory c) = identity_from_seed seed ∧ ru_identity ru = identity_from_seed seed';
  lk_cluster : nf_cluster_id (nc_factory c) = ru_cluster_id ru ∧ rv_cluster_id v = ru_cluster_id ru
    ∧ rv_cluster_id (ru_verifier ru) = ru_cluster_id ru;
  lk_ids : rv_local_id v = nf_local_id (nc_factory c) ∧ nc_target c = ru_node_id ru
    ∧ rv_local_id (ru_verifier ru) = ru_node_id ru;
  lk_keys : rv_keys v !! ru_node_id ru = Some (ed_public seed')
    ∧ rv_keys (ru_verifier ru) !! nf_local_id (nc_factory c) = Some (ed_public seed);
}.
Definition call_payload (c : NetworkConnection) (body : RpcBody) : result TransportError string :=
  let f := nc_factory c in encode_request (nf_identity f) (nf_cluster_id f) (nf_local_id f) (nc_target c) body.
(** The network brings the answer back. *)
Definition delivers (c : NetworkConnection) (payload raw : string) (w w' : W) : Prop :=
  let f := nc_factory c in
  client_service_request_to_with_timeout (nf_client f) (nf_service f) (rn_peer_id (nc_target_node c)) payload
    (nf_timeout f) w = (Ok raw, w').
(** The answer the caller gets is the one the callee computed. *)
Definition answers {A} (there here : result string A) : Prop :=
  match there with Ok a => here = Ok a | Err e => here = Err (transport_error_text (TrDecode e)) end.

Context `{!CodecLaws Json RaftRpcEnvelope, !CodecLaws Json RaftRpcReply, !CodecLaws Cbor RpcBody,
  !EncodeTotal Json RaftRpcReply}.

Lemma verify_request_op v e (x : NodeId * RpcBody) : verify_request v e = Ok x → re_op e = RAFT_RPC_OP.
Proof. unfold verify_request. by destruct (decide (re_op e = RAFT_RPC_OP)); [|rewrite bool_decide_eq_true_2]. Qed.

Lemma send_answers c v seed ru seed' body payload (wb wb' : W) outcome :
  linked c v seed ru seed' → call_payload c body = Ok payload →
  rpc_execute body (ru, wb) = (Ok outcome, (ru, wb')) →
  ∃ raw, handle_rpc payload (ru, wb) = (Ok raw, (ru, wb'))
    ∧ ∀ w w', delivers c payload raw w w' → ∃ r, send v c body w = (r, w') ∧ answers outcome r.
Proof.
  intros [[Hl Hl'] [Hi Hi'] (Hc1 & Hc2 & Hc3) (Hid1 & Hid2 & Hid3) [Hk Hk']] Hp Hx.
  assert (encode_request (identity_from_seed seed) (rv_cluster_id (ru_verifier ru)) (nf_local_id (nc_factory c))
            (rv_local_id (ru_verifier ru)) body = Ok payload) as Hreq
    by (unfold call_payload in Hp; congruence).
  destruct (request_round_trip seed (ru_verifier ru) _ body payload Hl Hk' Hreq) as (env & Hdec & Hver).
  set (ok := match outcome with Ok _ => true | Err _ => false end).
  set (out := match outcome with Ok b => b | Err _ => "" end). set (err := match outcome with Ok _ => "" | Err e => e end).
  destruct (encode_total (F := Json) (MkRaftRpcReply RAFT_RPC_OP (rv_cluster_id v) (ru_node_id ru) (rv_local_id v) ok
    (b64url_encode out) err (sign_b64 (identity_from_seed seed') (response_input (rv_cluster_id v) (ru_node_id ru)
       (rv_local_id v) ok out err)))) as [raw Hraw].
  assert (encode_reply (identity_from_seed seed') (rv_cluster_id v) (ru_node_id ru) (rv_local_id v) ok out err = Ok raw)
    as Henc by (unfold encode_reply; by rewrite Hraw).
  exists raw. split.
  - unfold handle_rpc, mbind, ST_bind, st_lift, self. rewrite Hdec. cbn [map_err].
    rewrite bool_decide_eq_false_2 by (apply verify_request_op in Hver; congruence).
    cbn [id fst]. rewrite Hver. cbn [map_err fst snd]. rewrite Hx. unfold signed_reply_payload.
    rewrite Hi', <-Hc2, <-Hid1. subst ok out err. destruct outcome; cbn [map_err]; by rewrite Henc.
  - intros w w' Hdel. destruct (reply_round_trip seed' v (ru_node_id ru) ok out err raw Hl' Hk Henc) as (reply & Hr & Hv).
    exists (map_err transport_error_text (if ok then Ok out else Err (TrDecode err))). split.
    + unfold send, mbind, ST_bind, st_lift, transport_request, st_map_err. unfold call_payload in Hp. rewrite Hp.
      cbn [map_err]. unfold delivers in Hdel. rewrite Hdel. cbn [map_err]. rewrite Hr. cbn [map_err].
      by rewrite Hid2, Hv.
    + by destruct outcome.
Qed.

Lemma net_call_answers {A} `{CO : Codec Cbor A, !CodecLaws Cbor A, !EncodeTotal Cbor A} (m : ST W string A) what
    c v seed ru seed' body payload (wb : W) :
  rpc_execute body = rpc_outcome m → linked c v seed ru seed' → call_payload c body = Ok payload →
  ∃ raw, handle_rpc payload (ru, wb) = (Ok raw, (ru, (m wb).2))
    ∧ ∀ w w', delivers c payload raw w w' →
        ∃ r, net_call (A := A) what body v c w = (r, w') ∧ answers (m wb).1 r.
Proof.
  intros Hm Hlk Hp. destruct (m wb) as [there wb'] eqn:Hrun.
  destruct (send_answers c v seed ru seed' body payload wb wb'
              (match there with Ok resp => encode_to Cbor resp | Err e => Err e end)) as (raw & Hh & Hsend); [done..| |].
  { rewrite Hm. unfold rpc_outcome. by rewrite Hrun. }
  exists raw. split; [done|]. intros w w' (r & Hr & Ha)%Hsend. unfold net_call, mbind, ST_bind, st_lift. rewrite Hr.
  destruct there as [resp|e]; cbn [fst answers] in *.
  - destruct (encode_total (F := Cbor) resp) as [bytes Hb]. rewrite Hb in Ha. cbn in Ha. subst r.
    rewrite (codec_round_trip _ _ Hb). by eexists.
  - subst r. by eexists.
Qed.

Context `{!CodecLaws Cbor VoteResponse, !EncodeTotal Cbor VoteResponse, !CodecLaws Cbor AppendEntriesResponse,
  !EncodeTotal Cbor AppendEntriesResponse, !CodecLaws Cbor InstallSnapshotResponse,
  !EncodeTotal Cbor InstallSnapshotResponse}.

(** C15: a call of the consensus library over the network is a call of the other
    member's library.  For two members that have each other's keys, a vote, an
    append or a snapshot sent by one is run exactly once by the other, whose reply,
    when the network brings it back, is accepted and gives the caller the very
    response the other library computed, or its error. *)
Theorem remote_call_is_local c v seed ru seed' payload (wb : W) :
  linked c v seed ru seed' →
  (∀ req, call_payload c (RpcVote req) = Ok payload →
     ∃ raw, handle_rpc payload (ru, wb) = (Ok raw, (ru, (core_vote req wb).2))
       ∧ ∀ w w', delivers c payload raw w w' →
           ∃ r, net_vote req v c w = (r, w') ∧ answers (core_vote req wb).1 r)
  ∧ (∀ req, call_payload c (RpcAppendEntries req) = Ok payload →
     ∃ raw, handle_rpc payload (ru, wb) = (Ok raw, (ru, (core_append_entries req wb).2))
       ∧ ∀ w w', delivers c payload raw w w' →
           ∃ r, net_append_entries req v c w = (r, w') ∧ answers (core_append_entries req wb).1 r)
  ∧ (∀ req, call_payload c (RpcInstallSnapshot req) = Ok payload →
     ∃ raw, handle_rpc payload (ru, wb) = (Ok raw, (ru, (core_install_snapshot req wb).2))
       ∧ ∀ w w', delivers c payload raw w w' →
           ∃ r, net_install_snapshot req v c w = (r, w') ∧ answers (core_install_snapshot req wb).1 r).
Proof. intros Hlk. split_and!; intros req Hp; by eapply net_call_answers. Qed.
End exchange.

(** ** What the methods of the runtime do to their environment *)

Create HintDb emits.

Section emits.
Context `{CR : Crypto, JE : Codec Json RaftRpcEnvelope, JR : Codec Json RaftRpcReply}.
Context {RT : RaftTypes} `{CB : Codec Cbor RpcBody}.
Context `{SB : Codec Cbor SeedBinding, SE : Codec Cbor SeedEnvelopeSigned, SA : Codec Cbor SeedAckSigned,
  SD : Codec Cbor DropSigned, JD : Codec Json SeedDeliveryRequest, JX : Codec Json SeedDropRequest, JA : Codec Json SeedAck}.
Context {W : Type} `{WC : Clock W, WB : BackendClient W, RC : !RaftCore W, RN : Rng W, TM : Timer W, BG : Background W}.
Context `{EL : !EventLog W}.

(** All the events a method adds satisfy [P]. *)
Definition emits (P : Event → Prop) {E A} (m : ST (Runtime * W) E A) : Prop := ∀ s r s', m s = (r, s') →
  ∃ es, events s'.2 = events s.2 ++ es ∧ Forall P es.
(** No event, whatever [P] is. *)
Definition silent {E A} (m : ST (Runtime * W) E A) : Prop := ∀ s, events (m s).2.2 = events s.2.

Lemma silent_emits P {E A} (m : ST (Runtime * W) E A) : silent m → emits P m.
Proof. intros Hm s r s' Heq. specialize (Hm s). rewrite Heq in Hm. exists []. by rewrite app_nil_r. Qed.
Lemma emits_bind P {E A B} (m : ST (Runtime * W) E A) (f : A → ST (Runtime * W) E B) :
  emits P m → (∀ a, emits P (f a)) → emits P (m ≫= f).
Proof.
  intros Hm Hf s r s' [(a & s1 & H1 & H2)|(e & H1 & ->)]%st_bind_run; [|by eapply Hm].
  apply Hm in H1 as (es1 & He1 & Hp1). apply Hf in H2 as (es2 & He2 & Hp2).
  exists (es1 ++ es2). rewrite He2, He1, app_assoc. split; [done|]. by apply Forall_app.
Qed.
Lemma emits_lift P {E A B} (m : result E A) (f : A → ST (Runtime * W) E B) :
  (∀ a, m = Ok a → emits P (f a)) → emits P (st_lift m ≫= f).
Proof.
  intros Hf s r s' [(a & Ha & H2)|(e & _ & _ & ->)]%st_lift_run; [by eapply Hf|]. exists []. by rewrite app_nil_r.
Qed.
Lemma emits_call P {E A} (m : ST W E A) e : (∀ w, events (m w).2 = events w ++ [e]) → P e → emits P (env_call m).
Proof.
  intros Hm HP [ru w] r s'. unfold env_call. specialize (Hm w). destruct (m w) as [r1 w1]. intros [= <- <-].
  exists [e]. split; [done|by constructor].
Qed.
Lemma silent_bind {E A B} (m : ST (Runtime * W) E A) (f : A → ST (Runtime * W) E B) :
  silent m → (∀ a, silent (f a)) → silent (m ≫= f).
Proof.
  intros Hm Hf s. unfold mbind, ST_bind. specialize (Hm s). destruct (m s) as [[a|e] s1]; [|done]. by rewrite Hf.
Qed.
Lemma silent_ret {E A} (a : A) : silent (E := E) (mret a).
Proof. done. Qed.
Lemma silent_err {E A} (e : E) : silent (A := A) (st_err e).
Proof. done. Qed.
Lemma silent_self {E A} (f : Runtime → A) : silent (E := E) (self f).
Proof. done. Qed.
Lemma silent_lift {E A} (r : result E A) : silent (st_lift r).
Proof. done. Qed.
Lemma silent_ask {E A} (q : W → A * W) : (∀ w, events (q w).2 = events w) → silent (E := E) (env_ask q).
Proof. intros Hq [ru w]. specialize (Hq w). unfold env_ask. by destruct (q w). Qed.
Lemma silent_metrics {E} : silent (E := E) metrics.
Proof. apply silent_ask, metrics_events. Qed.
Lemma silent_random {E} n : silent (E := E) (env_ask (random_bytes n)).
Proof. apply silent_ask. intros w. apply random_events. Qed.
Lemma silent_view {E} : silent (E := E) membership_view.
Proof. apply silent_bind; [apply silent_metrics|done]. Qed.
Lemma silent_node {E} id : silent (E := E) (member_node id).
Proof. apply silent_bind; [apply silent_metrics|done]. Qed.
Lemma silent_leading {E} (b : bool) : silent (E := E) (if b then runtime_is_leader else mret false).
Proof. destruct b; [|done]. apply silent_bind; [apply silent_metrics|done]. Qed.
Lemma silent_refresh {E} : silent (E := E) refresh_verifier_from_metrics.
Proof.
  apply silent_bind; [apply silent_metrics|]. intros m [ru w]. cbv zeta. case_bool_decide; [done|].
  unfold on_verifier. by destruct (replace_nodes _ _).
Qed.
Lemma await_leader_events fuel c d w : events (await_leader fuel c d w).2 = events w.
Proof.
  revert w. induction fuel as [|fuel IH]; intros w; [done|]. cbn [await_leader].
  pose proof (metrics_events w) as Hm. destruct (core_metrics w) as [m w1]. case_match; [done|].
  pose proof (instant_events w1) as Hi. destruct (instant w1) as [now w2]. case_match; [by simpl in *; congruence|].
  rewrite IH, sleep_events. by simpl in *; congruence.
Qed.
Hint Resolve silent_emits silent_bind silent_ret silent_err silent_self silent_lift silent_random silent_view silent_node
  silent_leading silent_refresh : emits.

(** Steps through a method: what is silent, what is decided by the code, and the
    calls that are left. *)
Ltac emits_step := first
  [ solve [auto with emits] | apply emits_lift; intros ? ? | apply emits_bind; [solve [auto with emits]|intros ?]
  | case_match ].
Ltac emits_tac := repeat emits_step.

Lemma emits_request P peer payload : P (EvRequest peer payload) → emits P (service_request peer payload).
Proof.
  intros HP. unfold service_request. emits_tac. eapply emits_call; [|done].
  intros w. unfold transport_request, st_map_err.
  match goal with |- context [client_service_request_to_with_timeout ?c ?s ?p ?b ?t w] =>
    pose proof (request_events c s p b t w) as Hr; destruct (client_service_request_to_with_timeout c s p b t w) end.
  done.
Qed.
Definition any_request (P : Event → Prop) : Prop := ∀ peer payload, P (EvRequest peer payload).

Lemma emits_send_body P target body : any_request P → emits P (send_body target body).
Proof. intros HP. unfold send_body. emits_tac. apply emits_bind; [by apply emits_request|]. intros raw. emits_tac. Qed.
Lemma emits_deliver P seed network target : any_request P → emits P (deliver_seed seed network target).
Proof. intros HP. unfold deliver_seed. emits_tac. apply emits_bind; [by apply emits_request|]. intros raw. emits_tac. Qed.
Lemma emits_drop P target : any_request P → emits P (drop_remote_seed target).
Proof. intros HP. unfold drop_remote_seed. emits_tac. apply emits_bind; [by apply emits_request|]. intros raw. emits_tac. Qed.
Lemma emits_transfer P : any_request P → emits P transfer_leader_away.
Proof.
  intros HP. unfold transfer_leader_away. emits_tac. apply emits_bind; [by apply emits_send_body|]. intros _.
  apply emits_bind; [apply silent_emits, silent_ask, instant_events|]. intros start.
  apply emits_bind; [apply silent_emits, silent_ask; intros; apply await_leader_events|]. intros o. emits_tac.
Qed.

Lemma view_run {E} ru w v s : membership_view (E := E) (ru, w) = (Ok v, s) → s.1 = ru ∧ v = view_of (core_metrics w).1.
Proof.
  unfold membership_view, metrics, env_ask, mbind, ST_bind. destruct (core_metrics w). by intros [= <- <-].
Qed.

(** ** The messages of the seed exchange *)

Lemma service_request_run peer payload ru w r s : service_request peer payload (ru, w) = (r, s) →
  s.1 = ru ∧ events s.2 = events w ++ [EvRequest peer payload].
Proof.
  unfold service_request, self, mbind, ST_bind, env_call, transport_request, st_map_err. cbn [id fst].
  match goal with |- context [client_service_request_to_with_timeout ?c ?s ?p ?b ?t w] =>
    pose proof (request_events c s p b t w) as Hr; destruct (client_service_request_to_with_timeout c s p b t w) end.
  by intros [= <- <-].
Qed.
Lemma member_node_run {E} id ru w r s : member_node (E := E) id (ru, w) = (r, s) →
  s.1 = ru ∧ events s.2 = events w ∧ r = Ok (mb_nodes (mt_membership (core_metrics w).1) !! id).
Proof.
  unfold member_node, metrics, env_ask, mbind, ST_bind. pose proof (metrics_events w). destruct (core_metrics w).
  by intros [= <- <-].
Qed.
Lemma random_run {E} k ru w r s : env_ask (E := E) (random_bytes k) (ru, w) = (r, s) →
  s.1 = ru ∧ events s.2 = events w ∧ ∃ b, r = Ok b.
Proof. unfold env_ask. pose proof (random_events k w). destruct (random_bytes k w). intros [= <- <-]. by eauto. Qed.

(** A message with the seed, sealed for the node [target], and an order to drop it. *)
Definition carries_seed (ru : Runtime) (network : string) (target : NodeId) (seed : string) (e : Event) : Prop :=
  ∃ node r1 r2 envelope payload, e = EvRequest (rn_peer_id node) payload
    ∧ seal_seed r1 r2 (ru_identity ru) (ru_node_id ru) (ru_cluster_id ru) network target node seed = Ok envelope
    ∧ encode_to Json (MkSeedDeliveryRequest SEED_DELIVERY_OP envelope) = Ok payload.
Definition orders_drop (ru : Runtime) (target : NodeId) (e : Event) : Prop :=
  ∃ node request payload, e = EvRequest (rn_peer_id node) payload
    ∧ sign_drop_request (ru_identity ru) (ru_node_id ru) (ru_cluster_id ru) target node = Ok request
    ∧ encode_to Json request = Ok payload.

(** The end of both exchanges: one request, and its receipt is checked. *)
Lemma receipt_run peer payload target ru w r s :
  (raw ← service_request peer payload;
   ack ← st_lift (decode_from Json (A := SeedAck) raw);
   v ← self ru_verifier;
   st_lift (map_err seed_error_text (verify_ack v target ack))) (ru, w) = (r, s) →
  s.1 = ru ∧ events s.2 = events w ++ [EvRequest peer payload]
  ∧ ∀ u, r = Ok u → ∃ ack, verify_ack (ru_verifier ru) target ack = Ok u.
Proof.
  intros [(raw & [ru1 w1] & [Hru He]%service_request_run & H)|(e & [Hru He]%service_request_run & ->)]%st_bind_run;
    cbn [fst snd] in *; [|done]. subst ru1.
  apply st_lift_run in H as [(ack & _ & H)|(e & _ & -> & ->)]; [|done].
  apply st_bind_run in H as [(v & s2 & [= <- <-] & H)|(e & [=] & _)]. injection H as <- <-.
  split_and!; [done..|]. intros u Hu%map_err_Ok. eauto.
Qed.
Lemma deliver_seed_run seed network target ru w r s : deliver_seed seed network target (ru, w) = (r, s) →
  s.1 = ru ∧ ((events s.2 = events w ∧ ∃ e, r = Err e)
    ∨ ∃ seed0 e, seed = Some seed0 ∧ carries_seed ru network target seed0 e ∧ events s.2 = events w ++ [e]
        ∧ ∀ u, r = Ok u → ∃ ack, verify_ack (ru_verifier ru) target ack = Ok u).
Proof.
  unfold deliver_seed.
  intros [(seed0 & Hseed%ok_or_Ok & H)|(e & _ & -> & ->)]%st_lift_run; [|by eauto].
  apply st_bind_run in H as [(o & [ru1 w1] & (Hr1 & He1 & _)%member_node_run & H)|(e & (_ & _ & [=])%member_node_run & _)];
    cbn [fst snd] in *; subst ru1.
  apply st_lift_run in H as [(node & _ & H)|(e & _ & -> & ->)]; [|by eauto].
  apply st_bind_run in H as [(ru2 & s2 & [= <- <-] & H)|(e & [=] & _)]. cbn [id fst] in H.
  apply st_bind_run in H as [(r1 & [ru1 w2] & (Hr2 & He2 & _)%random_run & H)|(e & (_ & _ & b & [=])%random_run & _)];
    cbn [fst snd] in *; subst ru1.
  apply st_bind_run in H as [(r2 & [ru1 w3] & (Hr3 & He3 & _)%random_run & H)|(e & (_ & _ & b & [=])%random_run & _)];
    cbn [fst snd] in *; subst ru1. rewrite He2, He1 in He3.
  apply st_lift_run in H as [(env & Hseal%map_err_Ok & H)|(e & _ & -> & ->)]; [|by eauto].
  apply st_lift_run in H as [(payload & Hp & H)|(e & _ & -> & ->)]; [|by eauto].
  apply receipt_run in H as (Hru & He & Hack). split; [done|]. right. rewrite He3 in He.
  eexists seed0, _. split_and!; [done| |exact He|done]. by exists node, r1, r2, env, payload.
Qed.
Lemma drop_remote_seed_run target ru w r s : drop_remote_seed target (ru, w) = (r, s) →
  s.1 = ru ∧ ((events s.2 = events w ∧ ∃ e, r = Err e)
    ∨ ∃ e, orders_drop ru target e ∧ events s.2 = events w ++ [e]
        ∧ ∀ u, r = Ok u → ∃ ack, verify_ack (ru_verifier ru) target ack = Ok u).
Proof.
  unfold drop_remote_seed.
  intros [(o & [ru1 w1] & (Hr1 & He1 & _)%member_node_run & H)|(e & (_ & _ & [=])%member_node_run & _)]%st_bind_run;
    cbn [fst snd] in *; subst ru1.
  apply st_lift_run in H as [(node & _ & H)|(e & _ & -> & ->)]; [|by eauto].
  apply st_bind_run in H as [(ru2 & s2 & [= <- <-] & H)|(e & [=] & _)]. cbn [id fst] in H.
  apply st_lift_run in H as [(req & Hreq%map_err_Ok & H)|(e & _ & -> & ->)]; [|by eauto].
  apply st_lift_run in H as [(payload & Hp & H)|(e & _ & -> & ->)]; [|by eauto].
  apply receipt_run in H as (Hru & He & Hack). split; [done|]. right. rewrite He1 in He.
  eexists. split_and!; [|exact He|done]. by exists node, req, payload.
Qed.

(** ** Changes of membership *)

Lemma remaining_voters_Ok voters remove S : remaining_voters voters remove = Ok S →
  S ≠ ∅ ∧ S = list_to_set voters ∖ {[remove]}.
Proof.
  unfold remaining_voters. case_bool_decide as Hne; [done|]. intros [= <-]. split; [done|].
  apply set_eq. intros id. rewrite elem_of_list_to_set, list_elem_of_filter, elem_of_difference, elem_of_list_to_set.
  set_solver.
Qed.
Lemma mv_is_voter_set view id : mv_is_voter view id = true ↔ id ∈ voter_set view.
Proof.
  unfold mv_is_voter, voter_set. rewrite existsb_exists, elem_of_list_to_set, list_elem_of_fmap. split.
  - intros (m & Hin%list_elem_of_In & Hid%N.eqb_eq). eauto.
  - intros (m & -> & Hin%list_elem_of_In). exists m. split; [done|]. apply N.eqb_refl.
Qed.

(** What a request to change the member [id] may ask for, given the view it starts
    from: the present voters without [id], or with it, and never none of them. *)
Definition concerns_only (view : MembershipView) (id : NodeId) (e : Event) : Prop :=
  match e with
  | EvVoters X retain => retain = true ∧ X ≠ ∅
      ∧ (id ∈ voter_set view ∧ X = voter_set view ∖ {[id]} ∨ id ∉ voter_set view ∧ X = {[id]} ∪ voter_set view)
  | EvRemove X _ => X = {[id]}
  | EvLearner i _ _ => i = id
  | EvRequest _ _ => True
  | _ => False
  end.

(** A method that starts with a look at the membership. *)
Lemma emits_after_view (P : MembershipView → Event → Prop) {A} (f : MembershipView → ST (Runtime * W) string A) ru w r s :
  (∀ view, emits (P view) (f view)) → (membership_view ≫= f) (ru, w) = (r, s) →
  ∃ es, events s.2 = events w ++ es ∧ Forall (P (view_of (core_metrics w).1)) es.
Proof.
  intros Hf. unfold mbind at 1, ST_bind at 1, membership_view, metrics, env_ask, mbind at 1, ST_bind at 1.
  pose proof (metrics_events w) as Hm. destruct (core_metrics w) as [m w1]. simpl in Hm.
  intros (es & He & Hp)%Hf. exists es. by rewrite He; simpl; rewrite Hm.
Qed.

Ltac change_tac := repeat first
  [ solve [apply emits_transfer; intros ? ?; exact I] | emits_step
  | eapply emits_call; [intros; apply add_learner_events|done]
  | eapply emits_call; [intros; apply change_voters_events|]
  | eapply emits_call; [intros; apply remove_nodes_events|done]
  | apply emits_bind; [|intros ?] ].

Lemma remaining_concerns view id S b : mv_is_voter view id = true →
  remaining_voters (mi_node_id <$> mv_voters view) id = Ok S → b = true → concerns_only view id (EvVoters S b).
Proof.
  intros Hv%mv_is_voter_set [Hne ->]%remaining_voters_Ok ->. simpl. split_and!; [done..|]. by left.
Qed.
Lemma promotion_concerns view id : mv_is_voter view id = false →
  concerns_only view id (EvVoters ({[id]} ∪ voter_set view) true).
Proof.
  intros Hv. simpl. split_and!; [done|set_solver|]. right. split; [|done]. rewrite <-mv_is_voter_set. by rewrite Hv.
Qed.

(** The changes of one member, without the messages. *)
Definition changes (id : NodeId) (e : Event) : Prop :=
  match e with
  | EvLearner i _ _ => i = id
  | EvVoters _ _ => True
  | EvRemove X _ => X = {[id]}
  | _ => False
  end.
Lemma promote_voter_changes id : emits (changes id) (promote_voter id).
Proof. unfold promote_voter. change_tac. done. Qed.
Lemma remove_member_changes id ru w r s : id ≠ ru_node_id ru → remove_member id (ru, w) = (r, s) →
  ∃ es, events s.2 = events w ++ es ∧ Forall (changes id) es.
Proof.
  intros Hid H. unfold remove_member in H. apply st_bind_run in H as [(view & s1 & Hv & H)|(e & Hv & ->)].
  2:{ unfold membership_view, metrics, env_ask, mbind, ST_bind in Hv. by destruct (core_metrics w). }
  pose proof (silent_view (E := string) (ru, w)) as Hs. rewrite Hv in Hs. apply view_run in Hv as [Hru _].
  cbn [snd] in Hs. rewrite <-Hs. case_match.
  { injection H as <- <-. exists []. by rewrite app_nil_r. }
  apply st_bind_run in H as [(me & s2 & [= <- <-] & H)|(e & [=] & _)]. rewrite Hru in H.
  rewrite (proj2 (N.eqb_neq _ _) Hid) in H.
  apply st_bind_run in H as [(b & s2 & [= <- <-] & H)|(e & [=] & _)].
  apply st_bind_run in H as [(u & s2 & [= <- <-] & H)|(e & [=] & _)]. revert H.
  match goal with |- ?m s1 = _ → _ => assert (emits (changes id) m) as Hm end; [|apply Hm].
  change_tac; done.
Qed.

(** Only the table of keys of a runtime ever changes. *)
Definition keeps_identity {E A} (m : ST (Runtime * W) E A) : Prop := ∀ s r s', m s = (r, s') →
  ∃ v, s'.1 = set_verifier s.1 v.
Lemma keeps_same {E A} (m : ST (Runtime * W) E A) : (∀ s, (m s).2.1 = s.1) → keeps_identity m.
Proof.
  intros Hm s r s' Heq. specialize (Hm s). rewrite Heq in Hm. cbn in Hm. exists (ru_verifier s.1). rewrite Hm.
  by destruct s as [[] ?].
Qed.
Lemma keeps_bind {E A B} (m : ST (Runtime * W) E A) (f : A → ST (Runtime * W) E B) :
  keeps_identity m → (∀ a, keeps_identity (f a)) → keeps_identity (m ≫= f).
Proof.
  intros Hm Hf s r s' [(a & s1 & [v1 H1]%Hm & [v2 H2]%Hf)|(e & H1 & ->)]%st_bind_run; [|by eapply Hm].
  exists v2. by rewrite H2, H1.
Qed.
Lemma keeps_ask {E A} (q : W → A * W) : keeps_identity (E := E) (env_ask q).
Proof. apply keeps_same. intros [ru w]. unfold env_ask. by destruct (q w). Qed.
Lemma keeps_call {E A} (m : ST W E A) : keeps_identity (env_call m).
Proof. apply keeps_same. intros [ru w]. unfold env_call. by destruct (m w). Qed.
Lemma keeps_refresh {E} : keeps_identity (E := E) refresh_verifier_from_metrics.
Proof.
  apply keeps_bind; [apply keeps_ask|]. intros m [ru w] r s'. cbv zeta. case_bool_decide.
  - intros [= <- <-]. exists (ru_verifier ru). by destruct ru.
  - unfold on_verifier. destruct (replace_nodes _ _) as [x v]. intros [= <- <-]. by exists v.
Qed.
Lemma keeps_view {E} : keeps_identity (E := E) membership_view.
Proof. apply keeps_bind; [apply keeps_ask|]. intros m. by apply keeps_same. Qed.
Hint Resolve keeps_view keeps_refresh keeps_call keeps_ask keeps_same : emits.
Lemma promote_voter_keeps id : keeps_identity (promote_voter id).
Proof.
  unfold promote_voter. repeat first [solve [auto with emits] | case_match | apply keeps_bind; [solve [auto with emits]|intros ?]].
Qed.

(** C10: one member at a time, and never the last voter.  Whatever the consensus
    library and the network answer, adding, promoting, demoting or removing the
    member [id] asks only for changes of [id]: a set of voters asked for is the set
    seen at the start with [id] added or taken out, is not empty, and keeps the
    former voter as a learner; only [id] is added as a learner or removed. *)
Theorem one_member_at_a_time id node ru w :
  let view := view_of (core_metrics w).1 in
  let safe {A} (m : ST (Runtime * W) string A) := ∀ r s, m (ru, w) = (r, s) →
    ∃ es, events s.2 = events w ++ es ∧ Forall (concerns_only view id) es in
  safe (add_learner_node id node) ∧ safe (promote_voter id) ∧ safe (demote_voter id) ∧ safe (remove_member id).
Proof.
  intros view safe. subst view safe.
  split_and!; intros r s; apply (emits_after_view (λ view, concerns_only view id)); intros view'.
  - change_tac.
  - change_tac. by apply promotion_concerns.
  - change_tac; bool_tests; by apply remaining_concerns.
  - change_tac; bool_tests; by apply remaining_concerns.
Qed.
End emits.

(** ** The table of keys follows the membership *)

Section verifier.
Context `{CR : Crypto, JE : Codec Json RaftRpcEnvelope, JR : Codec Json RaftRpcReply}.
Context {RT : RaftTypes} `{CB : Codec Cbor RpcBody}.
Context {W : Type} `{WC : Clock W, WB : BackendClient W, RC : !RaftCore W, RN : Rng W, TM : Timer W}.

Lemma parse_nodes_Ok nodes acc m : NoDup nodes.*1 → parse_nodes nodes acc = Ok m →
  (∀ id key, (id, key) ∈ nodes → ∃ k, parse_verifying_key key = Ok k ∧ m !! id = Some k)
  ∧ ∀ id, id ∉ nodes.*1 → m !! id = acc !! id.
Proof.
  revert acc. induction nodes as [|[id key] nodes IH]; intros acc; cbn [parse_nodes].
  { intros _ [= <-]. split; [set_solver|done]. }
  intros [Hid Hnd]%NoDup_cons (k & Hk & Hrest)%bind_Ok. destruct (IH _ Hnd Hrest) as [Hin Hout]. split.
  - intros id' key' [[= -> ->]|Hi]%elem_of_cons; [|by apply Hin]. exists k. split; [done|].
    by rewrite Hout, lookup_insert_eq.
  - intros id' [Hne Hni]%not_elem_of_cons. by rewrite Hout, lookup_insert_ne.
Qed.
Lemma parse_nodes_Err nodes acc e : parse_nodes nodes acc = Err e →
  ∃ id key, (id, key) ∈ nodes ∧ parse_verifying_key key = Err e.
Proof.
  revert acc. induction nodes as [|[id key] nodes IH]; intros acc; cbn [parse_nodes]; [done|].
  destruct (parse_verifying_key key) as [k|e'] eqn:Hk; cbn.
  - intros (id' & key' & Hin & Hp)%IH. exists id', key'. split; [by right|done].
  - intros [= <-]. exists id, key. split; [by left|done].
Qed.

(** The keys of a membership, all of them readable. *)
Definition keys_of (nodes : gmap NodeId RaftNode) (keys : gmap NodeId string) : Prop :=
  ∀ id, match nodes !! id with
        | Some node => ∃ k, parse_verifying_key (rn_identity_key node) = Ok k ∧ keys !! id = Some k
        | None => keys !! id = None
        end.

Lemma member_keys_fst m : (member_keys m).*1 = ord_keys N.le (mb_nodes m).
Proof.
  unfold member_keys. rewrite <-list_fmap_compose, <-(ord_entries_fst N.le). by apply list_fmap_ext.
Qed.
Lemma elem_of_member_keys m id key :
  (id, key) ∈ member_keys m ↔ ∃ node, mb_nodes m !! id = Some node ∧ rn_identity_key node = key.
Proof.
  unfold member_keys, membership_entries. rewrite list_elem_of_fmap. split.
  - intros ([id' node] & [= -> ->] & Hin%elem_of_ord_entries). eauto.
  - intros (node & Hn & <-). exists (id, node). by rewrite elem_of_ord_entries.
Qed.

(** A refresh sets the table to the keys of the membership it saw, or leaves it when
    there is no member or a key is unreadable. *)
Lemma refresh_spec {E} ru w r ru' w' : refresh_verifier_from_metrics (E := E) (ru, w) = (r, (ru', w')) →
  r = Ok () ∧ w' = (core_metrics w).2 ∧
  let nodes := mb_nodes (mt_membership (core_metrics w).1) in
  (∃ keys, ru' = set_verifier ru (set_keys (ru_verifier ru) keys) ∧ keys_of nodes keys)
  ∨ ru' = ru ∧ (nodes = ∅ ∨ ∃ id node e, nodes !! id = Some node ∧ parse_verifying_key (rn_identity_key node) = Err e).
Proof.
  unfold refresh_verifier_from_metrics, metrics, env_ask, mbind, ST_bind. destruct (core_metrics w) as [m w1]. cbn zeta.
  case_bool_decide as Hnil; cbn [fst snd].
  { intros [= <- <- <-]. split_and!; [done..|]. right. split; [done|]. left.
    apply map_eq. intros id. rewrite lookup_empty. apply eq_None_not_Some.
    rewrite <-(elem_of_ord_keys N.le), <-member_keys_fst, Hnil. set_solver. }
  unfold on_verifier, replace_nodes. destruct (parse_nodes _ ∅) as [keys|e] eqn:Hp; intros [= <- <- <-];
    (split_and!; [done..|]).
  - left. exists keys. split; [done|]. apply parse_nodes_Ok in Hp as [Hin Hout];
      [|rewrite member_keys_fst; apply NoDup_ord_elements].
    intros id. destruct (mb_nodes _ !! id) as [node|] eqn:Hn.
    + destruct (Hin id (rn_identity_key node)) as (k & ? & ?); [rewrite elem_of_member_keys; eauto|]. eauto.
    + rewrite Hout; [done|]. rewrite member_keys_fst, elem_of_ord_keys, Hn. by intros [].
  - right. split; [by destruct ru as [? [] ? ? ? ? ? ? ?]|]. right.
    apply parse_nodes_Err in Hp as (id & key & (node & ? & <-)%elem_of_member_keys & ?). eauto.
Qed.

(** The last step of a change of membership is a refresh. *)
Lemma remove_ends_in_refresh id s s' : remove_member id s = (Ok (), s') →
  ∃ s1, refresh_verifier_from_metrics (E := string) s1 = (Ok (), s').
Proof. unfold remove_member. intros Hrun. st_inv. case_match; [done|]. st_inv. eauto. Qed.


(** ** A node that should leave itself *)

(** A node that has just reported not to lead refuses to change the voters: the
    library wants the request at the leader. *)
Definition followers_refuse : Prop := ∀ w m w1, core_metrics w = (m, w1) → mt_state m ≠ StLeader →
  ∀ voters retain, ∃ e w2, core_change_voters voters retain w1 = (Err e, w2).
Definition not_leading (w1 : W) : Prop := ∃ w m, core_metrics w = (m, w1) ∧ mt_state m ≠ StLeader.

Lemma await_leader_not_leading fuel c d w w1 : await_leader fuel c d w = (Some (Ok ()), w1) → not_leading w1.
Proof.
  revert w. induction fuel as [|fuel IH]; intros w; cbn [await_leader]; [done|].
  destruct (core_metrics w) as [m w2] eqn:Hm. case_match.
  - intros [= <-]. bool_tests. unfold not_leading. eauto.
  - destruct (instant w2). case_match; [done|]. apply IH.
Qed.
Lemma transfer_not_leading s s' : transfer_leader_away s = (Ok (), s') → not_leading s'.2.
Proof.
  intros H. unfold transfer_leader_away in H. do 5 (apply st_bind_Ok in H as (? & [? ?] & _ & H)).
  apply st_bind_Ok in H as (o & s1 & Ho & H). unfold st_lift in H. injection H as Hr <-. unfold env_ask in Ho.
  destruct (await_leader _ _ _ _) as [o' wl] eqn:Ha. injection Ho as -> <-.
  destruct o as [[[]|]|]; [|discriminate Hr..]. exact (await_leader_not_leading _ _ _ _ _ Ha).
Qed.
Lemma leading_checked {E} s b s' : runtime_is_leader (E := E) s = (Ok b, s') → b = false → not_leading s'.2.
Proof.
  unfold runtime_is_leader, metrics, env_ask, mbind, ST_bind. destruct s as [ru w].
  destruct (core_metrics w) as [m w1] eqn:Hm. intros [= <- <-] Hb%bool_decide_eq_false. unfold not_leading. eauto.
Qed.

(** The check and the transfer before a node changes its own membership: when both
    are done the node does not lead. *)
Lemma step_down {E} s b s1 (u : unit) s2 : runtime_is_leader (E := E) s = (Ok b, s1) →
  (if b : bool then transfer_leader_away else mret ()) s1 = (Ok u, s2) → not_leading s2.2.
Proof.
  intros Hb H. destruct b, u; [by eapply transfer_not_leading|]. injection H as <-. by eapply leading_checked.
Qed.
Lemma refused_change voters retain s r s' :
  followers_refuse → not_leading s.2 → env_call (core_change_voters voters retain) s = (r, s') → ∃ e, r = Err e.
Proof.
  intros Hf (w & m & Hm & Hs). destruct s as [ru w1]. unfold env_call. cbn [snd] in Hm.
  destruct (Hf _ _ _ Hm Hs voters retain) as (e & w2 & ->). intros [= <- _]. eauto.
Qed.

(** A node never demotes or removes itself as a voter.  [demote_voter] and
    [remove_member] of the node's own id first give the leadership away and then
    change the voters on the node that has just stopped leading, where the library
    refuses: the answer is always an error, so the branches that drop the node's own
    seed after its demotion or removal are never taken. *)
Theorem own_vote_not_given_up ru w :
  followers_refuse →
  (∃ e, (demote_voter (ru_node_id ru) (ru, w)).1 = Err e)
  ∧ (mv_is_voter (view_of (core_metrics w).1) (ru_node_id ru) = true →
     ∃ e, (remove_member (ru_node_id ru) (ru, w)).1 = Err e).
Proof.
  intros Hf. split.
  - destruct (demote_voter (ru_node_id ru) (ru, w)) as [[[]|e] s'] eqn:H; [exfalso|by eauto].
    unfold demote_voter in H. apply st_bind_Ok in H as (view & s1 & [Hs1 _]%view_run & H). case_match; [done|].
    apply st_bind_Ok in H as (rest & s2 & [= _ <-] & H). apply st_bind_Ok in H as (me & s3 & [= <- <-] & H).
    rewrite Hs1, N.eqb_refl in H. apply st_bind_Ok in H as (b & s4 & Hb & H).
    apply st_bind_Ok in H as (u & s5 & Hu & H). apply st_bind_Ok in H as (u' & s6 & Hc & _).
    by destruct (refused_change _ _ _ _ _ Hf (step_down _ _ _ _ _ Hb Hu) Hc).
  - intros Hv. destruct (remove_member (ru_node_id ru) (ru, w)) as [[[]|e] s'] eqn:H; [exfalso|by eauto].
    unfold remove_member in H. apply st_bind_Ok in H as (view & s1 & [Hs1 ->]%view_run & H). case_match; [done|].
    apply st_bind_Ok in H as (me & s3 & [= <- <-] & H). rewrite Hs1, N.eqb_refl, Hv in H.
    apply st_bind_Ok in H as (b & s4 & Hb & H). apply st_bind_Ok in H as (u & s5 & Hu & H).
    apply st_bind_Ok in H as (u' & s6 & Hc & _). apply st_bind_Ok in Hc as (rest & s7 & [= _ <-] & Hc).
    by destruct (refused_change _ _ _ _ _ Hf (step_down _ _ _ _ _ Hb Hu) Hc).
Qed.
End verifier.
