(* ===== verification/SidecarProps.v ===== *)
(** * Properties of the whole sidecar

    The handlers with the runtime behind them: which commands a sidecar proposes,
    and how the authority seed and the right to vote go together. *)
From S2P Require Import Prelude Fsutil Crypto Authority Replay Store Types StateMachine RaftStorage Transport AdminV2.
From S2P Require Import Config Join Seed Protocol Admin Replicate PasswordJoin Context Publisher Sync Service ServiceProps.
From S2P Require Import Runtime Members RuntimeProps.

Section sidecar_props.
Context `{CR : Crypto, CO : Coset, CI : Codec Cbor IndexDoc, CW : Codec Cbor WhitelistDoc,
  CT : Codec Toml StoreSnapshot, CS : Codec Cbor StoreSnapshot, CM : Codec Json MacInput,
  CAS : Codec Cbor AdminSigned, CAI : Codec Cbor AdminIdentity, CTS : Codec Cbor JoinTokenSigned,
  CJS : Codec Cbor JoinSigned, CJC : Codec Cbor JoinSecret}.
Context `{JV : Codec Json json, JF : Codec Json ForwardedAdminEnvelope, JQ : Codec Json RaftJoinRequest,
  JP : Codec Json RaftJoinResponse, JE : Codec Json RaftRpcEnvelope, JR : Codec Json RaftRpcReply}.
Context {RT : RaftTypes} `{CB : Codec Cbor RpcBody, CV : Codec Cbor VoteResponse, CA : Codec Cbor AppendEntriesResponse,
  CN : Codec Cbor InstallSnapshotResponse}.
Context `{SB : Codec Cbor SeedBinding, SE : Codec Cbor SeedEnvelopeSigned, SA : Codec Cbor SeedAckSigned,
  SD : Codec Cbor DropSigned, JD : Codec Json SeedDeliveryRequest, JX : Codec Json SeedDropRequest, JA : Codec Json SeedAck}.
Context `{FM : FromValue ManagementRequest, FA : FromValue AdminRequestV2, FR : FromValue ReplicateMsg,
  FS : FromValue SyncRequest, FJ : FromValue RaftJoinRequest, FP : FromValue JoinRequest,
  FD : FromValue SeedDeliveryRequest, FX : FromValue SeedDropRequest}.
Context `{TP : ToValue SyncResponse, TJ : ToValue JoinResponse, TT : ToValue JoinToken}.
Context {W : Type} `{WC : Clock W, WB : BackendClient W, RC : !RaftCore W, RN : Rng W, TM : Timer W, BG : Background W}.
Context `{EL : !EventLog W}.

(** ** The commands proposed *)

Definition written (e : Event) : option PolicyCommand := match e with EvWrite c => Some c | _ => None end.
Definition writes (s : Sidecar W) : list PolicyCommand := omap written (events (sc_env s)).

Lemma writes_same (w w' : W) : events w' = events w → omap written (events w') = omap written (events w).
Proof. by intros ->. Qed.
(** A method that writes nothing to the log. *)
Lemma no_writes {E A} (m : ST (Runtime * W) E A) s r s' : emits (λ e, written e = None) m → m s = (r, s') →
  omap written (events s'.2) = omap written (events s.2).
Proof.
  intros Hm (es & -> & Hes)%Hm. rewrite omap_app.
  assert (omap written es = []) as ->; [|by rewrite app_nil_r].
  induction Hes as [|e es He _ IH]; [done|]. cbn. by rewrite He.
Qed.
Lemma sc_run_writes {E A} (absent : result E A) (m : ST (Runtime * W) E A) s : emits (λ e, written e = None) m →
  writes (sc_run absent m s).2 = writes s.
Proof.
  intros Hm. unfold sc_run, writes. destruct (sc_runtime s) as [ru|]; [|done].
  destruct (m (ru, sc_env s)) as [r [ru' w']] eqn:Hrun. by apply (no_writes _ _ _ _ Hm) in Hrun.
Qed.
Lemma sc_query_writes {A} (absent : A) (m : ST (Runtime * W) Empty_set A) s : silent m →
  writes (sc_query absent m s).2 = writes s.
Proof.
  intros Hm. unfold sc_query. pose proof (sc_run_writes (Ok absent) m s (silent_emits _ _ Hm)) as Hs.
  by destruct (sc_run _ m s) as [[a|[]] s'].
Qed.
Lemma sc_ask_writes {A} (q : W → A * W) s : (∀ w, events (q w).2 = events w) → writes (sc_ask q s).2 = writes s.
Proof. intros Hq. unfold sc_ask, writes. specialize (Hq (sc_env s)). destruct (q _). by cbn in *; rewrite Hq. Qed.
Lemma sc_call_writes {E A} (m : ST W E A) s :
  (∀ w, omap written (events (m w).2) = omap written (events w)) → writes (sc_call m s).2 = writes s.
Proof. intros Hq. unfold sc_call, writes. specialize (Hq (sc_env s)). by destruct (m _). Qed.

Lemma silent_after_metrics {E A} (f : Metrics → A) : silent (W := W) (E := E) (m ← metrics; mret (f m)).
Proof. apply silent_bind; [apply silent_metrics|done]. Qed.

Lemma add_learner_node_writes id node : emits (W := W) (λ e, written e = None) (add_learner_node id node).
Proof.
  unfold add_learner_node. apply emits_bind; [apply silent_emits, silent_view|]. intros view.
  repeat (case_match; [by apply silent_emits|]).
  apply emits_bind; [eapply emits_call; [intros; apply add_learner_events|done]|]. intros _.
  apply silent_emits, silent_bind; [apply silent_refresh|done].
Qed.

Global Instance sidecar_log : RaftLog (Sidecar W).
Proof.
  refine {| raft_log := writes |}.
  - intros c s. cbn. unfold sc_run, writes. destruct (sc_runtime s) as [ru|]; [|by left]. right.
    unfold runtime_propose, env_call, mbind, ST_bind. pose proof (client_write_events c (sc_env s)) as He.
    destruct (core_client_write c (sc_env s)) as [[x|e] w']; cbn in He |- *; by rewrite He, omap_app.
  - intros s. apply sc_ask_writes, now_events.
  - intros s. apply sc_query_writes, silent_after_metrics.
  - intros s. apply sc_query_writes, silent_after_metrics.
  - intros s. apply sc_query_writes, silent_after_metrics.
  - intros s. by apply sc_query_writes.
  - intros s. by apply sc_query_writes.
  - intros s. apply sc_query_writes, silent_after_metrics.
  - intros c k v p s. apply sc_call_writes. intros w. apply writes_same, add_key_events.
  - intros c s. apply sc_call_writes. intros w. apply writes_same, whoami_events.
  - intros c sv p b t s. apply sc_call_writes. intros w. rewrite request_events, omap_app. cbn. by rewrite app_nil_r.
  - intros c k s. apply sc_call_writes. intros w. apply writes_same, query_key_events.
  - intros s. apply sc_query_writes, silent_view.
  - intros s. apply sc_query_writes, silent_after_metrics.
  - intros s. apply sc_query_writes. apply silent_bind; [apply silent_metrics|]. intros m. by apply silent_bind.
  - intros i nd s. apply sc_run_writes, add_learner_node_writes.
Defined.

Lemma handle_rpc_writes payload : emits (W := W) (λ e, written e = None) (Runtime.handle_rpc payload).
Proof.
  unfold Runtime.handle_rpc. apply emits_lift. intros env _. case_match; [by apply silent_emits|].
  apply emits_bind; [by apply silent_emits|]. intros ru. apply emits_lift. intros [from body] _.
  apply emits_bind.
  - intros [ru' w] r s' [_ He]%rpc_execute_events. exists [EvRpc body]. split; [done|by constructor].
  - intros out. by destruct out; apply silent_emits.
Qed.

(** The handlers of this node's part propose nothing. *)
Definition same_writes (s s' : Sidecar W) : Prop := raft_log s' = raft_log s.
#[local] Instance same_writes_preorder : PreOrder same_writes.
Proof. split; [done|]. intros s1 s2 s3 H1 H2. by unfold same_writes in *; rewrite H2. Qed.

Lemma respects_fs {E A} (R : relation (Sidecar W)) `{!PreOrder R} (m : ST Fs E A) : respects R (on_fs m).
Proof. apply respects_same; [apply _|]. intros n. unfold on_fs. by destruct (m _). Qed.
Lemma respects_runtime {A} (m : ST (Runtime * W) string A) : emits (λ e, written e = None) m →
  respects same_writes (rt_call m).
Proof. intros Hm. apply respects_call. intros s. by apply sc_run_writes. Qed.
Lemma the_runtime_writes : respects same_writes (W := Sidecar W) the_runtime.
Proof. by apply respects_same; [apply _|]. Qed.

Ltac same_step := first
  [ apply respects_bind; [apply _| |intros ?] | apply respects_ret, _ | apply respects_err, _ | apply respects_lift, _
  | apply respects_ctx_get, _ | apply respects_map_err | apply respects_fs, _ | apply the_runtime_writes
  | solve [apply respects_runtime, silent_emits; first [apply silent_after_metrics | done]]
  | apply respects_same; [apply _|done] ].

Lemma sidecar_rpc_proposes_nothing payload : proposes_nothing (sidecar_rpc payload).
Proof. apply respects_call. intros s. apply sc_run_writes, handle_rpc_writes. Qed.
Lemma acknowledge_writes to m : respects same_writes m → respects same_writes (acknowledge to m).
Proof.
  intros Hm n r n'. unfold acknowledge. destruct (m n) as [res n1] eqn:H1. intros H2. etrans; [by eapply Hm|].
  revert H2. repeat same_step.
Qed.
Lemma seed_delivery_proposes_nothing value : proposes_nothing (handle_seed_delivery value).
Proof.
  unfold handle_seed_delivery. do 2 (apply respects_bind; [apply _|repeat same_step|intros ?]).
  apply acknowledge_writes. unfold accept_seed. repeat same_step.
Qed.
Lemma seed_drop_proposes_nothing value : proposes_nothing (handle_seed_drop value).
Proof.
  unfold handle_seed_drop. do 2 (apply respects_bind; [apply _|repeat same_step|intros ?]).
  apply acknowledge_writes. unfold accept_seed_drop, drop_local_seed. repeat same_step.
Qed.

(** C7: in cluster mode every command a sidecar proposes has been authorised.
    Whatever request arrives, from an administrator, another member, a forwarding
    sidecar or a node that wants to join, and whatever the consensus library and the
    network answer, each command proposed while it is handled is a renewal of the
    index; or the command asked for by a request which a configured root key has
    signed, proposed under the id, the time and the hash of that request; or the use
    of a join token signed by a root key, for the node whose id is derived from the
    joining peer. *)
Theorem cluster_commands_authorised payload client forwarder (n n' : Node (Sidecar W)) r :
  ctx_raft_required (nd_ctx n) = true →
  sidecar_request payload client forwarder n = (r, n') →
  ∃ cs, writes (nd_world n') = writes (nd_world n) ++ cs
    ∧ Forall (authorised (ctx_admin_keys (nd_ctx n))) cs.
Proof.
  intros Hraft. exact (handled_commands_authorised (RL := sidecar_log) _ _ _ _ _ payload client forwarder n n' r Hraft
    sidecar_rpc_proposes_nothing seed_delivery_proposes_nothing seed_drop_proposes_nothing).
Qed.

(** ** Custody of the authority key *)

(** The key in memory is the one in the file; without one there is no file. *)
Definition key_custody (n : Node (Sidecar W)) : Prop :=
  let key := fs_files (nd_fs n) !! ctx_authority_key_path (nd_ctx n) in
  match ctx_authority (nd_ctx n) with
  | Some a => f_data <$> key = Some (signing_key a)
  | None => key = None
  end.
(** A step that leaves context and files alone, and the runtime in its place. *)
Definition same_node (n n' : Node (Sidecar W)) : Prop :=
  nd_ctx n' = nd_ctx n ∧ nd_fs n' = nd_fs n ∧ sc_runtime (nd_world n') = sc_runtime (nd_world n).

Lemma leader_id_run (n n1 : Node (Sidecar W)) r : rt_call runtime_leader_id n = (r, n1) →
  same_node n n1 ∧ ∀ leader, r = Ok leader → ∃ w, leader = mt_current_leader (core_metrics w).1.
Proof.
  unfold rt_call, on_runtime, call, sc_run. destruct n as [c fs [[ru|] w]]; cbn.
  - unfold runtime_leader_id, metrics, env_ask, mbind, ST_bind. destruct (core_metrics w) as [m w1] eqn:Hm.
    intros [= <- <-]. split; [done|]. intros leader [= <-]. exists w. by rewrite Hm.
  - by intros [= <- <-].
Qed.
Lemma self_run (n n1 : Node (Sidecar W)) r : rt_call (self id) n = (r, n1) →
  same_node n n1 ∧ ∀ ru, r = Ok ru → sc_runtime (nd_world n) = Some ru.
Proof.
  unfold rt_call, on_runtime, call, sc_run. destruct n as [c fs [[ru|] w]]; cbn; intros [= <- <-]; [|done].
  split; [done|]. by intros ru' [= ->].
Qed.
Lemma same_node_trans n1 n2 n3 : same_node n1 n2 → same_node n2 n3 → same_node n1 n3.
Proof. intros (? & ? & ?) (? & ? & ?). unfold same_node. by split_and!; etrans. Qed.
Lemma custody_same n n' : same_node n n' → key_custody n → key_custody n'.
Proof. intros (Hc & Hf & _). unfold key_custody. by rewrite Hc, Hf. Qed.

Lemma acknowledge_run to m n r n' : acknowledge to m n = (r, n') → ∃ res n1, m n = (res, n1) ∧ same_node n1 n'.
Proof.
  unfold acknowledge. destruct (m n) as [res n1]. intros Hrun. exists res, n1. split; [done|].
  apply st_bind_run in Hrun as [(ru & n2 & [= _ <-] & Hrun)|(e & [= _ <-] & _)]; [|done].
  apply st_lift_run in Hrun as [(ack & _ & [= _ <-])|(e & _ & _ & ->)]; done.
Qed.

(** An envelope for this node from the member that leads, as far as it is known. *)
Definition delivered (ru : Runtime) (network : string) (leader : option NodeId) (e : SeedEnvelope) : Prop :=
  sg_cluster_id (env_body e) = ru_cluster_id ru ∧ sg_network (env_body e) = network
  ∧ sg_node_id (env_body e) = ru_node_id ru ∧ sg_peer_id (env_body e) = ru_peer_id ru
  ∧ (∀ l, leader = Some l → sg_from_node (env_body e) = l)
  ∧ ∃ key bytes sig, rv_keys (ru_verifier ru) !! sg_from_node (env_body e) = Some key
      ∧ envelope_signing_bytes e = Ok bytes ∧ ed_verify key bytes sig = true.

Lemma accept_seed_run `{!EncodeInj Cbor SeedEnvelopeSigned} e n r n' :
  let p := ctx_authority_key_path (nd_ctx n) in
  with_extension p "tmp" ≠ p → key_custody n → accept_seed e n = (r, n') →
  key_custody n'
  ∧ (nd_ctx n' = nd_ctx n
     ∨ ∃ ru w a, sc_runtime (nd_world n) = Some ru ∧ nd_ctx n' = install_authority a (nd_ctx n)
         ∧ open_seed (ru_x25519 ru) (ru_verifier ru) (ru_node_id ru) (ru_peer_id ru)
             (ik_public_key_b64 (ru_identity ru)) (ru_cluster_id ru) (ctx_network (nd_ctx n))
             (mt_current_leader (core_metrics w).1) e = Ok (signing_key a)).
Proof.
  intros p Hp Hcust. unfold accept_seed.
  intros [(leader & n1 & [Hs1 Hl]%leader_id_run & Hrun)|(x & [Hs1 _]%leader_id_run & ->)]%st_bind_run.
  2:{ split; [by eapply custody_same|left; apply Hs1]. }
  destruct (Hl _ eq_refl) as [w ->].
  apply st_bind_run in Hrun as [(ru & n2 & [Hs2 Hru]%self_run & Hrun)|(x & [Hs2 _]%self_run & ->)];
    pose proof (same_node_trans _ _ _ Hs1 Hs2) as (Hc & Hf & Hr).
  2:{ split; [by apply (custody_same n)|by left]. }
  specialize (Hru _ eq_refl). destruct Hs1 as (_ & _ & Hr1). rewrite Hr1 in Hru.
  apply st_bind_run in Hrun as [(c & n3 & [= <- <-] & Hrun)|(x & [=] & _)]. cbn [id] in Hrun. rewrite Hc in Hrun.
  apply st_lift_run in Hrun as [(seed & Ho%map_err_Ok & Hrun)|(x & _ & -> & ->)].
  2:{ split; [by apply (custody_same n)|by left]. }
  apply st_lift_run in Hrun as [(a & Ha%map_err_Ok & Hrun)|(x & _ & -> & ->)].
  2:{ split; [by apply (custody_same n)|by left]. }
  assert (signing_key a = seed) as Hseed by (unfold from_seed in Ha; destruct (negb _); by simplify_eq).
  pose proof (atomic_write_spec p seed (Some 384%N) (nd_fs n) Hp) as Hw.
  unfold mbind, ST_bind, st_map_err, on_fs, write_seed_file in Hrun. rewrite Hf in Hrun. fold p in Hrun.
  unfold st_map_err in Hrun. destruct (atomic_write p seed (Some 384%N) (nd_fs n)) as [[[]|x] fs'];
    destruct Hw as [_ Hw]; cbn in Hrun.
  - injection Hrun as <- <-. destruct Hw as (m & Hw & _). split.
    + unfold key_custody. cbn. rewrite Hc. fold p. by rewrite Hw, Hseed.
    + right. exists ru, w, a. cbn. rewrite Hc, Hseed. by split_and!.
  - injection Hrun as <- <-. split; [|left; exact Hc]. revert Hcust. unfold key_custody. cbn. rewrite Hc. fold p.
    by rewrite Hw.
Qed.

Lemma drop_local_seed_run n r n' : honest_faults (nd_fs n) → key_custody n → drop_local_seed n = (r, n') →
  key_custody n'
  ∧ match r with Ok _ => nd_ctx n' = clear_authority (nd_ctx n) | Err _ => nd_ctx n' = nd_ctx n end.
Proof.
  intros Hh Hcust. unfold drop_local_seed, mbind, ST_bind, ctx_get, on_fs, remove_seed_file. cbn [id].
  pose proof (fs_remove_files (ctx_authority_key_path (nd_ctx n)) (nd_fs n)) as Hrm.
  pose proof (fs_remove_absent (ctx_authority_key_path (nd_ctx n)) (nd_fs n)) as Habs.
  destruct (fs_remove _ (nd_fs n)) as [[[]|x] fs'].
  - intros [= <- <-]. split; [|done]. unfold key_custody. cbn. by rewrite Hrm, lookup_delete_eq.
  - case_bool_decide as Hk; intros [= <- <-]; (split; [|done]); unfold key_custody; cbn; rewrite Hrm; [|done].
    by apply (Habs x fs').
Qed.
Lemma accept_seed_drop_run req n r n' : honest_faults (nd_fs n) → key_custody n →
  accept_seed_drop req n = (r, n') →
  key_custody n'
  ∧ (nd_ctx n' = nd_ctx n
     ∨ ∃ ru w, sc_runtime (nd_world n) = Some ru ∧ nd_ctx n' = clear_authority (nd_ctx n)
         ∧ verify_drop_request (ru_verifier ru) (mt_current_leader (core_metrics w).1) req (ru_node_id ru)
             (ru_peer_id ru) (ru_cluster_id ru) = Ok ()).
Proof.
  intros Hh Hcust. unfold accept_seed_drop.
  intros [(leader & n1 & [Hs1 Hl]%leader_id_run & Hrun)|(x & [Hs1 _]%leader_id_run & ->)]%st_bind_run.
  2:{ split; [by eapply custody_same|left; apply Hs1]. }
  destruct (Hl _ eq_refl) as [w ->].
  apply st_bind_run in Hrun as [(ru & n2 & [Hs2 Hru]%self_run & Hrun)|(x & [Hs2 _]%self_run & ->)];
    pose proof (same_node_trans _ _ _ Hs1 Hs2) as Hs.
  2:{ split; [by apply (custody_same n)|left; apply Hs]. }
  specialize (Hru _ eq_refl). destruct Hs1 as (_ & _ & Hr1). rewrite Hr1 in Hru.
  apply st_lift_run in Hrun as [([] & Ho%map_err_Ok & Hrun)|(x & _ & -> & ->)].
  2:{ split; [by apply (custody_same n)|left; apply Hs]. }
  apply (custody_same _ _ Hs) in Hcust. destruct Hs as (Hc & Hf & _). unfold st_map_err in Hrun.
  destruct (drop_local_seed n2) as [res n3] eqn:Hd. injection Hrun as <- <-.
  apply drop_local_seed_run in Hd as [Hk Hctx]; [|by rewrite Hf|done]. split; [done|].
  rewrite Hc in Hctx. destruct res; [right|by left]. by exists ru, w.
Qed.


(** ** The seed and the vote *)

Definition sent (n : Node (Sidecar W)) : list Event := events (sc_env (nd_world n)).

Lemma rt_call_run {A} (m : ST (Runtime * W) string A) n r n' ru : sc_runtime (nd_world n) = Some ru →
  rt_call m n = (r, n') →
  ∃ ru' w', m (ru, sc_env (nd_world n)) = (r, (ru', w')) ∧ n' = MkNode (nd_ctx n) (nd_fs n) (MkSidecar (Some ru') w').
Proof.
  intros Hru. unfold rt_call, on_runtime, call, sc_run. rewrite Hru. destruct (m _) as [r1 [ru1 w1]].
  intros [= <- <-]. by exists ru1, w1.
Qed.
(** Queries of the handlers: no event, and the runtime stays as it is. *)
Definition watches {E A} (m : ST (Node (Sidecar W)) E A) : Prop := ∀ n r n', m n = (r, n') →
  nd_ctx n' = nd_ctx n ∧ sent n' = sent n ∧ sc_runtime (nd_world n') = sc_runtime (nd_world n).
Lemma watches_bind {E A B} (m : ST (Node (Sidecar W)) E A) (f : A → ST (Node (Sidecar W)) E B) :
  watches m → (∀ a, watches (f a)) → watches (m ≫= f).
Proof.
  intros Hm Hf n r n' [(a & n1 & (H1 & H2 & H3)%Hm & (H4 & H5 & H6)%Hf)|(e & H1 & ->)]%st_bind_run; [|by eapply Hm].
  split_and!; by etrans.
Qed.
Lemma watches_same {E A} (m : ST (Node (Sidecar W)) E A) : (∀ n, (m n).2 = n) → watches m.
Proof. intros Hm n r n' Heq. specialize (Hm n). rewrite Heq in Hm. by cbn in Hm; subst. Qed.
Lemma watches_query {E A} (absent : A) (m : ST (Runtime * W) Empty_set A) :
  silent m → (∀ s, (m s).2.1 = s.1) → watches (E := E) (ask (sc_query absent m)).
Proof.
  intros Hm Hr n r n'. unfold ask, sc_query, sc_run. destruct n as [c fs [[ru|] w]]; cbn.
  - specialize (Hm (ru, w)). specialize (Hr (ru, w)). destruct (m (ru, w)) as [[a|[]] [ru' w']]. cbn in *. subst.
    by intros [= <- <-].
  - by intros [= <- <-].
Qed.
Lemma metrics_keeps {E A} (f : Metrics → A) (s : Runtime * W) :
  (m ← metrics (E := E); mret (f m)) s = (Ok (f (core_metrics s.2).1), (s.1, (core_metrics s.2).2)).
Proof. destruct s as [ru w]. unfold metrics, env_ask, mbind, ST_bind. cbn [fst snd]. by destruct (core_metrics w). Qed.
Lemma watches_metrics {E A} (absent : A) (f : Metrics → A) : watches (E := E) (ask (sc_query absent (m ← metrics; mret (f m)))).
Proof. apply watches_query; [apply silent_after_metrics|]. intros s. by rewrite metrics_keeps. Qed.
Lemma watches_view : watches (E := SidecarError) (ask (rt_membership_view (W := Sidecar W))).
Proof. apply watches_metrics. Qed.
Lemma watches_reply req fields epoch : watches (member_reply (W := W) req fields epoch).
Proof.
  unfold member_reply. apply watches_bind; [by apply watches_query|]. intros a.
  apply watches_bind; [apply watches_metrics|]. intros t. by apply watches_same.
Qed.
Lemma watches_finish (f : PolicyState → ST (Node (Sidecar W)) SidecarError string) : (∀ st, watches (f st)) →
  watches (st ← ask policy_snapshot; audit_member ;; f st).
Proof.
  intros Hf. apply watches_bind; [by apply watches_query|]. intros st. apply watches_bind; [|by auto].
  unfold audit_member. apply watches_bind; [by apply watches_query|]. intros a.
  apply watches_bind; [apply watches_metrics|]. intros l. by apply watches_same.
Qed.

(** The messages of the runtime, seen from the handlers. *)
Lemma rt_deliver_run seed network target n r n' ru : sc_runtime (nd_world n) = Some ru →
  rt_call (deliver_seed seed network target) n = (r, n') →
  nd_ctx n' = nd_ctx n ∧ sc_runtime (nd_world n') = Some ru
  ∧ ((sent n' = sent n ∧ ∃ e, r = Err e)
     ∨ ∃ seed0 e, seed = Some seed0 ∧ carries_seed ru network target seed0 e ∧ sent n' = sent n ++ [e]
         ∧ ∀ u, r = Ok u → ∃ ack, verify_ack (ru_verifier ru) target ack = Ok u).
Proof.
  intros Hru (ru' & w' & [Hr Hd]%deliver_seed_run & ->)%(rt_call_run _ _ _ _ _ Hru). cbn [fst snd] in *. subst ru'.
  by split_and!.
Qed.
Lemma rt_drop_run target n r n' ru : sc_runtime (nd_world n) = Some ru → rt_call (drop_remote_seed target) n = (r, n') →
  nd_ctx n' = nd_ctx n ∧ sc_runtime (nd_world n') = Some ru
  ∧ ((sent n' = sent n ∧ ∃ e, r = Err e)
     ∨ ∃ e, orders_drop ru target e ∧ sent n' = sent n ++ [e]
         ∧ ∀ u, r = Ok u → ∃ ack, verify_ack (ru_verifier ru) target ack = Ok u).
Proof.
  intros Hru (ru' & w' & [Hr Hd]%drop_remote_seed_run & ->)%(rt_call_run _ _ _ _ _ Hru). cbn [fst snd] in *. subst ru'.
  by split_and!.
Qed.
Lemma rt_promote_run target n r n' ru : sc_runtime (nd_world n) = Some ru → rt_call (promote_voter target) n = (r, n') →
  nd_ctx n' = nd_ctx n ∧ (∃ v, sc_runtime (nd_world n') = Some (set_verifier ru v))
  ∧ ∃ change, sent n' = sent n ++ change ∧ Forall (changes target) change.
Proof.
  intros Hru (ru' & w' & Hp & ->)%(rt_call_run _ _ _ _ _ Hru). pose proof (promote_voter_keeps _ _ _ _ Hp) as [v Hv].
  apply promote_voter_changes in Hp as (es & He & Hc). cbn [fst snd] in *. split_and!; [done|by exists v; rewrite Hv|by eauto].
Qed.

Lemma or_undo_run code (m undo : ST (Runtime * W) string unit) n r n' :
  or_undo code m (runtime_try undo) n = (r, n') →
  (∃ u, rt_call m n = (Ok u, n') ∧ r = Ok ())
  ∨ ∃ e n1 ur, rt_call m n = (Err e, n1) ∧ rt_call undo n1 = (ur, n') ∧ r = Err (sidecar_error code e).
Proof.
  unfold or_undo. destruct (rt_call m n) as [[u|e] n1]; [intros [= <- <-]; by eauto|].
  unfold runtime_try, mbind, ST_bind, st_err. destruct (rt_call undo n1) as [ur n2] eqn:Hu. intros [= <- <-].
  right. by exists e, n1, ur.
Qed.

(** The runs of a promotion: refused before anything is sent; the seed sent but no
    good receipt for it; then the changes of the member, which succeed, or fail and
    are followed by at most an order to drop the seed. *)
Definition seed_sent (ru : Runtime) (c : AuthContext) (target : NodeId) (e : Event) : Prop :=
  ∃ seed, authority_seed c = Some seed ∧ carries_seed ru (ctx_network c) target seed e.
Definition receipt_verified (ru : Runtime) (target : NodeId) : Prop := ∃ ack, verify_ack (ru_verifier ru) target ack = Ok ().
Inductive promotion_trace (ru : Runtime) (c : AuthContext) (target : NodeId)
    : result SidecarError string → list Event → Prop :=
  | pt_refused e : promotion_trace ru c target (Err e) []
  | pt_undelivered e m : seed_sent ru c target m → promotion_trace ru c target (Err e) [m]
  | pt_failed e m change : seed_sent ru c target m → receipt_verified ru target → Forall (changes target) change →
      promotion_trace ru c target (Err e) ([m] ++ change)
  | pt_revoked e m change d : seed_sent ru c target m → receipt_verified ru target → Forall (changes target) change →
      orders_drop ru target d → promotion_trace ru c target (Err e) ([m] ++ change ++ [d])
  | pt_promoted s m change : seed_sent ru c target m → receipt_verified ru target → Forall (changes target) change →
      promotion_trace ru c target (Ok s) ([m] ++ change).

(** C11: nobody votes without the authority seed.  When the leader promotes a
    learner, the voters are changed only after a message with the leader's own seed,
    sealed for that learner, was sent and its receipt was verified under the
    learner's key; nothing else is sent before.  When the promotion then fails, what
    follows is at most an order to that learner to drop the seed; when it succeeds
    nothing follows. *)
Theorem seed_before_vote req n r n' ru spec target :
  sc_runtime (nd_world n) = Some ru → aq_member req = Some spec → member_node_id spec = Ok target →
  member_promote req n = (r, n') →
  ∃ es, sent n' = sent n ++ es ∧ promotion_trace ru (nd_ctx n) target r es.
Proof.
  intros Hru Hspec Htarget. unfold member_promote.
  assert (∀ n1 x, sent n1 = sent n → ∃ es, sent n1 = sent n ++ es ∧ promotion_trace ru (nd_ctx n) target (Err x) es) as Hnone.
  { intros n1 x Hs. exists []. rewrite Hs, app_nil_r. split; [done|constructor]. }
  intros [(spec' & Hs%ok_or_Ok & H)|(x & _ & -> & ->)]%st_lift_run; [|by apply Hnone].
  apply st_lift_run in H as [(target' & Ht & H)|(x & _ & -> & ->)]; [|by apply Hnone].
  assert (spec' = spec ∧ target' = target) as [-> ->] by (split; congruence).
  apply st_bind_run in H as [(view & n1 & (Hc1 & Hs1 & Hr1)%watches_view & H)|(x & (_ & Hs1 & _)%watches_view & ->)];
    [|by apply Hnone]. rewrite Hru in Hr1.
  apply st_lift_run in H as [(member & _ & H)|(x & _ & -> & ->)]; [|by apply Hnone].
  destruct (mi_voter member); [injection H as <- <-; by apply Hnone|].
  destruct (str_is_empty _); [injection H as <- <-; by apply Hnone|].
  apply st_bind_run in H as [(c & n2 & [= <- <-] & H)|(x & [=] & _)]. cbn [id] in H. rewrite Hc1 in H.
  revert H. intros [(u & n2 & (res & Hd & Hres)%st_map_err_run & H)|(x & (res & Hd & Hres)%st_map_err_run & ->)]%st_bind_run;
    apply (rt_deliver_run _ _ _ _ _ _ _ Hr1) in Hd as (Hc2 & Hr2 & Hd); rewrite Hs1 in Hd.
  2:{ destruct Hd as [[Hev _]|(seed & m & Hseed & Hm & Hev & _)]; [by apply Hnone|].
      exists [m]. rewrite Hev. split; [done|]. apply pt_undelivered. by exists seed. }
  symmetry in Hres. apply map_err_Ok in Hres. subst res. destruct u.
  destruct Hd as [[_ [? [=]]]|(seed & m & Hseed & Hm & Hev & Hack)].
  assert (seed_sent ru (nd_ctx n) target m) as Hsent by (by exists seed).
  assert (receipt_verified ru target) as Hrec by (by apply Hack). clear Hack Hm Hseed.
  apply st_bind_run in H as [(u & n3 & [(? & Hp & _)|(? & ? & ? & _ & _ & [=])]%or_undo_run & H)
    |(x & [(? & _ & [=])|(e & n3 & ur & Hp & Hu & [= ->])]%or_undo_run & ->)];
    apply (rt_promote_run _ _ _ _ _ Hr2) in Hp as (Hc3 & [v Hr3] & change & Hev3 & Hch); rewrite Hev, <-app_assoc in Hev3.
  - apply (watches_finish _ (λ st, watches_reply _ _ _)) in H as (_ & Hs4 & _).
    exists ([m] ++ change). rewrite Hs4, Hev3. split; [done|].
    destruct r; by constructor.
  - apply (rt_drop_run _ _ _ _ _ Hr3) in Hu as (_ & _ & [[Hs4 _]|(d & Hd & Hs4 & _)]); rewrite Hs4, Hev3.
    + exists ([m] ++ change). split; [done|]. by constructor.
    + exists ([m] ++ change ++ [d]). rewrite <-!app_assoc. split; [done|]. by constructor.
Qed.
End sidecar_props.
