(* ===== verification/ProcessProps.v ===== *)
(** * Properties of the start of a sidecar

    Joining with the password ends, is fed only by holders of the password and
    writes what it fetched; however a sidecar gets its context, the key in memory is
    the one in the key file; and what a sidecar without a network name does. *)
From S2P Require Import Prelude Fsutil Crypto Authority Replay Store StoreMerge StoreOps Types StateMachine RaftStorage.
From S2P Require Import Transport AdminV2 Config Join Seed Protocol Admin Replicate PasswordJoin Context Publisher Sync.
From S2P Require Import Service ServiceProps Runtime Members RuntimeProps SidecarProps Process.

(** ** The time the calls take *)

(** The clock does not go back, whatever is called, and a pause takes its time. *)
Class PassingTime (W : Type) `{WC : Clock W, WB : BackendClient W, RN : Rng W, TM : Timer W} := {
  passed : W → N;
  passed_instant w : (passed w ≤ (instant w).1)%N ∧ ((instant w).1 ≤ passed (instant w).2)%N;
  passed_sleep d w : (passed w + d ≤ passed (sleep d w))%N;
  passed_random n w : (passed w ≤ passed (random_bytes n w).2)%N;
  passed_now w : (passed w ≤ passed (now_unix w).2)%N;
  passed_whoami c w : (passed w ≤ passed (client_whoami c w).2)%N;
  passed_discover c s w : (passed w ≤ passed (client_discover_providers c s w).2)%N;
  passed_query c k w : (passed w ≤ passed (client_query_key c k w).2)%N;
  passed_request c s p b t w : (passed w ≤ passed (client_service_request_to_with_timeout c s p b t w).2)%N;
}.

Section process_props.
Context `{CR : Crypto, CO : Coset, CD : Codec Cbor JoinSecret, JQ : Codec Json JoinRequest, JP : Codec Json JoinResponse}.
Context `{TS : Codec Toml StoreSnapshot}.
Context {W : Type} `{WC : Clock W, WB : BackendClient W, RN : Rng W, TM : Timer W}.

Section time.
Context `{PT : !PassingTime W}.

(** A computation during which the time does not go back. *)
Definition forward {E A} (m : ST (Fs * W) E A) : Prop := ∀ s, (passed s.2 ≤ passed (m s).2.2)%N.

Lemma forward_bind {E A B} (m : ST (Fs * W) E A) (f : A → ST (Fs * W) E B) :
  forward m → (∀ a, forward (f a)) → forward (m ≫= f).
Proof.
  intros Hm Hf s. unfold mbind, ST_bind. specialize (Hm s). destruct (m s) as [[a|e] s1]; [|done].
  specialize (Hf a s1). simpl in Hm. lia.
Qed.
Lemma forward_lift {E A} (r : result E A) : forward (st_lift r).
Proof. intros s. unfold st_lift. simpl. lia. Qed.
Lemma forward_err {E A} (e : E) : forward (st_err (A := A) e).
Proof. intros s. simpl. lia. Qed.
Lemma forward_fs {E A} (m : ST Fs E A) : forward (fw_fs m).
Proof. intros [fs w]. unfold fw_fs. destruct (m fs). simpl. lia. Qed.
Lemma forward_ask {E A} (q : W → A * W) : (∀ w, passed w ≤ passed (q w).2)%N → forward (fw_ask (E := E) q).
Proof. intros Hq [fs w]. unfold fw_ask. specialize (Hq w). by destruct (q w). Qed.
Lemma forward_call {E E' A} (m : ST W E A) :
  (∀ w, passed w ≤ passed (m w).2)%N → forward (attempt_of (E' := E') (fw_call m)).
Proof. intros Hm [fs w]. unfold attempt_of, fw_call. specialize (Hm w). by destruct (m w). Qed.

Lemma passed_dht client a w : (passed w ≤ passed (verify_against_dht client a w).2)%N.
Proof.
  unfold verify_against_dht. pose proof (passed_query client (index_key a) w) as Hq.
  destruct (client_query_key _ _ w) as [[r|e] w1]; [|done]. by case_match.
Qed.

Lemma forward_through client config last peers : forward (attempt_through client config last peers).
Proof.
  revert last. induction peers as [|peer peers IH]; intros last; cbn [attempt_through]; [apply forward_err|].
  apply forward_bind; [apply forward_ask, passed_random|]. intros rng.
  apply forward_bind; [apply forward_ask, passed_now|]. intros ts.
  apply forward_bind; [apply forward_lift|]. intros payload.
  apply forward_bind; [apply forward_call; intros; apply passed_request|]. intros [bytes|e]; [|apply IH].
  destruct (decode_from Json bytes) as [resp|e]; [|apply IH].
  destruct (open_response _ _ _ _) as [[seed state]|e]; [|apply IH].
  apply forward_bind; [apply forward_lift|]. intros a.
  apply forward_bind; [apply forward_call, passed_dht|]. intros [[]|e]; [apply forward_fs|apply IH].
Qed.

Lemma forward_attempt client config : forward (attempt client config).
Proof.
  apply forward_bind; [apply forward_call, passed_whoami|]. intros me.
  apply forward_bind; [apply forward_call; intros; apply passed_discover|]. intros found.
  cbv zeta. case_bool_decide; [apply forward_err|apply forward_through].
Qed.

Lemma join_loop_ends fuel client config deadline fs w :
  (deadline ≤ passed w + N.of_nat fuel * 1000)%N →
  ∃ r s', (∀ fuel', S fuel ≤ fuel' → join_loop fuel' client config deadline (fs, w) = (Some r, s'))
    ∧ (r = None → (deadline ≤ passed s'.2)%N).
Proof.
  revert fs w. induction fuel as [|fuel IH]; intros fs w Ht;
    pose proof (forward_attempt client config (fs, w)) as Ha;
    destruct (attempt client config (fs, w)) as [[joined|e] [fs1 w1]] eqn:Hatt; cbn [fst snd] in Ha.
  1, 3: exists (Some joined), (fs1, w1); split; [|done]; intros [|fuel'] ?; [lia|]; cbn [join_loop]; by rewrite Hatt.
  all: pose proof (passed_instant w1) as [Hi1 Hi2]; destruct (instant w1) as [now w2] eqn:Hin; cbn [fst snd] in *;
    destruct (N.leb_spec deadline now) as [Hd|Hd].
  1, 3: exists None, (fs1, w2); split; [|simpl; lia]; intros [|fuel'] ?; [lia|]; cbn [join_loop]; rewrite Hatt, Hin;
    by rewrite (proj2 (N.leb_le _ _) Hd).
  - lia.
  - pose proof (passed_sleep (join_retry_ms config) w2) as Hs. unfold join_retry_ms in Hs at 1.
    destruct (IH fs1 (sleep (join_retry_ms config) w2)) as (r & s' & Hr & Hspec); [lia|]. exists r, s'. split; [|done].
    intros [|fuel'] ?; [lia|]. cbn [join_loop]. rewrite Hatt, Hin, (proj2 (N.leb_gt _ _) Hd). apply Hr. lia.
Qed.

(** C35: the attempts to join come to an end.  With a clock that does not go back,
    the loop of [ensure_ready] stops after at most one turn more than the seconds of
    the time limit, whatever the peers answer, and more fuel changes nothing; it
    stops without a key only when the time limit, counted from the start of the
    process, has passed. *)
Theorem joining_ends client config start fs w :
  (start ≤ passed w)%N →
  let deadline := (start + join_timeout_ms config)%N in
  ∃ r s', (∀ fuel, join_fuel config ≤ fuel → join_loop fuel client config deadline (fs, w) = (Some r, s'))
    ∧ ready_joined client config start (fs, w) = ((λ x, (Some x.1, x.2)) <$> r, s')
    ∧ (r = None → (deadline ≤ passed s'.2)%N).
Proof.
  intros Hs deadline.
  destruct (join_loop_ends (N.to_nat (N.max (cf_join_timeout_secs config) 1)) client config deadline fs w)
    as (r & s' & Hr & Hn).
  { subst deadline. unfold join_timeout_ms. lia. }
  exists r, s'. split_and!; [done| |done]. unfold ready_joined. fold deadline. by rewrite (Hr (join_fuel config)).
Qed.
End time.

(** ** What an attempt fetches and writes *)

(** A key and a state that a peer has sent: the answer of another peer to a request
    made with the password, opened with the password and with the nonce of that very
    request, whose key agrees with the index in the DHT, if that could be read. *)
Definition fetched (client : Conn) (config : ServiceConfig) (me : option string) (a : Authority) (state : StoreSnapshot)
    : Prop :=
  let password := cf_management_password config in
  let network := cf_network config in
  ∃ peer rng ts payload bytes resp w1 w2,
    let nonce := b64url_encode rng in
    me ≠ Some peer
    ∧ encode_to Json (make_request password network nonce ts) = Ok payload
    ∧ client_service_request_to client (cf_service config) peer payload w1 = (Ok bytes, w2)
    ∧ decode_from Json bytes = Ok resp
    ∧ open_response password network nonce resp = Ok (signing_key a, state)
    ∧ from_seed (signing_key a) network = Ok a
    ∧ ∀ found value, (client_query_key client (index_key a) w2).1 = Ok found → qk_value found = Some value →
        is_ok (verify_cose_sign1 (public_key_bytes a) (index_key a) value) = true.

Lemma from_seed_key seed network a : from_seed seed network = Ok a → signing_key a = seed.
Proof. unfold from_seed. case_match; [done|]. by intros [= <-]. Qed.

Lemma first_seen_elem me seen peers p : p ∈ first_seen me seen peers → me ≠ Some p ∧ p ∈ peers.
Proof.
  revert seen. induction peers as [|q peers IH]; intros seen; cbn [first_seen]; [by intros ?%elem_of_nil|].
  destruct (bool_decide _ && _) eqn:Hb; [bool_tests|intros [? ?]%IH; set_solver].
  intros [->|[? ?]%IH]%elem_of_cons; set_solver.
Qed.
Lemma join_peers_elem me found p : p ∈ join_peers me found → me ≠ Some p ∧ p ∈ found.
Proof. unfold join_peers, sort_strings. rewrite merge_sort_Permutation. apply first_seen_elem. Qed.

(** The paths of the key and of the state do not get in each other's way. *)
Record separate_files (config : ServiceConfig) : Prop := {
  sf_key : with_extension (path_of (cf_authority_key_path config)) "tmp" ≠ path_of (cf_authority_key_path config);
  sf_state : with_extension (path_of (cf_state_path config)) "tmp" ≠ path_of (cf_state_path config);
  sf_apart : path_of (cf_authority_key_path config) ≠ path_of (cf_state_path config);
  sf_key_tmp : path_of (cf_authority_key_path config) ≠ with_extension (path_of (cf_state_path config)) "tmp";
  sf_state_tmp : path_of (cf_state_path config) ≠ with_extension (path_of (cf_authority_key_path config)) "tmp";
}.

(** What is on disk after key and state were to be written. *)
Definition persisted (config : ServiceConfig) (a : Authority) (state : StoreSnapshot) (fs : Fs)
    (r : result PwJoinError (Authority * Store)) (fs' : Fs) : Prop :=
  let key := path_of (cf_authority_key_path config) in
  let file := path_of (cf_state_path config) in
  match r with
  | Ok (a', store) => a' = a ∧ snapshot store = state ∧ s_network store = cf_network config
      ∧ fs_files fs' !! key = Some (MkFile (signing_key a) 384)
      ∧ ∃ text, encode_to Toml state = Ok text ∧ fs_files fs' !! file = Some (MkFile text 384)
  | Err e => (∃ m, e = PjPersist m) ∧ fs_files fs' !! file = fs_files fs !! file
      ∧ (fs_files fs' !! key = fs_files fs !! key ∨ fs_files fs' !! key = Some (MkFile (signing_key a) 384))
  end.

Lemma save_frame s fs p : with_extension (s_path s) "tmp" ≠ s_path s →
  p ≠ s_path s → p ≠ with_extension (s_path s) "tmp" → fs_files (save s fs).2 !! p = fs_files fs !! p.
Proof.
  intros Hne H1 H2. unfold save, mbind, ST_bind, st_lift, st_map_err.
  destruct (encode_to Toml (snapshot s)) as [text|e]; simpl; [|done].
  pose proof (atomic_write_spec (s_path s) text (Some 384%N) fs Hne) as Hw.
  destruct (atomic_write (s_path s) text (Some 384%N) fs) as [r fs']; simpl. destruct Hw as [Hf _]. by destruct r; apply Hf.
Qed.

Lemma persist_joined_spec config a state fs r fs' :
  separate_files config → persist_joined config a state fs = (r, fs') → persisted config a state fs r fs'.
Proof.
  intros [H1 H2 H3 H4 H5]. unfold persist_joined, persisted. set (key := path_of _) in *. set (file := path_of (cf_state_path _)) in *.
  unfold mbind, ST_bind at 1, st_map_err at 1.
  pose proof (atomic_write_spec key (signing_key a) (Some 384%N) fs H1) as Hw.
  destruct (atomic_write key _ _ fs) as [[[]|e] fs1]; destruct Hw as [Hframe Hw]; simpl.
  2:{ intros [= <- <-]. split_and!; [by eauto| |by left]. apply Hframe; congruence. }
  destruct Hw as (m & Hkey & Hm & _). simpl in Hm. subst m.
  unfold ST_bind, st_map_err, from_snapshot. case_bool_decide as Hn; simpl.
  { intros [= <- <-]. split_and!; [by eauto| |by right]. apply Hframe; congruence. }
  set (store := MkStore _ _ _ _ _). pose proof (save_spec store fs1 H2) as Hs. pose proof (save_frame store fs1 key H2 H3 H4) as Hk.
  unfold mbind, ST_bind. destruct (save store fs1) as [[[]|e] fs2]; simpl; intros [= <- <-]; simpl in Hk; rewrite Hkey in Hk.
  - destruct Hs as (text & Ht & Hf). assert (Hsnap : snapshot store = state).
    { unfold snapshot. simpl. destruct state. simpl in *. f_equal. by destruct (decide (sn_network = cf_network config)). }
    rewrite Hsnap in Ht. split_and!; [done..|]. eauto.
  - split_and!; [by eauto| |by right]. simpl in Hs. rewrite Hs. apply Hframe; congruence.
Qed.

(** Either nothing is written and an error reported, or what a peer sent. *)
Definition attempted (client : Conn) (config : ServiceConfig) (me : option string) (fs : Fs)
    (r : result PwJoinError (Authority * Store)) (fs' : Fs) : Prop :=
  (fs' = fs ∧ ∃ e, r = Err e)
  ∨ ∃ a state, fetched client config me a state ∧ persisted config a state fs r fs'.

Lemma attempt_through_spec client config me last peers fs w r fs' w' :
  separate_files config → (∀ p, p ∈ peers → me ≠ Some p) →
  attempt_through client config last peers (fs, w) = (r, (fs', w')) → attempted client config me fs r fs'.
Proof.
  intros Hsep. revert last w. induction peers as [|peer peers IH]; intros last w Hme; cbn [attempt_through].
  { intros [= <- <- <-]. left. eauto. }
  assert (Hrest : ∀ p, p ∈ peers → me ≠ Some p) by set_solver. pose proof (λ l w, IH l w Hrest) as IH'. clear IH.
  unfold mbind, ST_bind, fw_ask, attempt_of, fw_call, st_lift.
  destruct (random_bytes 16 w) as [rng w1], (now_unix w1) as [ts w2].
  destruct (encode_to Json (make_request _ _ _ _)) as [payload|e] eqn:Hpay; cbn [map_err];
    [|intros [= <- <- <-]; left; eauto].
  destruct (client_service_request_to _ _ _ _ w2) as [[bytes|e] w3] eqn:Hreq; [|apply IH'].
  destruct (decode_from Json bytes) as [resp|e] eqn:Hdec; [|apply IH'].
  destruct (open_response _ _ _ resp) as [[seed state]|e] eqn:Hopen; [|apply IH'].
  destruct (from_seed seed _) as [a|e] eqn:Hseed; cbn [map_err]; [|intros [= <- <- <-]; left; eauto].
  destruct (verify_against_dht client a w3) as [[[]|e] w4] eqn:Hdht; [|apply IH'].
  unfold fw_fs. destruct (persist_joined config a state fs) as [r1 fs1] eqn:Hpers. intros [= <- <- <-].
  right. exists a, state. split; [|by apply persist_joined_spec]. pose proof (from_seed_key _ _ _ Hseed) as <-.
  exists peer, rng, ts, payload, bytes, resp, w2, w3. split_and!; try done; [by apply Hme, list_elem_of_here|].
  intros found value Hq Hv. revert Hdht. unfold verify_against_dht. destruct (client_query_key _ _ w3) as [q w5]. simpl in Hq. subst q.
  rewrite Hv. by destruct (verify_cose_sign1 _ _ _).
Qed.

(** C34: what joining with the password brings in.  An attempt either reports an error
    and leaves the files as they were, or has from another peer an answer to its own
    request that opens under the password and the nonce of that request, with a key
    that signed the index in the DHT if that could be read.  On success the key file
    holds exactly that key and the state file that state, both with mode 0600, and
    they are what is returned; when a write fails the attempt reports so, the state
    file is the old one, and the key file the old or the new one. *)
Theorem joined_with_password client config fs w r fs' w' :
  separate_files config → attempt client config (fs, w) = (r, (fs', w')) →
  attempted client config (result_ok (client_whoami client w).1) fs r fs'.
Proof.
  intros Hsep. unfold attempt. unfold mbind, ST_bind at 1, attempt_of at 1, fw_call at 1.
  destruct (client_whoami client w) as [me w1]. unfold ST_bind, attempt_of, fw_call.
  destruct (client_discover_providers _ _ w1) as [found w2]. cbn [fst snd].
  case_bool_decide; [intros [= <- <- <-]; left; eauto|].
  apply attempt_through_spec; [done|]. by intros p [? _]%join_peers_elem.
Qed.

(** ** The key in memory and the key file *)

Context (uuid_text : string → string) {RT : RaftTypes} `{RC : !RaftCore W}.
Abbreviation node_of ctx s := (MkNode ctx s.1 (MkSidecar (W := W) None s.2)).

Lemma build_context_Ok config authority store publisher s ctx s' :
  build_context uuid_text config authority store publisher s = (Ok ctx, s') →
  s'.1 = s.1 ∧ ctx_authority ctx = authority ∧ ctx_authority_key_path ctx = path_of (cf_authority_key_path config)
  ∧ ctx_network ctx = cf_network config ∧ ctx_raft_required ctx = cl_enabled (cf_cluster config).
Proof.
  unfold build_context. case_match; [done|]. intros Hb. st_inv. split_and!; [|done..].
  match goal with H : (if _ then _ else _) _ = _ |- _ => revert H end.
  case_match; [|by intros [= _ <-]]. intros Hp. st_inv. destruct s as [fs w]. unfold fw_ask in *.
  destruct (random_bytes 16 w). by simplify_eq/=.
Qed.

(** A call on the files, and a query. *)
Lemma fw_fs_Ok {E A} (m : ST Fs E A) (s s' : Fs * W) a :
  fw_fs m s = (Ok a, s') → m s.1 = (Ok a, s'.1) ∧ s'.2 = s.2.
Proof. destruct s as [fs w]. unfold fw_fs. simpl. destruct (m fs) as [r fs1]. by intros [= -> <-]. Qed.
Lemma st_map_err_Ok {S E F A} (f : E → F) (m : ST S E A) s a s' : st_map_err f m s = (Ok a, s') → m s = (Ok a, s').
Proof. unfold st_map_err. destruct (m s) as [[b|e] s0]; by intros [= -> ->]. Qed.

Lemma path_exists_files p fs : fs_files (path_exists p fs).2 = fs_files fs.
Proof. unfold path_exists, next_fault. by destruct (fs_faults fs) as [|[f|] l]. Qed.

Lemma load_Ok p network fs a fs' :
  load p network fs = (Ok a, fs') → fs_files fs' = fs_files fs ∧ f_data <$> fs_files fs !! p = Some (signing_key a).
Proof.
  unfold load. intros (bytes & fs1 & Hr%st_map_err_Ok & (seed & fs2 & Hs & Hl)%st_bind_Ok)%st_bind_Ok.
  injection Hs as Hs <-. injection Hl as Hl <-. pose proof (fs_read_files p fs) as Hf. rewrite Hr in Hf. split; [done|].
  rewrite (from_seed_key _ _ _ Hl). revert Hs. unfold seed_of_bytes. case_bool_decide; [done|]. intros [= ->].
  revert Hr. unfold fs_read. pose proof (next_fault_files fs) as Hn. destruct (next_fault fs) as [[f|] fs2]; [done|].
  rewrite (Hn _ _ eq_refl). by intros [= ?%ok_or_Ok _].
Qed.

Lemma load_store_frame p network initial fs store fs' q :
  with_extension p "tmp" ≠ p → q ≠ p → q ≠ with_extension p "tmp" →
  Store.load_or_create p network initial fs = (Ok store, fs') → fs_files fs' !! q = fs_files fs !! q.
Proof.
  intros H1 H2 H3. unfold Store.load_or_create. pose proof (fs_read_files p fs) as Hr.
  assert (Hs : fs_files (fs_read_to_string p fs).2 = fs_files fs).
  { unfold fs_read_to_string, mbind, ST_bind. destruct (fs_read p fs) as [[c|e] fs1]; [|done]. by case_match. }
  destruct (fs_read_to_string p fs) as [[c|e] fs1]; simpl in Hs; [intros [= _ <-]; by rewrite Hs|].
  case_bool_decide; [|done]. intros Hb. st_inv.
  match goal with H : save ?s ?f = _ |- _ => pose proof (save_frame s f q H1 H2 H3) as Hf; rewrite H in Hf end.
  simpl in Hf. by rewrite Hf, Hs.
Qed.

Lemma absent_file p fs e fs' :
  honest_faults fs → fs_read p fs = (Err e, fs') → io_kind e = NotFound → fs_files fs !! p = None.
Proof.
  intros Hh. unfold fs_read. pose proof (honest_fault fs Hh) as Hf. pose proof (next_fault_files fs) as Hn.
  destruct (next_fault fs) as [[f|] fs1].
  - intros [= <- <-] He. by destruct (Hf _ _ eq_refl).
  - rewrite (Hn _ _ eq_refl). by destruct (fs_files fs !! p).
Qed.

(** The key that is put in the context is the one in the file. *)
Definition key_on_disk (p : path) (a : option Authority) (fs : Fs) : Prop :=
  match a with Some a => f_data <$> fs_files fs !! p = Some (signing_key a) | None => fs_files fs !! p = None end.

Lemma key_on_disk_files p a fs fs' : fs_files fs' !! p = fs_files fs !! p → key_on_disk p a fs → key_on_disk p a fs'.
Proof. unfold key_on_disk. by intros ->. Qed.

Lemma load_present_Ok p network fs a fs' :
  honest_faults fs → load_present p network fs = (Ok a, fs') → fs_files fs' = fs_files fs ∧ key_on_disk p a fs.
Proof.
  intros Hh. unfold load_present. destruct (load p network fs) as [[a0|e] fs1] eqn:Hl.
  - intros [= <- <-]. by apply load_Ok in Hl.
  - destruct e; try done. case_bool_decide as He; [|done]. intros [= <- <-].
    revert Hl. unfold load. intros [(b & fs2 & Hr & Hl)|(e' & Hr & Heq)]%st_bind_run.
    + exfalso. revert Hl. unfold mbind, ST_bind, st_lift. unfold seed_of_bytes, from_seed. repeat case_match; congruence.
    + injection Heq as <-. apply st_map_err_run in Hr as ([|e0] & Hr & Hm); [done|]. injection Hm as <-.
      pose proof (fs_read_files p fs) as Hf. rewrite Hr in Hf. split; [done|]. by eapply absent_file.
Qed.

Lemma join_loop_Some fuel client config deadline s joined s' :
  join_loop fuel client config deadline s = (Some (Some joined), s') →
  ∃ s0, attempt client config s0 = (Ok joined, s').
Proof.
  revert s. induction fuel as [|fuel IH]; intros s; cbn [join_loop]; [done|].
  destruct (attempt client config s) as [[j|e] [fs w]] eqn:Ha; [intros [= <- <-]; by eauto|].
  destruct (instant w) as [now w1]. case_match; [done|]. apply IH.
Qed.

(** What [ensure_ready] builds the context from has its key on disk. *)
Lemma found_on_disk client config start s a store s' :
  separate_files config → honest_faults s.1 →
  (if cl_enabled (cf_cluster config) then ready_cluster config s else ready_joined client config start s)
    = (Some (a, store), s') →
  key_on_disk (path_of (cf_authority_key_path config)) a s'.1.
Proof.
  intros Hsep Hh. destruct (cl_enabled _).
  - unfold ready_cluster. destruct (fw_fs _ s) as [r s1] eqn:Hrun. intros [= Hr <-]. destruct r as [x|]; [|done].
    injection Hr as ->. apply fw_fs_Ok in Hrun as [Hrun _].
    apply st_bind_Ok in Hrun as (a1 & fs1 & Ha%st_map_err_Ok & Hrun).
    apply st_bind_Ok in Hrun as (store1 & fs2 & Hs%st_map_err_Ok & [= -> -> <-]).
    apply load_present_Ok in Ha as [Hf Hk]; [|done]. destruct Hsep as [H1 H2 H3 H4 H5].
    eapply key_on_disk_files; [|exact Hk]. rewrite (load_store_frame _ _ _ _ _ _ _ H2 H3 H4 Hs). by rewrite Hf.
  - unfold ready_joined. destruct (join_loop _ _ _ _ s) as [r s1] eqn:Hl. intros [= Hr <-].
    destruct r as [[[a0 store0]|]|]; try done. injection Hr as <- <-.
    apply join_loop_Some in Hl as ([fs w] & Ha). destruct s1 as [fs1 w1]. unfold attempt in Ha.
    apply st_bind_Ok in Ha as (me & [fs2 w2] & Hme & Ha). apply st_bind_Ok in Ha as (found & [fs3 w3] & Hfound & Ha).
    revert Ha. cbv zeta. case_bool_decide; [done|]. intros Ha.
    eapply (attempt_through_spec _ _ (result_ok me)) in Ha as [[_ [e ?]]|(a & state & _ & Hp)]; [done| |done|].
    + destruct Hp as (-> & _ & _ & Hk & _). unfold key_on_disk. simpl. by rewrite Hk.
    + by intros p [? _]%join_peers_elem.
Qed.

(** What [main] builds the context from has its key on disk. *)
Lemma build_initial_on_disk config publisher s ctx s' :
  let p := path_of (cf_authority_key_path config) in
  separate_files config → ((path_exists p s.1).1 = false → fs_files s.1 !! p = None) →
  build_initial uuid_text config publisher s = (Ok (Some ctx), s') →
  key_on_disk p (ctx_authority ctx) s'.1 ∧ ctx_authority_key_path ctx = p.
Proof.
  intros p [H1 H2 H3 H4 H5] Htrue. unfold build_initial. intros (there & s1 & Hex & Hb)%st_bind_Ok.
  assert (Hs1 : fs_files s1.1 = fs_files s.1 ∧ there = (path_exists p s.1).1).
  { destruct s as [fs w]. unfold fw_query in Hex. simpl. pose proof (path_exists_files p fs) as Hf. fold p in Hex.
    destruct (path_exists p fs). by simplify_eq/=. }
  destruct Hs1 as [Hs1 ->].
  assert (Hrest : ∀ a s2, key_on_disk p a s2.1 →
    (store ← load_store config; ctx ← build_context uuid_text config a store publisher; mret (Some ctx)) s2
      = (Ok (Some ctx), s') → key_on_disk p (ctx_authority ctx) s'.1 ∧ ctx_authority_key_path ctx = p).
  { intros a s2 Hk (store & s3 & Hl%st_map_err_Ok & (c & s4 & (Hf & Ha & Hp & _)%build_context_Ok & [= <- <-])%st_bind_Ok)%st_bind_Ok.
    apply fw_fs_Ok in Hl as [Hl _]. rewrite Ha, Hp. split; [|done]. eapply key_on_disk_files; [|exact Hk].
    rewrite Hf. exact (load_store_frame _ _ _ _ _ _ p H2 H3 H4 Hl). }
  destruct (path_exists p s.1).1; [|case_bool_decide; [|destruct (cl_enabled _); [|done]]].
  - apply st_bind_Ok in Hb as (a & s2 & Hl%st_map_err_Ok%fw_fs_Ok & Hb). destruct Hl as [[Hf Hk]%load_Ok _].
    eapply Hrest, Hb. unfold key_on_disk. by rewrite Hf.
  - apply st_bind_Ok in Hb as (seed & s2 & Hr & Hb). apply st_bind_Ok in Hb as (a & s3 & Hg & Hb).
    apply st_bind_Ok in Hb as (u & s4 & Hw%st_map_err_Ok%fw_fs_Ok & Hb). destruct Hw as [Hw _].
    eapply (Hrest (Some a)), Hb. pose proof (atomic_write_spec p (signing_key a) (Some 384%N) s3.1 H1) as Ho.
    fold p in Hw. rewrite Hw in Ho. destruct Ho as (_ & m & Hk & _). unfold key_on_disk. by rewrite Hk.
  - eapply (Hrest None), Hb. unfold key_on_disk. rewrite Hs1. by apply Htrue.
Qed.

(** A sidecar starts with its key in order.  Whether the key was read from the
    file, made for a new network, fetched from another sidecar, or is missing on a
    learner: once the sidecar is ready, by [main] or on a connection, the key in
    memory is the one in the key file, or both are missing.  (When the existence of
    the file cannot be queried, [main] takes it for missing.)  This is the invariant
    that the seed exchange of the cluster then keeps. *)
Theorem custody_at_start client (p : Process) publisher s ctx s' :
  let config := pr_config p in
  separate_files config →
  (((path_exists (path_of (cf_authority_key_path config)) s.1).1 = false →
      fs_files s.1 !! path_of (cf_authority_key_path config) = None) →
   initial_context uuid_text config publisher s = (Ok (Some ctx), s') → key_custody (node_of ctx s'))
  ∧ (honest_faults (pr_env p).1 → pr_ready p = None →
     ∀ p', ensure_ready uuid_text client p = (Ok (Some ctx), p') →
       key_custody (node_of ctx (pr_env p')) ∧ pr_ready p' = Some ctx).
Proof.
  intros config Hsep. split.
  - intros Htrue. unfold initial_context. do 2 (case_match; [done|]). intros [Hk Hp]%build_initial_on_disk; [|done..].
    unfold key_custody. simpl. by rewrite Hp.
  - intros Hh Hready p'. unfold ensure_ready. rewrite Hready. fold config.
    destruct (if cl_enabled _ then _ else _) as [[[a store]|] s1] eqn:Hf; [|done].
    apply found_on_disk in Hf; [|done..]. intros (c & p1 & Ha & [= -> ->])%st_bind_Ok. revert Ha. unfold activate. simpl.
    destruct (build_context _ _ _ _ _ _) as [[c|h] s2] eqn:Hb; [|done]. intros [= -> <-].
    apply build_context_Ok in Hb as (Hfs & Ha & Hp & _). split; [|done]. unfold key_custody. simpl. rewrite Hp, Ha.
    eapply key_on_disk_files; [|exact Hf]. by rewrite Hfs.
Qed.

(** A cluster node without a network name serves all the same.  With an empty
    [network] the process announces that it only listens, and has no context; yet on
    the first connection, in the cluster mode and without a key file, it makes a
    context for the empty network name and is ready. *)
Theorem unnamed_network_is_served client (p : Process) publisher s store fs1 keys :
  let config := pr_config p in
  cf_network config = "" → cl_enabled (cf_cluster config) = true → (cf_renew_secs config < cf_expires_secs config)%N →
  from_config (cf_admin_keys config) true = Ok keys → pr_ready p = None →
  fs_faults (pr_env p).1 = [] → fs_files (pr_env p).1 !! path_of (cf_authority_key_path config) = None →
  Store.load_or_create (path_of (cf_state_path config)) "" (cf_services config) (pr_env p).1 = (Ok store, fs1) →
  initial_context uuid_text config publisher s = (Ok None, s)
  ∧ ∃ ctx p', ensure_ready uuid_text client p = (Ok (Some ctx), p') ∧ pr_ready p' = Some ctx
      ∧ ctx_network ctx = "" ∧ ctx_raft_required ctx = true.
Proof.
  intros config Hn Hc Hr Hk Hready Hnf Habs Hst. split.
  { unfold initial_context. by rewrite Hn. }
  assert (Hfound : ready_cluster config (pr_env p) = (Some (None, store), (fs1, (pr_env p).2))).
  { unfold ready_cluster, fw_fs. destruct (pr_env p) as [fs w]. cbn [fst snd] in *.
    unfold mbind, ST_bind, st_map_err, load_present, load, mbind, ST_bind, st_map_err, fs_read, next_fault.
    rewrite Hnf, Habs. simpl. rewrite Hn. destruct fs as [files dirs umask faults]. simpl in Hnf. subst faults.
    by rewrite Hst. }
  unfold ensure_ready. rewrite Hready. fold config. rewrite Hc, Hfound.
  set (p1 := set_env p _). unfold mbind, ST_bind.
  destruct (activate uuid_text None store p1) as [r p2] eqn:Ha. revert Ha. unfold activate.
  change (pr_config p1) with config.
  destruct (build_context uuid_text config None store (pr_publisher p1) (pr_env p1)) as [[ctx|h] s2] eqn:Hb.
  - intros [= <- <-]. apply build_context_Ok in Hb as (_ & _ & _ & Hnet & Hreq). simpl. eexists _, _.
    split_and!; [reflexivity|done|congruence|congruence].
  - exfalso. revert Hb. unfold build_context. rewrite Hc, (proj2 (N.leb_gt _ _) Hr). cbn [andb].
    unfold mbind, ST_bind, st_lift. rewrite Hk. destruct (str_is_empty (cf_management_password config)) eqn:He.
    + cbn [andb]. unfold fw_ask. destruct (pr_env p1) as [fs w], (random_bytes 16 w). cbn. done.
    + cbn. unfold admin_auth_new, rep_auth_new. by rewrite He.
Qed.
End process_props.

(** ** Examples *)

Section process_examples.
Import Toy.
#[local] Existing Instance toy_coset.

(** A world that is its clock, with one other sidecar that lets others join. *)
Definition home_server (payload : string) : result SidecarError string :=
  match decode_from Json (A := JoinRequest) payload with
  | Err e => Err (sidecar_error "bad_request" e)
  | Ok req =>
      match (respond "rn" ex_aead "net" req 1 (pad 32 "seed") ex_snapshot ex_server).1 with
      | Ok resp => map_err (sidecar_error "encode") (encode_to Json resp)
      | Err e => Err (sidecar_error "join_failed" (pw_join_error_text e))
      end
  end.
#[local] Instance home_clock : Clock N := λ t, ((t / 1000)%N, t).
#[local] Instance home_rng : Rng N := λ n t, (pad n "random", t).
#[local] Instance home_timer : Timer N := {| instant t := (t, t); sleep d t := (t + d)%N |}.
#[local] Instance home_client : BackendClient N := {|
  client_add_key _ k _ _ t := (Ok (MkAddKeyResult true k), t);
  client_discover_providers _ _ t := (Ok ["me"; "srv"; "srv"], t);
  client_whoami _ t := (Ok "me", t);
  client_query_key _ k t := (Ok (MkQueryKeyResult k None []), t);
  client_service_request_to_with_timeout _ _ p b _ t := (home_server b, t + 5)%N;
|}.
#[local] Instance home_time : PassingTime N.
Proof. refine {| passed := λ t, t |}; intros; cbn; lia. Defined.
#[local] Instance home_types : RaftTypes := MkRaftTypes N N N N N N.

Definition home_config (network password : string) (cluster : bool) : ServiceConfig :=
  MkServiceConfig "auth" 5100 network "./authority.key" "./state.toml" 3600 1200 password ∅ "require" 30 5 false
    (MkClusterConfig cluster "c" false "./id.key" "./raft.redb" "./seed.key" "" "" 500 1500 3000 [] []) ex_admin_keys.
Definition home_files : Fs := MkFs ∅ ∅ 18 [].
Definition home_process (config : ServiceConfig) : Process :=
  MkProcess config Publisher_new None None 0 (MkDb Tables_empty []) (home_files, 2000%N).
Lemma home_separate network password cluster : separate_files (home_config network password cluster).
Proof. split; vm_compute; discriminate. Qed.

Lemma joining_ends_witness :
  ∃ joined s', ready_joined 7 (home_config "net" "wrong" false) 2000 (home_files, 2000%N) = (joined, s')
    ∧ joined = None ∧ (32000 ≤ passed s'.2)%N.
Proof.
  destruct (joining_ends 7 (home_config "net" "wrong" false) 2000 home_files 2000%N) as (r & s' & _ & Hr & Hn); [vm_compute; discriminate|].
  exists ((λ x, (Some x.1, x.2)) <$> r), s'. split; [exact Hr|].
  assert (Hnone : (λ x : Authority * Store, (Some x.1, x.2)) <$> r = None)
    by (apply (f_equal fst) in Hr; vm_compute in Hr; destruct r; [discriminate|reflexivity]).
  split; [exact Hnone|]. apply Hn. destruct r; [discriminate|reflexivity].
Defined.

Lemma joined_with_password_witness :
  let '(r, (fs', _)) := attempt 7 (home_config "net" "secret" false) (home_files, 2000%N) in
  is_ok r = true ∧ attempted 7 (home_config "net" "secret" false) (Some "me") home_files r fs'.
Proof.
  destruct (attempt 7 (home_config "net" "secret" false) (home_files, 2000%N)) as [r [fs' w']] eqn:Ha.
  split; [apply (f_equal (λ x, is_ok x.1)) in Ha; vm_compute in Ha; symmetry; exact Ha|].
  exact (joined_with_password 7 _ home_files 2000%N r fs' w' (home_separate _ _ _) Ha).
Defined.

Lemma custody_at_start_witness :
  ∃ ctx p', ensure_ready id 7 (home_process (home_config "net" "secret" false)) = (Ok (Some ctx), p')
    ∧ is_Some (ctx_authority ctx) ∧ key_custody (MkNode ctx (pr_env p').1 (MkSidecar (W := N) None (pr_env p').2)).
Proof.
  destruct (ensure_ready id 7 (home_process (home_config "net" "secret" false))) as [r p'] eqn:Hr.
  pose proof (f_equal (λ x, match x.1 with Ok (Some c) => bool_decide (is_Some (ctx_authority c)) | _ => false end) Hr) as Hb.
  vm_compute in Hb. destruct r as [[ctx|]|]; [|discriminate..]. exists ctx, p'. split; [done|]. split.
  - destruct ctx as [[a|] ? ? ? ? ? ? ? ? ? ? ? ? ?]; [exists a; reflexivity|discriminate].
  - destruct (custody_at_start id 7 (home_process (home_config "net" "secret" false)) Publisher_new (home_files, 2000%N) ctx
      (home_files, 2000%N) (home_separate _ _ _)) as [_ Hc].
    apply Hc; [constructor|reflexivity|exact Hr].
Defined.

Lemma unnamed_network_is_served_witness :
  ∃ ctx p', ensure_ready id 7 (home_process (home_config "" "" true)) = (Ok (Some ctx), p') ∧ ctx_network ctx = "".
Proof.
  destruct (Store.load_or_create (path_of "./state.toml") "" ∅ home_files) as [[store|e] fs1] eqn:Hs;
    [|vm_compute in Hs; discriminate].
  destruct (from_config ex_admin_keys true) as [keys|e] eqn:Hk; [|vm_compute in Hk; discriminate].
  destruct (unnamed_network_is_served id 7 (home_process (home_config "" "" true)) Publisher_new (home_files, 0%N) store fs1 keys)
    as (_ & ctx & p' & Hr & _ & Hn & _);
    [reflexivity|reflexivity|vm_compute; reflexivity|exact Hk|reflexivity|reflexivity|vm_compute; reflexivity|exact Hs|].
  exists ctx, p'. split; [exact Hr|exact Hn].
Defined.
End process_examples.
