(* ===== verification/StartProps.v ===== *)
(** * How a node starts and joins

    Properties of [RaftRuntime::start], of the bootstrap of a cluster and of the
    attempt to join one. *)
From S2P Require Import Prelude Fsutil Crypto Authority Replay Store Types StateMachine RaftStorage Transport AdminV2.
From S2P Require Import Config Join Seed Protocol Admin Replicate PasswordJoin Context Publisher Sync Service ServiceProps.
From S2P Require Import Runtime Members RuntimeProps.

(** ** The configured members *)

Section config_members.
Context `{CR : Crypto}.

Definition member_id (m : ClusterMemberConfig) : NodeId := node_id_from_peer_id (cm_peer_id m).

Lemma load_members_Ok whoami members ids b v ids' b' v' :
  load_members whoami members ids b v = Ok (ids', b', v') →
  NoDup (member_id <$> members) ∧ (∀ m, m ∈ members → member_id m ∉ ids)
  ∧ (∀ m, m ∈ members → cm_peer_id m ≠ "" ∧ ∃ k, parse_verifying_key (cm_identity_key m) = Ok k)
  ∧ (∀ i, i ∈ ids' ↔ i ∈ ids ∨ i ∈ member_id <$> members)
  ∧ (b' = true ↔ b = true ∨ whoami ∈ cm_peer_id <$> members).
Proof.
  revert ids b v. induction members as [|m members IH]; intros ids b v; cbn [load_members].
  { intros [= <- <- <-]. split_and!; [apply NoDup_nil_2|set_solver..]. }
  destruct (str_is_empty (cm_peer_id m)) eqn:He; [done|]. case_bool_decide as Hid; [done|].
  unfold add_node. destruct (parse_verifying_key (cm_identity_key m)) as [k|e] eqn:Hk; [|done].
  intros (Hnd & Hnew & Hok & Hids & Hb)%IH. apply str_is_empty_false in He.
  split_and!.
  - rewrite fmap_cons. apply NoDup_cons. split; [|done]. intros (m' & Heq & Hin)%list_elem_of_fmap.
    apply Hnew in Hin. unfold member_id in *. set_solver.
  - intros m' [->|Hin]%elem_of_cons; [done|]. apply Hnew in Hin. set_solver.
  - intros m' [->|Hin]%elem_of_cons; [by eauto|by auto].
  - intros i. rewrite Hids, fmap_cons, elem_of_cons. unfold member_id at 1. set_solver.
  - rewrite Hb, orb_true_iff, bool_decide_eq_true, fmap_cons, elem_of_cons. naive_solver.
Qed.

Lemma add_config_members_Ok members map map' : add_config_members members map = Ok map' →
  NoDup (member_id <$> members) ∧ (∀ m, m ∈ members → map !! member_id m = None)
  ∧ ∀ i node, map' !! i = Some node ↔ map !! i = Some node
      ∨ ∃ m, m ∈ members ∧ i = member_id m ∧ node = MkRaftNode (cm_peer_id m) (cm_identity_key m) "".
Proof.
  revert map. induction members as [|m members IH]; intros map; cbn [add_config_members].
  { intros [= <-]. split_and!; [apply NoDup_nil_2|set_solver|]. set_solver. }
  do 3 (case_match; [done|]). destruct (map !! node_id_from_peer_id (cm_peer_id m)) eqn:Hm; [done|].
  intros (Hnd & Hnew & Hmap)%IH.
  assert (∀ m', m' ∈ members → member_id m' ≠ member_id m ∧ map !! member_id m' = None) as Hnew'.
  { intros m' Hin%Hnew. by apply lookup_insert_None in Hin as [? ?]. }
  split_and!.
  - rewrite fmap_cons. apply NoDup_cons. split; [|done]. intros (m' & Heq & Hin)%list_elem_of_fmap.
    by apply Hnew' in Hin as [? _].
  - intros m' [->|Hin]%elem_of_cons; [done|]. by apply Hnew'.
  - intros i node. rewrite Hmap, lookup_insert_Some. split.
    + intros [[[<- <-]|[_ ?]]|(m' & ? & ?)]; [right; exists m; set_solver|by left|right; exists m'; set_solver].
    + intros [Hi|(m' & [->|Hin]%elem_of_cons & -> & ->)]; [|by left; left|right; by eauto].
      left. right. split; [|done]. intros <-. congruence.
Qed.
End config_members.

(** ** The start *)

Section start.
Context `{CR : Crypto, JE : Codec Json RaftRpcEnvelope, JR : Codec Json RaftRpcReply}.
Context {RT : RaftTypes} `{CB : Codec Cbor RpcBody}.
Context {W : Type} `{WC : Clock W, WB : BackendClient W, RC : !RaftCore W, RN : Rng W, TM : Timer W, BG : Background W}.
Context `{C1 : Codec Cbor LogEntry, C2 : Codec Cbor LogId, C3 : Codec Cbor (option LogId), C4 : Codec Cbor Vote,
  C5 : Codec Cbor PolicyState, C6 : Codec Cbor StoredMembership, C7 : Codec Cbor SnapshotMeta}.

Lemma start_rpc_timeout_bounds h : (200 ≤ start_rpc_timeout h ≤ 10000)%N.
Proof. unfold start_rpc_timeout. lia. Qed.

Lemma boot_refresh_run {E} ru b r b' : boot_refresh (E := E) ru b = (r, b') →
  ∃ v, r = Ok (set_verifier ru v).
Proof.
  unfold boot_refresh. destruct (refresh_verifier_from_metrics (ru, bt_world b)) as [x [ru1 w1]] eqn:Hr.
  apply keeps_refresh in Hr as [v Hv]. cbn in Hv. intros [= <- <-]. exists v. by rewrite Hv.
Qed.

(** C27: a node with a bad configuration does not start.  When [RaftRuntime::start]
    returns a runtime, the cluster mode is on, the records are renewed before they
    expire, some administrator key is a root key; the node's id is the one derived
    from the peer id that the network knows it by, and is not zero; the configured
    members have peer ids, readable keys and ids that are all different, and an id
    equal to the node's own only where the node itself is listed; and the time limit
    of the internal calls is between 200 and 10000 milliseconds. *)
Theorem start_fail_closed config client b ru b' :
  runtime_start config client b = (Ok ru, b') →
  let cluster := cf_cluster config in
  let configured := cl_voters cluster ++ cl_learners cluster in
  cl_enabled cluster = true
  ∧ (0 < cf_renew_secs config < cf_expires_secs config)%N
  ∧ (∃ v kid key, from_config (cf_admin_keys config) true = Ok v ∧ av_keys v !! kid = Some (key, Root))
  ∧ ru_node_id ru = node_id_from_peer_id (ru_peer_id ru) ∧ ru_node_id ru ≠ 0%N
  ∧ NoDup (member_id <$> configured)
  ∧ (∀ m, m ∈ configured → cm_peer_id m ≠ "" ∧ ∃ k, parse_verifying_key (cm_identity_key m) = Ok k)
  ∧ (ru_node_id ru ∈ member_id <$> configured → ru_peer_id ru ∈ cm_peer_id <$> configured)
  ∧ (200 ≤ ru_rpc_timeout ru ≤ 10000)%N ∧ ru_client ru = client ∧ ru_cluster_id ru = cl_cluster_id cluster.
Proof.
  intros H cluster configured. unfold runtime_start in H. fold cluster configured in H.
  destruct (cl_enabled cluster) eqn:Hen; [|done]. cbn [negb] in H.
  destruct ((cf_renew_secs config =? 0)%N || _) eqn:Hren; [done|].
  apply orb_false_iff in Hren as [Hr1%N.eqb_neq Hr2%N.leb_gt].
  apply st_bind_Ok in H as (v & b1 & [= Hv%map_err_Ok <-] & H).
  apply st_bind_Ok in H as (whoami & b2 & _ & H). destruct (N.eqb_spec (node_id_from_peer_id whoami) 0) as [|Hz]; [done|].
  do 4 (apply st_bind_Ok in H as (? & ? & _ & H)).
  apply st_bind_Ok in H as ([[ids mine] vf] & b3 & [= Hload <-] & H).
  destruct (bool_decide _ && negb mine) eqn:Hcol; [done|].
  do 7 (apply st_bind_Ok in H as (? & ? & _ & H)).
  apply boot_refresh_run in H as [vf' [= ->]]. cbn.
  apply load_members_Ok in Hload as (Hnd & _ & Hok & Hids & Hmine).
  apply from_config_exact in Hv as Hroot. destruct Hroot as (_ & _ & _ & Hroot).
  destruct (Hroot eq_refl) as (kid & key & Hk).
  split_and!; try done; [lia|by exists v, kid, key| |apply start_rpc_timeout_bounds..].
  intros Hin. rewrite bool_decide_eq_true_2 in Hcol by (apply Hids; by right).
  destruct mine; [|done]. by destruct (proj1 Hmine eq_refl).
Qed.

(** ** The bootstrap *)

Context `{EL : !EventLog W}.

(** The configured voters, and the node itself where it is not one of them. *)
Definition first_voters (config : ClusterConfig) (local_id : NodeId) (local : RaftNode) (voters : gmap NodeId RaftNode) : Prop :=
  NoDup (member_id <$> cl_voters config)
  ∧ ∀ i node, voters !! i = Some node ↔
      (∃ m, m ∈ cl_voters config ∧ i = member_id m ∧ node = MkRaftNode (cm_peer_id m) (cm_identity_key m) "")
      ∨ i = local_id ∧ node = local ∧ local_id ∉ member_id <$> cl_voters config.

(** A cluster is founded once, by a node that was told to.  [bootstrap_if_enabled]
    asks for an initialisation at most once, and only when the configuration says so
    and the library has reported that it holds no state; the voters it asks for are
    exactly the configured ones with the ids of their peers, all different, together
    with the node itself.  It reports [true] only after such a request. *)
Theorem founded_once config local_id local w r w' :
  bootstrap_if_enabled config local_id local w = (r, w') →
  (events w' = events w ∧ r ≠ Ok true)
  ∨ ∃ voters, cl_bootstrap config = true ∧ (core_is_initialized w).1 = Ok false
      ∧ first_voters config local_id local voters ∧ is_Some (voters !! local_id)
      ∧ events w' = events w ++ [EvInitialize voters].
Proof.
  unfold bootstrap_if_enabled. destruct (cl_bootstrap config); cbn [negb]; [|intros [= <- <-]; by left].
  pose proof (initialized_events w) as Hi.
  intros [(init & w1 & (r0 & H1 & Hr0)%st_map_err_run & H)|(x & (r0 & H1 & Hr0)%st_map_err_run & ->)]%st_bind_run;
    rewrite H1 in *; cbn [fst snd] in *; [|by left].
  symmetry in Hr0. apply map_err_Ok in Hr0. subst r0. destruct init; [injection H as <- <-; by left|].
  apply st_lift_run in H as [(voters & Hv & H)|(x & _ & -> & ->)]; [|by left].
  apply add_config_members_Ok in Hv as (Hnd & _ & Hv).
  set (all := match voters !! local_id with Some _ => voters | None => <[local_id := local]> voters end) in *.
  assert (first_voters config local_id local all) as Hall.
  { split; [done|]. assert (local_id ∈ member_id <$> cl_voters config ↔ is_Some (voters !! local_id)) as Hin.
    { rewrite list_elem_of_fmap. split.
      - intros (m & -> & Hm). eexists. apply Hv. by eauto.
      - intros [node [Hl|(m & ? & ? & _)]%Hv]; [by rewrite lookup_empty in Hl|by eauto]. }
    intros i node. rewrite Hin. subst all. destruct (voters !! local_id) as [old|] eqn:Hl.
    - rewrite Hv, lookup_empty. naive_solver.
    - rewrite lookup_insert_Some, Hv, lookup_empty. unfold is_Some. naive_solver. }
  case_bool_decide as Hem.
  { exfalso. subst all. destruct (voters !! local_id) eqn:Hl; [by rewrite Hem, lookup_empty in Hl|].
    by apply insert_non_empty in Hem. }
  right. exists all. split_and!; [done..| |].
  - subst all. destruct (voters !! local_id) eqn:Hl; [by rewrite Hl|by rewrite lookup_insert_eq].
  - pose proof (initialize_events all w1) as He. rewrite Hi in He. revert H. unfold mbind, ST_bind, st_map_err.
    destruct (core_initialize all w1) as [[]]; cbn; by intros [= <- <-].
Qed.
End start.

(** ** Joining *)

Section joining.
Context `{CR : Crypto, CT : Codec Cbor JoinTokenSigned, CJ : Codec Cbor JoinSigned, JT : Codec Json JoinToken,
  JQ : Codec Json RaftJoinRequest, JP : Codec Json RaftJoinResponse}.
Context {RT : RaftTypes}.
Context {W : Type} `{WC : Clock W, WB : BackendClient W, RC : !RaftCore W, RN : Rng W, TM : Timer W, BG : Background W}.
Context `{EL : !EventLog W}.

Lemma parse_nodes_dom nodes acc m id : parse_nodes nodes acc = Ok m →
  is_Some (m !! id) ↔ is_Some (acc !! id) ∨ id ∈ nodes.*1.
Proof.
  revert acc. induction nodes as [|[i key] nodes IH]; intros acc; cbn [parse_nodes].
  { intros [= ->]. set_solver. }
  intros (k & _ & H)%bind_Ok. apply IH in H. rewrite H, fmap_cons, elem_of_cons. cbn [fst].
  destruct (decide (i = id)) as [->|Hne]; [rewrite lookup_insert_eq|rewrite lookup_insert_ne by done]; naive_solver.
Qed.

(** An answer that admits the node [ru], and the table of keys it leads to. *)
Definition admitted (ru : Runtime) (network : string) (ru' : Runtime) : Prop :=
  ∃ response own keys, jr_ok response = true ∧ jr_cluster_id response = ru_cluster_id ru
    ∧ jr_network response = network
    ∧ (own = [] ∨ own = [(ru_node_id ru, ik_public_key_b64 (ru_identity ru))])
    ∧ parse_nodes (((λ m, (mi_node_id m, mi_identity_key m)) <$> jr_members response) ++ own) ∅ = Ok keys
    ∧ is_Some (keys !! ru_node_id ru) ∧ ru' = set_verifier ru (set_keys (ru_verifier ru) keys).

Lemma join_answer_admits ru network raw nodes keys : join_answer ru network raw = Ok nodes →
  parse_nodes nodes ∅ = Ok keys → admitted ru network (set_verifier ru (set_keys (ru_verifier ru) keys)).
Proof.
  unfold join_answer. intros (response & _ & H)%bind_Ok Hk.
  destruct (jr_ok response) eqn:Hok; [|done]. cbn [negb] in H. destruct (_ || _) eqn:Hcn; [done|].
  apply orb_false_iff in Hcn as [Hc Hn]. injection H as <-. bool_tests.
  eexists response, _, keys. split_and!; [done..| |exact Hk| |done].
  - case_match; auto.
  - apply (parse_nodes_dom _ _ _ (ru_node_id ru)) in Hk. apply Hk. right. rewrite fmap_app, elem_of_app.
    destruct (existsb _ _) eqn:Hex; [left|right; set_solver].
    apply existsb_exists in Hex as ([i k] & Hin%list_elem_of_In & Hi%N.eqb_eq). cbn in Hi. subst i.
    apply list_elem_of_fmap. by exists (ru_node_id ru, k).
Qed.

Lemma join_through_run payload network last candidates ru w r s :
  join_through payload network last candidates (ru, w) = (r, s) →
  ∃ peers, peers `prefix_of` candidates
    ∧ events s.2 = events w ++ ((λ p, EvRequest p payload) <$> peers)
    ∧ match r with Ok joined => joined = true ∧ admitted ru network s.1 | Err _ => s.1 = ru end.
Proof.
  revert last w. induction candidates as [|peer candidates IH]; intros last w; cbn [join_through].
  { intros [= <- <-]. exists []. by rewrite app_nil_r. }
  assert (∀ last w1, events w1 = events w ++ [EvRequest peer payload] →
    join_through payload network last candidates (ru, w1) = (r, s) →
    ∃ peers, peers `prefix_of` peer :: candidates
      ∧ events s.2 = events w ++ ((λ p, EvRequest p payload) <$> peers)
      ∧ match r with Ok joined => joined = true ∧ admitted ru network s.1 | Err _ => s.1 = ru end) as Hnext.
  { intros last' w1 Hw1 (peers & Hpre & He & Hr)%IH. exists (peer :: peers). split_and!; [by apply prefix_cons| |done].
    by rewrite He, Hw1, <-app_assoc. }
  assert (∀ w1 : W, events w1 = events w ++ [EvRequest peer payload] →
    [peer] `prefix_of` peer :: candidates ∧ events w1 = events w ++ ((λ p, EvRequest p payload) <$> [peer])) as Hone.
  { intros w1 ->. split; [|done]. by exists candidates. }
  destruct (service_request peer payload (ru, w)) as [[raw|e] [ru1 w1]] eqn:Hreq;
    apply service_request_run in Hreq as [Hru He]; cbn [fst snd] in *; subst ru1; [|by apply Hnext].
  destruct (join_answer ru network raw) as [nodes|e] eqn:Hans; [|by apply Hnext].
  unfold mbind, ST_bind, st_map_err, on_verifier, replace_nodes.
  destruct (parse_nodes nodes ∅) as [keys|e] eqn:Hk; intros [= <- <-]; exists [peer].
  - destruct (Hone _ He). split_and!; [done..|]. by eapply join_answer_admits.
  - destruct (Hone _ He). split_and!; [done..|]. by destruct ru as [? [] ? ? ? ? ? ? ?].
Qed.

Lemma elem_of_dedup l p : p ∈ dedup l ↔ p ∈ l.
Proof.
  induction l as [|a [|b l] IH]; [done..|]. cbn [dedup] in *. case_bool_decide as Hab; [subst|]; set_solver.
Qed.
Lemma elem_of_join_candidates configured discovered me p :
  p ∈ join_candidates configured discovered me ↔ p ≠ me ∧ (p ∈ configured ∨ p ∈ discovered).
Proof.
  unfold join_candidates, sort_strings. rewrite elem_of_dedup, merge_sort_Permutation, list_elem_of_filter. set_solver.
Qed.

(** The request a node makes for itself, signed with its own identity key. *)
Definition own_request (ru : Runtime) (config : ServiceConfig) (req : RaftJoinRequest) : Prop :=
  ∃ token nonce now, sign_join_request (ru_identity ru)
    (MkRaftJoinRequest RAFT_JOIN_OP RAFT_JOIN_VERSION (ru_cluster_id ru) (cf_network config) token (ru_node_id ru)
       (ru_peer_id ru) (ik_public_key_b64 (ru_identity ru)) (sk_public_b64 (ru_x25519 ru)) (b64url_encode nonce) now "" "")
    = Ok req.

Lemma read_join_token_files cluster fs t fs' : read_join_token cluster fs = (t, fs') → fs_files fs' = fs_files fs.
Proof.
  unfold read_join_token. destruct (negb _); [|by destruct (negb _); intros [= _ <-]].
  unfold fs_read_to_string, mbind, ST_bind. pose proof (fs_read_files (path_of (cl_join_token_path cluster)) fs) as Hf.
  destruct (fs_read _ fs) as [[text|e] fs1]; cbn [snd] in Hf; [|by intros [= _ <-]].
  destruct (utf8_valid text); by intros [= _ <-].
Qed.

(** What an attempt to join does.  [try_join] changes no file.  A node that
    already has a Raft state, or has no token, sends nothing.  Otherwise it sends one
    and the same request, for its own ids and keys and signed with its identity key,
    to other peers one after the other.  Its table of keys is replaced only when it
    reports success, by the keys of the members in an answer for this cluster and
    network, with its own key added when the answer lacks it; otherwise the runtime
    stays as it was. *)
Theorem join_attempt config fs ru w r fs' ru' w' :
  try_join config (fs, (ru, w)) = (r, (fs', (ru', w'))) →
  fs_files fs' = fs_files fs
  ∧ ((events w' = events w ∧ ru' = ru ∧ r ≠ Ok true)
     ∨ (core_is_initialized w).1 = Ok false
       ∧ ∃ req payload peers, own_request ru config req ∧ encode_to Json req = Ok payload ∧ ru_peer_id ru ∉ peers
           ∧ events w' = events w ++ ((λ p, EvRequest p payload) <$> peers)
           ∧ match r with Ok joined => joined = true ∧ admitted ru (cf_network config) ru' | Err _ => ru' = ru end).
Proof.
  unfold try_join, env_call. pose proof (initialized_events w) as Hi.
  destruct (core_is_initialized w) as [[init|e] w1]; cbn [fst snd] in *; [|intros [= <- <- <- <-]; by eauto 10].
  destruct init; [intros [= <- <- <- <-]; by eauto 10|].
  destruct (read_join_token (cf_cluster config) fs) as [t fs1] eqn:Ht. pose proof (read_join_token_files _ _ _ _ Ht) as Hf.
  destruct t as [token|]; [|intros [= <- <- <- <-]; by eauto 10].
  pose proof (discover_events (ru_client ru) (ru_service ru) w1) as Hd. cbn [fst snd].
  destruct (client_discover_providers (ru_client ru) (ru_service ru) w1) as [found w2]. cbn [snd] in Hd. rewrite Hi in Hd.
  case_bool_decide as Hne; [intros [= <- <- <- <-]; by eauto 10|].
  pose proof (random_events 16 w2) as Hr. destruct (random_bytes 16 w2) as [nonce w3].
  pose proof (now_events w3) as Hn. destruct (now_unix w3) as [now w4]. cbn [snd] in Hr, Hn. rewrite Hr, Hd in Hn.
  destruct (((_ ≫= _) : ST (Runtime * W) string bool) (ru, w4)) as [r0 [ru0 w0]] eqn:Hrun. intros [= -> <- -> ->]. split; [done|].
  apply st_lift_run in Hrun as [(req & Hreq%map_err_Ok & H)|(e & _ & -> & [= -> ->])]; [|by left].
  apply st_lift_run in H as [(payload & Hp & H)|(e & _ & -> & [= -> ->])]; [|by left].
  apply join_through_run in H as (peers & Hpre & He & Hres). right. split; [done|]. cbn [fst snd] in *.
  exists req, payload, peers. split_and!; [by exists token, nonce, now|done| |by rewrite He, Hn|done].
  intros Hin. destruct Hpre as [rest Hpre].
  assert (ru_peer_id ru ∈ peers ++ rest) as Hin' by set_solver. rewrite <-Hpre in Hin'.
  by apply elem_of_join_candidates in Hin' as [? _].
Qed.
End joining.
