(* ===== verification/Serve.v ===== *)
(** * The process that serves: [main] of [src/src/main.rs]

    After the start (of [Process]) the process listens: a loop waits for the next
    connection or for a signal, a watchdog ends a sidecar that is not ready in time,
    and the task of a connection makes the sidecar ready and starts its Raft runtime.
    A run is a sequence of events.  What a connection does after that is modelled in
    [Connection], the loop of the publisher in [Publisher]. *)
From S2P Require Import Prelude Text Fsutil Crypto Authority Replay Store Types StateMachine RaftStorage Transport AdminV2.
From S2P Require Import Config Log Join Seed Protocol Admin Replicate PasswordJoin Context Publisher Sync Service.
From S2P Require Import Runtime Members Process.

(** ** The warnings of the audit: [src/src/security.rs] *)

(** [{:04o}]. *)
Fixpoint octal (digits : nat) (n : N) : string :=
  match digits with
  | O => ""
  | S k => octal k (n / 8)%N +:+ pretty (n mod 8)%N
  end.
Fixpoint octal_width (fuel : nat) (n : N) : nat :=
  match fuel with O => O | S fuel => if (n =? 0)%N then O else S (octal_width fuel (n / 8)%N) end.
(** A 32-bit number has at most 11 octal digits. *)
Definition octal4 (n : N) : string := octal (Nat.max 4 (octal_width 11 n)) n.

Definition issue_message (i : PermissionIssue) : string :=
  is_label i +:+ "=" +:+ is_path i +:+ " mode=" +:+ octal4 (is_mode i) +:+ " expected=" +:+ is_expected i.
Definition permission_warning (i : PermissionIssue) : LogStruct :=
  MkLogStruct Warning "文件权限过宽"
    (issue_message i +:+ "；请执行 chmod " +:+ (if bool_decide (is_expected i = "0700") then "0700" else "0600") +:+ " "
     +:+ is_path i).
Definition audit_config_permissions (st : Stat) (env : Env) (c : ServiceConfig) : list LogStruct :=
  permission_warning <$> audit_config st env c.

(** ** The loop *)

(** The branch of a [select!] whose pattern does not match is out of that
    [select!]: after an error of [accept] the loop waits for the signals only. *)
Inductive MainLoop := LoopWaiting (accepting : bool) | LoopEnded (code : N).
Global Instance MainLoop_eq_dec : EqDecision MainLoop.
Proof. solve_decision. Defined.

Section serve.
Context `{CR : Crypto, CO : Coset, CD : Codec Cbor JoinSecret, JS : Codec Json JoinRequest, JD : Codec Json JoinResponse}.
Context `{TS : Codec Toml StoreSnapshot, CV : Codec Toml toml, CF : Codec Toml ServiceConfig}.
Context `{JE : Codec Json RaftRpcEnvelope, JR : Codec Json RaftRpcReply}.
Context {RT : RaftTypes} `{CB : Codec Cbor RpcBody, CVR : Codec Cbor VoteResponse, CA : Codec Cbor AppendEntriesResponse,
  CN : Codec Cbor InstallSnapshotResponse}.
Context `{CT : Codec Cbor JoinTokenSigned, CJ : Codec Cbor JoinSigned, JT : Codec Json JoinToken,
  JQ : Codec Json RaftJoinRequest, JP : Codec Json RaftJoinResponse}.
Context {W : Type} `{WC : Clock W, WB : BackendClient W, RC : !RaftCore W, RN : Rng W, TM : Timer W}.
Context `{C1 : Codec Cbor LogEntry, C2 : Codec Cbor LogId, C3 : Codec Cbor (option LogId), C4 : Codec Cbor Vote,
  C5 : Codec Cbor PolicyState, C6 : Codec Cbor StoredMembership, C7 : Codec Cbor SnapshotMeta}.
Context (uuid_text : string → string) (env : Env).

Record Server := MkServer {
  sv_process : Process (W := W);
  sv_loop : MainLoop;
  sv_watchdog : option N;      (** when the watchdog looks, until it has *)
  sv_shutdown : bool;          (** what the background loops are told *)
  sv_connections : list Conn;
}.

Definition watchdog_ms (config : ServiceConfig) : N := (N.max (cf_join_timeout_secs config) 1 + 2) * 1000.

(** Up to the loop: a server, or the exit code.  A panic of [main] exits with 101.
    [bind] and [signals] are what the two calls return. *)
Definition halted (h : Halt) : N := match h with HaltExit _ => 1 | HaltPanic _ => 101 end.
Definition main_start (bind signals : result IoError unit) (db : Db) (s : Fs * W) : result N Server :=
  let '(fs, w) := s in
  match load_or_create_default env fs with
  | (Err _, _) => Err 1%N
  | (Ok config, fs) =>
      match initial_context uuid_text config Publisher_new (fs, w) with
      | (Err h, _) => Err (halted h)
      | (Ok ctx, (fs, w)) =>
          let '(start, w) := instant w in
          let process := MkProcess config Publisher_new ctx None start db (fs, w) in
          let '(watchdog, process) :=
            if negb (str_is_empty (cf_network config)) && negb (is_ready process) then
              let '(now, w) := instant w in (Some (now + watchdog_ms config)%N, set_env process (fs, w))
            else (None, process) in
          match bind ;; signals with
          | Err _ => Err 1%N
          | Ok _ => Ok (MkServer process (LoopWaiting true) watchdog false [])
          end
      end
  end.

Definition set_loop (l : MainLoop) (s : Server) : Server :=
  MkServer (sv_process s) l (sv_watchdog s) (sv_shutdown s) (sv_connections s).
Definition set_process (p : Process (W := W)) (s : Server) : Server :=
  MkServer p (sv_loop s) (sv_watchdog s) (sv_shutdown s) (sv_connections s).
Definition set_watchdog (t : option N) (s : Server) : Server :=
  MkServer (sv_process s) (sv_loop s) t (sv_shutdown s) (sv_connections s).

Inductive ServerEvent :=
  | SvAccept (client : Conn)       (** [accept] returns a connection *)
  | SvAcceptFailed                 (** [accept] returns an error *)
  | SvConnected (client : Conn)    (** the task of a connection, after the handshake *)
  | SvWatchdog                     (** the watchdog's time is up *)
  | SvSignal                       (** Ctrl-C or SIGTERM *)
  | SvTime (ms : N).               (** time passes *)

(** A connection is handed to a task of its own. *)
Definition accept_turn (client : Conn) (s : Server) : Server :=
  match sv_loop s with
  | LoopWaiting true =>
      MkServer (sv_process s) (LoopWaiting true) (sv_watchdog s) (sv_shutdown s) (sv_connections s ++ [client])
  | _ => s
  end.
Definition accept_failed (s : Server) : Server :=
  match sv_loop s with LoopWaiting true => set_loop (LoopWaiting false) s | _ => s end.
(** The loop ends, and [main] returns. *)
Definition signalled (s : Server) : Server :=
  MkServer (sv_process s) (LoopEnded 0) (sv_watchdog s) true (sv_connections s).
(** The main task of a connection, until it serves: a panic is the task's own. *)
Definition connection_turn (client : Conn) (s : Server) : Server :=
  match ensure_ready uuid_text client (sv_process s) with
  | (Ok (Some _), p) => set_process (ensure_raft client p) s
  | (Ok None, p) => set_process p s
  | (Err (HaltExit _), p) => set_loop (LoopEnded 1) (set_process p s)
  | (Err (HaltPanic _), p) => set_process p s
  end.
Definition watchdog_turn (s : Server) : Server :=
  match sv_watchdog s with
  | None => s
  | Some deadline =>
      let '(fs, w) := pr_env (sv_process s) in
      let '(now, w) := instant w in
      let s := set_process (set_env (sv_process s) (fs, w)) s in
      if (now <? deadline)%N then s
      else if is_ready (sv_process s) then set_watchdog None s
      else set_loop (LoopEnded 1) s
  end.
Definition time_passes (ms : N) (s : Server) : Server :=
  let '(fs, w) := pr_env (sv_process s) in set_process (set_env (sv_process s) (fs, sleep ms w)) s.

Definition serve_step (e : ServerEvent) (s : Server) : Server :=
  match sv_loop s with
  | LoopEnded _ => s
  | LoopWaiting _ =>
      match e with
      | SvAccept client => accept_turn client s
      | SvAcceptFailed => accept_failed s
      | SvConnected client => if bool_decide (client ∈ sv_connections s) then connection_turn client s else s
      | SvWatchdog => watchdog_turn s
      | SvSignal => signalled s
      | SvTime ms => time_passes ms s
      end
  end.
Definition serve_run (es : list ServerEvent) (s : Server) : Server := foldl (λ s e, serve_step e s) s es.
End serve.
