(* ===== verification/ServeProps.v ===== *)
(** * Properties of the process that serves

    A sidecar that is not ready in time is stopped, and one that is ready stays so;
    how the process ends; what one error of [accept] does. *)
From S2P Require Import Prelude Text Fsutil Crypto Authority Replay Store Types StateMachine RaftStorage Transport AdminV2.
From S2P Require Import Config Log Join Seed Protocol Admin Replicate PasswordJoin Context Publisher Sync Service.
From S2P Require Import Runtime Members Process Serve.

Section serve_props.
Context `{CR : Crypto, CO : Coset, CD : Codec Cbor JoinSecret, JS : Codec Json JoinRequest, JD : Codec Json JoinResponse}.
Context `{TS : Codec Toml StoreSnapshot, CV : Codec Toml toml, CF : Codec Toml ServiceConfig}.
Context `{JE : Codec Json RaftRpcEnvelope, JR : Codec Json RaftRpcReply}.
Context {RT : RaftTypes} `{CB : Codec Cbor RpcBody, CVR : Codec Cbor VoteResponse, CA : Codec Cbor AppendEntriesResponse,
  CN : Codec Cbor InstallSnapshotResponse}.
Context `{CT : Codec Cbor JoinTokenSigned, CJ : Codec Cbor JoinSigned, JT : Codec Json JoinToken,
  JQ : Codec Json RaftJoinRequest, JP : Codec Json RaftJoinResponse}.
Context {W : Type} `{WC : Clock W, WB : BackendClient W, RC : !RaftCore W, RN : Rng W, TM : Timer W}.
Context `{C1 : Codec Cbor LogEntry, C2 : Codec Cbor LogId, C3 : Codec Cbor (option LogId), C4 : Codec Cbor Vote,
  C5 : Codec Cbor PolicyState, C6 : Codec Cbor StoredMembership, C7 : Codec Cbor SnapshotMeta}.
Context (uuid_text : string → string) (env : Env).

Abbreviation serve_step := (serve_step uuid_text) (only parsing).
Abbreviation serve_run := (serve_run uuid_text) (only parsing).

(** ** What a connection's task keeps *)

(** The configuration stays, and a context is never given up. *)
Definition stays_ready (p p' : Process (W := W)) : Prop :=
  pr_config p' = pr_config p ∧ (is_ready p = true → is_ready p' = true).
#[local] Instance stays_ready_preorder : PreOrder stays_ready.
Proof. split; [done|]. intros p q r [E1 H1] [E2 H2]. split; [congruence|auto]. Qed.

Lemma set_env_stays p s : stays_ready p (set_env p s).
Proof. done. Qed.
Lemma is_ready_Some (p : Process (W := W)) c : pr_ready p = Some c → is_ready p = true.
Proof. unfold is_ready. intros ->. by apply bool_decide_eq_true_2. Qed.
Lemma activate_stays authority store p r p' : activate uuid_text authority store p = (r, p') → stays_ready p p'.
Proof.
  unfold activate. destruct (build_context _ _ _ _ _ _) as [[ctx|e] s]; intros [= <- <-]; [|apply set_env_stays].
  split; [done|]. intros _. by eapply is_ready_Some.
Qed.
Lemma ensure_ready_stays client p r p' : ensure_ready uuid_text client p = (r, p') →
  stays_ready p p' ∧ ∀ ctx, r = Ok (Some ctx) → is_ready p' = true.
Proof.
  unfold ensure_ready. destruct (pr_ready p) as [ctx|] eqn:Hr.
  { intros [= <- <-]. split; [done|]. intros _ _. by eapply is_ready_Some. }
  match goal with |- context [let '(found, s) := ?X in _] => destruct X as [[[authority store]|] s] end.
  2:{ intros [= <- <-]. split; [apply set_env_stays|done]. }
  intros [(ctx & p1 & H1 & H2)|(e & H1 & ->)]%st_bind_run; pose proof (activate_stays _ _ _ _ _ H1) as Hs.
  - injection H2 as <- <-. split; [by etrans; [apply set_env_stays|]|]. intros _ _. unfold activate in H1.
    destruct (build_context _ _ _ _ _ _) as [[ctx'|e] s']; [|done]. injection H1 as <- <-. by eapply is_ready_Some.
  - split; [by etrans; [apply set_env_stays|]|done].
Qed.
Lemma ensure_raft_stays client p : stays_ready p (ensure_raft client p).
Proof.
  unfold ensure_raft. destruct (negb _); [done|]. destruct (pr_ready p) as [ctx|] eqn:Hr; [|done].
  destruct (pr_runtime p); [done|]. destruct (pr_env p) as [fs w]. destruct (runtime_start _ _ _) as [[ru|e] b].
  - destruct (try_join _ _) as [r [fs' [ru' w']]]. split; [done|]. intros _. by eapply is_ready_Some.
  - split; [done|]. intros _. by eapply is_ready_Some.
Qed.

(** ** Runs *)

(** What holds of a server however long it runs: an unready one with a name is under
    the watchdog; its end is a signal, which is announced, or an exit with an error. *)
Record served (sv0 sv : Server (W := W)) : Prop := {
  se_stays : stays_ready (sv_process sv0) (sv_process sv);
  se_watched : cf_network (pr_config (sv_process sv)) ≠ "" → is_ready (sv_process sv) = true ∨ is_Some (sv_watchdog sv)
    ∨ ∃ code, sv_loop sv = LoopEnded code;
  se_watchdog : sv_watchdog sv = sv_watchdog sv0 ∨ sv_watchdog sv = None;
  se_end : match sv_loop sv with
           | LoopWaiting _ => sv_shutdown sv = false
           | LoopEnded code => (code = 0%N ∧ sv_shutdown sv = true) ∨ (code = 1%N ∧ sv_shutdown sv = false)
           end;
}.

Lemma served_process sv0 sv p l : served sv0 sv → (∃ b, sv_loop sv = LoopWaiting b) → stays_ready (sv_process sv) p →
  l = sv_loop sv ∨ l = LoopEnded 1 → served sv0 (set_loop l (set_process p sv)).
Proof.
  intros [H1 H2 H3 H4] [b Hb] Hp Hl. rewrite Hb in H4, Hl. split; simpl; [by etrans| |done|].
  - destruct Hp as [Hc Hr]. rewrite Hc. intros Hn. destruct (H2 Hn) as [?|[?|[code ?]]]; [auto|auto|congruence].
  - by destruct Hl as [-> | ->]; [|right].
Qed.

Lemma step_served sv0 sv e : served sv0 sv → served sv0 (serve_step e sv).
Proof.
  intros Hs. unfold Serve.serve_step. destruct (sv_loop sv) as [b|code] eqn:Hl; [|done].
  assert (∃ b, sv_loop sv = LoopWaiting b) as Hw by (by exists b).
  assert (∀ p, stays_ready (sv_process sv) p → served sv0 (set_process p sv)) as Hp.
  { intros p H. pose proof (served_process _ _ p (sv_loop sv) Hs Hw H ltac:(by left)) as H'. by destruct sv. }
  destruct e as [client| |client| | |ms].
  - unfold accept_turn. rewrite Hl. destruct b; [|done]. destruct Hs as [H1 H2 H3 H4]. rewrite Hl in H2, H4. by split.
  - unfold accept_failed. rewrite Hl. destruct b; [|done]. destruct Hs as [H1 H2 H3 H4]. rewrite Hl in H2, H4. split; simpl; try done.
    intros Hn. destruct (H2 Hn) as [?|[?|[? [=]]]]; auto.
  - case_bool_decide; [|done]. unfold connection_turn. destruct (ensure_ready uuid_text client (sv_process sv)) as [r p] eqn:Hr.
    apply ensure_ready_stays in Hr as [Hr _]. destruct r as [[ctx|]|[title|message]].
    + apply Hp. etrans; [done|apply ensure_raft_stays].
    + by apply Hp.
    + apply (served_process sv0 sv p (LoopEnded 1)); auto.
    + by apply Hp.
  - unfold watchdog_turn. destruct (sv_watchdog sv) as [deadline|] eqn:Hd; [|done]. destruct (pr_env (sv_process sv)) as [fs w].
    destruct (instant w) as [now w']. destruct (now <? deadline)%N; [by apply Hp|].
    destruct (is_ready _) eqn:Hready; [|by apply (served_process sv0 sv _ (LoopEnded 1)); auto].
    destruct (Hp (set_env (sv_process sv) (fs, w')) (set_env_stays _ _)) as [H1 H2 H3 H4]. split; simpl in *; auto.
  - destruct Hs as [H1 H2 H3 H4]. split; simpl; try done; eauto 10.
  - unfold time_passes. destruct (pr_env (sv_process sv)) as [fs w]. by apply Hp.
Qed.
Lemma run_served sv0 sv es : served sv0 sv → served sv0 (serve_run es sv).
Proof. revert sv. induction es as [|e es IH]; intros sv Hs; simpl; [done|]. by apply IH, step_served. Qed.

Lemma started_served bind signals db s sv : main_start uuid_text env bind signals db s = Ok sv →
  served sv sv ∧ sv_loop sv = LoopWaiting true ∧ sv_connections sv = [].
Proof.
  unfold main_start. destruct s as [fs w]. destruct (load_or_create_default env fs) as [[config|e] fs1]; [|done].
  destruct (initial_context uuid_text config Publisher_new (fs1, w)) as [[ctx|h] [fs2 w2]]; [|done].
  destruct (instant w2) as [start w3]. destruct (negb (str_is_empty (cf_network config)) && negb (is_ready _)) eqn:Hn.
  - destruct (instant w3) as [now w4]. destruct (bind ≫= λ _, signals); [|done]. intros [= <-]. split; [|done].
    split; simpl; [done| |by left|done]. intros _. right; left. by eexists.
  - destruct (bind ≫= λ _, signals); [|done]. intros [= <-]. split; [|done]. split; simpl; [done| |by left|done].
    intros Hne. left. apply andb_false_iff in Hn as [Hn|Hn]; apply negb_false_iff in Hn; [by destruct (cf_network config)|done].
Qed.

(** C23: a sidecar that is not ready in time does not go on.  While the process
    listens for a named network it is ready or the watchdog that was set at the start
    is still to look; when the watchdog looks after its time, the process is ready or
    ends with an error; once ready it stays ready; and it ends with success only on a
    signal, which the background loops are told. *)
Theorem unready_process_is_stopped bind signals db s sv0 es :
  main_start uuid_text env bind signals db s = Ok sv0 →
  let sv := serve_run es sv0 in
  (sv_loop sv = LoopWaiting true ∨ sv_loop sv = LoopWaiting false → cf_network (pr_config (sv_process sv)) ≠ "" →
     is_ready (sv_process sv) = true ∨ (is_Some (sv_watchdog sv) ∧ sv_watchdog sv = sv_watchdog sv0))
  ∧ (∀ deadline, sv_watchdog sv = Some deadline → (deadline ≤ (instant (pr_env (sv_process sv)).2).1)%N →
       let sv' := serve_step SvWatchdog sv in
       (∃ code, sv_loop sv' = LoopEnded code) ∨ (is_ready (sv_process sv') = true ∧ sv_watchdog sv' = None))
  ∧ (∀ more, is_ready (sv_process sv) = true → is_ready (sv_process (serve_run more sv)) = true)
  ∧ (sv_loop sv = LoopEnded 0 → sv_shutdown sv = true).
Proof.
  intros Hstart sv. destruct (started_served _ _ _ _ _ Hstart) as (Hs0 & _ & _).
  pose proof (run_served sv0 sv0 es Hs0) as [H1 H2 H3 H4]. fold sv in H1, H2, H3, H4. split_and!.
  - intros Hl Hn. destruct (H2 Hn) as [?|[[d Hd]|[code Hc]]]; [by left| |destruct Hl; congruence].
    right. split; [by eexists|]. destruct H3; congruence.
  - intros deadline Hd Ht sv'. subst sv'. unfold Serve.serve_step. destruct (sv_loop sv) as [b|code] eqn:Hl; [|left; eauto].
    unfold watchdog_turn. rewrite Hd. destruct (pr_env (sv_process sv)) as [fs w]. simpl in Ht. destruct (instant w) as [now w'].
    simpl in Ht. rewrite (proj2 (N.ltb_ge _ _) Ht). destruct (is_ready _) eqn:Hr; [by right|left; simpl; eauto].
  - intros more Hr. assert (served sv sv) as Hsv.
    { split; [done|done|by left|done]. }
    by apply (se_stays _ _ (run_served sv sv more Hsv)).
  - intros Hl. rewrite Hl in H4. by destruct H4 as [[_ ?]|[? _]].
Qed.

(** One error of [accept] and the sidecar is deaf.  As long as [accept] succeeds
    every connection is handed to a task; after it has failed once (the process has no
    file descriptors left, say) the loop waits for nothing but a signal: whatever
    happens, no further connection is taken, though the process lives on. *)
Theorem accept_error_deafens sv es clients :
  sv_loop sv = LoopWaiting true →
  sv_connections (serve_run (SvAccept <$> clients) sv) = sv_connections sv ++ clients
  ∧ let sv' := serve_run (SvAcceptFailed :: es) sv in
    sv_connections sv' = sv_connections sv ∧ sv_loop sv' ≠ LoopWaiting true
    ∧ ((∀ e, e ∈ es → ∃ client ms, e = SvAccept client ∨ e = SvAcceptFailed ∨ e = SvTime ms) → sv_loop sv' = LoopWaiting false).
Proof.
  intros Hl. split.
  - revert sv Hl. induction clients as [|client clients IH]; intros sv Hl; simpl; [by rewrite app_nil_r|].
    assert (serve_step (SvAccept client) sv = MkServer (sv_process sv) (LoopWaiting true) (sv_watchdog sv) (sv_shutdown sv)
      (sv_connections sv ++ [client])) as -> by (unfold Serve.serve_step, accept_turn; by rewrite !Hl).
    rewrite IH by done. simpl. by rewrite <-app_assoc.
  - assert (serve_step SvAcceptFailed sv = set_loop (LoopWaiting false) sv) as Hstep
      by (unfold Serve.serve_step, accept_failed; by rewrite !Hl).
    cbv zeta. change (serve_run (SvAcceptFailed :: es) sv) with (serve_run es (serve_step SvAcceptFailed sv)). rewrite Hstep.
    assert (∀ es s, sv_loop s ≠ LoopWaiting true →
      sv_connections (serve_run es s) = sv_connections s ∧ sv_loop (serve_run es s) ≠ LoopWaiting true) as Hdeaf.
    { clear. induction es as [|e es IH]; intros s Hs; [done|]. simpl.
      assert (sv_connections (serve_step e s) = sv_connections s ∧ sv_loop (serve_step e s) ≠ LoopWaiting true) as [Hc Hw].
      { unfold Serve.serve_step. destruct (sv_loop s) as [[]|code] eqn:El; [done| |by rewrite El].
        destruct e as [client| |client| | |ms]; unfold accept_turn, accept_failed, connection_turn, watchdog_turn, time_passes;
          rewrite ?El; repeat case_match; simpl; rewrite ?El; by split. }
      rewrite <-Hc. by apply IH. }
    destruct (Hdeaf es (set_loop (LoopWaiting false) sv)) as [Hc Hw]; [done|]. split_and!; [exact Hc|exact Hw|].
    clear Hc Hw. assert (∀ s, sv_loop s = LoopWaiting false → (∀ e, e ∈ es → ∃ client ms, e = SvAccept client ∨ e = SvAcceptFailed ∨ e = SvTime ms) →
      sv_loop (serve_run es s) = LoopWaiting false) as Hwait; [|intros He; by apply Hwait].
    clear. induction es as [|e es IH]; intros s Hs He; [done|]. simpl. apply IH; [|intros; apply He; by constructor].
    destruct (He e) as (client & ms & [-> | [-> | ->]]); [by constructor|..]; unfold Serve.serve_step; rewrite Hs;
      unfold accept_turn, accept_failed, time_passes; rewrite ?Hs; [done..|]. by destruct (pr_env (sv_process s)).
Qed.
End serve_props.
