(* ===== verification/RuntimeExamples.v ===== *)
(** * A small cluster to try the runtime on

    A world with a leader and its members, whose network is a function from peer and
    message to the answer; it shows that the hypotheses of the theorems about the
    runtime can be met. *)
From S2P Require Import Prelude Fsutil Crypto Authority Replay Store Types StateMachine RaftStorage Transport AdminV2.
From S2P Require Import Config Join Seed Protocol Admin Replicate PasswordJoin Context Publisher Sync Service ServiceProps.
From S2P Require Import Runtime Members RuntimeProps SidecarProps Process StartProps Serve ServeProps.

Import Toy.

#[local] Instance lab_types : RaftTypes := MkRaftTypes N N N N N N.
#[local] Instance lab_body_eq_dec : EqDecision RpcBody := RaftRpcBody_eq_dec (V := N) (A := N) (B := N).
#[local] Instance lab_body_countable : Countable RpcBody := RaftRpcBody_countable (V := N) (A := N) (B := N).
#[local] Instance lab_body_codec : Codec Cbor RpcBody := countable_codec Cbor RpcBody.
#[local] Instance lab_vote_codec : Codec Cbor VoteResponse := countable_codec Cbor N.
#[local] Instance lab_append_codec : Codec Cbor AppendEntriesResponse := countable_codec Cbor N.
#[local] Instance lab_install_codec : Codec Cbor InstallSnapshotResponse := countable_codec Cbor N.
#[local] Instance lab_body_laws : CodecLaws Cbor RpcBody := countable_codec_laws Cbor RpcBody.
#[local] Instance lab_vote_laws : CodecLaws Cbor VoteResponse := countable_codec_laws Cbor N.
#[local] Instance lab_append_laws : CodecLaws Cbor AppendEntriesResponse := countable_codec_laws Cbor N.
#[local] Instance lab_install_laws : CodecLaws Cbor InstallSnapshotResponse := countable_codec_laws Cbor N.
#[local] Instance lab_vote_total : EncodeTotal Cbor VoteResponse := countable_codec_total Cbor N.
#[local] Instance lab_append_total : EncodeTotal Cbor AppendEntriesResponse := countable_codec_total Cbor N.
#[local] Instance lab_install_total : EncodeTotal Cbor InstallSnapshotResponse := countable_codec_total Cbor N.

Record Lab := MkLab {
  lb_metrics : Metrics; lb_events : list Event; lb_time : N; lb_net : string → string → result SidecarError string;
}.
Definition lab_step (w : Lab) (m : Metrics) (e : Event) : Lab := MkLab m (lb_events w ++ [e]) (lb_time w) (lb_net w).
Definition lab_note (w : Lab) (e : Event) : Lab := lab_step w (lb_metrics w) e.
Definition lab_members (w : Lab) (mb : Membership) : Metrics :=
  let m := lb_metrics w in
  MkMetrics (mt_state m) (mt_current_term m) (mt_current_leader m) mb (mt_last_applied m) (mt_last_log_index m).
Definition lab_leads (w : Lab) : bool := bool_decide (mt_state (lb_metrics w) = StLeader).
(** A change of membership: on the leader only. *)
Definition lab_change (e : Event) (f : Membership → Membership) (w : Lab) : result string unit * Lab :=
  if lab_leads w then (Ok (), lab_step w (lab_members w (f (mt_membership (lb_metrics w)))) e)
  else (Err "ForwardToLeader", lab_note w e).

#[local] Instance lab_core : RaftCore Lab := {|
  core_validate c := Ok c;
  core_storage_text _ := "storage";
  core_new _ _ _ _ _ w := (Ok (), w);
  core_metrics w := (lb_metrics w, w);
  core_state_machine _ := MkSm (MkSmInner (PolicyState_new "net") None StoredMembership_default) 0;
  core_client_write c w := (Ok (AdminResult "r1" 1 1 false (OutApplied None None false), MkLogId (MkLeaderId 1 1) 1),
                            lab_note w (EvWrite c));
  core_add_learner i node b :=
    lab_change (EvLearner i node b) (λ m, MkMembership (mb_configs m) (<[i := node]> (mb_nodes m)));
  core_change_voters X b := lab_change (EvVoters X b) (λ m, MkMembership [X] (mb_nodes m));
  core_remove_nodes X b :=
    lab_change (EvRemove X b) (λ m, MkMembership (mb_configs m) (filter (λ '(i, _), i ∉ X) (mb_nodes m)));
  core_is_initialized w := (Ok (bool_decide (mb_nodes (mt_membership (lb_metrics w)) ≠ ∅)), w);
  core_initialize v w := (Ok (), lab_step w (lab_members w (MkMembership [dom v] v)) (EvInitialize v));
  core_vote r w := (Ok (r + 1)%N, lab_note w (EvRpc (RpcVote r)));
  core_append_entries r w := (Ok r, lab_note w (EvRpc (RpcAppendEntries r)));
  core_install_snapshot r w := (Err "no snapshot", lab_note w (EvRpc (RpcInstallSnapshot r)));
  core_elect w := (Ok (), lab_note w (EvRpc RpcElect));
|}.
#[local] Instance lab_clock : Clock Lab := λ w, ((lb_time w / 1000)%N, w).
#[local] Instance lab_timer : Timer Lab := {|
  instant w := (lb_time w, w); sleep d w := MkLab (lb_metrics w) (lb_events w) (lb_time w + d) (lb_net w) |}.
#[local] Instance lab_rng : Rng Lab := λ n w, (pad n "random", w).
#[local] Instance lab_background : Background Lab := {| uptime_secs w := lb_time w; spawn_change _ _ w := w |}.
#[local] Instance lab_client : BackendClient Lab := {|
  client_add_key _ k _ _ w := (Ok (MkAddKeyResult true k), w);
  client_discover_providers _ _ w := (Ok ["peerA"], w);
  client_whoami _ w := (Ok "me", w);
  client_query_key _ _ w := (Err (sidecar_error "timeout" "no answer"), w);
  client_service_request_to_with_timeout _ _ p b _ w := (lb_net w p b, lab_note w (EvRequest p b));
|}.
#[local] Instance lab_timer_laws : TimerLaws Lab.
Proof. refine {| time := lb_time |}; intros; cbn; lia. Defined.
Lemma lab_change_events e f w : lb_events (lab_change e f w).2 = lb_events w ++ [e].
Proof. unfold lab_change. by destruct (lab_leads w). Qed.
#[local] Instance lab_log : EventLog Lab.
Proof. refine {| events := lb_events |}; intros; try done; apply lab_change_events. Defined.
Lemma lab_followers_refuse : followers_refuse (W := Lab).
Proof.
  intros w m w1 [= <- <-] Hs X b. cbn. unfold lab_change, lab_leads. rewrite bool_decide_eq_false_2 by done. by eauto.
Qed.

(** ** Two members that know each other *)

Definition lab_seed (i : N) : string := pad 32 ("node" +:+ pretty i).
Definition lab_node (i : N) : RaftNode :=
  MkRaftNode ("peer" +:+ pretty i) (ik_public_key_b64 (identity_from_seed (lab_seed i))) (sk_public_b64 ex_exchange).
Definition lab_runtime (me : N) (keys : gmap NodeId string) : Runtime :=
  MkRuntime (identity_from_seed (lab_seed me)) (MkRpcVerifier "c" me keys) "c" me ("peer" +:+ pretty me) "auth"
    ex_exchange 0 1000.
Definition lab_keys (ids : list N) : gmap NodeId string := list_to_map ((λ i, (i, ed_public (lab_seed i))) <$> ids).
Definition silence (peer payload : string) : result SidecarError string := Err (sidecar_error "timeout" "no answer").
(** Node 1 leads the voters 1 and 2 and the learner 3. *)
Definition lab_cluster (net : string → string → result SidecarError string) : Lab :=
  MkLab (MkMetrics StLeader 1 (Some 1%N)
           (MkMembership [{[1%N; 2%N]}] (list_to_map ((λ i, (i, lab_node i)) <$> [1; 2; 3]%N))) None None) [] 1000000 net.

Definition lab_conn : NetworkConnection :=
  MkNetworkConnection (MkNetworkFactory 0 1000 (identity_from_seed (lab_seed 1)) "c" 1 "auth") 2 (lab_node 2).
Definition lab_vote : RpcBody := RpcVote (7%N : VoteRequest).
Lemma lab_linked : linked lab_conn (MkRpcVerifier "c" 1 (lab_keys [2%N])) (lab_seed 1)
  (lab_runtime 2 (lab_keys [1%N])) (lab_seed 2).
Proof. by split; vm_compute. Qed.

Lemma remote_call_is_local_witness :
  ∃ payload raw, call_payload lab_conn lab_vote = Ok payload
    ∧ (handle_rpc payload (lab_runtime 2 (lab_keys [1%N]), lab_cluster silence)).1 = Ok raw
    ∧ ∀ w w', delivers lab_conn payload raw w w' →
        net_vote 7%N (MkRpcVerifier "c" 1 (lab_keys [2%N])) lab_conn w = (Ok 8%N, w').
Proof.
  destruct (call_payload lab_conn lab_vote) as [payload|] eqn:Hp; [|vm_compute in Hp; discriminate].
  destruct (proj1 (remote_call_is_local (RT := lab_types) _ _ _ _ _ payload (lab_cluster silence) lab_linked) 7%N Hp) as (raw & Hh & Hd).
  exists payload, raw. split_and!; [done|by rewrite Hh|].
  intros w w' (r & Hr & ->)%Hd. exact Hr.
Defined.

Lemma rpc_only_from_members_witness :
  ∃ payload, call_payload lab_conn lab_vote = Ok payload
    ∧ let '(r, (ru', w')) := handle_rpc payload (lab_runtime 2 (lab_keys [1%N]), lab_cluster silence) in
      events w' = [EvRpc lab_vote]
      ∧ ∃ from key, rv_keys (ru_verifier (lab_runtime 2 (lab_keys [1%N]))) !! from = Some key.
Proof.
  destruct (call_payload lab_conn lab_vote) as [payload|] eqn:Hp; [|vm_compute in Hp; discriminate].
  exists payload. split; [done|]. vm_compute in Hp. injection Hp as <-.
  match goal with |- context [handle_rpc ?p ?s] => destruct (handle_rpc p s) as [r [ru' w']] eqn:Hrun end.
  pose proof (λ Hw, rpc_only_from_members (RT := lab_types) (EL := lab_log) _ _ _ _ _ _ Hw Hrun) as Hok. vm_compute in Hrun. injection Hrun as <- <- <-.
  split; [reflexivity|]. destruct Hok as [_ [[_ [e [=]]]|(env & from & body & key & bytes & sig & _ & _ & _ & _ & Hk & _)]].
  - intros e He. vm_compute in He. injection He as <-. vm_compute. split; discriminate.
  - by exists from, key.
Defined.

(** ** Changes of membership *)


Lemma own_vote_not_given_up_witness :
  ∃ e, (demote_voter 1%N (lab_runtime 1 (lab_keys [1; 2; 3]%N), lab_cluster silence)).1 = Err e.
Proof.
  exact (proj1 (own_vote_not_given_up (RT := lab_types) (lab_runtime 1 (lab_keys [1; 2; 3]%N)) (lab_cluster silence)
    lab_followers_refuse)).
Defined.

(** ** The whole sidecar *)

#[local] Existing Instance toy_coset.
#[local] Instance lab_json A : Codec Json A | 100 := {| encode_to _ := Ok "{}"; decode_from _ := Err "not read" |}.
#[local] Instance lab_op_codec : Codec Json json := {|
  encode_to _ := Ok "{}"; decode_from op := Ok (JObj [("op", JStr op)]) |}.
#[local] Instance lab_no_value A : FromValue A | 100 := λ _, Err "not read".
#[local] Instance lab_no_json A : ToValue A | 100 := λ _, JNull.

Definition lab_ctx (authority : option Authority) : AuthContext :=
  set_authority
    (MkAuthContext None ["etc"; "authority.key"] (MkStore ["state"] "net" 1 ∅ ∅) (MkAdminAuth "" ReplayGuard_default)
       ex_admin_verifier (join_server_new "" true) (MkRepAuth "" ReplayGuard_default) Publisher_new true true "net" "auth"
       3600 1800) authority.
Definition lab_sidecar (c : AuthContext) (ru : Runtime) (w : Lab) : Node (Sidecar Lab) :=
  MkNode c (MkFs ∅ {[["etc"]]} 18 []) (MkSidecar (Some ru) w).

Lemma cluster_commands_authorised_witness :
  let n := lab_sidecar (lab_ctx None) (lab_runtime 1 (lab_keys [1%N])) (lab_cluster silence) in
  let n' := (sidecar_request (FA := parse_as (admin_request "create_service")) "create_service" None None n).2 in
  length (writes (nd_world n')) = 1
  ∧ ∃ cs, writes (nd_world n') = [] ++ cs ∧ Forall (authorised ex_admin_verifier) cs.
Proof.
  intros n n'. split; [vm_compute; reflexivity|].
  exact (cluster_commands_authorised (RT := lab_types) (EL := lab_log) (FA := parse_as (admin_request "create_service"))
    "create_service" None None n n' (sidecar_request (FA := parse_as (admin_request "create_service")) "create_service" None None n).1
    eq_refl (surjective_pairing _)).
Defined.

(** The leader's seed arrives at node 2. *)
Definition lab_delivery : SeedDeliveryRequest :=
  let target := lab_node 2 in
  let sealed := seal_seed (pad 32 "eph") (pad 12 "nonce") (identity_from_seed (lab_seed 1)) 1 "c" "net" 2 target (pad 32 "the seed") in
  MkSeedDeliveryRequest SEED_DELIVERY_OP
    match sealed with Ok e => e | Err _ => MkSeedEnvelope (MkSeedEnvelopeSigned 0 0 "" "" 0 "" "" "" "" "") "" end.


(** The leader promotes its learner, which acknowledges the seed. *)
Definition lab_id : N := node_id_from_peer_id "peer9".
Definition lab_spec : AdminMemberSpec := MkAdminMemberSpec lab_id "peer9" "" "".
Definition lab_promotion : AdminRequestV2 :=
  MkAdminRequestV2 2 "promote_voter" "" [] "alice" "r1" "n1" 1000 "" (Some lab_spec) None.
Definition lab_ack : SeedAck :=
  match sign_ack (identity_from_seed (lab_seed 9)) lab_id 1 true "" with Ok a => a | Err _ => MkSeedAck (MkSeedAckSigned 0 0 0 false "") "" end.
#[local] Instance lab_ack_codec : Codec Json SeedAck := {| encode_to _ := Ok "ack"; decode_from _ := Ok lab_ack |}.
Definition lab_leader : Node (Sidecar Lab) :=
  lab_sidecar (lab_ctx (Some (MkAuthority (pad 32 "the seed") "net" (net_hash "net"))))
    (lab_runtime 1 {[1%N := ed_public (lab_seed 1); lab_id := ed_public (lab_seed 9)]})
    (MkLab (MkMetrics StLeader 1 (Some 1%N)
       (MkMembership [{[1%N]}] {[1%N := lab_node 1; lab_id := lab_node 9]}) None None) [] 1000000 (λ _ _, Ok "ack")).

Lemma seed_before_vote_witness :
  let '(r, n') := member_promote lab_promotion lab_leader in
  r = Ok "{}" ∧ length (sent n') = 3
  ∧ ∃ es, sent n' = sent lab_leader ++ es
      ∧ promotion_trace (lab_runtime 1 {[1%N := ed_public (lab_seed 1); lab_id := ed_public (lab_seed 9)]})
          (nd_ctx lab_leader) lab_id r es.
Proof.
  destruct (member_promote lab_promotion lab_leader) as [r n'] eqn:Hrun. split_and!.
  - apply (f_equal (λ x, x.1)) in Hrun. cbn [fst] in Hrun. rewrite <-Hrun. vm_compute. reflexivity.
  - apply (f_equal (λ x, length (sent x.2))) in Hrun. cbn [snd] in Hrun. rewrite <-Hrun. vm_compute. reflexivity.
  - apply (seed_before_vote (RT := lab_types) lab_promotion lab_leader r n' _ lab_spec lab_id); [reflexivity..| |exact Hrun].
    vm_compute. reflexivity.
Defined.

(** ** A node that starts *)

#[local] Instance lab_option_codec : Codec Cbor (option LogId) := option_codec Cbor LogId.

Definition lab_config (bootstrap : bool) (token : string) : ServiceConfig :=
  MkServiceConfig "auth" 5100 "net" "./authority.key" "./state.toml" 3600 1200 "" ∅ "require" 30 5 false
    (MkClusterConfig true "c" bootstrap "id.key" "raft.redb" "x.key" token "" 500 1500 3000
       [MkClusterMemberConfig "peerA" (ik_public_key_b64 (identity_from_seed (lab_seed 5)))] [])
    ex_admin_keys.
Definition lab_empty (net : string → string → result SidecarError string) : Lab :=
  MkLab (MkMetrics StLearner 0 None (MkMembership [] ∅) None None) [] 1000000 net.
Definition lab_boot : Boot := MkBoot (MkFs ∅ ∅ 18 []) (MkDb Tables_empty []) (lab_empty silence).

Lemma start_fail_closed_witness :
  ∃ ru b', runtime_start (lab_config true "") 7%N lab_boot = (Ok ru, b')
    ∧ ru_rpc_timeout ru = 2000%N ∧ (200 ≤ ru_rpc_timeout ru ≤ 10000)%N.
Proof.
  destruct (runtime_start (lab_config true "") 7%N lab_boot) as [[ru|e] b'] eqn:Hrun.
  - pose proof (start_fail_closed (RT := lab_types) _ _ _ _ _ Hrun) as (_ & _ & _ & _ & _ & _ & _ & _ & Hb & _).
    exists ru, b'. split; [done|]. split; [|exact Hb].
    apply (f_equal (λ x, match x.1 with Ok ru => ru_rpc_timeout ru | Err _ => 0%N end)) in Hrun. cbn [fst] in Hrun.
    rewrite <-Hrun. vm_compute. reflexivity.
  - exfalso. apply (f_equal (λ x, match x.1 with Ok _ => true | Err _ => false end)) in Hrun. vm_compute in Hrun. discriminate.
Defined.

Lemma founded_once_witness :
  let '(r, w') := bootstrap_if_enabled (cf_cluster (lab_config true "")) 1%N (lab_node 1) (lab_empty silence) in
  r = Ok true
  ∧ ∃ voters, events w' = [EvInitialize voters] ∧ is_Some (voters !! 1%N) ∧ is_Some (voters !! node_id_from_peer_id "peerA").
Proof.
  destruct (bootstrap_if_enabled (cf_cluster (lab_config true "")) 1%N (lab_node 1) (lab_empty silence)) as [r w'] eqn:Hrun.
  pose proof (founded_once (RT := lab_types) (EL := lab_log) _ _ _ _ _ _ Hrun) as Hf.
  apply (f_equal (λ x, x.1)) in Hrun. cbn [fst] in Hrun.
  assert (r = Ok true) as -> by (rewrite <-Hrun; vm_compute; reflexivity). split; [done|].
  destruct Hf as [[_ []]|(voters & _ & _ & [_ Hv] & Hl & He)]; [done|]. exists voters. split_and!; [done..|].
  eexists. apply Hv. left. exists (MkClusterMemberConfig "peerA" (ik_public_key_b64 (identity_from_seed (lab_seed 5)))).
  split_and!; [by left|done..].
Defined.

(** A node with a token asks [peerA], which admits it. *)
#[local] Instance lab_token_codec : Codec Json JoinToken := {| encode_to _ := Ok "token"; decode_from _ := Ok edge_token |}.
#[local] Instance lab_response_codec : Codec Json RaftJoinResponse := {|
  encode_to _ := Ok "response";
  decode_from _ := Ok (MkRaftJoinResponse 1 true "" "c" "net" 4 "me" "learner" 1 (Some 1%N) 1
                         [MkMemberInfo 1 "peer1" (ik_public_key_b64 (identity_from_seed (lab_seed 1))) "" true]) |}.

Lemma join_attempt_witness :
  let '(r, (fs', (ru', w'))) :=
    try_join (lab_config false "token") (MkFs ∅ ∅ 18 [], (lab_runtime 4 ∅, lab_empty (λ _ _, Ok "response"))) in
  r = Ok true ∧ events w' = [EvRequest "peerA" "{}"] ∧ is_Some (rv_keys (ru_verifier ru') !! 4%N).
Proof.
  destruct (try_join (lab_config false "token") _) as [r [fs' [ru' w']]] eqn:Hrun.
  pose proof (join_attempt (RT := lab_types) (EL := lab_log) _ _ _ _ _ _ _ _ Hrun) as [_ Hj].
  assert (r = Ok true) as ->
    by (apply (f_equal (λ x, x.1)) in Hrun; cbn [fst] in Hrun; rewrite <-Hrun; vm_compute; reflexivity).
  destruct Hj as [(_ & _ & [])|(_ & req & payload & peers & _ & Hp & _ & He & _ & resp & own & keys & _ & _ & _ & _ & _ & Hk & ->)];
    [done|]. split_and!; [done| |exact Hk].
  apply (f_equal (λ x, lb_events x.2.2.2)) in Hrun. cbn [fst snd] in Hrun. cbn. rewrite <-Hrun. vm_compute. reflexivity.
Defined.

(** ** The process that serves *)

Definition lab_served : ServiceConfig :=
  MkServiceConfig "auth" 5100 "net" "./authority.key" "./state.toml" 3600 1200 "secret" ∅ "require" 30 5 false
    (MkClusterConfig false "c" false "./id.key" "./raft.redb" "./seed.key" "" "" 500 1500 3000 [] []) ex_admin_keys.
#[local] Instance lab_toml : Codec Toml toml := {| encode_to _ := Ok ""; decode_from _ := Err "no table" |}.
#[local] Instance lab_service_config : Codec Toml ServiceConfig := {| encode_to _ := Ok "config"; decode_from _ := Ok lab_served |}.
#[local] Instance lab_snapshot_codec : Codec Toml StoreSnapshot := countable_codec Toml StoreSnapshot.
#[local] Instance lab_secret_codec : Codec Cbor JoinSecret := countable_codec Cbor JoinSecret.
Definition lab_home : Fs := MkFs {[ ["."; "config.toml"] := MkFile "config" 384 ]} {[ ["."] ]} 18 [].
Definition lab_main : result N (Server (W := Lab)) :=
  main_start id (λ _, None) (Ok ()) (Ok ()) (MkDb Tables_empty []) (lab_home, lab_cluster silence).

(** No connection comes, and the watchdog ends the process. *)
Lemma unready_process_is_stopped_witness :
  ∃ sv0, lab_main = Ok sv0
    ∧ sv_watchdog sv0 = Some 1032000%N
    ∧ sv_loop (serve_run id [SvTime 31000; SvWatchdog] sv0) = LoopWaiting true
    ∧ sv_loop (serve_run id [SvTime 31000; SvWatchdog; SvTime 1000; SvWatchdog] sv0) = LoopEnded 1
    ∧ ∀ es, is_ready (sv_process (serve_run id es sv0)) = true →
        is_ready (sv_process (serve_run id [SvSignal] (serve_run id es sv0))) = true.
Proof.
  destruct lab_main as [sv0|] eqn:Hs; [|vm_compute in Hs; discriminate]. exists sv0. split; [reflexivity|].
  pose proof (λ es, unready_process_is_stopped (RT := lab_types) id (λ _, None) _ _ _ _ sv0 es Hs) as Hok.
  vm_compute in Hs. injection Hs as <-. split_and!; [reflexivity|reflexivity|vm_compute; reflexivity|].
  intros es Hr. destruct (Hok es) as (_ & _ & Hmore & _). exact (Hmore [SvSignal] Hr).
Defined.

Lemma accept_error_deafens_witness :
  ∃ sv0, lab_main = Ok sv0
    ∧ sv_connections (serve_run id [SvAccept 3%N; SvAccept 4%N] sv0) = [3%N; 4%N]
    ∧ sv_connections (serve_run id [SvAcceptFailed; SvAccept 3%N; SvAccept 4%N] sv0) = []
    ∧ sv_loop (serve_run id [SvAcceptFailed; SvAccept 3%N; SvAccept 4%N] sv0) = LoopWaiting false.
Proof.
  destruct lab_main as [sv0|] eqn:Hs; [|vm_compute in Hs; discriminate]. exists sv0. split; [reflexivity|].
  assert (sv_loop sv0 = LoopWaiting true ∧ sv_connections sv0 = []) as [Hl Hc]
    by (vm_compute in Hs; injection Hs as <-; split; reflexivity).
  destruct (accept_error_deafens (RT := lab_types) id sv0 [SvAccept 3%N; SvAccept 4%N] [3%N; 4%N] Hl) as (Htaken & Hdeaf & _ & Hwait).
  rewrite Hc in Htaken, Hdeaf. split_and!; [exact Htaken|exact Hdeaf|].
  apply Hwait. intros e He. exists (match e with SvAccept c => c | _ => 0%N end), 0%N.
  apply elem_of_cons in He as [->|He]; [left; reflexivity|]. apply elem_of_cons in He as [->|He]; [left; reflexivity|]. inversion He.
Defined.
