(* ===== verification/Ctl.v ===== *)
(** * The administration tool: [src/src/ctl.rs]

    [nexusauthctl] runs on the administrator's side: it makes keys and backups, and
    sends signed requests to a sidecar, over the port and with the frames the node
    uses.  Its state is the disk, the world, what it has written to servers and what
    it has printed.  The error [None] stands for a call that has read as many frames
    as its fuel allows. *)
From S2P Require Import Prelude Text Fsutil Crypto Authority Replay Store Types StateMachine Transport AdminV2.
From S2P Require Import Config Backup Join Seed Protocol Admin Replicate PasswordJoin Context Service Runtime.

Definition DEFAULT_SERVER : string := "127.0.0.1:5100".
Definition DEFAULT_KEY : string := "admin.key".
Definition DEFAULT_KID : string := "root".
Definition DEFAULT_TIMEOUT_SECS : N := 10.

Inductive CtlError :=
  | CtUsage (m : string) | CtConfig (m : string) | CtIo (m : string) | CtTransport (m : string)
  | CtServer (code message : string).
Global Instance CtlError_eq_dec : EqDecision CtlError.
Proof. solve_decision. Defined.

(** Its [Display]. *)
Definition ctl_error_text (e : CtlError) : string :=
  match e with
  | CtUsage m => "usage error: " +:+ m
  | CtConfig m => "config error: " +:+ m
  | CtIo m => "io error: " +:+ m
  | CtTransport m => "transport error: " +:+ m
  | CtServer code message => "server error [" +:+ code +:+ "]: " +:+ message
  end.

Definition error_code (e : CtlError) : string :=
  match e with
  | CtUsage _ => "usage"
  | CtConfig _ => "config"
  | CtIo _ => "io"
  | CtTransport _ => "transport"
  | CtServer _ _ => "server"
  end.

(** ** The command line *)

Inductive Command :=
  | CmdHelp | CmdKeygen | CmdStatus | CmdAddMembers | CmdRemoveMembers | CmdIssueJoinToken | CmdPromoteVoter
  | CmdDemoteVoter | CmdPublishNow | CmdBackup.
Global Instance Command_eq_dec : EqDecision Command.
Proof. solve_decision. Defined.

Record RawArgs := MkRawArgs {
  ra_command : option string; ra_values : gmap string (list string); ra_flags : gset string
}.
Definition RawArgs_default : RawArgs := MkRawArgs None ∅ ∅.
Definition BOOLEAN_FLAGS : list string := ["json"; "dry-run"; "force"; "help"].

Definition one (raw : RawArgs) (key : string) : option string := ra_values raw !! key ≫= last.
Definition many (raw : RawArgs) (key : string) : list string := default [] (ra_values raw !! key).
Definition flag (raw : RawArgs) (key : string) : bool := bool_decide (key ∈ ra_flags raw).
Definition required (raw : RawArgs) (key : string) : result CtlError string :=
  ok_or (one raw key) (CtUsage ("缺少 --" +:+ key)).

Definition is_known_flag (key : string) : bool :=
  bool_decide (key ∈
    ["server"; "config"; "key"; "kid"; "request-id"; "timeout-secs"; "role"; "out-dir"; "service"; "peer"; "audience";
     "jti"; "expires-at"; "expires-in"; "max-uses"; "bind-peer"; "peer-id"; "identity-key"; "x25519-key"; "out";
     "json"; "dry-run"; "force"; "help"]).

(** [strip_prefix("--")]. *)
Definition long_flag (arg : string) : option string :=
  match arg with String "-"%char (String "-"%char rest) => Some rest | _ => None end.
Definition set_command (raw : RawArgs) (command : string) : RawArgs :=
  MkRawArgs (Some command) (ra_values raw) (ra_flags raw).
Definition add_flag (raw : RawArgs) (key : string) : RawArgs :=
  MkRawArgs (ra_command raw) (ra_values raw) ({[key]} ∪ ra_flags raw).
(** [values.entry(key).or_default().push(value)]. *)
Definition push_value (raw : RawArgs) (key value : string) : RawArgs :=
  MkRawArgs (ra_command raw) (partial_alter (λ o, Some (default [] o ++ [value])) key (ra_values raw)) (ra_flags raw).

(** The loop over the index; an option without [=] takes the next argument. *)
Fixpoint parse_from (raw : RawArgs) (args : list string) : result CtlError RawArgs :=
  match args with
  | [] => Ok raw
  | arg :: args =>
      match long_flag arg with
      | Some rest =>
          if str_is_empty rest then Err (CtUsage "空的 -- 参数")
          else
            let '(key, inline) := match split_once "="%char rest with
                                  | Some (key, value) => (key, Some value)
                                  | None => (rest, None)
                                  end in
            if negb (is_known_flag key) then Err (CtUsage ("未知参数 --" +:+ key))
            else if bool_decide (key ∈ BOOLEAN_FLAGS) then
              match inline with
              | Some _ => Err (CtUsage ("--" +:+ key +:+ " 不接受值"))
              | None => parse_from (add_flag raw key) args
              end
            else match inline with
            | Some value => parse_from (push_value raw key value) args
            | None =>
                match args with
                | [] => Err (CtUsage ("--" +:+ key +:+ " 缺少值"))
                | value :: args =>
                    if bool_decide (is_Some (long_flag value)) then Err (CtUsage ("--" +:+ key +:+ " 缺少值"))
                    else parse_from (push_value raw key value) args
                end
            end
      | None =>
          match ra_command raw with
          | None => parse_from (set_command raw arg) args
          | Some _ => Err (CtUsage ("多余的位置参数: " +:+ arg))
          end
      end
  end.
Definition parse_raw (args : list string) : result CtlError RawArgs := parse_from RawArgs_default args.

Definition command_named (command : string) : option Command :=
  (λ x, x.2.2) <$> list_find (λ c, c.1 = command)
    [("keygen", CmdKeygen); ("status", CmdStatus); ("add-members", CmdAddMembers); ("remove-members", CmdRemoveMembers);
     ("issue-join-token", CmdIssueJoinToken); ("promote-voter", CmdPromoteVoter); ("demote-voter", CmdDemoteVoter);
     ("publish-now", CmdPublishNow); ("backup", CmdBackup)].

Definition parse_command (raw : RawArgs) : result CtlError Command :=
  if flag raw "help" then Ok CmdHelp
  else
    command ← ok_or (ra_command raw) (CtUsage "缺少命令（--help 查看用法）");
    ok_or (command_named command) (CtUsage ("未知命令: " +:+ command)).

Definition not_blank (value : option string) : option string :=
  v ← value; if trim_is_empty v then None else Some v.
Definition or_env (value : option string) (env : Env) (key : string) : option string :=
  match value with Some v => Some v | None => env_var env key end.

Definition key_path (env : Env) (raw : RawArgs) : string :=
  default DEFAULT_KEY (not_blank (or_env (one raw "key") env "NEXUSAUTH_CTL_KEY")).
Definition kid (env : Env) (raw : RawArgs) : string :=
  default DEFAULT_KID (not_blank (or_env (one raw "kid") env "NEXUSAUTH_CTL_KID")).

(** An option that is a number, or its default; the error names the option. *)
Definition number (raw : RawArgs) (key : string) (max : N) (message : string) : result CtlError (option N) :=
  match one raw key with
  | None => Ok None
  | Some value => n ← ok_or (parse_uint max value) (CtUsage message); Ok (Some n)
  end.

Definition parse_member `{Crypto} (raw : RawArgs) : result CtlError AdminMemberSpec :=
  peer_id ← required raw "peer-id";
  if negb (is_valid_peer_id peer_id) then Err (CtUsage "--peer-id 必须是合法的 libp2p PeerId")
  else Ok (MkAdminMemberSpec (node_id_from_peer_id peer_id) peer_id (default "" (one raw "identity-key"))
             (default "" (one raw "x25519-key"))).

(** The letters of a key id. *)
Definition kid_char (c : ascii) : bool :=
  byte_in 48 57 c || byte_in 65 90 c || byte_in 97 122 c || bool_decide (c = "-"%char) || bool_decide (c = "_"%char).
Fixpoint all_chars (ok : ascii → bool) (s : string) : bool :=
  match s with EmptyString => true | String c s => ok c && all_chars ok s end.

(** ** The connection to a server *)

(** What a call of [read_frame] yields and how long it takes, in milliseconds. *)
Inductive Arrival := Frame (delay : N) (r : result FrameError Message) | Never.
(** A connection: the frames to come and the faults of the writes, in order. *)
Record Dial := MkDial { dl_arrivals : nat → Arrival; dl_faults : nat → option Fault }.
Inductive Dialled := DialTimeout | DialFailed (e : string) | DialConnected (d : Dial).
(** [timeout(limit, TcpStream::connect(server))]. *)
Class Network (W : Type) := connect_to : string → N → W → Dialled * W.

Inductive Output := Stdout (line : string) | Stderr (line : string).
Record Ctl (W : Type) := MkCtl {
  ct_fs : Fs; ct_world : W; ct_wire : list (string * string); ct_out : list Output
}.
Global Arguments MkCtl {_} _ _ _ _.
Global Arguments ct_fs {_} _.
Global Arguments ct_world {_} _.
Global Arguments ct_wire {_} _.
Global Arguments ct_out {_} _.

(** [timeout(limit, read_frame(..))]; [None] when the time is up. *)
Definition await_frame (limit : N) (a : Arrival) : option (result FrameError Message) :=
  match a with Frame delay r => if (delay <=? limit)%N then Some r else None | Never => None end.

Definition read_hello (limit : N) (d : Dial) : result CtlError N :=
  match await_frame limit (dl_arrivals d 0) with
  | None => Err (CtTransport "等待 hello 超时")
  | Some (Err e) => Err (CtTransport ("读取 hello 失败: " +:+ frame_error_text e))
  | Some (Ok (Hello version)) => Ok version
  | Some (Ok other) => Err (CtTransport ("期望 hello，收到 " +:+ kind other))
  end.

(** The administrator's request before it is signed. *)
Record RequestContext := MkRequestContext {
  rc_server : string; rc_signing_key : string; rc_kid : string; rc_request_id : string; rc_timeout : N;
  rc_dry_run : bool
}.

Definition newline : string := String "010" "".
(** Between double quotes. *)
Definition quoted (s : string) : string := String "034" (s +:+ String "034" "").

Definition usage : string := "nexusauthctl - NexusAuth Raft 管理 CLI

用法:
  nexusauthctl keygen --role root|viewer [--kid KID] [--out-dir DIR] [--force] [--json]
  nexusauthctl status [--server HOST:PORT] [--key FILE] [--kid KID] [--json]
  nexusauthctl add-members --service SVC --peer PEER [--peer PEER...]
  nexusauthctl remove-members --service SVC --peer PEER [--peer PEER...]
  nexusauthctl issue-join-token [--audience auth|PEER] [--expires-in SECS] [--bind-peer PEER]
  nexusauthctl promote-voter --peer-id PEER [--identity-key KEY] [--x25519-key KEY]
  nexusauthctl demote-voter --peer-id PEER
  nexusauthctl publish-now
  nexusauthctl backup [--config FILE] [--out DIR] [--force] [--json]

集群成员:
  promote-voter / demote-voter 使用 --peer-id（合法 libp2p PeerId）；
  内部 NodeId 由 PeerId 派生，不需要也无法手工配置。

全局:
  --server HOST:PORT   边车地址（默认 127.0.0.1:5100 或 --config 的 port）
  --key FILE          管理员 Ed25519 私钥（默认 admin.key，或 NEXUSAUTH_CTL_KEY）
  --kid KID           管理员 kid（默认 root，或 NEXUSAUTH_CTL_KID）
  --request-id ID     写命令幂等 ID（默认 UUID；失败重试请复用）
  --timeout-secs N    连接/请求超时（默认 10）
  --dry-run           只输出签名请求，不发送
  --json              紧凑 JSON 输出

私钥只在管理员侧；边车仅保存 [admin.keys] 公钥。备份命令在本机读取配置与文件。
".

Section ctl.
Context `{CR : Crypto, CM : Codec Cbor Message, CS : Codec Cbor AdminSigned, CI : Codec Cbor AdminIdentity,
  CT : Codec Cbor JoinTokenSigned}.
Context `{CV : Codec Json json, CQ : Codec Json AdminRequestV2, CB : Codec Json BackupReport, CF : Codec Toml ServiceConfig}.
Context `{TQ : ToValue AdminRequestV2, TB : ToValue BackupReport, FB : FromValue BackupReport}.
Context {W : Type} `{WC : Clock W, RN : Rng W, TM : Timer W, NW : Network W}.
(** [serde_json::to_string_pretty]; [Uuid::new_v4] from random bytes, and the text
    of an identifier (crate [uuid]); the order in which directories are listed. *)
Context (pretty_json : json → result string string) (new_v4 uuid_text : string → string).
Context (order : path → list string → list string) (env : Env).
(** How many frames a call reads while it waits for its reply. *)
Context (fuel : nat).

Abbreviation CTL A := (ST (Ctl W) (option CtlError) A) (only parsing).

Definition ct_ask {E A} (q : W → A * W) : ST (Ctl W) E A := λ c,
  let '(a, w) := q (ct_world c) in (Ok a, MkCtl (ct_fs c) w (ct_wire c) (ct_out c)).
Definition ct_files {E A} (m : ST Fs E A) : ST (Ctl W) E A := λ c,
  let '(r, fs) := m (ct_fs c) in (r, MkCtl fs (ct_world c) (ct_wire c) (ct_out c)).
Definition ct_exists (p : path) : CTL bool := ct_files (fs_query (path_exists p)).
(** [println!] and [eprintln!]. *)
Definition emit (o : Output) : CTL unit := λ c, (Ok (), MkCtl (ct_fs c) (ct_world c) (ct_wire c) (ct_out c ++ [o])).
Definition ct_pause (ms : N) (c : Ctl W) : Ctl W := MkCtl (ct_fs c) (sleep ms (ct_world c)) (ct_wire c) (ct_out c).
Definition fails {A} (e : CtlError) : CTL A := st_err (Some e).
Definition checked {A} (r : result CtlError A) : CTL A := st_lift (map_err Some r).

Definition new_uuid {E} : ST (Ctl W) E string := bytes ← ct_ask (random_bytes 16); mret (new_v4 bytes).
Definition new_request_id {E} : ST (Ctl W) E string := id ← new_uuid; mret (uuid_text id).
Definition random_nonce {E} : ST (Ctl W) E string := bytes ← ct_ask (random_bytes 16); mret (b64url_encode bytes).

(** ** Files of the administrator *)

Definition ctl_load_config (p : string) : CTL ServiceConfig :=
  text ← st_map_err (λ e, Some (CtConfig ("读取 " +:+ p +:+ " 失败: " +:+ io_text e)))
           (ct_files (fs_read_to_string (path_of p)));
  checked (map_err (λ e, CtConfig ("解析 " +:+ p +:+ " 失败: " +:+ e)) (decode_from Toml text)).

Definition resolve_server (raw : RawArgs) : CTL string :=
  match one raw "server" with
  | Some server => mret server
  | None =>
      match not_blank (env_var env "NEXUSAUTH_CTL_SERVER") with
      | Some server => mret server
      | None =>
          match one raw "config" with
          | Some config_path =>
              config ← ctl_load_config config_path;
              mret ("127.0.0.1:" +:+ pretty (cf_port config))
          | None => mret DEFAULT_SERVER
          end
      end
  end.

(** The 32 bytes themselves, or their base64 in one of the two alphabets. *)
Definition decode_signing_key (bytes : string) : result CtlError string :=
  if bool_decide (String.length bytes = 32) then Ok bytes
  else if negb (utf8_valid bytes) then Err (CtConfig "私钥既不是 32 字节原文也不是文本")
  else
    decoded ← ok_or (match b64_decode (trim bytes) with Some d => Some d | None => b64url_decode (trim bytes) end)
                (CtConfig "私钥 base64 无效");
    if bool_decide (String.length decoded = 32) then Ok decoded else Err (CtConfig "私钥必须为 32 字节 seed").
Definition load_signing_key (p : string) : CTL string :=
  bytes ← st_map_err (λ e, Some (CtConfig ("读取私钥 " +:+ p +:+ " 失败: " +:+ io_text e))) (ct_files (fs_read (path_of p)));
  checked (decode_signing_key bytes).

(** ** Requests *)

Definition build_request (rc : RequestContext) (op service : string) (peers : list string)
    (member : option AdminMemberSpec) (join_token : option AdminJoinTokenSpec) : CTL AdminRequestV2 :=
  nonce ← random_nonce;
  ts ← ct_ask now_unix;
  checked (map_err (λ e, CtUsage (admin_v2_text e))
    (sign_request (rc_signing_key rc)
      (MkAdminRequestV2 ADMIN_REQUEST_VERSION op service (canonical_peers peers) (rc_kid rc) (rc_request_id rc) nonce ts
         "" member join_token))).

(** [write_frame] on the [k]-th write of a connection. *)
Definition send_frame (server context : string) (d : Dial) (k : nat) (m : Message) : CTL unit := λ c,
  let '(r, bytes) := write_frame (dl_faults d k) m "" in
  (map_err (λ e, Some (CtTransport (context +:+ frame_error_text e))) r,
   MkCtl (ct_fs c) (ct_world c) (ct_wire c ++ [(server, bytes)]) (ct_out c)).

(** What a reply says. *)
Definition reply_value (ok : bool) (value : option string) (error : option SidecarError) : result CtlError json :=
  if ok then map_err (λ e, CtTransport ("回复不是合法 JSON: " +:+ e)) (decode_from Json (default "" value))
  else let e := default (sidecar_error "backend_error" "unknown") error in Err (CtServer (se_code e) (se_message e)).

(** The loop that waits for the reply: every frame has the whole time limit. *)
Fixpoint read_reply (n : nat) (id : Uuid) (limit : N) (d : Dial) (k : nat) : result (option CtlError) json :=
  match n with
  | O => Err None
  | S n =>
      match await_frame limit (dl_arrivals d k) with
      | None => Err (Some (CtTransport "等待回复超时"))
      | Some (Err e) => Err (Some (CtTransport ("读取回复失败: " +:+ frame_error_text e)))
      | Some (Ok (Reply reply_id ok value error)) =>
          if bool_decide (reply_id = id) then map_err Some (reply_value ok value error)
          else read_reply n id limit d (S k)
      | Some (Ok _) => read_reply n id limit d (S k)
      end
  end.

Definition call_server (server payload : string) (limit : N) : CTL json :=
  dialled ← ct_ask (connect_to server limit);
  match dialled with
  | DialTimeout => fails (CtTransport ("连接 " +:+ server +:+ " 超时"))
  | DialFailed e => fails (CtTransport ("连接 " +:+ server +:+ " 失败: " +:+ e))
  | DialConnected d =>
      send_frame server "发送 hello 失败: " d 0 (Hello PROTOCOL_VERSION) ;;
      version ← checked (read_hello limit d);
      if bool_decide (version ≠ PROTOCOL_VERSION) then
        fails (CtTransport ("协议版本不兼容: 对端 " +:+ pretty version +:+ ", 本端 " +:+ pretty PROTOCOL_VERSION))
      else
        id ← new_uuid;
        send_frame server "发送请求失败: " d 1 (Request id "auth" payload) ;;
        st_lift (read_reply fuel id limit d 1)
  end.

(** After a failure of the transport, and a pause, another call. *)
Definition or_retry {A} (retry : bool) (m : CTL A) (again : string → CTL A) : CTL A := λ c,
  match m c with
  | (Err (Some (CtTransport message)), c) =>
      if retry then again message (ct_pause 100 c) else (Err (Some (CtTransport message)), c)
  | result => result
  end.

(** At most two attempts, the second after a failure of the transport. *)
Fixpoint send_attempts (attempts : list nat) (last_error : option CtlError) (rc : RequestContext) (op service : string)
    (peers : list string) (member : option AdminMemberSpec) (join_token : option AdminJoinTokenSpec) : CTL json :=
  match attempts with
  | [] => fails (default (CtTransport "请求失败") last_error)
  | attempt :: attempts =>
      req ← build_request rc op service peers member join_token;
      if rc_dry_run rc then mret (to_value req)
      else
        payload ← checked (map_err (λ e, CtIo ("请求编码失败: " +:+ e)) (encode_to Json req));
        or_retry (bool_decide (attempt = 0)) (call_server (rc_server rc) payload (rc_timeout rc))
          (λ message, send_attempts attempts (Some (CtTransport message)) rc op service peers member join_token)
  end.
Definition send_request : RequestContext → string → string → list string → option AdminMemberSpec →
    option AdminJoinTokenSpec → CTL json := send_attempts (seq 0 2) None.

(** ** Join tokens *)

(** A text field of the status that is not empty. *)
Definition status_field (status : json) (key : string) (e : CtlError) : result CtlError string :=
  ok_or (v ← obj_get key status ≫= as_str; if str_is_empty v then None else Some v) e.

Definition token_expiry (raw : RawArgs) : CTL N :=
  at_ ← checked (number raw "expires-at" u64_max "--expires-at 必须是 Unix 秒");
  match at_ with
  | Some n => mret n
  | None =>
      expires_in ← checked (number raw "expires-in" u64_max "--expires-in 必须是秒");
      now ← ct_ask now_unix;
      mret (sat_add64 now (N.max (default 600%N expires_in) 1))
  end.

(** The token is signed and checked here before the request is sent. *)
Definition issue_join_token (raw : RawArgs) (rc : RequestContext) : CTL json :=
  let status_context := MkRequestContext (rc_server rc) (rc_signing_key rc) (rc_kid rc) (rc_request_id rc)
    (rc_timeout rc) false in
  status ← send_request status_context "status" "" [] None None;
  cluster_id ← checked (status_field status "cluster_id"
    (CtServer "missing_cluster_id" "status 未返回 cluster_id（Raft 未就绪？）"));
  network ← checked (status_field status "network" (CtServer "missing_network" "status 未返回 network"));
  let audience := default "auth" (one raw "audience") in
  jti ← (match one raw "jti" with Some jti => mret jti | None => new_request_id end);
  expires_at ← token_expiry raw;
  max_uses ← checked (number raw "max-uses" u32_max "--max-uses 必须是整数");
  let max_uses := N.max (default 1%N max_uses) 1 in
  let bind_peer_id := default "" (one raw "bind-peer") in
  token ← checked (map_err (λ e, CtUsage ("join token 签名失败: " +:+ token_text e))
    (sign_join_token (rc_signing_key rc)
      (MkJoinToken JOIN_TOKEN_VERSION jti cluster_id network audience expires_at max_uses bind_peer_id (rc_kid rc) "")));
  verifier ← checked (map_err (λ e, CtConfig (admin_v2_text e))
    (from_config [MkAdminKeyConfig (rc_kid rc) (b64_encode (ed_public (rc_signing_key rc))) "root"] true));
  now ← ct_ask now_unix;
  checked (map_err (λ e, CtUsage ("join token 自检失败: " +:+ token_text e))
    (verify_join_token verifier token now cluster_id network ["auth"; audience])) ;;
  send_request rc "issue_join_token" "" [] None
    (Some (MkAdminJoinTokenSpec jti audience expires_at max_uses bind_peer_id (jt_sig token))).

(** ** Keys: [keygen] *)

(** The entry for the configuration file. *)
Definition snippet (kid public_key role : string) : string :=
  "[[admin.keys]]" +:+ newline +:+ "kid = " +:+ quoted kid +:+ newline +:+ "public_key = " +:+ quoted public_key +:+ newline
  +:+ "role = " +:+ quoted role +:+ newline.

Definition io_failed {A} (m : ST Fs IoError A) : CTL A := st_map_err (λ e, Some (CtIo (io_text e))) (ct_files m).

(** Role and key id. *)
Definition key_identity (raw : RawArgs) : CTL (string * string) :=
  role ← checked (required raw "role");
  if bool_decide (role ≠ "root") && bool_decide (role ≠ "viewer") then fails (CtUsage "--role 只能是 root 或 viewer")
  else
    kid ← (match one raw "kid" with
           | Some kid => mret kid
           | None => now ← ct_ask now_unix; mret (role +:+ "-" +:+ pretty now)
           end);
    if negb (all_chars kid_char kid) then fails (CtUsage "--kid 只能包含字母、数字、'-'、'_'") else mret (role, kid).

(** The directory, made private if it is new. *)
Definition key_directory (out_dir : string) : CTL unit :=
  out_dir_existed ← ct_exists (path_of out_dir);
  io_failed (create_dir_all (path_of out_dir)) ;;
  if negb out_dir_existed then io_failed (set_dir_mode (path_of out_dir)) else mret ().

(** Whether one of the files is there, unless they are to be replaced. *)
Definition key_taken (force : bool) (private_path public_path : string) : CTL bool :=
  if force then mret false
  else
    there ← ct_exists (path_of private_path);
    if there : bool then mret true else ct_exists (path_of public_path).

Definition keygen (raw : RawArgs) : CTL json :=
  '(role, kid) ← key_identity raw;
  let out_dir := default "." (one raw "out-dir") in
  key_directory out_dir ;;
  seed ← ct_ask (random_bytes 32);
  let public_key := b64_encode (ed_public seed) in
  let private_path := path_join out_dir (kid +:+ ".key") in
  let public_path := path_join out_dir (kid +:+ ".pub.toml") in
  taken ← key_taken (flag raw "force") private_path public_path;
  if taken : bool then fails (CtUsage ("目标已存在（使用 --force 覆盖）: " +:+ private_path))
  else
    io_failed (atomic_write (path_of private_path) seed (Some 384%N)) ;;
    let snippet := snippet kid public_key role in
    io_failed (atomic_write (path_of public_path) snippet (Some 420%N)) ;;
    mret (JObj [("ok", JBool true); ("kid", JStr kid); ("role", JStr role); ("public_key", JStr public_key);
                ("private_key", JStr private_path); ("public_config", JStr public_path);
                ("admin_keys_snippet", JStr snippet)]).

Definition backup_command (raw : RawArgs) : CTL json :=
  let config_path := default (config_path env) (one raw "config") in
  config ← ctl_load_config config_path;
  output ← (match one raw "out" with
            | Some out => mret out
            | None => now ← ct_ask now_unix; mret ("nexusauth-backup-" +:+ pretty now)
            end);
  now ← ct_ask now_unix;
  report ← st_map_err (fmap (λ e, CtConfig (backup_error_text e)))
             (ct_files (create_backup order config config_path output (flag raw "force") now));
  mret (to_value report).

(** ** The commands *)

Definition json_text (value : json) (compact : bool) : result CtlError string :=
  map_err (λ e, CtIo ("JSON 输出失败: " +:+ e)) (if compact then encode_to Json value else pretty_json value).
Definition print_json (value : json) (compact : bool) : CTL unit :=
  text ← checked (json_text value compact);
  emit (Stdout text).
Fixpoint print_human (lines : list (string * string)) : CTL unit :=
  match lines with
  | [] => mret ()
  | (key, value) :: lines => emit (Stdout (key +:+ ": " +:+ value)) ;; print_human lines
  end.

Definition text_field (value : json) (key : string) : string := default "" (obj_get key value ≫= as_str).
Definition print_keygen (value : json) (compact : bool) : CTL unit :=
  if compact then print_json value true
  else
    print_human ((λ key, (key, text_field value key)) <$> ["kid"; "role"; "public_key"; "private_key"]) ;;
    emit (Stdout (newline +:+ "将以下片段加入配置文件：" +:+ newline +:+ text_field value "admin_keys_snippet")).
Definition print_backup (value : json) (compact : bool) : CTL unit :=
  if compact then print_json value true
  else
    report ← checked (map_err (λ e, CtIo ("备份结果解析失败: " +:+ e)) (from_value value));
    print_human [("backup", br_output_dir report); ("manifest", br_manifest report);
                 ("files", pretty (N.of_nat (length (br_files report))));
                 ("authority_public_key", default "" (br_authority_public_key report))].

(** The operations of the commands that talk to a server. *)
Definition server_command (command : Command) (raw : RawArgs) (rc : RequestContext) : CTL json :=
  match command with
  | CmdStatus => send_request rc "status" "" [] None None
  | CmdAddMembers | CmdRemoveMembers =>
      service ← checked (required raw "service");
      let peers := many raw "peer" in
      if bool_decide (peers = []) then fails (CtUsage "至少需要一个 --peer")
      else send_request rc (if bool_decide (command = CmdAddMembers) then "add_members" else "remove_members") service
             peers None None
  | CmdPublishNow => send_request rc "publish_now" "" [] None None
  | CmdPromoteVoter | CmdDemoteVoter =>
      member ← checked (parse_member raw);
      send_request rc (if bool_decide (command = CmdPromoteVoter) then "promote_voter" else "demote_voter") "" []
        (Some member) None
  | CmdIssueJoinToken => issue_join_token raw rc
  (** [unreachable!()] *)
  | CmdHelp | CmdKeygen | CmdBackup => fails (CtUsage "unreachable")
  end.

Definition request_context (raw : RawArgs) : CTL RequestContext :=
  server ← resolve_server raw;
  signing_key ← load_signing_key (key_path env raw);
  request_id ← (match one raw "request-id" with Some id => mret id | None => new_request_id end);
  timeout_secs ← checked (number raw "timeout-secs" u64_max "--timeout-secs 必须是整数");
  mret (MkRequestContext server signing_key (kid env raw) request_id
          (N.max (default DEFAULT_TIMEOUT_SECS timeout_secs) 1 * 1000) (flag raw "dry-run")).

Definition execute (args : list string) : CTL unit :=
  raw ← checked (parse_raw args);
  command ← checked (parse_command raw);
  match command with
  | CmdHelp => emit (Stdout usage)
  | CmdKeygen => value ← keygen raw; print_keygen value (flag raw "json")
  | CmdBackup => value ← backup_command raw; print_backup value (flag raw "json")
  | _ =>
      rc ← request_context raw;
      value ← server_command command raw rc;
      if rc_dry_run rc then
        print_json (JObj [("ok", JBool true); ("dry_run", JBool true); ("request_id", JStr (rc_request_id rc));
                          ("request", value)]) (flag raw "json")
      else print_json value (flag raw "json")
  end.

Definition error_json (e : CtlError) (message : string) : json :=
  JObj [("ok", JBool false); ("error", JObj [("code", JStr (error_code e)); ("message", JStr message)])].
(** The exit code; [None] when the tool still waits.  What cannot be printed is
    ignored. *)
Definition run (args : list string) (c : Ctl W) : option N * Ctl W :=
  let json_requested := bool_decide ("--json" ∈ args) in
  match execute args c with
  | (Ok _, c) => (Some 0%N, c)
  | (Err None, c) => (None, c)
  | (Err (Some (CtUsage message)), c) =>
      (Some 2%N,
       ((if json_requested then print_json (error_json (CtUsage message) message) true
        else emit (Stderr message) ;; emit (Stderr usage)) c).2)
  | (Err (Some error), c) =>
      (Some 1%N,
       ((if json_requested then print_json (error_json error (ctl_error_text error)) true
        else emit (Stderr (ctl_error_text error))) c).2)
  end.
End ctl.
