(* ===== verification/CtlKeys.v ===== *)
(** * The keys the administration tool makes: [keygen] of [src/src/ctl.rs]

    The names of the files stay in the chosen directory; the pair is what the tool
    loads and what a sidecar accepts. *)
From S2P Require Import Prelude Text Fsutil Crypto Authority Replay Store Types StateMachine Transport AdminV2.
From S2P Require Import Config Backup BackupProps Join Seed Protocol Admin Replicate PasswordJoin Context Service Runtime PathProps Ctl.

(** ** The two files of a key *)

Lemma kid_char_plain kid : all_chars kid_char kid = true → str_has "/" kid = false ∧ (kid ≠ "" → trim_is_empty kid = false).
Proof.
  assert (∀ c, kid_char c = true → "/"%char ≠ c ∧ trim_is_empty (String c "") = false) as Hc.
  { intros c Hk. destruct c as [[] [] [] [] [] [] [] []]; vm_compute in Hk; try done; by split; [|vm_compute]. }
  assert (∀ c s, kid_char c = true → trim_is_empty (String c s) = false) as Ht.
  { intros c s Hk. destruct c as [[] [] [] [] [] [] [] []]; vm_compute in Hk; done. }
  induction kid as [|c s IH]; [done|]. simpl. intros [Hk Hs]%andb_true_iff. destruct (Hc c Hk) as [Hne _].
  rewrite bool_decide_eq_false_2 by done. simpl. split; [by apply IH|]. intros _. by apply Ht.
Qed.

Definition private_name (kid : string) : string := kid +:+ ".key".
Definition public_name (kid : string) : string := kid +:+ ".pub.toml".
Lemma key_name_plain kid ext : all_chars kid_char kid = true → (3 ≤ String.length ext) → str_has "/" ext = false →
  plain_name (kid +:+ ext).
Proof.
  intros [Hk _]%kid_char_plain Hl He. pose proof (string_length_app kid ext) as Hlen. split_and!.
  - by rewrite str_has_app, Hk.
  - intros Heq. rewrite Heq in Hlen. simpl in Hlen. lia.
  - intros Heq. rewrite Heq in Hlen. simpl in Hlen. lia.
  - intros Heq. rewrite Heq in Hlen. simpl in Hlen. lia.
Qed.

(** A file [n] in [d] is written; its temporary file is beside it. *)
Lemma write_in_dir d n data mode fs : plain_name n → temp_name n ≠ n →
  let '(r, fs') := atomic_write (d ++ [n]) data (Some mode) fs in
  (∀ q, q ≠ d ++ [n] → q ≠ d ++ [temp_name n] → fs_files fs' !! q = fs_files fs !! q)
  ∧ (r = Ok () → fs_files fs' !! (d ++ [n]) = Some (MkFile data mode)).
Proof.
  intros Hn Ht. pose proof (temp_path_snoc d n (plain_not_root n Hn) ltac:(apply Hn)) as Htemp.
  assert (with_extension (d ++ [n]) "tmp" ≠ d ++ [n]) as Hne by (rewrite Htemp; by intros [=]%app_inv_head).
  pose proof (atomic_write_spec (d ++ [n]) data (Some mode) fs Hne) as H.
  destruct (atomic_write _ _ _ fs) as [r fs']. destruct H as [Hother Hr]. rewrite Htemp in *. split; [done|].
  intros ->. by destruct Hr as (m & Hm & -> & _).
Qed.

Lemma temp_name_suffix n : ∃ stem, temp_name n = stem +:+ ".tmp".
Proof. by exists (file_stem n). Qed.
Lemma temp_not_key n kid ext : String.length ext = 4 → ext ≠ ".tmp" → temp_name n ≠ kid +:+ ext.
Proof. intros Hl Hne. destruct (temp_name_suffix n) as [stem ->]. apply suffix_ne; [done|congruence]. Qed.
Lemma names_apart kid :
  (∀ n, temp_name n ≠ private_name kid) ∧ (∀ n, temp_name n ≠ public_name kid) ∧ private_name kid ≠ public_name kid.
Proof.
  assert (public_name kid = (kid +:+ ".pub.") +:+ "toml") as Hp by (unfold public_name; by rewrite string_app_assoc).
  split_and!; [intros n; by apply temp_not_key|intros n; rewrite Hp; by apply temp_not_key|rewrite Hp; by apply suffix_ne].
Qed.

(** What [keygen] puts into the directory [d]. *)
Record key_pair (d : path) (kid seed entry : string) (before after : Fs) : Prop := {
  kp_private : fs_files after !! (d ++ [private_name kid]) = Some (MkFile seed 384);
  kp_public : fs_files after !! (d ++ [public_name kid]) = Some (MkFile entry 420);
  kp_others : ∀ q, (∀ n, n ∈ [private_name kid; public_name kid; temp_name (private_name kid); temp_name (public_name kid)] →
    q ≠ d ++ [n]) → fs_files after !! q = fs_files before !! q;
}.
Lemma write_pair d kid seed entry fs fs1 fs2 : all_chars kid_char kid = true →
  atomic_write (d ++ [private_name kid]) seed (Some 384%N) fs = (Ok (), fs1) →
  atomic_write (d ++ [public_name kid]) entry (Some 420%N) fs1 = (Ok (), fs2) →
  key_pair d kid seed entry fs fs2.
Proof.
  intros Hk H1 H2. destruct (names_apart kid) as (Ht1 & Ht2 & Hne).
  pose proof (write_in_dir d (private_name kid) seed 384 fs) as W1. rewrite H1 in W1.
  pose proof (write_in_dir d (public_name kid) entry 420 fs1) as W2. rewrite H2 in W2.
  destruct W1 as [O1 F1]; [by apply key_name_plain; [|simpl; lia|]|done|].
  destruct W2 as [O2 F2]; [by apply key_name_plain; [|simpl; lia|]|done|].
  assert (∀ a b : string, a ≠ b → d ++ [a] ≠ d ++ [b]) as Hd by (by intros a b Hab [=]%app_inv_head).
  split.
  - rewrite O2; [by apply F1|by apply Hd|by apply Hd, not_eq_sym].
  - by apply F2.
  - intros q Hq. rewrite O2, O1; [done|apply Hq; set_solver..].
Qed.

(** ** [keygen] *)

Section keygen.
Context `{CR : Crypto}.
Context {W : Type} `{WC : Clock W, RN : Rng W}.

Lemma keygen_calls_fs {E A} (m : ST Fs E A) (c : Ctl W) r c' : ct_files m c = (r, c') → m (ct_fs c) = (r, ct_fs c').
Proof. unfold ct_files. destruct (m (ct_fs c)) as [r0 fs]. by intros [= <- <-]. Qed.
Lemma io_failed_Ok {A} (m : ST Fs IoError A) (c : Ctl W) a c' :
  io_failed m c = (Ok a, c') → m (ct_fs c) = (Ok a, ct_fs c').
Proof. intros (r & Hr & Ha)%st_map_err_run. symmetry in Ha. apply map_err_Ok in Ha as ->. by apply keygen_calls_fs in Hr. Qed.
Lemma ct_ask_fs {E A} (q : W → A * W) (c : Ctl W) (r : result E A) c' : ct_ask q c = (r, c') → ct_fs c' = ct_fs c.
Proof. unfold ct_ask. destruct (q (ct_world c)). by intros [= <- <-]. Qed.

Lemma path_exists_keeps_files p (c : Ctl W) b c' : ct_exists p c = (Ok b, c') →
  fs_files (ct_fs c') = fs_files (ct_fs c)
  ∧ (fs_faults (ct_fs c) = [] → ct_fs c' = ct_fs c ∧ (b = false → fs_files (ct_fs c) !! p = None)).
Proof.
  intros H%keygen_calls_fs. unfold fs_query in H. destruct (path_exists p (ct_fs c)) as [b' fs] eqn:E.
  injection H as <- Hfs. rewrite <-Hfs. apply path_exists_fs in E as (Hf & _ & _ & Hn). split; [done|].
  intros Hnf. destruct (Hn Hnf) as [-> Hb]. split; [done|]. intros Hfalse. specialize (Hb Hfalse).
  apply not_elem_of_dom. set_solver.
Qed.
Lemma set_dir_mode_files d fs r fs' : set_dir_mode d fs = (r, fs') → fs_files fs' = fs_files fs.
Proof.
  unfold set_dir_mode. destruct (next_fault fs) as [f fs1] eqn:E. apply next_fault_files in E.
  destruct f; intros [= <- <-]; done.
Qed.

Lemma key_identity_run raw (c : Ctl W) role kid c' : key_identity raw c = (Ok (role, kid), c') →
  (role = "root" ∨ role = "viewer") ∧ all_chars kid_char kid = true ∧ ct_fs c' = ct_fs c.
Proof.
  intros [(r & Hr & H)|(e & _ & ? & _)]%st_lift_run; [|done].
  destruct (bool_decide (r ≠ "root") && bool_decide (r ≠ "viewer")) eqn:Hrole; [done|].
  apply st_bind_Ok in H as (k & c1 & Hk & H). destruct (all_chars kid_char k) eqn:Ha; [|done].
  injection H as <- <- <-. split_and!; [|done|].
  - apply andb_false_iff in Hrole as [Hb|Hb]; bool_tests; auto.
  - destruct (one raw "kid"); [by injection Hk as <- <-|]. st_inv. by eapply ct_ask_fs.
Qed.
Lemma key_directory_run out_dir (c : Ctl W) c' : key_directory out_dir c = (Ok (), c') →
  fs_files (ct_fs c') = fs_files (ct_fs c) ∧ (fs_faults (ct_fs c) = [] → fs_faults (ct_fs c') = []).
Proof.
  intros (b & c1 & H1 & (u & c2 & H2 & H3)%st_bind_Ok)%st_bind_Ok. destruct u.
  apply path_exists_keeps_files in H1 as [Hf1 Hn1]. apply io_failed_Ok in H2.
  pose proof (create_dir_all_files (path_of out_dir) (ct_fs c1)) as Hf2. rewrite H2 in Hf2. simpl in Hf2.
  assert (fs_files (ct_fs c') = fs_files (ct_fs c2) ∧ (fs_faults (ct_fs c2) = [] → fs_faults (ct_fs c') = [])) as [Hf3 Hn3].
  { destruct b; simpl in H3; [by injection H3 as <-|]. apply io_failed_Ok in H3.
    split; [by eapply set_dir_mode_files|]. intros Hn. unfold set_dir_mode, next_fault in H3. rewrite Hn in H3.
    by injection H3 as _ <-. }
  split; [congruence|]. intros Hn. apply Hn3. destruct (Hn1 Hn) as [He _].
  unfold create_dir_all, next_fault in H2. rewrite He, Hn in H2. destruct (existsb _ _); [done|]. by injection H2 as <-.
Qed.
Lemma key_taken_run force private public (c : Ctl W) c' : key_taken force private public c = (Ok false, c') →
  fs_files (ct_fs c') = fs_files (ct_fs c)
  ∧ (force = false → fs_faults (ct_fs c) = [] →
     fs_files (ct_fs c) !! path_of private = None ∧ fs_files (ct_fs c) !! path_of public = None).
Proof.
  unfold key_taken. destruct force; [by intros [= <-]|]. intros (b & c1 & H1 & H2)%st_bind_Ok.
  destruct b; [by injection H2|]. apply path_exists_keeps_files in H1 as [Hf1 Hn1], H2 as [Hf2 Hn2].
  split; [congruence|]. intros _ Hn. destruct (Hn1 Hn) as [He Hp]. rewrite He in Hn2, Hf1. destruct (Hn2 Hn) as [_ Hq]. auto.
Qed.

(** The entry of a new key, read by a sidecar. *)
Lemma entry_accepted `{!CryptoLaws} kid role seed : String.length seed = 32 → trim_is_empty kid = false →
  role = "root" ∨ role = "viewer" →
  ∃ verifier ar, AdminRole_parse role = Some ar
    ∧ from_config [MkAdminKeyConfig kid (b64_encode (ed_public seed)) role] (bool_decide (role = "root")) = Ok verifier
    ∧ av_keys verifier !! kid = Some (ed_public seed, ar).
Proof.
  intros Hl Hk Hrole. assert (∃ ar, AdminRole_parse role = Some ar ∧ (role = "root" → ar = Root)) as (ar & Hp & Hroot)
    by (destruct Hrole as [->| ->]; eexists; split; [reflexivity|done|reflexivity|done]).
  exists (MkAdminVerifier {[kid := (ed_public seed, ar)]} ReplayGuard_default), ar. split; [done|]. split.
  - unfold from_config. cbn [load_keys ak_kid ak_role ak_public_key]. rewrite Hk, lookup_empty, Hp, b64_round_trip.
    rewrite (bool_decide_eq_false_2 (is_Some None)) by (by intros [? ?]). cbn [ok_or mbind result_bind].
    rewrite (bool_decide_eq_false_2 (_ ≠ 32)) by (rewrite ed_public_length by done; by intros Hne; apply Hne).
    rewrite ed_public_ok by done. cbn [negb mbind result_bind orb fst snd].
    case_bool_decide as Hr; [|done]. by rewrite (Hroot Hr).
  - apply lookup_insert_eq.
Qed.

End keygen.
