(* ===== verification/CtlProps.v ===== *)
(** * Properties of the administration tool

    The command line, the files [keygen] writes, the requests and tokens the tool
    signs as a sidecar sees them, and the call of a server. *)
From S2P Require Import Prelude Text Fsutil Crypto Authority Replay Store Types StateMachine PolicyProps Transport AdminV2.
From S2P Require Import Config Backup Join Seed Protocol Admin Replicate PasswordJoin Context Service Runtime Ctl.

(** ** The command line *)

(** What a command line is made of: a command, a switch, an option with its value
    behind an equals sign or in an argument of its own. *)
Inductive Item := Positional (s : string) | Switch (key : string) | Setting (key value : string) (inline : bool).

Definition render (i : Item) : list string :=
  match i with
  | Positional s => [s]
  | Switch key => ["--" +:+ key]
  | Setting key value true => ["--" +:+ key +:+ String "="%char value]
  | Setting key value false => ["--" +:+ key; value]
  end.
Definition item_ok (i : Item) : Prop :=
  match i with
  | Positional s => long_flag s = None
  | Switch key => key ∈ BOOLEAN_FLAGS
  | Setting key value inline => is_known_flag key = true ∧ key ∉ BOOLEAN_FLAGS ∧ (inline = false → long_flag value = None)
  end.

Definition positionals (items : list Item) : list string := omap (λ i, match i with Positional s => Some s | _ => None end) items.
Definition settings (key : string) (items : list Item) : list string :=
  omap (λ i, match i with Setting k v _ => if bool_decide (k = key) then Some v else None | _ => None end) items.
Definition switches (items : list Item) : list string := omap (λ i, match i with Switch k => Some k | _ => None end) items.

(** The arguments that a list of items stands for. *)
Record reads_as (items : list Item) (raw : RawArgs) : Prop := {
  as_command : ra_command raw = head (positionals items);
  as_values : ∀ key, ra_values raw !! key = match settings key items with [] => None | l => Some l end;
  as_flags : ra_flags raw = list_to_set (switches items);
}.
Definition items_ok (items : list Item) : Prop := Forall item_ok items ∧ length (positionals items) ≤ 1.

Lemma reads_as_unique items raw raw' : reads_as items raw → reads_as items raw' → raw = raw'.
Proof.
  destruct raw, raw'. intros [H1 H2 H3] [H1' H2' H3']. simpl in *. f_equal; [congruence| |congruence].
  apply map_eq. intros key. by rewrite H2, H2'.
Qed.
Lemma reads_as_nil : reads_as [] RawArgs_default.
Proof. by split. Qed.

Lemma omap_snoc {A B} (f : A → option B) l x : omap f (l ++ [x]) = omap f l ++ match f x with Some y => [y] | None => [] end.
Proof. rewrite omap_app. simpl. by destruct (f x). Qed.

(** Reading one more item. *)
Definition add_item (raw : RawArgs) (i : Item) : RawArgs :=
  match i with
  | Positional s => set_command raw s
  | Switch key => add_flag raw key
  | Setting key value _ => push_value raw key value
  end.
Lemma reads_as_snoc items raw i : reads_as items raw → items_ok (items ++ [i]) → reads_as (items ++ [i]) (add_item raw i).
Proof.
  intros [Hc Hv Hf] [_ Hl]. split.
  - destruct i; unfold positionals in *; rewrite omap_snoc in Hl |- *; simpl in *; rewrite ?app_nil_r; [|done..].
    rewrite length_app in Hl. destruct (omap _ items); [done|simpl in Hl; lia].
  - intros key. specialize (Hv key). destruct i as [s|k|k v b]; unfold settings in *; rewrite omap_snoc;
      cbn [add_item set_command add_flag push_value ra_values]; rewrite ?app_nil_r; [done..|].
    rewrite lookup_partial_alter. case_decide as Hk.
    + subst k. rewrite bool_decide_eq_true_2, Hv by done. by destruct (omap _ items).
    + by rewrite bool_decide_eq_false_2, app_nil_r.
  - destruct i as [s|k|k v b]; unfold switches in *; rewrite omap_snoc; simpl; rewrite ?app_nil_r; [done| |done].
    rewrite list_to_set_app_L, Hf. simpl. set_solver.
Qed.

Lemma long_flag_Some arg rest : long_flag arg = Some rest ↔ arg = "--" +:+ rest.
Proof.
  split; [|by intros ->]. destruct arg as [|a [|b s]]; simpl; try done; repeat case_match; try done.
  by intros [= ->].
Qed.
Lemma known_no_equals key : is_known_flag key = true → str_has "=" key = false ∧ key ≠ "".
Proof.
  unfold is_known_flag. rewrite bool_decide_eq_true. intros Hin.
  repeat (apply elem_of_cons in Hin as [->|Hin]; [done|]). set_solver.
Qed.
Lemma boolean_known key : key ∈ BOOLEAN_FLAGS → is_known_flag key = true.
Proof. unfold BOOLEAN_FLAGS. intros Hin. repeat (apply elem_of_cons in Hin as [->|Hin]; [done|]). set_solver. Qed.

(** The text of an option, taken apart. *)
Lemma parse_item raw i args : item_ok i → (∀ s, i = Positional s → ra_command raw = None) →
  parse_from raw (render i ++ args) = parse_from (add_item raw i) args.
Proof.
  destruct i as [s|key|key value []]; intros Hok Hc; cbn [render app parse_from add_item].
  - simpl in Hok. by rewrite Hok, (Hc s eq_refl).
  - rewrite (proj2 (long_flag_Some _ _) eq_refl). pose proof (boolean_known _ Hok) as Hk.
    destruct (known_no_equals _ Hk) as [He Hne]. rewrite (proj2 (str_is_empty_false _) Hne).
    rewrite (proj2 (split_once_None _ _) He), Hk. simpl. by rewrite bool_decide_eq_true_2.
  - destruct Hok as (Hk & Hb & _). rewrite (proj2 (long_flag_Some _ _) eq_refl). destruct (known_no_equals _ Hk) as [He Hne].
    rewrite (proj2 (str_is_empty_false _)) by (by destruct key).
    rewrite (proj2 (split_once_Some "=" _ key value)) by done. rewrite Hk. simpl. by rewrite bool_decide_eq_false_2.
  - destruct Hok as (Hk & Hb & Hv). rewrite (proj2 (long_flag_Some _ _) eq_refl). destruct (known_no_equals _ Hk) as [He Hne].
    rewrite (proj2 (str_is_empty_false _) Hne), (proj2 (split_once_None _ _) He), Hk. simpl.
    by rewrite bool_decide_eq_false_2, Hv.
Qed.

(** One turn of the loop reads one item or refuses the command line. *)
Lemma parse_turn raw arg args :
  (∃ m, parse_from raw (arg :: args) = Err (CtUsage m))
  ∨ ∃ i rest, item_ok i ∧ arg :: args = render i ++ rest ∧ (∀ s, i = Positional s → ra_command raw = None).
Proof.
  cbn [parse_from]. destruct (long_flag arg) as [text|] eqn:Hf.
  2:{ destruct (ra_command raw) eqn:Hc; [eauto|]. right. exists (Positional arg), args. done. }
  apply long_flag_Some in Hf as ->. destruct (str_is_empty text); [eauto|].
  destruct (split_once "=" text) as [[key value]|] eqn:Hs.
  - apply split_once_Some in Hs as [-> Hk]. destruct (is_known_flag key) eqn:Hkn; simpl; [|eauto].
    case_bool_decide; [eauto|]. right. by exists (Setting key value true), args.
  - destruct (is_known_flag text) eqn:Hkn; simpl; [|eauto]. case_bool_decide as Hb.
    { right. by exists (Switch text), args. }
    destruct args as [|value args]; [eauto|]. case_bool_decide as Hv; [eauto|]. right.
    exists (Setting text value false), args. split; [|done]. split_and!; [done..|intros _].
    by apply eq_None_not_Some.
Qed.

Lemma positionals_app l k : positionals (l ++ k) = positionals l ++ positionals k.
Proof. apply omap_app. Qed.
Lemma items_ok_snoc items raw i : reads_as items raw → items_ok items → item_ok i →
  (∀ s, i = Positional s → ra_command raw = None) → items_ok (items ++ [i]).
Proof.
  intros [Hc _ _] [Hall Hl] Hi Hp. split; [apply Forall_app; by split; [|apply Forall_singleton]|].
  rewrite positionals_app, length_app. destruct i as [s| |]; simpl; [|lia..]. rewrite (Hp s eq_refl) in Hc.
  destruct (positionals items); [simpl; lia|done].
Qed.

(** The loop reads items, after those it has read before. *)
Lemma parse_from_spec args : ∀ items raw, reads_as items raw → items_ok items →
  (∃ m, parse_from raw args = Err (CtUsage m))
  ∨ ∃ more raw', parse_from raw args = Ok raw' ∧ args = concat (render <$> more)
      ∧ items_ok (items ++ more) ∧ reads_as (items ++ more) raw'.
Proof.
  induction args as [args IH] using (induction_ltof1 _ (@length string)); unfold ltof in IH.
  intros items raw Hr Hok. destruct args as [|arg args].
  { right. exists [], raw. rewrite app_nil_r. done. }
  destruct (parse_turn raw arg args) as [[m Hm]|(i & rest & Hi & Heq & Hp)]; [eauto|].
  rewrite Heq. rewrite parse_item by done.
  assert (items_ok (items ++ [i])) as Hok' by (by eapply items_ok_snoc).
  destruct (IH rest) with (items := items ++ [i]) (raw := add_item raw i) as [Herr|(more & raw' & Hpf & -> & Hok2 & Hr2)].
  - rewrite Heq, length_app. destruct i as [| |? ? []]; simpl; lia.
  - by apply reads_as_snoc.
  - done.
  - by left.
  - right. rewrite <-app_assoc in *. exists (i :: more), raw'. done.
Qed.

Lemma parse_items items : ∀ before raw, reads_as before raw → items_ok (before ++ items) →
  ∃ raw', parse_from raw (concat (render <$> items)) = Ok raw' ∧ reads_as (before ++ items) raw'.
Proof.
  induction items as [|i items IH]; intros before raw Hr Hok; simpl.
  { exists raw. by rewrite app_nil_r. }
  replace (before ++ i :: items) with ((before ++ [i]) ++ items) in * by (by rewrite <-app_assoc).
  assert (items_ok (before ++ [i])) as Hok1.
  { destruct Hok as [[Hall _]%Forall_app Hl]. split; [done|]. rewrite positionals_app, length_app in Hl. lia. }
  rewrite parse_item.
  - apply IH; [by apply reads_as_snoc|done].
  - destruct Hok1 as [[_ Hi]%Forall_app _]. by inversion Hi.
  - intros s ->. destruct Hr as [Hc _ _], Hok1 as [_ Hl]. rewrite positionals_app, length_app in Hl. simpl in Hl.
    rewrite Hc. destruct (positionals before); [done|simpl in Hl; lia].
Qed.

(** C37: the command line is read as its grammar says.  [parse_raw] accepts a list of
    arguments exactly when it is the rendering of a list of items (one command at
    most, known options, a value for each option that takes one and none for a
    switch, no separate value that looks like an option), and then the command is
    the positional item, an option has the values it was given in their order, and
    a flag is set when its switch is there; everything else is a usage error. *)
Theorem parse_raw_exact args :
  (∀ raw, parse_raw args = Ok raw ↔
     ∃ items, args = concat (render <$> items) ∧ items_ok items ∧ reads_as items raw)
  ∧ ((∃ raw, parse_raw args = Ok raw) ∨ ∃ m, parse_raw args = Err (CtUsage m)).
Proof.
  assert (items_ok []) as Hnil by (split; [done|simpl; lia]).
  unfold parse_raw. split.
  - intros raw. split.
    + intros Hp. destruct (parse_from_spec args [] _ reads_as_nil Hnil) as [[m Hm]|(items & raw' & Hp' & ? & ? & ?)];
        [congruence|]. assert (raw' = raw) as -> by congruence. by exists items.
    + intros (items & -> & Hok & Hr). destruct (parse_items items [] _ reads_as_nil Hok) as (raw' & -> & Hr').
      f_equal. by eapply reads_as_unique.
  - destruct (parse_from_spec args [] _ reads_as_nil Hnil) as [[m Hm]|(items & raw' & Hp' & _)]; eauto.
Qed.

(** ** What is sent *)

Section ctl_props.
Context `{CR : Crypto, CM : Codec Cbor Message, CS : Codec Cbor AdminSigned, CI : Codec Cbor AdminIdentity,
  CT : Codec Cbor JoinTokenSigned}.
Context `{CV : Codec Json json, CQ : Codec Json AdminRequestV2, CB : Codec Json BackupReport, CF : Codec Toml ServiceConfig}.
Context `{TQ : ToValue AdminRequestV2, TB : ToValue BackupReport, FB : FromValue BackupReport}.
Context {W : Type} `{WC : Clock W, RN : Rng W, TM : Timer W, NW : Network W}.
Context (pretty_json : json → result string string) (new_v4 uuid_text : string → string).
Context (order : path → list string → list string) (env : Env) (fuel : nat).

Abbreviation CTL A := (ST (Ctl W) (option CtlError) A) (only parsing).
Abbreviation call_server := (call_server new_v4 fuel) (only parsing).
Abbreviation send_request := (send_request new_v4 fuel) (only parsing).
Abbreviation execute := (execute pretty_json new_v4 uuid_text order env fuel) (only parsing).

(** A run adds to the wire only what [P] allows. *)
Definition sends {E A} (P : string * string → Prop) (m : ST (Ctl W) E A) : Prop :=
  ∀ c r c', m c = (r, c') → ∃ ws, ct_wire c' = ct_wire c ++ ws ∧ Forall P ws.

Lemma sends_same {E A} P (m : ST (Ctl W) E A) : (∀ c, ct_wire (m c).2 = ct_wire c) → sends P m.
Proof. intros Hm c r c' E'. exists []. rewrite app_nil_r. specialize (Hm c). rewrite E' in Hm. done. Qed.
Lemma sends_ret {E A} P (a : A) : sends P (mret (M := ST (Ctl W) E) a).
Proof. by apply sends_same. Qed.
Lemma sends_lift {E A} P (r : result E A) : sends P (st_lift r).
Proof. by apply sends_same. Qed.
Lemma sends_err {E A} P (e : E) : sends (A := A) P (st_err e).
Proof. by apply sends_same. Qed.
Lemma sends_map_err {E F A} P (f : E → F) (m : ST (Ctl W) E A) : sends P m → sends P (st_map_err f m).
Proof. intros Hm c r c' (r0 & Hr & _)%st_map_err_run. by apply Hm in Hr. Qed.
Lemma sends_bind {E A B} P (m : ST (Ctl W) E A) (f : A → ST (Ctl W) E B) :
  sends P m → (∀ a, sends P (f a)) → sends P (m ≫= f).
Proof.
  intros Hm Hf c r c' [(a & c1 & H1 & H2)|(e & H1 & _)]%st_bind_run; [|by apply Hm in H1].
  apply Hm in H1 as (ws1 & Hw1 & HP1). apply Hf in H2 as (ws2 & Hw2 & HP2). exists (ws1 ++ ws2).
  rewrite Hw2, Hw1, app_assoc. split; [done|by apply Forall_app].
Qed.
Lemma sends_ask {E A} P (q : W → A * W) : sends P (ct_ask (E := E) q).
Proof. apply sends_same. intros c. unfold ct_ask. by destruct (q (ct_world c)). Qed.
Lemma sends_files {E A} P (m : ST Fs E A) : sends P (ct_files (W := W) m).
Proof. apply sends_same. intros c. unfold ct_files. by destruct (m (ct_fs c)). Qed.
Lemma sends_emit P o : sends P (emit (W := W) o).
Proof. by apply sends_same. Qed.
Lemma sends_weaken {E A} (P Q : string * string → Prop) (m : ST (Ctl W) E A) :
  (∀ e, P e → Q e) → sends P m → sends Q m.
Proof. intros HPQ Hm c r c' E'. apply Hm in E' as (ws & ? & ?). exists ws. split; [done|]. by eapply Forall_impl. Qed.

Create HintDb sends.
#[local] Hint Resolve sends_ret sends_lift sends_err sends_map_err sends_ask sends_files sends_emit : sends.
(** Operations that do not talk to a server. *)
Ltac sends_nothing :=
  repeat first
    [ solve [auto with sends] | progress (unfold checked, fails, ct_exists, io_failed, new_request_id, new_uuid, random_nonce)
    | lazymatch goal with |- sends _ (mbind _ _) => apply sends_bind; [|intros ?] end | apply sends_map_err | case_match | progress cbv zeta ].

(** The bytes that a write of a message, whole or cut short, leaves on the wire. *)
Definition written (m : Message) (bytes : string) : Prop := ∃ fault, (write_frame fault m "").2 = bytes.

Lemma sends_frame P server context d k m : (∀ bytes, written m bytes → P (server, bytes)) →
  sends P (send_frame (W := W) server context d k m).
Proof.
  intros HP c r c'. unfold send_frame. destruct (write_frame (dl_faults d k) m "") as [r0 bytes] eqn:E.
  intros [= <- <-]. exists [(server, bytes)]. split; [done|]. apply Forall_singleton, HP. exists (dl_faults d k). by rewrite E.
Qed.

(** One connection to a server: a greeting and the request. *)
Definition exchange (server payload : string) (e : string * string) : Prop :=
  e.1 = server ∧ (written (Hello PROTOCOL_VERSION) e.2 ∨ ∃ id, written (Request id "auth" payload) e.2).
Lemma sends_call server payload limit : sends (exchange server payload) (call_server server payload limit).
Proof.
  unfold Ctl.call_server. apply sends_bind; [apply sends_ask|]. intros [| |d]; [apply sends_err..|].
  apply sends_bind; [apply sends_frame; split; [done|by left]|intros _].
  apply sends_bind; [apply sends_lift|]. intros v.
  case_bool_decide; [apply sends_err|]. apply sends_bind; [unfold new_uuid; sends_nothing|]. intros id.
  apply sends_bind; [apply sends_frame; split; [done|right; eauto]|]. intros _. apply sends_lift.
Qed.

(** A request of this administrator for an operation; nonce and time are any. *)
Definition signed_request (rc : RequestContext) (op service : string) (peers : list string)
    (member : option AdminMemberSpec) (join_token : option AdminJoinTokenSpec) (nonce : string) (ts : N)
    (req : AdminRequestV2) : Prop :=
  sign_request (rc_signing_key rc) (MkAdminRequestV2 ADMIN_REQUEST_VERSION op service (canonical_peers peers) (rc_kid rc)
    (rc_request_id rc) nonce ts "" member join_token) = Ok req.
Lemma build_request_run rc op service peers member join_token c r c' :
  build_request rc op service peers member join_token c = (r, c') →
  ct_fs c' = ct_fs c ∧ ct_wire c' = ct_wire c ∧ ct_out c' = ct_out c
  ∧ let '(bytes, w) := random_bytes 16 (ct_world c) in let '(ts, w) := now_unix w in
    ct_world c' = w ∧ ∀ req, r = Ok req → signed_request rc op service peers member join_token (b64url_encode bytes) ts req.
Proof.
  unfold build_request, random_nonce, checked, ct_ask, signed_request, mbind, ST_bind, st_lift, mret, ST_ret.
  destruct (random_bytes 16 (ct_world c)) as [bytes w]. simpl. destruct (now_unix w) as [ts w'].
  intros [= <- <-]. split_and!; [done..|]. intros req Hr. by apply map_err_Ok, map_err_Ok in Hr.
Qed.
Lemma sends_build P rc op service peers member join_token :
  sends P (build_request rc op service peers member join_token).
Proof. apply sends_same. intros c. destruct (build_request _ _ _ _ _ _ c) as [r c'] eqn:E. by apply build_request_run in E as (_ & ? & _). Qed.

(** The traffic of a request: none in a dry run. *)
Definition request_traffic (rc : RequestContext) (op service : string) (peers : list string)
    (member : option AdminMemberSpec) (join_token : option AdminJoinTokenSpec) (e : string * string) : Prop :=
  rc_dry_run rc = false ∧ ∃ nonce ts req payload, signed_request rc op service peers member join_token nonce ts req
    ∧ encode_to Json req = Ok payload ∧ exchange (rc_server rc) payload e.

Lemma sends_built {A} P rc op service peers member join_token (f : AdminRequestV2 → CTL A) :
  (∀ nonce ts req, signed_request rc op service peers member join_token nonce ts req → sends P (f req)) →
  sends P (build_request rc op service peers member join_token ≫= f).
Proof.
  intros Hf c r c' [(req & c1 & H1 & H2)|(e & H1 & _)]%st_bind_run.
  - apply build_request_run in H1 as (_ & Hw & _ & Hb). destruct (random_bytes 16 (ct_world c)) as [bytes w].
    destruct (now_unix w) as [ts w']. destruct Hb as [_ Hb]. rewrite <-Hw. by eapply Hf; [apply Hb|].
  - apply build_request_run in H1 as (_ & Hw & _). exists []. by rewrite Hw, app_nil_r.
Qed.
Lemma sends_retry {A} P retry (m : CTL A) again : sends P m → (∀ message, sends P (again message)) →
  sends P (or_retry retry m again).
Proof.
  intros Hm Ha c r c'. unfold or_retry. destruct (m c) as [r1 c1] eqn:E. apply Hm in E as (ws & Hw & HP).
  destruct r1 as [a|[[]|]]; try (intros [= <- <-]; by exists ws). destruct retry; [|intros [= <- <-]; by exists ws].
  intros (ws2 & Hw2 & HP2)%Ha. exists (ws ++ ws2). rewrite Hw2. cbn [ct_pause ct_wire]. rewrite Hw, app_assoc.
  split; [done|by apply Forall_app].
Qed.
Lemma sends_attempts attempts last_error rc op service peers member join_token :
  sends (request_traffic rc op service peers member join_token)
    (send_attempts new_v4 fuel attempts last_error rc op service peers member join_token).
Proof.
  revert last_error. induction attempts as [|attempt attempts IH]; intros last_error; cbn [send_attempts]; [apply sends_err|].
  apply sends_built. intros nonce ts req Hreq. destruct (rc_dry_run rc) eqn:Hdry; [apply sends_ret|].
  intros c r c' [(payload & Hp%map_err_Ok%map_err_Ok & H2)|(e & _ & _ & ->)]%st_lift_run.
  2:{ exists []. by rewrite app_nil_r. }
  revert c r c' H2. apply sends_retry; [|done]. eapply sends_weaken; [|apply sends_call].
  intros e He. split; [done|]. by exists nonce, ts, req, payload.
Qed.

Definition operations (command : Command) : list string :=
  match command with
  | CmdHelp | CmdKeygen | CmdBackup => []
  | CmdStatus => ["status"]
  | CmdAddMembers => ["add_members"]
  | CmdRemoveMembers => ["remove_members"]
  | CmdIssueJoinToken => ["status"; "issue_join_token"]
  | CmdPromoteVoter => ["promote_voter"]
  | CmdDemoteVoter => ["demote_voter"]
  | CmdPublishNow => ["publish_now"]
  end.
(** What a command may ask a server for; a dry run only reads the status. *)
Definition permitted (command : Command) (dry_run : bool) (op : string) : Prop :=
  if dry_run then command = CmdIssueJoinToken ∧ op = "status" else op ∈ operations command.
(** A greeting, or a request with the key, key id and request id of the run. *)
Definition signed_traffic (rc : RequestContext) (ok : string → Prop) (e : string * string) : Prop :=
  e.1 = rc_server rc ∧ (written (Hello PROTOCOL_VERSION) e.2
    ∨ ∃ id op service peers member join_token nonce ts req payload,
        ok op ∧ signed_request rc op service peers member join_token nonce ts req ∧ encode_to Json req = Ok payload
        ∧ written (Request id "auth" payload) e.2).

Lemma sends_request (ok : string → Prop) rc rc' op service peers member join_token :
  rc_server rc = rc_server rc' → rc_signing_key rc = rc_signing_key rc' → rc_kid rc = rc_kid rc' →
  rc_request_id rc = rc_request_id rc' → (rc_dry_run rc' = false → ok op) →
  sends (signed_traffic rc ok) (send_request rc' op service peers member join_token).
Proof.
  intros Hs Hk Hi Hr Hok. eapply sends_weaken; [|apply sends_attempts].
  intros e (Hd & nonce & ts & req & payload & Hreq & Hp & He & Hw). split; [congruence|].
  destruct Hw as [Hw|[id Hw]]; [by left|right]. exists id, op, service, peers, member, join_token, nonce, ts, req, payload.
  split_and!; [auto| |done..]. unfold signed_request in *. by rewrite Hk, Hi, Hr.
Qed.

Lemma sends_issue raw rc :
  sends (signed_traffic rc (permitted CmdIssueJoinToken (rc_dry_run rc))) (issue_join_token new_v4 uuid_text fuel raw rc).
Proof.
  unfold issue_join_token, token_expiry. cbv zeta. apply sends_bind.
  { apply sends_request; [done..|]. intros _. unfold permitted. destruct (rc_dry_run rc); [done|set_solver]. }
  intros status. repeat (lazymatch goal with |- sends _ (mbind _ _) => apply sends_bind; [solve [sends_nothing]|intros ?] end).
  apply sends_request; [done..|]. unfold permitted. intros ->. set_solver.
Qed.

Lemma sends_command command raw rc :
  sends (signed_traffic rc (permitted command (rc_dry_run rc))) (server_command new_v4 uuid_text fuel command raw rc).
Proof.
  assert (∀ op service peers member join_token, op ∈ operations command →
    sends (signed_traffic rc (permitted command (rc_dry_run rc))) (send_request rc op service peers member join_token)) as Hop.
  { intros op service peers member join_token Hin. apply sends_request; [done..|]. unfold permitted. by intros ->. }
  destruct command; unfold server_command;
    try (lazymatch goal with |- sends _ (mbind _ _) => apply sends_bind; [sends_nothing|intros ?] end); cbv zeta;
    try apply sends_err; try (case_bool_decide; [apply sends_err|]).
  all: first [apply sends_issue | apply Hop; vm_compute; set_solver].
Qed.

(** The parts that do not talk to a server. *)
Lemma sends_print P value compact : sends P (print_json (W := W) pretty_json value compact).
Proof. unfold print_json. sends_nothing. Qed.
Lemma sends_human P lines : sends P (print_human (W := W) lines).
Proof. induction lines as [|[k v] lines IH]; cbn [print_human]; [apply sends_ret|]. by apply sends_bind; [apply sends_emit|]. Qed.
#[local] Hint Resolve sends_print sends_human : sends.
Lemma sends_keygen P raw : sends P (value ← keygen raw; print_keygen (W := W) pretty_json value (flag raw "json")).
Proof. apply sends_bind; [unfold keygen, key_identity, key_directory, key_taken|intros value; unfold print_keygen]; sends_nothing. Qed.
Lemma sends_backup P raw :
  sends P (value ← backup_command order env raw; print_backup (W := W) pretty_json value (flag raw "json")).
Proof. apply sends_bind; [unfold backup_command, ctl_load_config|intros value; unfold print_backup]; sends_nothing. Qed.
Lemma sends_context P raw : sends P (request_context (W := W) new_v4 uuid_text env raw).
Proof. unfold request_context, resolve_server, load_signing_key, ctl_load_config. sends_nothing. Qed.
Lemma sends_none {E A} (m : ST (Ctl W) E A) c r c' : sends (λ _, False) m → m c = (r, c') → ct_wire c' = ct_wire c.
Proof. intros Hm (ws & -> & HF)%Hm. destruct ws; [by rewrite app_nil_r|by inversion HF]. Qed.

Definition server_output (raw : RawArgs) (rc : RequestContext) (value : json) : CTL unit :=
  if rc_dry_run rc then
    print_json pretty_json (JObj [("ok", JBool true); ("dry_run", JBool true); ("request_id", JStr (rc_request_id rc));
                                  ("request", value)]) (flag raw "json")
  else print_json pretty_json value (flag raw "json").
(** A run: the command line is refused, the command works on files, or it talks to
    a server. *)
Lemma execute_run args c r c' : execute args c = (r, c') →
  ct_wire c' = ct_wire c
  ∨ ∃ raw command, parse_raw args = Ok raw ∧ parse_command raw = Ok command
      ∧ (rc ← request_context new_v4 uuid_text env raw;
         value ← server_command new_v4 uuid_text fuel command raw rc; server_output raw rc value) c = (r, c').
Proof.
  intros [(raw & Hraw%map_err_Ok & H1)|(e & _ & _ & ->)]%st_lift_run; [|by left].
  apply st_lift_run in H1 as [(command & Hcmd%map_err_Ok & H2)|(e & _ & _ & ->)]; [|by left].
  destruct (decide (command ∈ [CmdHelp; CmdKeygen; CmdBackup])) as [Hlocal|Hserver].
  - left. repeat (apply elem_of_cons in Hlocal as [->|Hlocal]); [..|set_solver]; revert H2; apply sends_none;
      auto using sends_keygen, sends_backup with sends.
  - right. exists raw, command. split_and!; [done..|]. by destruct command; try set_solver.
Qed.


(** ** The answer of a server *)

(** What a frame means to a call that waits for the reply to [id]: the end, with a
    result, or nothing. *)
Definition decides (id : Uuid) (limit : N) (a : Arrival) : option (result CtlError json) :=
  match await_frame limit a with
  | None => Some (Err (CtTransport "等待回复超时"))
  | Some (Err e) => Some (Err (CtTransport ("读取回复失败: " +:+ frame_error_text e)))
  | Some (Ok (Reply reply_id ok value error)) => if bool_decide (reply_id = id) then Some (reply_value ok value error) else None
  | Some (Ok _) => None
  end.
Lemma read_reply_turn n id limit d k :
  read_reply (S n) id limit d k
  = match decides id limit (dl_arrivals d k) with Some res => map_err Some res | None => read_reply n id limit d (S k) end.
Proof.
  cbn [read_reply]. unfold decides. destruct (await_frame limit (dl_arrivals d k)) as [[m|e]|]; [|done..].
  destruct m; try done. by case_bool_decide.
Qed.
Lemma read_reply_none n id limit d k :
  read_reply n id limit d k = Err None ↔ ∀ j, j < n → decides id limit (dl_arrivals d (k + j)) = None.
Proof.
  revert k. induction n as [|n IH]; intros k; [split; [lia|done]|]. rewrite read_reply_turn. split.
  - destruct (decides id limit (dl_arrivals d k)) as [[]|] eqn:Hk; [done..|]. intros Hr [|j] Hj; [by rewrite Nat.add_0_r|].
    rewrite <-Nat.add_succ_comm. apply IH; [done|lia].
  - intros Hall. pose proof (Hall 0) as H0. rewrite Nat.add_0_r in H0. rewrite H0 by lia. apply IH. intros j Hj.
    rewrite Nat.add_succ_comm. apply Hall. lia.
Qed.
Lemma read_reply_some n id limit d k j res : j < n → (∀ i, i < j → decides id limit (dl_arrivals d (k + i)) = None) →
  decides id limit (dl_arrivals d (k + j)) = Some res → read_reply n id limit d k = map_err Some res.
Proof.
  revert k j. induction n as [|n IH]; intros k j Hj Hbefore Hat; [lia|]. rewrite read_reply_turn. destruct j as [|j].
  - rewrite Nat.add_0_r in Hat. by rewrite Hat.
  - pose proof (Hbefore 0) as H0. rewrite Nat.add_0_r in H0. rewrite H0 by lia. apply (IH (S k) j).
    + lia.
    + intros i Hi. rewrite Nat.add_succ_comm. apply Hbefore. lia.
    + by rewrite Nat.add_succ_comm.
Qed.

(** A server that speaks the protocol takes the greeting and the request. *)
Definition greets (d : Dial) (limit : N) (id : Uuid) (payload : string) : Prop :=
  dl_faults d 0 = None ∧ dl_faults d 1 = None ∧ read_hello limit d = Ok PROTOCOL_VERSION
  ∧ is_ok (encode_frame (Hello PROTOCOL_VERSION)) = true
  ∧ is_ok (encode_frame (Request id "auth" payload)) = true.

Lemma send_frame_whole server context d k m (c : Ctl W) : dl_faults d k = None → is_ok (encode_frame m) = true →
  ∃ bytes, send_frame server context d k m c = (Ok (), MkCtl (ct_fs c) (ct_world c) (ct_wire c ++ [(server, bytes)]) (ct_out c)).
Proof.
  intros Hf Hm. unfold send_frame, write_frame. rewrite Hf. destruct (encode_frame m) as [frame|]; [|done]. simpl. eauto.
Qed.

(** Such a call is the loop that waits for the reply. *)
Lemma call_reads server payload limit c d w :
  let id := new_v4 (random_bytes 16 w).1 in
  connect_to server limit (ct_world c) = (DialConnected d, w) → greets d limit id payload →
  (call_server server payload limit c).1 = read_reply fuel id limit d 1.
Proof.
  intros id Hd (Hf0 & Hf1 & Hh & Hm0 & Hm1). revert Hm1. subst id. unfold Ctl.call_server, mbind, ST_bind.
  unfold ct_ask at 1. rewrite Hd.
  destruct (send_frame_whole server "发送 hello 失败: " d 0 _ (MkCtl (ct_fs c) w (ct_wire c) (ct_out c)) Hf0 Hm0) as [b0 ->].
  unfold checked, st_lift. rewrite Hh. cbn [map_err]. rewrite bool_decide_eq_false_2 by (intros Hne; by apply Hne).
  unfold new_uuid, mbind, ST_bind, ct_ask, mret, ST_ret. cbn [ct_world]. destruct (random_bytes 16 w) as [bytes w'].
  cbn [fst]. intros Hm1. destruct (send_frame_whole server "发送请求失败: " d 1 (Request (new_v4 bytes) "auth" payload)
    (MkCtl (ct_fs c) w' (ct_wire c ++ [(server, b0)]) (ct_out c)) Hf1 Hm1) as [b1 Hb1].
  cbn [ct_fs ct_wire ct_out] in *. by rewrite Hb1.
Qed.

(** A call ends when a frame decides it, and only then.  A call to a server that
    speaks the protocol gives the value or the error of the first reply with its own
    id, unless a frame before it is late or unreadable; other frames are passed over,
    and each of them starts the time limit anew, so a server that keeps sending them
    keeps the call waiting for as long as it likes, whatever [--timeout-secs] says. *)
Theorem call_ends_when_decided server payload limit c d w :
  let id := new_v4 (random_bytes 16 w).1 in
  connect_to server limit (ct_world c) = (DialConnected d, w) → greets d limit id payload →
  let r := (call_server server payload limit c).1 in
  (∀ j res, j < fuel → (∀ i, i < j → decides id limit (dl_arrivals d (S i)) = None) →
     decides id limit (dl_arrivals d (S j)) = Some res → r = map_err Some res)
  ∧ (r = Err None ↔ ∀ j, j < fuel → decides id limit (dl_arrivals d (S j)) = None).
Proof.
  intros id Hd Hg r.
  assert (r = read_reply fuel id limit d 1) as -> by (by apply call_reads).
  split.
  - intros j res Hj Hbefore Hat. by apply (read_reply_some _ _ _ _ 1 j).
  - apply read_reply_none.
Qed.

(** ** Requests, as a sidecar sees them *)

Lemma signed_request_fields rc op service peers member join_token nonce ts req :
  signed_request rc op service peers member join_token nonce ts req →
  ∃ sig, req = MkAdminRequestV2 ADMIN_REQUEST_VERSION op service (canonical_peers peers) (rc_kid rc) (rc_request_id rc) nonce
    ts sig member join_token.
Proof. intros (bytes & _ & [= <-])%bind_Ok. simpl. eauto. Qed.

(** Nonce and time are no part of what a request asks for. *)
Lemma signed_request_same rc op service peers member join_token nonce ts req nonce' ts' req' :
  signed_request rc op service peers member join_token nonce ts req →
  signed_request rc op service peers member join_token nonce' ts' req' →
  request_hash req = request_hash req' ∧ policy_command_for req = policy_command_for req'.
Proof. by intros [sig ->]%signed_request_fields [sig' ->]%signed_request_fields. Qed.

(** A sidecar with the administrator's key that has not seen the nonce. *)
Definition knows (v : AdminVerifier) (rc : RequestContext) (role : AdminRole) (nonce : string) : Prop :=
  av_keys v !! rc_kid rc = Some (ed_public (rc_signing_key rc), role) ∧ guard_ok (av_guard v) ∧ nonce ∉ rg_order (av_guard v).
Definition good_nonce (nonce : string) : Prop := nonce ≠ "" ∧ (str_len nonce ≤ ADMIN_MAX_NONCE_LEN)%N.
Definition good_ids (rc : RequestContext) : Prop :=
  String.length (rc_signing_key rc) = 32 ∧ trim_is_empty (rc_kid rc) = false
  ∧ trim_is_empty (rc_request_id rc) = false ∧ (str_len (rc_request_id rc) ≤ ADMIN_MAX_REQUEST_ID_LEN)%N.
Definition in_time (now ts : N) : Prop :=
  (now ≤ ts + ADMIN_MAX_TS_SKEW_SECS ∧ ts ≤ now + ADMIN_MAX_TS_SKEW_SECS)%N.

(** A sidecar that knows the key accepts a request, if the key id and the request id
    are not blank and the clocks agree. *)
Lemma signed_request_verifies `{!CryptoLaws} rc op service peers member join_token nonce ts req v role now :
  signed_request rc op service peers member join_token nonce ts req →
  good_ids rc → good_nonce nonce → knows v rc role nonce → in_time now ts → is_ok (request_hash req) = true →
  ∃ va v', admin_verify req now v = (Ok va, v') ∧ va_role va = role ∧ request_hash req = Ok (va_request_hash va).
Proof.
  intros Hreq (Hl & Hkid & Hid & Hidl) [Hn Hnl] (Hk & Hg & Hin) Hts Hh.
  destruct (request_hash req) as [h|] eqn:Hhash; [|done]. pose proof Hreq as Hsig.
  apply signed_request_fields in Hreq as [sig ->]. unfold signed_request in Hsig.
  edestruct (signed_admin_request_accepted (rc_signing_key rc)) as (va & v' & Hv & Hr & Hva);
    [exact Hg|exact Hl|exact Hsig|exact Hk|done..|exact Hhash|].
  exists va, v'. split_and!; [done..|congruence].
Qed.

(** A request the tool has made, with its nonce and its time. *)
Lemma build_request_signed rc op service peers member join_token c req c' :
  build_request rc op service peers member join_token c = (Ok req, c') →
  signed_request rc op service peers member join_token (aq_nonce req) (aq_ts req) req.
Proof.
  intros H%build_request_run. destruct H as (_ & _ & _ & H). destruct (random_bytes 16 (ct_world c)) as [bytes w].
  destruct (now_unix w) as [ts w']. destruct H as [_ H]. specialize (H req eq_refl). pose proof H as Hf.
  by apply signed_request_fields in Hf as [sig ->].
Qed.

(** C4: a command is accepted, and applied once even if it is sent twice.  The two
    requests a run may make for a command (after a lost reply, or with the same
    [--request-id] later) are accepted by a sidecar that knows the administrator's
    key, under the same hash; when the first has been committed, committing the second
    changes nothing and gives the first one's answer. *)
Theorem retried_command_applied_once `{!CryptoLaws} rc op service peers member join_token c1 req1 c1' c2 req2 c2'
    v1 v2 role now1 now2 network log i command r p1 :
  build_request rc op service peers member join_token c1 = (Ok req1, c1') →
  build_request rc op service peers member join_token c2 = (Ok req2, c2') →
  good_ids rc → good_nonce (aq_nonce req1) → good_nonce (aq_nonce req2) →
  knows v1 rc role (aq_nonce req1) → knows v2 rc role (aq_nonce req2) → in_time now1 (aq_ts req1) → in_time now2 (aq_ts req2) →
  is_ok (request_hash req1) = true → policy_command_for req1 = Ok command →
  (∀ ic, ic ∈ log → (ic.1 < i)%N) → p_dedup (run_log log (PolicyState_new network)) !! aq_request_id req1 = None →
  ∃ va1 v1' va2 v2', admin_verify req1 now1 v1 = (Ok va1, v1') ∧ admin_verify req2 now2 v2 = (Ok va2, v2')
    ∧ va_role va1 = role ∧ va_role va2 = role ∧ va_request_hash va2 = va_request_hash va1
    ∧ policy_command_for req2 = Ok command
    ∧ (apply_command_at (Admin (aq_request_id req1) (aq_kid req1) (va_request_hash va1) (aq_ts req1) command) i
         (run_log log (PolicyState_new network)) = (r, p1) →
       ∃ epoch outcome, r = AdminResult (aq_request_id req1) epoch i false outcome
         ∧ ∀ j, apply_command_at (Admin (aq_request_id req2) (aq_kid req2) (va_request_hash va2) (aq_ts req2) command) j p1
             = (AdminResult (aq_request_id req1) epoch i true outcome, p1)).
Proof.
  intros H1%build_request_signed H2%build_request_signed Hids Hn1 Hn2 Hk1 Hk2 Ht1 Ht2 Hh Hc Hlog Hnew.
  destruct (signed_request_same _ _ _ _ _ _ _ _ _ _ _ _ H1 H2) as [Hhash Hcmd].
  destruct (signed_request_verifies _ _ _ _ _ _ _ _ _ v1 role now1 H1) as (va1 & v1' & Hv1 & Hr1 & Hh1); [done..|].
  destruct (signed_request_verifies _ _ _ _ _ _ _ _ _ v2 role now2 H2) as (va2 & v2' & Hv2 & Hr2 & Hh2); [done..|by rewrite <-Hhash|].
  assert (va_request_hash va2 = va_request_hash va1) as Heq by congruence.
  assert (aq_request_id req2 = aq_request_id req1) as Heqid.
  { apply signed_request_fields in H1 as [s1 H1], H2 as [s2 H2]. rewrite H1, H2. done. }
  exists va1, v1', va2, v2'. split_and!; [done..|congruence|]. intros Happ.
  destruct (applied_recorded _ _ _ _ _ _ _ _ _ _ Hlog Hnew Happ) as (x & Hx & Hp & _).
  destruct (recorded_answer _ _ _ _ _ _ _ Hx Hp) as (epoch & outcome & -> & Hdup & _).
  exists epoch, outcome. split; [done|]. intros j. rewrite Heq, Heqid. apply Hdup.
Qed.

(** ** Join tokens *)

(** The table with the administrator's own key. *)
Lemma own_verifier `{!CryptoLaws} kid key v kr : String.length key = 32 →
  from_config [MkAdminKeyConfig kid (b64_encode (ed_public key)) "root"] true = Ok v →
  av_keys v !! kid = Some kr → kr = (ed_public key, Root).
Proof.
  intros Hl Hv Hk. unfold from_config in Hv. apply bind_Ok in Hv as ([map root] & Hload & Hv). simpl in Hv.
  destruct (negb root); [done|]. injection Hv as <-. simpl in Hk.
  apply load_keys_spec in Hload as (Hmap & _). apply Hmap in Hk as [Hk|(e & ->%list_elem_of_singleton & He)]; [done|].
  destruct kr as [raw role], He as (_ & Hrole & Hraw & _). simpl in *. rewrite b64_round_trip in Hraw.
  by vm_compute in Hrole; simplify_eq.
Qed.

Definition says (status : json) (key value : string) : Prop := obj_get key status ≫= as_str = Some value ∧ value ≠ "".
Lemma status_field_Ok status key e value : status_field status key e = Ok value ↔ says status key value.
Proof.
  unfold status_field, says. rewrite ok_or_Ok, bind_Some. split.
  - intros (v & Hv & Hif). destruct (str_is_empty v) eqn:He; [done|]. injection Hif as <-. by apply str_is_empty_false in He.
  - intros [Hv He%str_is_empty_false]. exists value. by rewrite He.
Qed.

(** A token that is issued is one the cluster accepts.  If the tool gets as far
    as sending a token to the server, the token the server builds from the request,
    for the cluster and the network its status named, is signed by this
    administrator over exactly its fields: every node that has the key as a root key
    accepts it at that time.  It has the audience and the peer that were asked for,
    at least one use and an expiry that is not past: otherwise nothing is sent. *)
Theorem issued_token_is_valid `{!CryptoLaws} raw rc c r c' :
  String.length (rc_signing_key rc) = 32 →
  issue_join_token new_v4 uuid_text fuel raw rc c = (r, c') →
  (∃ e, r = Err e)
  ∨ ∃ status cluster_id network spec now c1,
      says status "cluster_id" cluster_id ∧ says status "network" network
      ∧ send_request rc "issue_join_token" "" [] None (Some spec) c1 = (r, c')
      ∧ js_audience spec = default "auth" (one raw "audience") ∧ js_bind_peer_id spec = default "" (one raw "bind-peer")
      ∧ (1 ≤ js_max_uses spec)%N ∧ (now ≤ js_expires_at spec)%N
      ∧ ∀ v, av_keys v !! rc_kid rc = Some (ed_public (rc_signing_key rc), Root) →
          verify_join_token v (token_from_spec cluster_id network (rc_kid rc) spec) now cluster_id network
            ["auth"; js_audience spec] = Ok ().
Proof.
  intros Hl. unfold issue_join_token. cbv zeta.
  intros [(status & c1 & _ & Hm)|(e & _ & ->)]%st_bind_run; [|left; by eexists].
  apply st_lift_run in Hm as [(cluster_id & Hcl%map_err_Ok%status_field_Ok & Hm)|(e & _ & -> & _)]; [|left; by eexists].
  apply st_lift_run in Hm as [(network & Hnet%map_err_Ok%status_field_Ok & Hm)|(e & _ & -> & _)]; [|left; by eexists].
  apply st_bind_run in Hm as [(jti & c2 & _ & Hm)|(e & _ & ->)]; [|left; by eexists].
  apply st_bind_run in Hm as [(expires_at & c3 & _ & Hm)|(e & _ & ->)]; [|left; by eexists].
  apply st_lift_run in Hm as [(uses & _ & Hm)|(e & _ & -> & _)]; [|left; by eexists].
  apply st_lift_run in Hm as [(token & Htok%map_err_Ok%map_err_Ok & Hm)|(e & _ & -> & _)]; [|left; by eexists].
  apply st_lift_run in Hm as [(own & Hown%map_err_Ok%map_err_Ok & Hm)|(e & _ & -> & _)]; [|left; by eexists].
  apply st_bind_run in Hm as [(now & c4 & _ & Hm)|(e & _ & ->)]; [|left; by eexists].
  apply st_lift_run in Hm as [([] & Hver%map_err_Ok%map_err_Ok & Hm)|(e & _ & -> & _)]; [|left; by eexists].
  right. apply bind_Ok in Htok as (bytes & Hb & [= <-]). cbn [jt_sig] in Hm. apply verify_join_token_Ok in Hver.
  eexists status, cluster_id, network, _, now, c4. split; [exact Hcl|]. split; [exact Hnet|]. split; [exact Hm|].
  split; [done|]. split; [done|]. split; [|split].
  - cbn [js_max_uses]. lia.
  - apply (tv_expiry _ _ _ _ _ _ Hver).
  - intros v Hk. apply verify_join_token_Ok. destruct Hver as [? ? ? ? ? ? ? (key & b & sig & Hkey & Hsig)].
    unfold token_from_spec. cbn [js_max_uses js_jti js_audience js_expires_at js_bind_peer_id js_sig].
    rewrite (N.max_l (N.max _ 1) 1) by lia. split; try done.
    exists key, b, sig. split; [|done]. simpl in Hkey |- *. rewrite Hk. f_equal.
    symmetry. by eapply own_verifier.
Qed.
End ctl_props.
