(* ===== verification/EndToEnd.v ===== *)
(** * A command from the tool to the policy

    The administration tool of [src/src/ctl.rs] on one side, the handlers of
    [src/src/service.rs] on the leader on the other: what the tool signs is what
    the leader proposes, and what it prints is what the policy answered. *)
From S2P Require Import Prelude Text Fsutil Crypto Authority Replay Store Types StateMachine Transport AdminV2.
From S2P Require Import Config Backup Join Seed Protocol Admin Replicate PasswordJoin Context Publisher Sync Service ServiceProps.
From S2P Require Import Runtime Connection Ctl CtlProps.

(** ** What the tool makes of a reply *)

Section hearing.
Context `{CV : Codec Json json}.

(** A reply of a sidecar, as the tool reads it. *)
Definition heard (r : Outcome) : result CtlError json :=
  match request_reply "" r with Reply _ ok value error => reply_value ok value error | _ => Err (CtTransport "") end.
Lemma heard_Ok text value : decode_from Json text = Ok value → heard (Ok text) = Ok value.
Proof. intros Hd. unfold heard. simpl. by rewrite Hd. Qed.
Lemma heard_Err e : heard (Err e) = Err (CtServer (se_code e) (se_message e)).
Proof. done. Qed.
Lemma reply_decides id limit delay r : (delay ≤ limit)%N →
  decides id limit (Frame delay (Ok (request_reply id r))) = Some (heard r).
Proof.
  intros Hd. unfold decides, await_frame. rewrite (proj2 (N.leb_le _ _) Hd).
  destruct r; simpl; by rewrite bool_decide_eq_true_2.
Qed.

(** The frames of a connection on which the reply [r] to the call [id] arrives in
    time, after frames that concern others. *)
Definition brings (d : Dial) (limit : N) (id : Uuid) (fuel : nat) (r : Outcome) : Prop :=
  ∃ j delay, j < fuel ∧ (∀ i, i < j → decides id limit (dl_arrivals d (S i)) = None)
    ∧ (delay ≤ limit)%N ∧ dl_arrivals d (S j) = Frame delay (Ok (request_reply id r)).
End hearing.

(** ** The leader *)

Section leader.
Context `{CR : Crypto, CO : Coset, CI : Codec Cbor IndexDoc, CW : Codec Cbor WhitelistDoc,
  CT : Codec Toml StoreSnapshot, CS : Codec Cbor StoreSnapshot, CM : Codec Json MacInput,
  CAS : Codec Cbor AdminSigned, CAI : Codec Cbor AdminIdentity, CTS : Codec Cbor JoinTokenSigned,
  CJS : Codec Cbor JoinSigned}.
Context `{JV : Codec Json json, JE : Codec Json ForwardedAdminEnvelope, JJ : Codec Json RaftJoinRequest,
  JR : Codec Json RaftJoinResponse}.
Context `{FM : FromValue ManagementRequest, FA : FromValue AdminRequestV2, FR : FromValue ReplicateMsg,
  FS : FromValue SyncRequest, FJ : FromValue RaftJoinRequest, TP : ToValue SyncResponse}.
Context {W : Type} `{WC : Clock W, WR : AdminRaft W, WB : BackendClient W, WT : RaftRuntime W}.
Variable handle_rpc : string → ST (Node W) SidecarError string.
Variable handle_seed_delivery handle_seed_drop handle_join : json → ST (Node W) SidecarError string.
Variable execute_member_write : AdminRequestV2 → VerifiedAdmin → option string → ST (Node W) SidecarError string.

(** [serde_json]: the text of a request reads as a value with its operation, from
    which the request comes back. *)
Definition carries (payload : string) (req : AdminRequestV2) : Prop :=
  ∃ value, decode_from Json payload = Ok value ∧ obj_get "op" value = Some (JStr (aq_op req)) ∧ from_value value = Ok req.

(** A node of the cluster mode that has its runtime. *)
Definition clustered (n : Node W) : Prop := ctx_raft_required (nd_ctx n) = true ∧ ctx_admin_raft (nd_ctx n) = true.
(** Its clock shows [now] and it leads; [w] is the world once it has looked. *)
Definition leads (n : Node W) (now : N) (w : W) : Prop :=
  ∃ w1 w2 leader, now_unix (nd_world n) = (now, w1) ∧ is_leader w1 = (true, w2) ∧ leader_peer w2 = (leader, w).

(** The operations the tool asks for. *)
Definition tool_ops : list string := operations CmdIssueJoinToken ++ operations CmdAddMembers ++ operations CmdRemoveMembers
  ++ operations CmdPromoteVoter ++ operations CmdDemoteVoter ++ operations CmdPublishNow.

Lemma forwarded_not_tool : FORWARDED_ADMIN_OP ∉ tool_ops.
Proof. intros Hin. repeat (apply elem_of_cons in Hin as [Heq|Hin]; [done|]). set_solver. Qed.

Abbreviation handled := (handle_service_request (W := W) handle_rpc handle_seed_delivery handle_seed_drop
  handle_join execute_member_write) (only parsing).

(** In the cluster mode a request of the tool goes to the administrator protocol. *)
Lemma tool_request_dispatched req payload client forwarder n :
  carries payload req → aq_op req ∈ tool_ops → clustered n →
  ∃ value, from_value value = Ok req ∧ obj_get "op" value = Some (JStr (aq_op req))
    ∧ handled payload client forwarder n = handle_admin_v2 execute_member_write payload value forwarder n.
Proof.
  intros (value & Hd & Hop & Hv) Hin [Hr _]. exists value. split_and!; [done..|].
  unfold handle_service_request, mbind, ST_bind, st_lift, ctx_get, id. rewrite Hd. cbn [map_err]. rewrite Hop.
  cbn [mbind option_bind as_str ok_or]. rewrite Hr.
  repeat (apply elem_of_cons in Hin as [->|Hin]; [reflexivity|]). set_solver.
Qed.

(** What the node does with a request of a root key it has verified. *)
Lemma verified_request_run req value payload forwarder n now w1 va v' :
  from_value value = Ok req → obj_get "op" value = Some (JStr (aq_op req)) → aq_op req ∈ tool_ops →
  now_unix (nd_world n) = (now, w1) → admin_verify req now (ctx_admin_keys (nd_ctx n)) = (Ok va, v') → va_role va = Root →
  let n1 := MkNode (set_admin_keys (nd_ctx n) v') (nd_fs n) w1 in
  handle_admin_v2 execute_member_write payload value forwarder n =
    match classify_admin_op (aq_op req) with
    | OpRead => handle_admin_read req n1
    | OpWrite => handle_root_write execute_member_write payload req va forwarder None n1
    | OpUnknown => (Err (sidecar_error "unknown_op" ("未知指令: " +:+ aq_op req)), n1)
    end.
Proof.
  intros Hv Hop Hin Hnow Hver Hrole n1. unfold handle_admin_v2. rewrite Hop. cbn [mbind option_bind as_str default].
  rewrite bool_decide_eq_false_2.
  2:{ cbv [id]. intros Heq. rewrite Heq in Hin. by apply forwarded_not_tool in Hin. }
  unfold mbind, ST_bind, st_lift. rewrite Hv. cbn [map_err]. unfold ask. rewrite Hnow. unfold st_map_err, on_admin_keys.
  cbn [set_world nd_ctx]. rewrite Hver. cbn [map_err set_ctx nd_fs nd_world]. rewrite bool_decide_eq_false_2 by (by intros []).
  by destruct (classify_admin_op (aq_op req)).
Qed.

(** The leader writes what it is asked to. *)
Lemma leader_writes payload req va forwarder n now w v' c :
  clustered n → leads n now w → aq_op req ∈ ["add_members"; "remove_members"] → policy_command_for req = Ok c →
  let n1 := MkNode (set_admin_keys (nd_ctx n) v') (nd_fs n) (now_unix (nd_world n)).2 in
  let n2 w := MkNode (set_admin_keys (nd_ctx n) v') (nd_fs n) w in
  handle_root_write execute_member_write payload req va forwarder None n1 =
    match propose (Types.Admin (aq_request_id req) (aq_kid req) (va_request_hash va) (aq_ts req) c) w with
    | (Ok p, w) => admin_reply p (n2 w)
    | (Err e, w) => (Err (map_admin_apply_error e), n2 w)
    end.
Proof.
  intros [_ Ha] (w1 & w2 & leader & Hnow & Hlead & Hpeer) Hop Hc n1 n2. subst n1. rewrite Hnow.
  unfold handle_root_write, admin_raft, mbind, ST_bind, ctx_get, id, ask. cbn [nd_ctx set_admin_keys ctx_admin_raft snd].
  rewrite Ha. cbn [mret ST_ret nd_world]. unfold mret, ST_ret. cbn [nd_world]. rewrite Hlead.
  unfold execute_root_write, mbind, ST_bind, ask. cbn [set_world nd_world]. rewrite Hpeer.
  assert (is_member_management_op (aq_op req) = false ∧ bool_decide (aq_op req = "publish_now") = false) as [-> ->].
  { repeat (apply elem_of_cons in Hop as [->|Hop]; [done|]). set_solver. }
  unfold mbind, ST_bind, st_lift. rewrite Hc. unfold st_map_err, call. cbn [set_world nd_world nd_ctx nd_fs].
  by destruct (propose _ w) as [[p|e] w'].
Qed.
End leader.

(** ** The two together *)

Section together.
Context `{CR : Crypto, CL : !CryptoLaws, CO : Coset, CI : Codec Cbor IndexDoc, CW : Codec Cbor WhitelistDoc,
  CT : Codec Toml StoreSnapshot, CS : Codec Cbor StoreSnapshot, CM : Codec Json MacInput,
  CAS : Codec Cbor AdminSigned, CAI : Codec Cbor AdminIdentity, CTS : Codec Cbor JoinTokenSigned,
  CJS : Codec Cbor JoinSigned, CMG : Codec Cbor Message, CQ : Codec Json AdminRequestV2}.
Context `{JV : Codec Json json, JE : Codec Json ForwardedAdminEnvelope, JJ : Codec Json RaftJoinRequest,
  JR : Codec Json RaftJoinResponse}.
Context `{FM : FromValue ManagementRequest, FA : FromValue AdminRequestV2, FR : FromValue ReplicateMsg,
  FS : FromValue SyncRequest, FJ : FromValue RaftJoinRequest, TP : ToValue SyncResponse, TQ : ToValue AdminRequestV2}.
(** The world of the tool and that of the node. *)
Context {V : Type} `{VC : Clock V, RN : Rng V, TM : Timer V, NW : Network V}.
Context {W : Type} `{WC : Clock W, WR : AdminRaft W, WB : BackendClient W, WT : RaftRuntime W}.
Context (new_v4 : string → string) (fuel : nat).
Variable handle_rpc : string → ST (Node W) SidecarError string.
Variable handle_seed_delivery handle_seed_drop handle_join : json → ST (Node W) SidecarError string.
Variable execute_member_write : AdminRequestV2 → VerifiedAdmin → option string → ST (Node W) SidecarError string.
Abbreviation handled := (handle_service_request (W := W) handle_rpc handle_seed_delivery handle_seed_drop
  handle_join execute_member_write) (only parsing).

(** The first attempt of the tool: it signs [req], sends it as [payload] and gets
    the reply [r]. *)
Record heard_attempt (rc : RequestContext) (op service : string) (peers : list string) (member : option AdminMemberSpec)
    (join_token : option AdminJoinTokenSpec) (c : Ctl V) (req : AdminRequestV2) (payload : string) (r : Outcome) : Prop := {
  at_sent : rc_dry_run rc = false;
  at_built : ∃ c1 d w, build_request rc op service peers member join_token c = (Ok req, c1)
    ∧ connect_to (rc_server rc) (rc_timeout rc) (ct_world c1) = (DialConnected d, w)
    ∧ greets d (rc_timeout rc) (new_v4 (random_bytes 16 w).1) payload
    ∧ brings d (rc_timeout rc) (new_v4 (random_bytes 16 w).1) fuel r;
  at_payload : encode_to Json req = Ok payload;
}.

(** What cannot be read as JSON would be a failure of the transport, and the tool
    would ask again. *)
Definition readable (r : Outcome) : Prop := match r with Ok text => is_ok (decode_from Json (A := json) text) = true | Err _ => True end.

Lemma attempt_hears rc op service peers member join_token c req payload r :
  heard_attempt rc op service peers member join_token c req payload r → readable r →
  (send_request new_v4 fuel rc op service peers member join_token c).1 = map_err Some (heard r).
Proof.
  intros [Hdry (c1 & d & w & Hb & Hd & Hg & j & delay & Hj & Hbefore & Hdelay & Hat) Hp] Hr.
  unfold send_request. cbn [seq send_attempts]. unfold mbind, ST_bind. rewrite Hb, Hdry. unfold checked, st_lift. rewrite Hp.
  cbn [map_err]. pose proof (call_reads new_v4 fuel _ payload _ _ _ _ Hd Hg) as Hc.
  rewrite (read_reply_some _ _ _ _ 1 j (heard r)) in Hc; [|done..|].
  2:{ cbn [Nat.add]. rewrite Hat. by apply reply_decides. }
  unfold or_retry. destruct (call_server new_v4 fuel (rc_server rc) payload (rc_timeout rc) c1) as [r1 c2].
  cbn [fst] in Hc. subst r1. destruct r as [text|e]; [|done].
  unfold readable in Hr. destruct (decode_from Json text) as [value|] eqn:Hv; [|done]. by rewrite (heard_Ok _ _ Hv).
Qed.
Lemma canonical_peers_twice peers : canonical_peers (canonical_peers peers) = canonical_peers peers.
Proof. apply canonical_peers_eq. unfold canonical_peers. apply list_to_set_ord_elements. Qed.

(** The command of the policy an operation of the tool stands for. *)
Definition service_command (op service : string) (peers : list string) : PolicyCommand :=
  if bool_decide (op = "add_members") then AddMembers service (canonical_peers peers)
  else RemoveMembers service (canonical_peers peers).
Definition service_ops : list string := ["add_members"; "remove_members"].
Lemma tool_command rc op service peers member join_token nonce ts req :
  signed_request rc op service peers member join_token nonce ts req → op ∈ service_ops → service ≠ "" →
  policy_command_for req = Ok (service_command op service peers).
Proof.
  intros [sig ->]%signed_request_fields Hop Hs. unfold policy_command_for, require_service_v2, service_command.
  cbn [aq_service aq_op aq_peers]. rewrite (proj2 (str_is_empty_false _) Hs). cbn [mbind result_bind].
  rewrite canonical_peers_twice. by repeat (apply elem_of_cons in Hop as [->|Hop]; [done|]); set_solver.
Qed.

(** What is heard of an outcome: a rejection with its own code; a success only when
    nothing changed or when the round of publication that follows a change came to
    its end on the leader. *)
Definition told (request_id : string) (outcome : AdminOutcome) (epoch index : N) (duplicate : bool)
    (published : result PublishError PublishOutcome) (r : Outcome) : Prop :=
  match outcome with
  | OutRejected code message => heard r = Err (CtServer code message)
  | OutApplied service version changed =>
      if changed && match published with Ok NotLeader | Err _ => true | Ok _ => false end
      then ∃ message, heard r = Err (CtServer "committed_but_publish_failed" message)
      else r = Ok (encode (JObj [("request_id", JStr request_id); ("service", jopt JStr service);
                                 ("version", jopt JNum version); ("changed", JBool changed); ("policy_epoch", JNum epoch);
                                 ("raft_index", JNum index); ("duplicate", JBool duplicate)]))
  end.
(** What is heard of a command that the policy in the state [state] gets at the index
    [i] under the hash [h]: the new outcome, or the recorded one. *)
Definition policy_answer (request_id h : string) (command : PolicyCommand) (i : N) (state : PolicyState)
    (published : result PublishError PublishOutcome) (r : Outcome) : Prop :=
  match p_dedup state !! request_id with
  | None =>
      let '(res, state') := apply_inner command state in
      told request_id (outcome_of res) (p_policy_epoch state') i false published r
  | Some record =>
      if bool_decide (ar_request_hash record = h)
      then told request_id (ar_outcome record) (ar_policy_epoch record) (ar_raft_index record) true published r
      else ∃ message, heard r = Err (CtServer "request_id_conflict" message)
  end.

Lemma reply_told request_id epoch index i duplicate outcome (n : Node W) r n' :
  (duplicate = false → i = index) →
  admin_reply (MkAdminProposal (AdminResult request_id epoch index duplicate outcome) i) n = (r, n') →
  told request_id outcome epoch index duplicate (publish_now false n).1 r.
Proof.
  intros Hi. assert ((if duplicate then index else i) = index) as Hidx by (destruct duplicate; auto).
  unfold admin_reply, told. cbn [ap_result ap_raft_index]. rewrite Hidx. destruct outcome as [s v changed|code message].
  - destruct changed; cbn [andb].
    + destruct (publish_now false n) as [[[]|e] n1]; cbn [fst]; intros [= <- <-]; eauto.
    + by intros [= <- <-].
  - unfold st_err. by intros [= <- <-].
Qed.
Lemma admin_reply_answer request_id kid h ts command i state (n : Node W) r n' :
  admin_reply (MkAdminProposal (apply_command_at (Types.Admin request_id kid h ts command) i state).1 i) n = (r, n') →
  policy_answer request_id h command i state (publish_now false n).1 r.
Proof.
  cbn [apply_command_at]. unfold apply_admin, policy_answer. destruct (p_dedup state !! request_id) as [record|].
  - case_bool_decide; cbn [fst]; [by apply reply_told|]. intros Hr. apply reply_told in Hr; [|done].
    cbn [told] in Hr. eauto.
  - destruct (apply_inner command state) as [res state']. cbn [fst]. by apply reply_told.
Qed.

End together.
