(* ===== verification/Forward.v ===== *)
(** * A command by way of another member

    A sidecar of the cluster that does not lead passes an administrator's command on,
    in an envelope, and the leader reads it again ([handle_root_write],
    [handle_forwarded_admin] of [src/src/service.rs]).  What the administrator gets is
    what the leader would have answered him. *)
From S2P Require Import Prelude Text Fsutil Crypto Authority Replay Store Types StateMachine Transport AdminV2.
From S2P Require Import Config Join Seed Protocol Admin Replicate PasswordJoin Context Publisher Sync Service ServiceProps.
From S2P Require Import Runtime Connection Ctl EndToEnd.

Section forward.
Context `{CR : Crypto, CL : !CryptoLaws, CO : Coset, CI : Codec Cbor IndexDoc, CW : Codec Cbor WhitelistDoc,
  CT : Codec Toml StoreSnapshot, CS : Codec Cbor StoreSnapshot, CM : Codec Json MacInput,
  CAS : Codec Cbor AdminSigned, CAI : Codec Cbor AdminIdentity, CTS : Codec Cbor JoinTokenSigned,
  CJS : Codec Cbor JoinSigned}.
Context `{JV : Codec Json json, JE : Codec Json ForwardedAdminEnvelope, JJ : Codec Json RaftJoinRequest,
  JR : Codec Json RaftJoinResponse}.
Context `{FM : FromValue ManagementRequest, FA : FromValue AdminRequestV2, FR : FromValue ReplicateMsg,
  FS : FromValue SyncRequest, FJ : FromValue RaftJoinRequest, TP : ToValue SyncResponse}.

(** ** Any node *)

Section node.
Context {W : Type} `{WC : Clock W, WR : AdminRaft W, WB : BackendClient W, WT : RaftRuntime W}.
Variable handle_rpc : string → ST (Node W) SidecarError string.
Variable handle_seed_delivery handle_seed_drop handle_join : json → ST (Node W) SidecarError string.
Variable execute_member_write : AdminRequestV2 → VerifiedAdmin → option string → ST (Node W) SidecarError string.
Abbreviation handled := (handle_service_request (W := W) handle_rpc handle_seed_delivery handle_seed_drop
  handle_join execute_member_write) (only parsing).

Definition other_ops : list string :=
  [RAFT_RPC_OP; RAFT_JOIN_OP; SEED_DELIVERY_OP; SEED_DROP_OP; "join_request"; OP_REPLICATE; OP_SYNC_REQUEST].
Lemma dispatched payload value op client forwarder n :
  decode_from Json payload = Ok value → obj_get "op" value = Some (JStr op) → op ∉ other_ops → clustered n →
  handled payload client forwarder n = handle_admin_v2 execute_member_write payload value forwarder n.
Proof.
  intros Hd Hop Hin [Hr _]. unfold handle_service_request, mbind, ST_bind, st_lift, ctx_get, id. rewrite Hd. cbn [map_err].
  rewrite Hop. cbn [mbind option_bind as_str ok_or]. rewrite Hr.
  repeat (rewrite bool_decide_eq_false_2 by (intros ->; apply Hin; unfold other_ops; set_solver)). reflexivity.
Qed.
Lemma write_ops op : classify_admin_op op = OpWrite → op ∉ FORWARDED_ADMIN_OP :: other_ops.
Proof.
  intros Hc Hin. revert Hc. repeat (apply elem_of_cons in Hin as [->|Hin]; [vm_compute; discriminate|]). set_solver.
Qed.

(** A request in the hands of a node: verified at the time [now] as one of a root key,
    leaving the keys [v']. *)
Definition accepts (n : Node W) (req : AdminRequestV2) (now : N) (va : VerifiedAdmin) (v' : AdminVerifier) : Prop :=
  admin_verify req now (ctx_admin_keys (nd_ctx n)) = (Ok va, v') ∧ va_role va = Root.
Lemma accepted_run payload req client forwarder n now w1 va v' :
  carries payload req → classify_admin_op (aq_op req) = OpWrite → clustered n →
  now_unix (nd_world n) = (now, w1) → accepts n req now va v' →
  handled payload client forwarder n =
  handle_root_write execute_member_write payload req va forwarder None (MkNode (set_admin_keys (nd_ctx n) v') (nd_fs n) w1).
Proof.
  intros (value & Hd & Hop & Hv) Hc Hcl Hnow [Hver Hrole]. pose proof (write_ops _ Hc) as [Hf Ho]%not_elem_of_cons.
  erewrite dispatched by done. unfold handle_admin_v2. rewrite Hop. cbn [mbind option_bind as_str default].
  rewrite bool_decide_eq_false_2 by done. unfold mbind, ST_bind, st_lift. rewrite Hv. cbn [map_err]. unfold ask. rewrite Hnow.
  unfold st_map_err, on_admin_keys. cbn [set_world nd_ctx]. rewrite Hver. cbn [map_err set_ctx nd_fs nd_world].
  by rewrite bool_decide_eq_false_2, Hc by (by intros []).
Qed.
End node.

(** ** The leader *)

Section leader.
Context {W : Type} `{WC : Clock W, WR : AdminRaft W, WB : BackendClient W, WT : RaftRuntime W}.
Variable handle_rpc : string → ST (Node W) SidecarError string.
Variable handle_seed_delivery handle_seed_drop handle_join : json → ST (Node W) SidecarError string.
Variable execute_member_write : AdminRequestV2 → VerifiedAdmin → option string → ST (Node W) SidecarError string.
Abbreviation handled := (handle_service_request (W := W) handle_rpc handle_seed_delivery handle_seed_drop
  handle_join execute_member_write) (only parsing).

(** [serde_json]: the text of an envelope reads as a value with its operation, and
    the envelope comes back. *)
Definition encloses (text : string) (e : ForwardedAdminEnvelope) : Prop :=
  decode_from Json text = Ok e
  ∧ ∃ value, decode_from Json (A := json) text = Ok value ∧ obj_get "op" value = Some (JStr (fw_op e)).
(** The leader may be asked for its clock and its leadership in either order. *)
Definition leads_either_way (n : Node W) (now : N) : Prop :=
  ∃ w1 w2 w, now_unix (nd_world n) = (now, w1) ∧ is_leader w1 = (true, w)
    ∧ is_leader (nd_world n) = (true, w2) ∧ now_unix w2 = (now, w).

(** The leader does with the envelope what it does with the request in it. *)
Lemma envelope_opened text e payload req client forwarder client' forwarder' n now va v' :
  encloses text e → fw_op e = FORWARDED_ADMIN_OP → fw_v e = FORWARDED_ADMIN_VERSION → b64_decode (fw_request_b64 e) = Some payload →
  carries payload req → classify_admin_op (aq_op req) = OpWrite → clustered n → leads_either_way n now → accepts n req now va v' →
  handled text client forwarder n = handled payload client' forwarder' n.
Proof.
  intros (He & ev & Hed & Heop) Hop Hv Hb Hcar Hc Hcl (w1 & w2 & w & Hnow & Hlead & Hlead2 & Hnow2) Hacc.
  erewrite (accepted_run handle_rpc handle_seed_delivery handle_seed_drop handle_join execute_member_write payload) by done.
  destruct Hcar as (value & Hd & _ & Hval), Hacc as [Hver Hrole], Hcl as [Hr Ha].
  assert (∀ edge n, execute_root_write execute_member_write req va edge n = execute_root_write execute_member_write req va None n) as Hex.
  { intros edge n'. unfold execute_root_write. by rewrite (write_op_not_member _ Hc). }
  erewrite dispatched; [|done|by rewrite Heop, Hop| |by split].
  2:{ unfold other_ops. rewrite !not_elem_of_cons. split_and!; (done || apply not_elem_of_nil). }
  unfold handle_admin_v2. rewrite Heop. cbn [mbind option_bind as_str default]. rewrite bool_decide_eq_true_2 by done.
  unfold handle_forwarded_admin, handle_root_write, admin_raft, mbind, ST_bind, st_lift, ctx_get, id, ask. rewrite He. cbn [map_err].
  rewrite Hop, Hv, N.eqb_refl, bool_decide_eq_false_2 by (intros []; done). cbn [negb orb nd_ctx set_admin_keys ctx_admin_raft].
  rewrite Ha. unfold mret, ST_ret. cbn [nd_world]. rewrite Hlead2, Hlead. cbn [negb]. rewrite Hb. cbn [ok_or]. rewrite Hd. cbn [map_err].
  rewrite Hval. cbn [map_err set_world nd_world]. rewrite Hnow2. unfold st_map_err, on_admin_keys. cbn [set_world nd_ctx].
  rewrite Hver. cbn [map_err]. rewrite bool_decide_eq_false_2, Hc by (by intros []). rewrite bool_decide_eq_false_2 by (by intros []).
  apply Hex.
Qed.
End leader.

(** ** The node in between *)

Section edge.
Context {U : Type} `{WC : Clock U, WR : AdminRaft U, WB : BackendClient U, WT : RaftRuntime U}.
Variable handle_rpc : string → ST (Node U) SidecarError string.
Variable handle_seed_delivery handle_seed_drop handle_join : json → ST (Node U) SidecarError string.
Variable execute_member_write : AdminRequestV2 → VerifiedAdmin → option string → ST (Node U) SidecarError string.
Abbreviation handled := (handle_service_request (W := U) handle_rpc handle_seed_delivery handle_seed_drop
  handle_join execute_member_write) (only parsing).

(** It does not lead and knows who does; [me] is the name the node under it goes by. *)
Definition follows (n : Node U) (now : N) (forwarder : Conn) (leader me : string) (u : U) : Prop :=
  ∃ u1 u2 u3 r, now_unix (nd_world n) = (now, u1) ∧ is_leader u1 = (false, u2) ∧ leader_peer u2 = (Some leader, u3)
    ∧ client_whoami forwarder u3 = (r, u) ∧ me = default "" (result_ok r).
Definition envelope (payload me : string) : ForwardedAdminEnvelope :=
  MkForwardedAdminEnvelope FORWARDED_ADMIN_OP FORWARDED_ADMIN_VERSION (b64_encode payload) me "".

Lemma passed_on payload req client forwarder n now va v' leader me u text :
  carries payload req → classify_admin_op (aq_op req) = OpWrite → clustered n → accepts n req now va v' →
  follows n now forwarder leader me u → encode_to Json (envelope payload me) = Ok text →
  (handled payload client (Some forwarder) n).1 =
  map_err (λ e, sidecar_error (se_code e) (se_message e)) (client_service_request_to forwarder (raft_service_name u) leader text u).1.
Proof.
  intros Hcar Hc Hcl Hacc (u1 & u2 & u3 & r & Hnow & Hlead & Hpeer & Hme & ->) Henc. erewrite accepted_run by done.
  destruct Hcl as [_ Ha]. unfold handle_root_write, admin_raft, query, mbind, ST_bind, st_lift, ctx_get, id, ask.
  cbn [nd_ctx set_admin_keys ctx_admin_raft]. rewrite Ha. unfold mret, ST_ret. cbn [nd_world]. rewrite Hlead.
  cbn [set_world nd_world]. rewrite Hpeer. cbn [set_world nd_world]. rewrite Hme. unfold envelope, id in Henc.
  rewrite Henc. cbn [map_err set_world nd_world]. unfold st_map_err, call. cbn [set_world nd_world].
  by destruct (client_service_request_to _ _ _ _ _).
Qed.
End edge.

(** ** The two of them *)

Section both.
Context {U : Type} `{UC : Clock U, UR : AdminRaft U, UB : BackendClient U, UT : RaftRuntime U}.
Context {W : Type} `{WC : Clock W, WR : AdminRaft W, WB : BackendClient W, WT : RaftRuntime W}.
Variables (rpc_edge : string → ST (Node U) SidecarError string) (delivery_edge drop_edge join_edge : json → ST (Node U) SidecarError string)
  (member_edge : AdminRequestV2 → VerifiedAdmin → option string → ST (Node U) SidecarError string).
Variables (rpc : string → ST (Node W) SidecarError string) (delivery drop join : json → ST (Node W) SidecarError string)
  (member : AdminRequestV2 → VerifiedAdmin → option string → ST (Node W) SidecarError string).
Abbreviation by_edge := (handle_service_request (W := U) rpc_edge delivery_edge drop_edge join_edge member_edge) (only parsing).
Abbreviation by_leader := (handle_service_request (W := W) rpc delivery drop join member) (only parsing).

(** A reply by way of another node: the text, or the code and the message. *)
Definition passes (r r' : result SidecarError string) : Prop :=
  match r, r' with
  | Ok text, Ok text' => text' = text
  | Err e, Err e' => se_code e' = se_code e ∧ se_message e' = se_message e
  | _, _ => False
  end.

(** C3: it does not matter which member an administrator asks.  Let a sidecar that
    does not lead accept a command signed by a root key, and let the envelope it makes
    of it reach the leader and the leader's reply reach it.  The leader does with the
    envelope, to the last detail of its state and of its answer, what it would have
    done with the request itself: it opens it and verifies the signature again; and the
    administrator hears from the sidecar he asked what the leader would have answered. *)
Theorem forwarding_is_transparent payload req text me leader_id u client forwarder client' forwarder' (edge : Node U) (leader : Node W)
    now_e va_e v_e now_l va_l v_l :
  carries payload req → classify_admin_op (aq_op req) = OpWrite →
  clustered edge → accepts edge req now_e va_e v_e → follows edge now_e forwarder leader_id me u →
  encode_to Json (envelope payload me) = Ok text → encloses text (envelope payload me) →
  clustered leader → accepts leader req now_l va_l v_l → leads_either_way leader now_l →
  passes (by_leader text client' forwarder' leader).1
    (client_service_request_to forwarder (raft_service_name u) leader_id text u).1 →
  by_leader text client' forwarder' leader = by_leader payload None None leader
  ∧ passes (by_leader payload None None leader).1 (by_edge payload client (Some forwarder) edge).1.
Proof.
  intros Hcar Hc Hce Hae Hf Henc Hencl Hcl Hal Hl Hnet.
  assert (by_leader text client' forwarder' leader = by_leader payload None None leader) as Heq.
  { eapply (envelope_opened rpc delivery drop join member text (envelope payload me)); try done. apply b64_round_trip. }
  split; [done|]. rewrite <-Heq. erewrite passed_on by done. revert Hnet. unfold passes.
  by destruct (by_leader text client' forwarder' leader).1, (client_service_request_to _ _ _ _ _).1.
Qed.
End both.
End forward.
