(* ===== verification/CtlNode.v ===== *)
(** * The administration tool in the place of a node

    A sidecar has one port: what connects to it and greets it is a node, which is
    registered with the publisher.  The administration tool connects to the same
    port and answers nothing.  The bytes it sends are read by the connection of
    [src/src/connection.rs], and the publisher of [src/src/publisher.rs] waits for
    it. *)
From S2P Require Import Prelude Text Fsutil Crypto Authority Replay Store StoreMerge Types StateMachine Transport AdminV2.
From S2P Require Import Config Backup Join Seed Protocol Admin Replicate PasswordJoin Context Publisher PublisherProps Service Runtime.
From S2P Require Import Connection ConnectionProps Ctl CtlProps.

(** ** What a connection reads from the tool *)

Section reading.
Context `{CM : Codec Cbor Message, CL : !CodecLaws Cbor Message} (me : Conn).

(** An event reads a frame or leaves the input alone. *)
Lemma step_input e c c' o : conn_step me e c = (c', o) →
  (e = EvRead ∧ read_turn c = (c', o)) ∨ (cn_in c' = cn_in c ∧ ∀ m, ORead m ∉ o).
Proof.
  destruct e; simpl; try (intros [= <- <-]; right; simpl; split; [done|set_solver]); intros Hs.
  - right. injection Hs as <- <-. split; [|intros m; case_match; set_solver].
    unfold call_poll, call_give_up, call_insert, drop_entry. by repeat case_match.
  - right. injection Hs as <- <-. split; [|set_solver]. unfold call_write, write_msg. repeat case_match; by simplify_eq/=.
  - by left.
  - right. unfold request_write, write_msg in Hs. repeat case_match; simplify_eq/=; (split; [done|set_solver]).
  - right. injection Hs as <- <-. split; [unfold main_ready; by repeat case_match|set_solver].
  - right. injection Hs as <- <-. split; [unfold main_register; by repeat case_match|set_solver].
  - right. injection Hs as <- <-. split; [unfold main_finish; by repeat case_match|set_solver].
Qed.

Lemma dispatch_input m c : cn_in (dispatch m c) = cn_in c.
Proof. destruct m; try done. simpl. unfold wake. by case_match. Qed.

(** From the frame of one message only that message is read. *)
Lemma run_reads frame m es c c' tr : encode_frame m = Ok frame → cn_in c = frame ∨ cn_in c = "" →
  conn_run me es c = (c', tr) → ∀ m', ORead m' ∈ tr → m' = m.
Proof.
  intros Hf. revert c tr. induction es as [|e es IH]; intros c tr Hin; cbn [conn_run].
  { intros [= <- <-]. set_solver. }
  destruct (conn_step me e c) as [c1 o1] eqn:Hs, (conn_run me es c1) as [c2 o2] eqn:Hr. intros [= <- <-] m'.
  assert ((cn_in c1 = frame ∨ cn_in c1 = "") ∧ ∀ m', ORead m' ∈ o1 → m' = m) as [Hin1 Ho1].
  { apply step_input in Hs as [[_ Hs]|[-> Ho]]; [|split; [done|]; intros m'' Hm; by destruct (Ho m'')].
    unfold read_turn in Hs. destruct (cn_reading c); [|injection Hs as <- <-; by split; [|set_solver]].
    destruct Hin as [Hin|Hin]; rewrite Hin in Hs.
    - rewrite <-(string_app_nil_r frame), (read_encoded_frame _ _ _ Hf) in Hs. injection Hs as <- <-.
      split; [right; apply dispatch_input|]. intros m'' Hm. apply list_elem_of_singleton in Hm. by injection Hm.
    - simpl in Hs. injection Hs as <- <-. by split; [right|set_solver]. }
  rewrite elem_of_app. intros [?|?]; [by apply Ho1|]. by eapply IH.
Qed.

Lemma answer_read k id tr r : answer k id tr = Some r → ∃ ok value error, ORead (Reply id ok value error) ∈ tr.
Proof.
  unfold answer. destruct (after_call k tr) as [since|] eqn:Ha; [|done]. simpl. intros Hh.
  assert (∃ o, o ∈ since ∧ outcome_for id o = Some r) as (o & Ho & Hr).
  { clear Ha. induction since as [|o since IH]; [done|]. simpl in Hh. destruct (outcome_for id o) eqn:E.
    - injection Hh as <-. exists o. set_solver.
    - destruct IH as (o' & ? & ?); [done|]. exists o'. set_solver. }
  assert (o ∈ tr) as Hin.
  { clear Hh Hr r. revert since Ho Ha. induction tr as [|o' tr IH]; intros since Ho Ha; [done|]. simpl in Ha.
    destruct o'; [case_decide|..]; simplify_eq; set_solver. }
  destruct o as [|m|]; try done. destruct m; try done. simpl in Hr. case_decide; [subst|done]. eauto.
Qed.

(** On a connection that the tool has opened no call of the sidecar succeeds: each
    ends with an error of the write or of the time limit. *)
Lemma silent_calls input hello frame id service payload fault now ctx publisher c0 es c tr k cl r :
  encode_frame (Hello PROTOCOL_VERSION) = Ok hello → encode_frame (Request id service payload) = Ok frame →
  input = hello +:+ frame → open_connection fault input now ctx publisher = Some c0 →
  conn_run me es c0 = (c, tr) → distinct_ids c →
  cn_calls c !! k = Some cl → cl_phase cl = CallDone r → (∃ e, r = Err (io_error e)) ∨ r = Err call_timeout.
Proof.
  intros Hh Hf -> Ho Hr Hd Hk Hp.
  assert (reaches me es tr c) as Hreach by (by exists fault, (hello +:+ frame), now, ctx, publisher, c0).
  destruct (ok_calls _ _ (reaches_ok me _ _ _ Hreach Hd) k cl Hk) as [_ Hex]. rewrite Hp in Hex.
  destruct Hex as [Ha|Hex]; [|done]. apply answer_read in Ha as (ok & value & error & Hin).
  apply open_connection_Some in Ho as (_ & _ & (rest & Hread & Hrest) & _).
  rewrite (read_encoded_frame _ _ _ Hh) in Hread. injection Hread as <-.
  by apply (run_reads frame (Request id service payload) es c0 c tr) in Hin; [done|done|by left|done].
Qed.
End reading.

(** ** What the publisher makes of it *)

Section publishing.
Context `{CR : Crypto, CO : Coset, CI : Codec Cbor IndexDoc, CW : Codec Cbor WhitelistDoc,
  CT : Codec Toml StoreSnapshot}.
Context {W : Type} `{WC : Clock W, WR : AdminRaft W, WB : BackendClient W}.
(** A connection on which no record is ever taken. *)
Context (cl : Conn) (silent : ∀ key value w, ∃ e w', client_add_key cl key (Some value) false w = (Err e, w')).

Definition registered (n : Node W) : Prop := cl ∈ (pb_clients (ctx_publisher (nd_ctx n))).*2.
(** A step that keeps the registered connections, with a property of its results. *)
Definition stays {E A} (P : A → Prop) (m : ST (Node W) E A) : Prop :=
  ∀ n r n', registered n → m n = (r, n') → registered n' ∧ ∀ a, r = Ok a → P a.

Lemma stays_then {E A B} P Q (m : ST (Node W) E A) (f : A → ST (Node W) E B) :
  stays P m → (∀ a, P a → stays Q (f a)) → stays Q (m ≫= f).
Proof.
  intros Hm Hf n r n' Hn [(a & n1 & H1 & H2)|(e & H1 & ->)]%st_bind_run.
  - destruct (Hm _ _ _ Hn H1) as [Hn1 HP]. by apply (Hf a (HP a eq_refl) n1).
  - destruct (Hm _ _ _ Hn H1) as [Hn1 _]. done.
Qed.
Lemma stays_pure {E A} (P : A → Prop) (r : result E A) : (∀ a, r = Ok a → P a) → stays P (st_lift r).
Proof. by intros HP n r' n' Hn [= <- <-]. Qed.
Lemma stays_ret {E A} (P : A → Prop) (a : A) : P a → stays P (mret (M := ST (Node W) E) a).
Proof. by intros HP n r' n' Hn [= <- <-]; split; [|intros ? [= <-]]. Qed.
Lemma stays_err {E A} (P : A → Prop) (e : E) : stays P (st_err e).
Proof. by intros n r' n' Hn [= <- <-]. Qed.
Lemma stays_get {E A} (f : AuthContext → A) : stays (λ _, True) (ctx_get (W := W) (E := E) f).
Proof. by intros n r' n' Hn [= <- <-]. Qed.
Lemma stays_ask {E A} (q : W → A * W) : stays (λ _, True) (ask (E := E) q).
Proof. intros n r n' Hn H. apply ask_ctx in H. unfold registered in *. by rewrite H. Qed.
Lemma stays_note epoch error : stays (λ _, True) (note_failure (W := W) epoch error).
Proof. apply (stays_then (λ _, True)); [apply stays_ask|]. intros now _ n r n' Hn [= <- <-]. done. Qed.
Lemma stays_success epoch : stays (λ _, True) (note_success (W := W) epoch).
Proof. apply (stays_then (λ _, True)); [apply stays_ask|]. intros now _ n r n' Hn [= <- <-]. done. Qed.
Lemma stays_fail {A} (P : A → Prop) epoch message : stays P (fail_with (W := W) epoch message).
Proof. apply (stays_then (λ _, True)); [apply stays_note|]. intros _ _. apply stays_err. Qed.
Lemma stays_recording {A} (P : A → Prop) epoch (m : ST (Node W) PublishError A) : stays P m → stays P (recording epoch m).
Proof.
  intros Hm n r n' Hn. unfold recording. destruct (m n) as [[a|e] n1] eqn:E.
  - intros [= <- <-]. by eapply Hm.
  - destruct (Hm _ _ _ Hn E) as [Hn1 _]. destruct e as [message]. by apply (stays_fail P epoch message n1).
Qed.

(** The silent connection makes every record fail. *)
Lemma silent_add_key key value w : ∃ e w', add_key_with_retry cl key value w = (Err e, w').
Proof.
  unfold add_key_with_retry. generalize (sidecar_error "publish_failed" "no attempt made"). revert w.
  induction PUBLISH_ATTEMPTS as [|k IH]; intros w last; cbn [add_key_attempts]; [eauto|].
  destruct (silent key value w) as (e & w' & ->). apply IH.
Qed.
Lemma silent_publish clients key value err w w' : publish clients key value err w = (Ok (), w') →
  err = None ∧ cl ∉ clients.*2.
Proof.
  revert err w. induction clients as [|[id c] clients IH]; intros err w; cbn [publish].
  { destruct err; [done|]. intros _. split; [done|set_solver]. }
  destruct (add_key_with_retry c key value w) as [[[]|e] w1] eqn:Ha.
  - intros [-> Hc]%IH. split; [done|]. rewrite fmap_cons, not_elem_of_cons. split; [|done]. simpl. intros <-.
    destruct (silent_add_key key value w) as (e & w2 & He). congruence.
  - intros [He _]%IH. by destruct err.
Qed.

Lemma stays_whitelists services : stays (λ _, True) (publish_whitelists (W := W) services).
Proof.
  intros n r n' Hn H. split; [|done]. unfold publish_whitelists in H.
  apply st_bind_run in H as [(c & n0 & [= <- <-] & H)|(e & [=] & _)].
  apply st_lift_run in H as [(a & _ & H)|(e & _ & _ & ->)]; [|done].
  apply st_lift_run in H as [(se & _ & H)|(e & _ & _ & ->)]; [|done].
  assert (∀ r1 n1, call (publish_pending (pb_clients (ctx_publisher (nd_ctx n))) se.1) n = (r1, n1) → registered n1) as Hc.
  { intros r1 n1. unfold call. destruct (publish_pending _ _ _). by intros [= <- <-]. }
  apply st_bind_run in H as [(u & n1 & Hc1%Hc & [= <- <-])|(e & Hc1%Hc & _)]; done.
Qed.
Lemma stays_index version expires_at services : stays (λ _, False) (publish_index (W := W) version expires_at services).
Proof.
  intros n r n' Hn H. unfold publish_index in H.
  apply st_bind_run in H as [(c & n0 & [= <- <-] & H)|(e & [=] & _)].
  apply st_lift_run in H as [(a & _ & H)|(e & _ & -> & ->)]; [|done].
  apply st_lift_run in H as [(bytes & _ & H)|(e & _ & -> & ->)]; [|done].
  unfold call in H. destruct (publish _ (index_key a) bytes None (nd_world n)) as [r1 w1] eqn:Hp. injection H as <- <-.
  split; [done|]. intros [] ->. by apply silent_publish in Hp as [_ Hc].
Qed.

Definition not_published (outcome : PublishOutcome) : Prop := ∀ epoch, outcome ≠ Published epoch.

Lemma stays_renew state now : stays (λ _, True) (renew_index (W := W) state now).
Proof.
  intros n r n' Hn. unfold renew_index, call. destruct (propose _ (nd_world n)) as [[p|e] w].
  - intros Ha. by apply (stays_ask policy_snapshot) in Ha.
  - intros Hf. by apply (stays_fail (λ _, True) (p_policy_epoch state)) in Hf.
Qed.
Lemma stays_store {A} (m : ST (Store * Fs) StoreError A) : stays (λ _, True) (on_store (W := W) m).
Proof. intros n r n' Hn. unfold on_store. destruct (m _) as [r1 [s fs]]. by intros [= <- <-]. Qed.
Lemma stays_map_err {E F A} (P : A → Prop) (f : E → F) (m : ST (Node W) E A) : stays P m → stays P (st_map_err f m).
Proof.
  intros Hm n r n' Hn (r0 & H & ->)%st_map_err_run. destruct (Hm _ _ _ Hn H) as [Hn' HP]. split; [done|].
  intros a Ha%map_err_Ok. auto.
Qed.

Create HintDb staying.
#[local] Hint Resolve stays_get stays_ask stays_note stays_success stays_fail stays_whitelists stays_renew stays_store : staying.
#[local] Hint Extern 3 (stays _ (mret _)) => apply stays_ret; done : staying.
#[local] Hint Extern 3 (stays _ (st_err _)) => apply stays_err : staying.
Ltac staying :=
  repeat first [solve [auto with staying] | case_match
    | apply (stays_then (λ _, False)); [first [apply stays_index | apply stays_recording, stays_index]|intros ? []]
    | apply stays_recording | apply stays_map_err
    | lazymatch goal with |- stays _ (mbind _ _) => apply (stays_then (λ _, True)); [|intros ? _] end
    | progress cbv zeta ].

(** No round reaches a success while the connection is registered. *)
Lemma silent_round renew : stays not_published (publish_once (W := W) renew).
Proof.
  unfold publish_once, publish_once_raft, publish_once_store. staying.
Qed.
End publishing.

(** ** The tool's connection at a sidecar *)

Section together.
Context `{CR : Crypto, CO : Coset, CI : Codec Cbor IndexDoc, CW : Codec Cbor WhitelistDoc, CT : Codec Toml StoreSnapshot}.
Context `{CM : Codec Cbor Message, CL : !CodecLaws Cbor Message, CV : Codec Json json}.
(** The world of the tool and that of the sidecar. *)
Context {V : Type} `{RN : Rng V, NW : Network V}.
Context {W : Type} `{WC : Clock W, WR : AdminRaft W, WB : BackendClient W}.
Context (new_v4 : string → string) (fuel : nat).

(** What a call leaves on the wire. *)
Lemma call_wire server payload limit (c : Ctl V) d w :
  connect_to server limit (ct_world c) = (DialConnected d, w) → greets d limit (new_v4 (random_bytes 16 w).1) payload →
  ∃ hello frame, encode_frame (Hello PROTOCOL_VERSION) = Ok hello
    ∧ encode_frame (Request (new_v4 (random_bytes 16 w).1) "auth" payload) = Ok frame
    ∧ ct_wire (call_server new_v4 fuel server payload limit c).2 = ct_wire c ++ [(server, hello); (server, frame)].
Proof.
  intros Hd (Hf0 & Hf1 & Hh & Hm0 & Hm1).
  destruct (encode_frame (Hello _)) as [hello|] eqn:E0; [|done].
  destruct (encode_frame (Request _ _ _)) as [frame|] eqn:E1; [|done]. exists hello, frame. split_and!; [done..|].
  unfold call_server, mbind, ST_bind. unfold ct_ask at 1. rewrite Hd.
  assert (∀ context k m bytes (c : Ctl V), dl_faults d k = None → encode_frame m = Ok bytes →
    send_frame server context d k m c = (Ok (), MkCtl (ct_fs c) (ct_world c) (ct_wire c ++ [(server, bytes)]) (ct_out c))) as Hsend.
  { intros context k m bytes c' Hf Hm. unfold send_frame, write_frame. by rewrite Hf, Hm. }
  rewrite (Hsend _ _ _ hello) by done. unfold checked, st_lift. rewrite Hh. cbn [map_err].
  rewrite bool_decide_eq_false_2 by (intros Hne; by apply Hne).
  unfold new_uuid, mbind, ST_bind, ct_ask, mret, ST_ret. cbn [ct_world]. destruct (random_bytes 16 w) as [bytes w'].
  rewrite (Hsend _ _ _ frame) by done. cbn [snd ct_wire]. by rewrite <-app_assoc.
Qed.

(** C40: the tool's own connection stands in the way of publishing.  A run greets the
    port of a node, sends its request and answers nothing; at the sidecar, every call
    on a connection with exactly these bytes ends with an error of the write or after
    its time limit, whatever else happens on it; and as long as a connection is
    registered whose calls do not succeed, no publication round ends as published, so
    that a [publish_now] sent by the tool cannot report success. *)
Theorem tool_connection_blocks_publication server payload limit (c : Ctl V) d w :
  connect_to server limit (ct_world c) = (DialConnected d, w) → greets d limit (new_v4 (random_bytes 16 w).1) payload →
  ∃ hello frame,
    ct_wire (call_server new_v4 fuel server payload limit c).2 = ct_wire c ++ [(server, hello); (server, frame)]
    ∧ (∀ me fault now ctx publisher c0 es s tr k cl r,
         open_connection fault (hello +:+ frame) now ctx publisher = Some c0 → conn_run me es c0 = (s, tr) → distinct_ids s →
         cn_calls s !! k = Some cl → cl_phase cl = CallDone r → (∃ e, r = Err (io_error e)) ∨ r = Err call_timeout)
    ∧ (∀ cl renew (n n' : Node W) epoch,
         (∀ key value w, ∃ e w', client_add_key cl key (Some value) false w = (Err e, w')) →
         cl ∈ (pb_clients (ctx_publisher (nd_ctx n))).*2 → publish_once renew n ≠ (Ok (Published epoch), n')).
Proof.
  intros Hd Hg. destruct (call_wire server payload limit c d w Hd Hg) as (hello & frame & Hh & Hf & Hw).
  exists hello, frame. split_and!; [done| |].
  - intros me fault now ctx publisher c0 es s tr k cl r. by eapply silent_calls.
  - intros cl renew n n' epoch Hsilent Hn Hp.
    destruct (silent_round cl Hsilent renew n _ n' Hn Hp) as [_ Hno]. by apply (Hno _ eq_refl epoch).
Qed.
End together.
