(* ===== verification/CtlExamples.v ===== *)
(** * Runs of the administration tool to look at

    A world in which the tool makes a key, sends a command and issues a token; it
    shows that the hypotheses of the theorems about the tool can be met. *)
From S2P Require Import Prelude Text Fsutil Crypto Authority Replay Store Types StateMachine Transport AdminV2.
From S2P Require Import Config Backup BackupProps Join Seed Protocol Admin Replicate PasswordJoin Context Publisher PublisherProps.
From S2P Require Import Sync Service ServiceProps Runtime Connection ConnectionProps Ctl CtlKeys CtlProps EndToEnd Forward CtlNode.

Import Toy.

(** A desk: the seconds, and how many numbers were drawn. *)
Record Desk := MkDesk { dk_time : N; dk_drawn : N }.
#[local] Instance desk_clock : Clock Desk := λ w, (dk_time w, w).
#[local] Instance desk_rng : Rng Desk := λ n w, (pad n (pretty (dk_drawn w)), MkDesk (dk_time w) (dk_drawn w + 1)).
#[local] Instance desk_timer : Timer Desk := {| instant w := ((dk_time w * 1000)%N, w); sleep _ w := w |}.
(** The server greets, sends an answer to another call and then the answer. *)
Definition desk_dial : Dial :=
  MkDial (λ k, match k with
               | 0 => Frame 5 (Ok (Hello PROTOCOL_VERSION))
               | 1 => Frame 9 (Ok (Reply "other" true None None))
               | _ => Frame 9 (Ok (Reply "call" true (Some "status") None))
               end) (λ _, None).
#[local] Instance desk_network : Network Desk := λ _ _ w, (DialConnected desk_dial, w).
Definition desk_uuid : string → string := λ _, "call".

Definition desk_status : json := JObj [("cluster_id", JStr "c"); ("network", JStr "net")].
#[local] Instance desk_json : Codec Json json := {| encode_to _ := Ok "json"; decode_from _ := Ok desk_status |}.
#[local] Instance desk_report : Codec Json BackupReport := {| encode_to _ := Ok "report"; decode_from _ := Err "not read" |}.
#[local] Instance desk_config : Codec Toml ServiceConfig := {| encode_to _ := Ok "config"; decode_from _ := Err "not read" |}.
#[local] Instance desk_request : Codec Json AdminRequestV2 := {| encode_to _ := Ok "request"; decode_from _ := Err "not read" |}.
#[local] Instance desk_request_value : ToValue AdminRequestV2 := λ _, JNull.
#[local] Instance desk_report_value : ToValue BackupReport := λ _, JNull.
#[local] Instance desk_value_report : FromValue BackupReport := λ _, Err "not read".

Definition desk_pretty (v : json) : result string string := Ok "pretty".
Definition desk_order (d : path) (l : list string) : list string := l.
Definition desk_env : Env := λ _, None.
Definition desk_key : string := pad 32 "0".
Definition desk : Ctl Desk :=
  MkCtl (MkFs {[ ["admin.key"] := MkFile desk_key 384 ]} {[ ["/"] ]} 18 []) (MkDesk 1000 0) [] [].
Definition read_line (args : list string) : RawArgs :=
  match parse_raw args with Ok raw => raw | Err _ => RawArgs_default end.

(** ** Keys *)

Definition keygen_line : list string := ["keygen"; "--role=viewer"; "--kid"; "alice"; "--out-dir"; "keys"].

(** ** Commands *)

Definition command_line : list string := ["add-members"; "--service"; "svc"; "--peer=p1"; "--request-id"; "r1"].

Lemma call_ends_when_decided_witness :
  (call_server desk_uuid 2 "host:1" "request" 10 desk).1 = Ok desk_status
  ∧ (call_server desk_uuid 1 "host:1" "request" 10 desk).1 = Err None.
Proof.
  assert (greets desk_dial 10 "call" "request") as Hg by (split_and!; reflexivity).
  split.
  - apply (proj1 (call_ends_when_decided desk_uuid 2 "host:1" "request" 10 desk desk_dial _ eq_refl Hg) 1 (Ok desk_status)).
    + lia.
    + intros i Hi. replace i with 0 by lia. reflexivity.
    + reflexivity.
  - apply (proj2 (call_ends_when_decided desk_uuid 1 "host:1" "request" 10 desk desk_dial _ eq_refl Hg)).
    intros i Hi. replace i with 0 by lia. reflexivity.
Defined.

Definition desk_context : RequestContext := MkRequestContext "host:1" desk_key "root" "r1" 10000 false.
(** The [n]-th request, made at the time [t]. *)
Definition desk_at (t n : N) : Ctl Desk := MkCtl (ct_fs desk) (MkDesk t n) [] [].
Definition desk_build (t n : N) : result (option CtlError) AdminRequestV2 :=
  (build_request desk_context "add_members" "svc" ["p1"] None None (desk_at t n)).1.
Definition desk_verifier : AdminVerifier := MkAdminVerifier {["root" := (ed_public desk_key, Root)]} ReplayGuard_default.
Lemma retried_command_applied_once_witness :
  ∃ req1 req2 va1 v1' va2 v2', desk_build 1000 1 = Ok req1 ∧ desk_build 1005 2 = Ok req2 ∧ aq_nonce req1 ≠ aq_nonce req2
    ∧ admin_verify req1 1010 desk_verifier = (Ok va1, v1')
    ∧ admin_verify req2 1010 desk_verifier = (Ok va2, v2') ∧ va_request_hash va2 = va_request_hash va1.
Proof.
  destruct (desk_build 1000 1) as [req1|] eqn:H1; [|vm_compute in H1; discriminate].
  destruct (desk_build 1005 2) as [req2|] eqn:H2; [|vm_compute in H2; discriminate].
  pose proof H1 as E1. pose proof H2 as E2. vm_compute in E1, E2. injection E1 as E1. injection E2 as E2.
  destruct (policy_command_for req1) as [command|] eqn:Hc; [|rewrite <-E1 in Hc; vm_compute in Hc; discriminate].
  destruct (retried_command_applied_once desk_context "add_members" "svc" ["p1"] None None (desk_at 1000 1) req1
    (build_request desk_context "add_members" "svc" ["p1"] None None (desk_at 1000 1)).2 (desk_at 1005 2) req2
    (build_request desk_context "add_members" "svc" ["p1"] None None (desk_at 1005 2)).2
    desk_verifier desk_verifier Root 1010 1010 "net" [] 1 command (AdminResult "" 0 0 false (OutApplied None None false))
    (PolicyState_new "net")) as (va1 & v1' & va2 & v2' & Hv1 & Hv2 & _ & _ & Hh & _).
  - rewrite <-H1. apply surjective_pairing.
  - rewrite <-H2. apply surjective_pairing.
  - split; [reflexivity|]. split; [reflexivity|]. split; [reflexivity|vm_compute; discriminate].
  - rewrite <-E1. split; [discriminate|vm_compute; discriminate].
  - rewrite <-E2. split; [discriminate|vm_compute; discriminate].
  - rewrite <-E1. split; [reflexivity|]. split; [exact guard_ok_default|vm_compute; intros Hin; inversion Hin].
  - rewrite <-E2. split; [reflexivity|]. split; [exact guard_ok_default|vm_compute; intros Hin; inversion Hin].
  - rewrite <-E1. split; vm_compute; discriminate.
  - rewrite <-E2. split; vm_compute; discriminate.
  - rewrite <-E1. vm_compute. reflexivity.
  - exact Hc.
  - intros ic Hin. inversion Hin.
  - reflexivity.
  - exists req1, req2, va1, v1', va2, v2'. split; [reflexivity|]. split; [reflexivity|].
    split; [rewrite <-E1, <-E2; vm_compute; discriminate|]. split; [exact Hv1|]. split; [exact Hv2|exact Hh].
Defined.

(** ** A command and the leader *)

#[local] Existing Instances solo_clock solo_raft solo_client solo_runtime toy_coset.
#[local] Existing Instance no_codec | 100.
(** The text of a request is its operation; the request is the one that was made. *)
Definition op_text : Codec Json AdminRequestV2 := {| encode_to req := Ok (aq_op req); decode_from _ := Err "not read" |}.
(** The server sends an answer to another call and then [r]. *)
Definition answering (r : Outcome) : Network Desk := λ _ _ w,
  (DialConnected (MkDial (λ k, match k with
     | 0 => Frame 5 (Ok (Hello PROTOCOL_VERSION))
     | 1 => Frame 9 (Ok (Reply "other" true None None))
     | _ => Frame 9 (Ok (request_reply "call" r))
     end) (λ _, None)), w).
(** A leader that has the service and knows the administrator. *)
Definition leader_policy : PolicyState := (apply_command_at (CreateService "svc" ["p0"]) 1 (PolicyState_new "net")).2.
Definition leader_node : Node Solo :=
  MkNode (set_admin_keys (nd_ctx solo_node) desk_verifier) (nd_fs solo_node) (MkSolo [] leader_policy 1010).
Definition leader_run (req : AdminRequestV2) : Outcome * Node Solo :=
  handle_service_request (FM := λ _, Err "") (FA := parse_as req) (FR := λ _, Err "") (FS := λ _, Err "") (FJ := λ _, Err "")
    (TP := no_response) (JV := op_codec) stuck stuck stuck stuck stuck3 (aq_op req) None None leader_node.

(** ** A command by way of another member *)

(** A node that does not lead, and whose node brings an envelope to [leader_node]. *)
Definition edge_raft : AdminRaft Solo := {|
  is_leader w := (false, w);
  raft_term w := (1%N, w);
  leader_peer w := (Some "leader", w);
  policy_snapshot w := (so_policy w, w);
  raft_applied_index w := (None, w);
  raft_stale w := (false, w);
  raft_service_name w := "auth";
  propose c w := (Err "not the leader", w);
|}.
Definition bringing (answer : string → Outcome) : BackendClient Solo := {|
  client_add_key _ k _ _ w := (Ok (MkAddKeyResult true k), w);
  client_discover_providers _ _ w := (Ok [], w);
  client_whoami _ w := (Ok "edge", w);
  client_query_key _ _ w := (Err (sidecar_error "timeout" "no answer"), w);
  client_service_request_to_with_timeout _ _ _ payload _ w := (answer payload, w);
|}.
(** The text of an envelope is its operation, too. *)
Definition envelope_text (payload : string) : Codec Json ForwardedAdminEnvelope := {|
  encode_to e := Ok (fw_op e); decode_from _ := Ok (Forward.envelope payload "edge") |}.
Definition at_leader (req : AdminRequestV2) (text : string) : Outcome * Node Solo :=
  handle_service_request (FM := λ _, Err "") (FA := parse_as req) (FR := λ _, Err "") (FS := λ _, Err "") (FJ := λ _, Err "")
    (TP := no_response) (JV := op_codec) (JE := envelope_text (aq_op req)) stuck stuck stuck stuck stuck3 text None None leader_node.
Definition at_edge (req : AdminRequestV2) (text : string) : Outcome * Node Solo :=
  handle_service_request (FM := λ _, Err "") (FA := parse_as req) (FR := λ _, Err "") (FS := λ _, Err "") (FJ := λ _, Err "")
    (TP := no_response) (JV := op_codec) (JE := envelope_text (aq_op req)) (WR := edge_raft)
    (WB := bringing (λ text, (at_leader req text).1)) stuck stuck stuck stuck stuck3 text None (Some 7%N) leader_node.
Lemma forwarding_is_transparent_witness :
  ∃ req, desk_build 1000 1 = Ok req ∧ so_cmds (nd_world (at_leader req (aq_op req)).2) ≠ []
    ∧ at_leader req FORWARDED_ADMIN_OP = at_leader req (aq_op req)
    ∧ passes (at_leader req (aq_op req)).1 (at_edge req (aq_op req)).1.
Proof.
  destruct (desk_build 1000 1) as [req|] eqn:H1; [|vm_compute in H1; discriminate]. exists req. split; [reflexivity|].
  pose proof H1 as E1. vm_compute in E1. injection E1 as E1.
  split; [rewrite <-E1; vm_compute; discriminate|].
  destruct (admin_verify req 1010 desk_verifier) as [[va|e] v'] eqn:Hv; [|rewrite <-E1 in Hv; vm_compute in Hv; discriminate].
  assert (va_role va = Root) as Hr by (rewrite <-E1 in Hv; vm_compute in Hv; injection Hv as <- _; reflexivity).
  apply (forwarding_is_transparent (FM := λ _, Err "") (FA := parse_as req) (FR := λ _, Err "") (FS := λ _, Err "") (FJ := λ _, Err "")
    (TP := no_response) (JV := op_codec) (JE := envelope_text (aq_op req)) (UR := edge_raft)
    (UB := bringing (λ text, (at_leader req text).1)) stuck stuck stuck stuck stuck3 stuck stuck stuck stuck stuck3
    (aq_op req) req FORWARDED_ADMIN_OP "edge" "leader" (nd_world leader_node) None 7%N None None leader_node leader_node
    1010 va v' 1010 va v').
  - exists (JObj [("op", JStr (aq_op req))]). split_and!; reflexivity.
  - rewrite <-E1. vm_compute. reflexivity.
  - split; reflexivity.
  - split; [exact Hv|exact Hr].
  - do 4 eexists. split_and!; reflexivity.
  - reflexivity.
  - split; [reflexivity|]. exists (JObj [("op", JStr FORWARDED_ADMIN_OP)]). split; reflexivity.
  - split; reflexivity.
  - split; [exact Hv|exact Hr].
  - do 3 eexists. split_and!; reflexivity.
  - unfold passes. change (client_service_request_to _ _ _ _ _).1 with (at_leader req FORWARDED_ADMIN_OP).1.
    fold (at_leader req FORWARDED_ADMIN_OP). destruct (at_leader req FORWARDED_ADMIN_OP).1; [reflexivity|split; reflexivity].
Defined.

(** ** Tokens *)

Lemma issued_token_is_valid_witness :
  ∃ value c', issue_join_token desk_uuid desk_uuid 3 (read_line ["issue-join-token"; "--jti"; "t1"]) desk_context desk = (Ok value, c')
    ∧ length (ct_wire c') = 4 ∧ ∃ network, says desk_status "network" network.
Proof.
  destruct (issue_join_token desk_uuid desk_uuid 3 (read_line ["issue-join-token"; "--jti"; "t1"]) desk_context desk)
    as [[value|e] c'] eqn:Hi; [|vm_compute in Hi; discriminate].
  exists value, c'. split; [reflexivity|].
  destruct (issued_token_is_valid desk_uuid desk_uuid 3 (read_line ["issue-join-token"; "--jti"; "t1"]) desk_context desk
    (Ok value) c' eq_refl Hi) as [[e He]|_]; [discriminate|].
  split; [vm_compute in Hi; injection Hi as _ <-; reflexivity|]. exists "net". split; [reflexivity|discriminate].
Defined.

(** ** The tool at the port of a node *)

Definition deaf_client : BackendClient Sim := {|
  client_add_key _ _ _ _ w := (Err call_timeout, w);
  client_discover_providers _ _ w := (Ok [], w);
  client_whoami _ w := (Ok "me", w);
  client_query_key _ _ w := (Err call_timeout, w);
  client_service_request_to_with_timeout _ _ _ _ _ w := (Err call_timeout, w);
|}.
Lemma tool_connection_blocks_publication_witness :
  greets desk_dial 10 "call" "request"
  ∧ ∀ epoch n', publish_once (WC := sim_clock) (WR := sim_raft) (WB := deaf_client) (CO := toy_coset) true (ex_node false [])
      ≠ (Ok (Published epoch), n').
Proof.
  assert (greets desk_dial 10 "call" "request") as Hg by (split_and!; reflexivity).
  split; [exact Hg|]. intros epoch n'.
  destruct (tool_connection_blocks_publication (WC := sim_clock) (WR := sim_raft) (WB := deaf_client) (CO := toy_coset)
    desk_uuid 2 "host:1" "request" 10 desk desk_dial _ eq_refl Hg) as (hello & frame & _ & _ & Hno).
  apply (Hno 7%N).
  - intros key value w. exists call_timeout, w. reflexivity.
  - vm_compute. constructor.
Defined.
