(* ===== verification/Trail.v ===== *)
(** * The audit trail of administrator requests: [src/src/service.rs]

    The handlers of [Service] with the audit lines they write.  A handler that logs
    also has the trail as its state; everything else is the handler of [Service],
    run [unlogged]. *)
From S2P Require Import Prelude Text Fsutil Crypto Authority Replay Store Types StateMachine Transport AdminV2 Config Log.
From S2P Require Import Join Seed Protocol Admin Replicate PasswordJoin Context Publisher Sync Service.

Record AdminAudit := MkAdminAudit {
  au_kid : string; au_request_id : string; au_op : string; au_service : string; au_result : string;
  au_policy_epoch : option N; au_raft_index : option N; au_leader : option string; au_edge_peer : option string
}.
Definition audit_line (a : AdminAudit) : string :=
  let epoch := match au_policy_epoch a with Some v => pretty v | None => "-" end in
  let index := match au_raft_index a with Some v => pretty v | None => "-" end in
  "event=admin_op mode=raft kid=" +:+ au_kid a +:+ " request_id=" +:+ au_request_id a +:+ " op=" +:+ au_op a
    +:+ " service=" +:+ au_service a +:+ " result=" +:+ au_result a +:+ " epoch=" +:+ epoch +:+ " policy_epoch=" +:+ epoch
    +:+ " raft_index=" +:+ index +:+ " leader=" +:+ default "-" (au_leader a) +:+ " edge_peer=" +:+ default "-" (au_edge_peer a).
(** The entry the log gets. *)
Definition audit_entry (x : LogLevel * AdminAudit) : LogStruct := MkLogStruct x.1 "admin_op" (audit_line x.2).

Abbreviation Trail := (list (LogLevel * AdminAudit)) (only parsing).

(** The line of a request that has not been executed. *)
Definition refused_line (req : AdminRequestV2) (result : string) (edge_peer : option string) : AdminAudit :=
  MkAdminAudit (aq_kid req) (aq_request_id req) (aq_op req) (aq_service req) result None None None edge_peer.

Section audit.
Context `{CR : Crypto, CO : Coset, CI : Codec Cbor IndexDoc, CW : Codec Cbor WhitelistDoc,
  CT : Codec Toml StoreSnapshot, CS : Codec Cbor StoreSnapshot, CM : Codec Json MacInput,
  CAS : Codec Cbor AdminSigned, CAI : Codec Cbor AdminIdentity, CTS : Codec Cbor JoinTokenSigned,
  CJS : Codec Cbor JoinSigned}.
Context `{JV : Codec Json json, JE : Codec Json ForwardedAdminEnvelope, JJ : Codec Json RaftJoinRequest,
  JR : Codec Json RaftJoinResponse}.
Context `{FM : FromValue ManagementRequest, FA : FromValue AdminRequestV2, FR : FromValue ReplicateMsg,
  FS : FromValue SyncRequest, FJ : FromValue RaftJoinRequest, TP : ToValue SyncResponse}.
Context {W : Type} `{WC : Clock W, WR : AdminRaft W, WB : BackendClient W, WT : RaftRuntime W}.

Abbreviation logging A := (ST (Node W * Trail) SidecarError A) (only parsing).
Abbreviation lhandler := (ST (Node W * Trail) SidecarError string) (only parsing).

Definition unlogged {A} (m : ST (Node W) SidecarError A) : logging A := λ s,
  let '(r, n) := m s.1 in (r, (n, s.2)).
Definition audit_admin (level : LogLevel) (a : AdminAudit) : logging unit := λ s, (Ok (), (s.1, s.2 ++ [(level, a)])).

(** The member operations write lines of their own. *)
Variable execute_member_write : AdminRequestV2 → VerifiedAdmin → option string → lhandler.

Section execution.
Context (req : AdminRequestV2) (edge_peer : option string).

(** The line of a request the leader has worked on. *)
Definition worked_line (result : string) (policy_epoch raft_index : option N) (leader : option string) : AdminAudit :=
  MkAdminAudit (aq_kid req) (aq_request_id req) (aq_op req) (aq_service req) result policy_epoch raft_index leader edge_peer.

(** The round may fail and go on: its result is looked at. *)
Definition round_outcome (renew : bool) : logging (result PublishError PublishOutcome) := λ s,
  let '(r, n) := publish_now renew s.1 in (Ok r, (n, s.2)).

Definition logged_publish_now (leader : option string) : lhandler :=
  outcome ← round_outcome true;
  state ← unlogged (ask policy_snapshot);
  applied ← unlogged (ask raft_applied_index);
  let line result := worked_line result (Some (p_policy_epoch state)) applied leader in
  match outcome with
  | Ok NotLeader => st_err (sidecar_error "not_leader" "本节点已不是 leader，放弃 publish_now")
  | Ok outcome =>
      audit_admin Preset (line "ok") ;;
      mret (encode (JObj [("published", JBool match outcome with Published _ => true | _ => false end);
                          ("policy_epoch", JNum (p_policy_epoch state)); ("raft_index", jopt JNum applied);
                          ("request_id", JStr (aq_request_id req))]))
  | Err e =>
      audit_admin Warning (line "publish_failed") ;;
      st_err (publish_error "publish_failed" e (p_policy_epoch state))
  end.

Definition logged_admin_reply (leader : option string) (proposal : AdminProposal) : lhandler :=
  match ap_result proposal with
  | AdminResult request_id policy_epoch raft_index duplicate outcome =>
      let effective_index := if duplicate : bool then raft_index else ap_raft_index proposal in
      let line result := worked_line result (Some policy_epoch) (Some effective_index) leader in
      match outcome with
      | OutApplied service version changed =>
          published ← (if changed : bool then round_outcome false else mret (Ok NoConnections));
          match published with
          | Ok NotLeader =>
              audit_admin Warning (line "publish_not_leader") ;;
              st_err (with_publish_error (sidecar_error "committed_but_publish_failed" "状态已提交，但发布前已失去 leadership")
                        "not_leader")
          | Ok _ =>
              audit_admin Preset (line "ok") ;;
              mret (encode (JObj [("request_id", JStr request_id); ("service", jopt JStr service);
                                  ("version", jopt JNum version); ("changed", JBool changed);
                                  ("policy_epoch", JNum policy_epoch); ("raft_index", JNum effective_index);
                                  ("duplicate", JBool duplicate)]))
          | Err e =>
              audit_admin Warning (line "committed_but_publish_failed") ;;
              st_err (publish_error "committed_but_publish_failed" e policy_epoch)
          end
      | OutRejected code message => audit_admin Warning (line "rejected") ;; st_err (sidecar_error code message)
      end
  | _ => st_err (sidecar_error "raft_unexpected_result" "非管理员 apply 结果")
  end.

Definition logged_root_write (verified : VerifiedAdmin) : lhandler :=
  leader ← unlogged (ask leader_peer);
  if is_member_management_op (aq_op req) then execute_member_write req verified edge_peer
  else if bool_decide (aq_op req = "publish_now") then logged_publish_now leader
  else
    command ← st_lift (policy_command_for req);
    proposal ← unlogged (st_map_err map_admin_apply_error
      (call (propose (Types.Admin (aq_request_id req) (aq_kid req) (va_request_hash verified) (aq_ts req) command))));
    logged_admin_reply leader proposal.
End execution.

Definition logged_handle_root_write (raw : string) (req : AdminRequestV2) (verified : VerifiedAdmin)
    (forwarder : option Conn) (edge_peer : option string) : lhandler :=
  unlogged admin_raft ;;
  leading ← unlogged (ask is_leader);
  if leading : bool then logged_root_write req edge_peer verified
  else
    leader ← unlogged (ask leader_peer);
    match leader, forwarder with
    | None, _ =>
        audit_admin Warning (refused_line req "no_leader" edge_peer) ;;
        st_err (sidecar_error "no_leader" "当前没有已知的 Raft leader")
    | Some _, None => st_err (sidecar_error "not_leader" "本节点不是 leader 且没有可用的转发连接")
    | Some leader, Some forwarder =>
        me ← unlogged (ask (client_whoami forwarder));
        let me := default "" (result_ok me) in
        let envelope := MkForwardedAdminEnvelope FORWARDED_ADMIN_OP FORWARDED_ADMIN_VERSION (b64_encode raw) me "" in
        payload ← st_lift (map_err (λ e, sidecar_error "bad_request" ("转发信封编码失败: " +:+ e)) (encode_to Json envelope));
        service ← unlogged (query raft_service_name);
        audit_admin Preset (worked_line req (Some me) "forwarded" None None (Some leader)) ;;
        unlogged (st_map_err (λ e, sidecar_error (se_code e) (se_message e))
          (call (client_service_request_to forwarder service leader payload)))
    end.

(** What the leader refuses of a forwarded request leaves no line. *)
Definition logged_forwarded_admin (raw : string) : lhandler :=
  e ← st_lift (map_err (λ e, sidecar_error "bad_request" ("转发信封解析失败: " +:+ e))
                 (decode_from Json (A := ForwardedAdminEnvelope) raw));
  if bool_decide (fw_op e ≠ FORWARDED_ADMIN_OP) || negb (fw_v e =? FORWARDED_ADMIN_VERSION)%N
  then st_err (sidecar_error "bad_request" "非法的 forwarded_admin 信封")
  else
    unlogged admin_raft ;;
    leading ← unlogged (ask is_leader);
    if negb leading then st_err (sidecar_error "not_leader" "forwarded_admin 只能由 leader 处理")
    else
      bytes ← st_lift (ok_or (b64_decode (fw_request_b64 e)) (sidecar_error "bad_request" "request_b64 不是合法 base64"));
      value ← st_lift (map_err (λ e, sidecar_error "bad_request" ("原始请求解析失败: " +:+ e))
                         (decode_from Json (A := json) bytes));
      req ← st_lift (map_err (λ e, sidecar_error "bad_request" ("管理员请求解析失败: " +:+ e))
                       (from_value (A := AdminRequestV2) value));
      now ← unlogged (ask now_unix);
      verified ← unlogged (st_map_err admin_v2_error (on_admin_keys (admin_verify req now)));
      if bool_decide (va_role verified ≠ Root) then st_err forbidden_role
      else if bool_decide (classify_admin_op (aq_op req) ≠ OpWrite)
      then st_err (sidecar_error "bad_request" "forwarded_admin 只接受写操作")
      else logged_root_write req (Some (fw_edge_peer e)) verified.

(** A list of the members of the cluster is answered before the line is written. *)
Definition silent_read (req : AdminRequestV2) : bool :=
  bool_decide (aq_op req = "list_members") && str_is_empty (aq_service req).
Definition logged_admin_read (req : AdminRequestV2) : lhandler :=
  unlogged admin_raft ;;
  state ← unlogged (ask policy_snapshot);
  applied ← unlogged (ask raft_applied_index);
  leader ← unlogged (ask leader_peer);
  term ← unlogged (ask raft_term);
  stale ← unlogged (ask raft_stale);
  reply ← unlogged (admin_read_reply req state applied leader term stale);
  (if silent_read req then mret ()
   else audit_admin Preset (worked_line req None "ok" (Some (p_policy_epoch state)) applied leader)) ;;
  mret reply.

Definition logged_admin_v2 (raw : string) (value : json) (forwarder : option Conn) : lhandler :=
  let op := default "" (obj_get "op" value ≫= as_str) in
  if bool_decide (op = FORWARDED_ADMIN_OP) then logged_forwarded_admin raw
  else
    req ← st_lift (map_err (λ e, sidecar_error "bad_request" ("管理员请求解析失败: " +:+ e))
                     (from_value (A := AdminRequestV2) value));
    now ← unlogged (ask now_unix);
    checked ← (λ s, let '(r, n) := on_admin_keys (admin_verify req now) s.1 in (Ok r, (n, s.2)));
    match checked with
    | Err e => audit_admin Warning (refused_line req (admin_v2_code e) None) ;; st_err (admin_v2_error e)
    | Ok verified =>
        match classify_admin_op (aq_op req) with
        | OpRead => logged_admin_read req
        | OpWrite =>
            if bool_decide (va_role verified ≠ Root)
            then audit_admin Warning (refused_line req "forbidden_role" None) ;; st_err forbidden_role
            else logged_handle_root_write raw req verified forwarder None
        | OpUnknown =>
            audit_admin Warning (refused_line req "unknown_op" None) ;;
            st_err (sidecar_error "unknown_op" ("未知指令: " +:+ aq_op req))
        end
    end.

(** The admission of a learner: its line names the token. *)
Definition logged_leader_join (req : RaftJoinRequest) : lhandler :=
  response ← unlogged (admit_learner req);
  applied ← unlogged (ask raft_applied_index);
  leader ← unlogged (ask leader_peer);
  audit_admin Preset (MkAdminAudit (jt_kid (rj_token req)) (jt_jti (rj_token req)) "raft_join" (jr_peer_id response.1) "ok"
    (Some response.2) applied leader (Some (rj_edge_peer req))) ;;
  unlogged (join_reply response.1).
End audit.
