(* ===== verification/TrailProps.v ===== *)
(** * What the audit trail says

    Logging changes no request; every request of an administrator that was answered
    or refused leaves one line of its own, which says what the answer says; and a line
    can be forged by anyone who may send a request. *)
From S2P Require Import Prelude Text Fsutil Crypto Authority Replay Store Types StateMachine Transport AdminV2 Config Log.
From S2P Require Import Join Seed Protocol Admin Replicate PasswordJoin Context Publisher Sync Service ServiceProps Trail.

Section audit_props.
Context `{CR : Crypto, CO : Coset, CI : Codec Cbor IndexDoc, CW : Codec Cbor WhitelistDoc,
  CT : Codec Toml StoreSnapshot, CS : Codec Cbor StoreSnapshot, CM : Codec Json MacInput,
  CAS : Codec Cbor AdminSigned, CAI : Codec Cbor AdminIdentity, CTS : Codec Cbor JoinTokenSigned,
  CJS : Codec Cbor JoinSigned}.
Context `{JV : Codec Json json, JE : Codec Json ForwardedAdminEnvelope, JJ : Codec Json RaftJoinRequest,
  JR : Codec Json RaftJoinResponse}.
Context `{FM : FromValue ManagementRequest, FA : FromValue AdminRequestV2, FR : FromValue ReplicateMsg,
  FS : FromValue SyncRequest, FJ : FromValue RaftJoinRequest, TP : ToValue SyncResponse}.
Context {W : Type} `{WC : Clock W, WR : AdminRaft W, WB : BackendClient W, WT : RaftRuntime W}.

Abbreviation logging A := (ST (Node W * Trail) SidecarError A) (only parsing).
Abbreviation plain A := (ST (Node W) SidecarError A) (only parsing).

(** ** A handler and the same handler with its lines *)

(** They give the same result and node; of the result and the new lines, [Q] holds. *)
Definition logs {A} (l : logging A) (m : plain A) (Q : result SidecarError A → Trail → Prop) : Prop := ∀ n tr,
  ∃ r n' new, l (n, tr) = (r, (n', tr ++ new)) ∧ m n = (r, n') ∧ Q r new.

Lemma logs_mono {A} (l : logging A) m (Q Q' : result SidecarError A → Trail → Prop) :
  logs l m Q → (∀ r new, Q r new → Q' r new) → logs l m Q'.
Proof. intros Hl HQ n tr. destruct (Hl n tr) as (r & n' & new & H1 & H2 & ?). exists r, n', new. auto. Qed.
Lemma logs_unlogged {A} (m : plain A) (Q : result SidecarError A → Trail → Prop) :
  (∀ r, Q r []) → logs (unlogged m) m Q.
Proof.
  intros HQ n tr. unfold unlogged. cbn. destruct (m n) as [r n']. exists r, n', []. rewrite app_nil_r. auto.
Qed.
Lemma logs_lift {A} (r : result SidecarError A) (Q : result SidecarError A → Trail → Prop) : Q r [] → logs (st_lift r) (st_lift r) Q.
Proof. intros HQ n tr. exists r, n, []. by rewrite app_nil_r. Qed.
Lemma logs_err {A} e (Q : result SidecarError A → Trail → Prop) : Q (Err e) [] → logs (st_err e) (st_err e) Q.
Proof. apply (logs_lift (Err e)). Qed.
Lemma logs_ret {A} (a : A) (Q : result SidecarError A → Trail → Prop) : Q (Ok a) [] → logs (mret a) (mret a) Q.
Proof. apply (logs_lift (Ok a)). Qed.
(** A first part that writes nothing. *)
Lemma logs_then {A B} (l : logging A) m (f : A → logging B) g (Q : result SidecarError B → Trail → Prop) :
  logs l m (λ _ new, new = []) → (∀ a, logs (f a) (g a) Q) → (∀ e, Q (Err e) []) → logs (l ≫= f) (m ≫= g) Q.
Proof.
  intros Hl Hf He n tr. destruct (Hl n tr) as (r & n1 & new & H1 & H2 & ->). rewrite app_nil_r in H1.
  unfold mbind, ST_bind. rewrite H1, H2. destruct r as [a|e]; [apply Hf|].
  exists (Err e), n1, []. rewrite app_nil_r. auto.
Qed.
Lemma logs_quietly {A B} (m : plain A) (f : A → logging B) g (Q : result SidecarError B → Trail → Prop) :
  (∀ a, logs (f a) (g a) Q) → (∀ e, Q (Err e) []) → logs (unlogged m ≫= f) (m ≫= g) Q.
Proof. intros Hf He. by apply logs_then; [apply logs_unlogged| |]. Qed.
Lemma logs_lifted {A B} (r : result SidecarError A) (f : A → logging B) g (Q : result SidecarError B → Trail → Prop) :
  (∀ a, r = Ok a → logs (f a) (g a) Q) → (∀ e, Q (Err e) []) → logs (st_lift r ≫= f) (st_lift r ≫= g) Q.
Proof.
  intros Hf He n tr. unfold mbind, ST_bind, st_lift. destruct r as [a|e]; [by apply Hf|].
  exists (Err e), n, []. rewrite app_nil_r. auto.
Qed.
(** A line, and a rest that writes none. *)
Lemma logs_audit {A} level line (l : logging A) m (Q : result SidecarError A → Trail → Prop) :
  logs l m (λ r new, new = [] ∧ Q r [(level, line)]) → logs (audit_admin level line ;; l) m Q.
Proof.
  intros Hl n tr. destruct (Hl n (tr ++ [(level, line)])) as (r & n' & new & H1 & H2 & -> & HQ).
  exists r, n', [(level, line)]. split; [|done]. unfold audit_admin, mbind, ST_bind. cbn. by rewrite H1, app_nil_r.
Qed.

(** ** What a line says *)

Definition names (req : AdminRequestV2) (a : AdminAudit) : Prop :=
  au_kid a = aq_kid req ∧ au_request_id a = aq_request_id req ∧ au_op a = aq_op req ∧ au_service a = aq_service req.
(** One line, which says [ok] when the request has been executed, [forwarded] when it
    has been passed on, and warns otherwise; or none, after an error or for the list
    of the members of the cluster. *)
Definition accounted (req : AdminRequestV2) (r : result SidecarError string) (new : Trail) : Prop :=
  match new with
  | [] => is_ok r = true → silent_read req = true
  | [(level, a)] =>
      names req a
      ∧ (au_result a = "forwarded" ∧ level = Preset ∧ is_Some (au_leader a)
         ∨ au_result a ≠ "forwarded" ∧ (is_ok r = true ↔ au_result a = "ok") ∧ level = if is_ok r then Preset else Warning)
  | _ => False
  end.

Lemma accounted_err req e : accounted req (Err e) [].
Proof. done. Qed.
Lemma accounted_refused req e result edge : result ≠ "forwarded" → result ≠ "ok" →
  accounted req (Err e) [(Warning, refused_line req result edge)].
Proof. intros H1 H2. split; [done|]. right. by split_and!. Qed.
Lemma accounted_worked req e result edge epoch index leader : result ≠ "forwarded" → result ≠ "ok" →
  accounted req (Err e) [(Warning, worked_line req edge result epoch index leader)].
Proof. intros H1 H2. split; [done|]. right. by split_and!. Qed.
Lemma accounted_ok req reply edge epoch index leader :
  accounted req (Ok reply) [(Preset, worked_line req edge "ok" epoch index leader)].
Proof. split; [done|]. right. by split_and!. Qed.

(** ** The handlers *)

Context (member_write_logged : AdminRequestV2 → VerifiedAdmin → option string → logging string)
  (member_write : AdminRequestV2 → VerifiedAdmin → option string → plain string).

Ltac refused := (apply logs_audit, logs_err; split; [done|]; by (apply accounted_worked || apply accounted_refused)).
Ltac answered := (apply logs_audit, logs_ret; split; [done|apply accounted_ok]).

(** The round a handler has made, and what it goes on with. *)
Lemma outcome_logs {A} renew (f : result PublishError PublishOutcome → logging A) (g : result PublishError PublishOutcome → plain A) Q :
  (∀ r, logs (f r) (g r) Q) → logs (round_outcome renew ≫= f) (λ n, let '(r, n) := publish_now renew n in g r n) Q.
Proof. intros Hf n tr. unfold round_outcome, mbind, ST_bind. cbn. destruct (publish_now renew n) as [r n1]. apply Hf. Qed.

Lemma publish_now_logs req edge leader :
  logs (logged_publish_now req edge leader) (execute_publish_now req) (accounted req).
Proof.
  intros n tr.
  assert (execute_publish_now req n =
    (let '(r, n1) := publish_now true n in
     (state ← ask policy_snapshot; applied ← ask raft_applied_index;
      match r with
      | Ok NotLeader => st_err (sidecar_error "not_leader" "本节点已不是 leader，放弃 publish_now")
      | Ok outcome =>
          mret (encode (JObj [("published", JBool match outcome with Published _ => true | _ => false end);
                              ("policy_epoch", JNum (p_policy_epoch state)); ("raft_index", jopt JNum applied);
                              ("request_id", JStr (aq_request_id req))]))
      | Err e => st_err (publish_error "publish_failed" e (p_policy_epoch state))
      end) n1)) as ->.
  { unfold execute_publish_now, ask, mbind, ST_bind. destruct (publish_now true n) as [r n1].
    destruct (policy_snapshot (nd_world n1)) as [state w1]. cbn. destruct (raft_applied_index w1) as [applied w2]. by destruct r as [[]|]. }
  revert n tr. apply outcome_logs. intros r. apply logs_quietly; [intros state|done]. apply logs_quietly; [intros applied|done].
  destruct r as [[]|e]; [answered|answered|by apply logs_err|refused].
Qed.
Lemma admin_reply_logs req edge leader p : logs (logged_admin_reply req edge leader p) (admin_reply p) (accounted req).
Proof.
  unfold logged_admin_reply, admin_reply. destruct (ap_result p) as [| |rid epoch ri dup [s v changed|c m]]; [by apply logs_err..| |refused].
  destruct changed.
  - apply outcome_logs. intros [[]|e]; [answered|answered|refused|refused].
  - change (mret (Ok NoConnections) ≫= ?f) with (f (Ok NoConnections)). answered.
Qed.

Lemma root_write_logs req edge va : classify_admin_op (aq_op req) = OpWrite →
  logs (logged_root_write member_write_logged req edge va) (execute_root_write member_write req va edge) (accounted req).
Proof.
  intros Hw. unfold logged_root_write, execute_root_write. rewrite (write_op_not_member _ Hw).
  apply logs_quietly; [intros leader|done]. case_match; [apply publish_now_logs|].
  apply logs_lifted; [intros command _|done]. apply logs_quietly; [intros p|done]. apply admin_reply_logs.
Qed.
Lemma handle_root_write_logs raw req va forwarder : classify_admin_op (aq_op req) = OpWrite →
  logs (logged_handle_root_write member_write_logged raw req va forwarder None)
    (handle_root_write member_write raw req va forwarder None) (accounted req).
Proof.
  intros Hw. unfold logged_handle_root_write, handle_root_write. apply logs_quietly; [intros []|done].
  apply logs_quietly; [intros leading|done]. destruct leading; [by apply root_write_logs|].
  apply logs_quietly; [intros leader|done]. destruct leader as [leader|]; [|refused].
  destruct forwarder as [forwarder|]; [|by apply logs_err].
  apply logs_quietly; [intros me|done]. apply logs_lifted; [intros payload _|done]. apply logs_quietly; [intros service|done].
  apply logs_audit, logs_unlogged. intros r. split; [done|]. split; [done|]. left. by split_and!.
Qed.

(** The request that is worked on: the one received, or the one in an envelope. *)
Definition the_request (raw : string) (value : json) : option AdminRequestV2 :=
  if bool_decide (default "" (obj_get "op" value ≫= as_str) = FORWARDED_ADMIN_OP) then
    e ← result_ok (decode_from Json (A := ForwardedAdminEnvelope) raw);
    bytes ← b64_decode (fw_request_b64 e);
    value ← result_ok (decode_from Json (A := json) bytes);
    result_ok (from_value (A := AdminRequestV2) value)
  else result_ok (from_value (A := AdminRequestV2) value).
(** Without a request there is an error and no line. *)
Definition well_accounted (req : option AdminRequestV2) (r : result SidecarError string) (new : Trail) : Prop :=
  match req with Some req => accounted req r new | None => is_ok r = false ∧ new = [] end.
Lemma well_accounted_err req e : well_accounted req (Err e) [].
Proof. by destruct req. Qed.

Lemma forwarded_logs raw value : default "" (obj_get "op" value ≫= as_str) = FORWARDED_ADMIN_OP →
  logs (logged_forwarded_admin member_write_logged raw) (handle_forwarded_admin member_write raw)
    (well_accounted (the_request raw value)).
Proof.
  intros Hop. unfold logged_forwarded_admin, handle_forwarded_admin, the_request. rewrite bool_decide_eq_true_2 by done.
  apply logs_lifted; [intros e He%map_err_Ok|intros; apply well_accounted_err]. rewrite He. cbn [result_ok mbind option_bind].
  case_match; [apply logs_err, well_accounted_err|]. apply logs_quietly; [intros []|intros; apply well_accounted_err].
  apply logs_quietly; [intros leading|intros; apply well_accounted_err]. case_match; [apply logs_err, well_accounted_err|].
  apply logs_lifted; [intros bytes Hb|intros; apply well_accounted_err].
  destruct (b64_decode _) as [bytes'|]; [|done]. injection Hb as ->. cbn [mbind option_bind].
  apply logs_lifted; [intros v Hv%map_err_Ok|intros; apply well_accounted_err]. rewrite Hv. cbn [result_ok mbind option_bind].
  apply logs_lifted; [intros req Hr%map_err_Ok|intros; apply well_accounted_err]. rewrite Hr. cbn [result_ok well_accounted].
  apply logs_quietly; [intros now|done]. apply logs_quietly; [intros va|done].
  case_match; [by apply logs_err|]. case_match; [by apply logs_err|]. apply root_write_logs. by bool_tests.
Qed.

(** A reply after which there may be a line. *)
Lemma logs_after {A} (m : plain A) (f : A → logging A) (Q : result SidecarError A → Trail → Prop) :
  (∀ a, logs (f a) (mret a) Q) → (∀ e, Q (Err e) []) → logs (unlogged m ≫= f) m Q.
Proof.
  intros Hf He n tr. unfold unlogged, mbind, ST_bind. cbn. destruct (m n) as [[a|e] n1].
  - destruct (Hf a n1 tr) as (r & n2 & new & H1 & [= <- <-] & HQ). exists (Ok a), n1, new. auto.
  - exists (Err e), n1, []. rewrite app_nil_r. auto.
Qed.
Lemma admin_read_logs req : logs (logged_admin_read req) (handle_admin_read req) (accounted req).
Proof.
  unfold logged_admin_read, handle_admin_read. apply logs_quietly; [intros []|done].
  apply logs_quietly; [intros state|done]. apply logs_quietly; [intros applied|done]. apply logs_quietly; [intros leader|done].
  apply logs_quietly; [intros term|done]. apply logs_quietly; [intros stale|done]. apply logs_after; [intros reply|done].
  destruct (silent_read req) eqn:Hs; [|answered].
  refine (logs_ret reply _ _). intros _. exact Hs.
Qed.
(** A check of which the error is looked at. *)
Lemma logs_checked {E A B} (m : ST (Node W) E A) h (f : result E A → logging B) g Q :
  (∀ a, logs (f (Ok a)) (g a) Q) → (∀ e, logs (f (Err e)) (st_err (h e)) Q) →
  logs ((λ s, let '(r, n) := m s.1 in (Ok r, (n, s.2))) ≫= f) (st_map_err h m ≫= g) Q.
Proof.
  intros Ha He n tr. unfold st_map_err, mbind, ST_bind. cbn. destruct (m n) as [[a|e] n1]; [apply Ha|apply He].
Qed.
Lemma admin_v2_logs raw value forwarder :
  logs (logged_admin_v2 member_write_logged raw value forwarder) (handle_admin_v2 member_write raw value forwarder)
    (well_accounted (the_request raw value)).
Proof.
  unfold logged_admin_v2, handle_admin_v2. case_match; [by apply forwarded_logs; bool_tests|].
  unfold the_request. rewrite H. apply logs_lifted; [intros req Hr%map_err_Ok|intros; apply well_accounted_err]. rewrite Hr. cbn [result_ok well_accounted].
  apply logs_quietly; [intros now|done]. apply logs_checked.
  - intros va. destruct (classify_admin_op (aq_op req)) eqn:Hc; [apply admin_read_logs| |refused].
    case_match; [refused|]. by apply handle_root_write_logs.
  - intros e. apply logs_audit, logs_err. split; [done|]. by apply accounted_refused; destruct e.
Qed.

(** C8: the trail tells what was answered, and logging changes nothing.  With its
    lines the handler of an administrator's request does and answers what it does
    without them.  A request that could be read leaves one line at most, which names
    its key, its request id, its operation and its service; the line says [ok]
    exactly when the request has been executed, [forwarded] when it has been passed
    on to the leader it names, and is a warning otherwise.  A request that leaves no
    line has been answered with an error, or was the list of the members of the
    cluster. *)
Theorem requests_are_accounted raw value forwarder (n : Node W) tr :
  ∃ r n' new,
    logged_admin_v2 member_write_logged raw value forwarder (n, tr) = (r, (n', tr ++ new))
    ∧ handle_admin_v2 member_write raw value forwarder n = (r, n')
    ∧ well_accounted (the_request raw value) r new.
Proof. apply admin_v2_logs. Qed.

(** C39: a line of the trail proves nothing.  The fields of a line are not quoted, and
    a refused request is logged with the fields it came with: whoever may send a
    request, with no key at all, can leave a line that begins with any line he likes,
    such as that of a command an administrator is said to have executed. *)
Theorem audit_line_forged raw value forwarder (n : Node W) tr req (a : AdminAudit) claim e v :
  audit_line a = "event=admin_op mode=raft kid=" +:+ claim →
  default "" (obj_get "op" value ≫= as_str) ≠ FORWARDED_ADMIN_OP → from_value value = Ok req → aq_kid req = claim →
  admin_verify req (now_unix (nd_world n)).1 (ctx_admin_keys (nd_ctx n)) = (Err e, v) →
  ∃ n' line rest,
    logged_admin_v2 member_write_logged raw value forwarder (n, tr) = (Err (admin_v2_error e), (n', tr ++ [(Warning, line)]))
    ∧ audit_line line = audit_line a +:+ rest.
Proof.
  intros Ha Hop Hreq Hkid Hv. unfold logged_admin_v2. rewrite bool_decide_eq_false_2 by done.
  unfold unlogged, ask, st_lift, on_admin_keys, mbind, ST_bind. rewrite Hreq. cbn.
  destruct (now_unix (nd_world n)) as [now w]. cbn in *. rewrite Hv. cbn. eexists _, _, _. split; [reflexivity|].
  rewrite Ha, string_app_assoc. unfold audit_line. cbn [au_kid refused_line]. by rewrite Hkid.
Qed.
End audit_props.

(** ** Examples *)

Section audit_examples.
Import Toy.
#[local] Existing Instances toy_coset solo_clock solo_raft solo_client solo_runtime no_codec op_codec.

Definition member_write_none (req : AdminRequestV2) (va : VerifiedAdmin) (edge : option string)
    : ST (Node Solo * list (LogLevel * AdminAudit)) SidecarError string := st_err (sidecar_error "unused" "").
Definition logged_as (req : AdminRequestV2) : result SidecarError string * (Node Solo * list (LogLevel * AdminAudit)) :=
  logged_admin_v2 (FA := parse_as req) member_write_none "" (JObj [("op", JStr (aq_op req))]) None (solo_node, []).

(** A command of alice, executed. *)
Example executed_line :
  render_journald <$> (audit_entry <$> (logged_as (admin_request "create_service")).2.2) =
  ["<6>[-] admin_op: event=admin_op mode=raft kid=alice request_id=r1 op=create_service service=svc result=ok epoch=2 policy_epoch=2 raft_index=1 leader=me edge_peer=-"].
Proof. vm_compute. reflexivity. Qed.

(** And one she is said to have given, by somebody without a key. *)
Definition ex_claim : string :=
  "alice request_id=r2 op=delete_service service=svc result=ok epoch=7 policy_epoch=7 raft_index=12 leader=me edge_peer=-".
Definition ex_forgery : AdminRequestV2 := MkAdminRequestV2 2 "status" "" [] ex_claim "r3" "n2" 1000 "" None None.
Example forged_line :
  render_journald <$> (audit_entry <$> (logged_as ex_forgery).2.2) =
  ["<4>[*] admin_op: event=admin_op mode=raft kid=alice request_id=r2 op=delete_service service=svc result=ok epoch=7 policy_epoch=7 raft_index=12 leader=me edge_peer=- request_id=r3 op=status service= result=unknown_admin_key epoch=- policy_epoch=- raft_index=- leader=- edge_peer=-"].
Proof. vm_compute. reflexivity. Qed.
Lemma audit_line_forged_witness :
  let a := MkAdminAudit "alice" "r2" "delete_service" "svc" "ok" (Some 7%N) (Some 12%N) (Some "me") None in
  ∃ n' line rest,
    logged_as ex_forgery = (Err (admin_v2_error AvUnknownKey), (n', [(Warning, line)]))
    ∧ audit_line line = audit_line a +:+ rest.
Proof.
  intros a.
  apply (audit_line_forged (FA := parse_as ex_forgery) member_write_none "" (JObj [("op", JStr "status")]) None solo_node []
           ex_forgery a ex_claim AvUnknownKey ex_admin_verifier).
  - vm_compute. reflexivity.
  - vm_compute. discriminate.
  - reflexivity.
  - reflexivity.
  - vm_compute. reflexivity.
Defined.
End audit_examples.
